(** * Serket layers: a shallow embedding and its verified properties

    The layers of [serket] (linear and multilinear layers, normalisation
    layers, reshape / crop / pad layers, dropout and the [tree_eval]
    dispatcher) are Python callables over JAX arrays.  This development
    embeds them as Rocq functions:

    - a JAX array is a shape together with its row-major data
      ([ndarray]);
    - a Python call that may raise returns a [result];
    - the host primitives the layers call ([jnp.reshape],
      [jax.lax.collapse], [jax.lax.dynamic_slice], [jnp.pad], [jax.vmap],
      [jnp.mean], [jnp.einsum], ...) are modelled after their documented
      behaviour in the modules [Lax] and [Jnp];
    - scalar arithmetic is kept abstract (class [Scalar]): no algebraic
      law is assumed of it, so every statement also holds of rounded
      arithmetic that evaluates the same expressions.

    Part I holds the definitions, Part II the lemmas and theorems. *)

From Stdlib Require Import String Ascii List ZArith Lia Bool Arith
  Permutation.
From Stdlib Require QArith Qreduction Qround.
Import ListNotations.

Set Implicit Arguments.
Set Warnings "-register-all,-notation-for-abbreviation".

(* ===================================================================== *)
(** * Part I - definitions                                                *)
(* ===================================================================== *)

(** ** Python results *)

Inductive exn : Type :=
| ValueError
| TypeError
| IndexError
| AttributeError
| ZeroDivisionError
| AssertionError
| InconclusiveDimensionOperation.

Inductive result (A : Type) : Type :=
| Ok (a : A)
| Raise (e : exn).

Arguments Ok {A} a.
Arguments Raise {A} e.

Definition bind {A B : Type} (c : result A) (k : A -> result B) : result B :=
  match c with
  | Ok a => k a
  | Raise e => Raise e
  end.

Notation "x <- c ;; k" := (bind c (fun x => k))
  (at level 61, c at next level, right associativity).

(** A fallible function applied to every element, in order. *)
Definition mapM {A B : Type} (f : A -> result B) : list A -> result (list B) :=
  fix go (l : list A) : result (list B) :=
    match l with
    | [] => Ok []
    | a :: l' => b <- f a ;; l'' <- go l' ;; Ok (b :: l'')
    end.

Definition returns {A : Type} (c : result A) : Prop := exists a, c = Ok a.

(** [a % b] on Python integers: the sign follows the divisor. *)
Definition py_mod (a b : Z) : result Z :=
  if (b =? 0)%Z then Raise ZeroDivisionError else Ok (a mod b)%Z.

(** ** Python sequences: indexing and slicing with negative positions *)

(** [l[i]]: a negative [i] counts from the end; [None] stands for
    [IndexError]. *)
Definition py_index (n : nat) (i : Z) : option nat :=
  let j := if (i <? 0)%Z then (i + Z.of_nat n)%Z else i in
  if ((0 <=? j) && (j <? Z.of_nat n))%Z then Some (Z.to_nat j) else None.

(** [l[i]] *)
Definition get_item {A : Type} (l : list A) (i : Z) : result A :=
  match py_index (length l) i with
  | Some k =>
      match nth_error l k with
      | Some v => Ok v
      | None => Raise IndexError
      end
  | None => Raise IndexError
  end.

(** [l[i] = v] *)
Definition set_item {A : Type} (l : list A) (i : Z) (v : A) : result (list A) :=
  match py_index (length l) i with
  | Some k => Ok (firstn k l ++ v :: skipn (S k) l)
  | None => Raise IndexError
  end.

(** [del l[i]] *)
Definition del_item {A : Type} (l : list A) (i : Z) : result (list A) :=
  match py_index (length l) i with
  | Some k => Ok (firstn k l ++ skipn (S k) l)
  | None => Raise IndexError
  end.

(** A slice bound as [slice(..).indices(n)] clamps it. *)
Definition slice_bound (n : nat) (b : Z) : nat :=
  if (b <? 0)%Z then Z.to_nat (Z.max (b + Z.of_nat n) 0)
  else Z.to_nat (Z.min b (Z.of_nat n)).

(** [l[lo:hi]] *)
Definition py_slice {A : Type} (l : list A) (lo hi : Z) : list A :=
  let a := slice_bound (length l) lo in
  let b := slice_bound (length l) hi in
  firstn (b - a) (skipn a l).

(** [l[:hi]] *)
Definition py_slice_to {A : Type} (l : list A) (hi : Z) : list A :=
  firstn (slice_bound (length l) hi) l.

(** [l[lo:]] *)
Definition py_slice_from {A : Type} (l : list A) (lo : Z) : list A :=
  skipn (slice_bound (length l) lo) l.

Fixpoint zip_with {A B C : Type} (f : A -> B -> C) (l : list A) (m : list B)
  : list C :=
  match l, m with
  | a :: l', b :: m' => f a b :: zip_with f l' m'
  | _, _ => []
  end.

(** ** Arrays *)

(** [math.prod] of a shape. *)
Definition prod (s : list nat) : nat := fold_right Nat.mul 1 s.

(** Row-major position of a multi-index. *)
Fixpoint ravel (s idx : list nat) : nat :=
  match s, idx with
  | _ :: s', i :: idx' => i * prod s' + ravel s' idx'
  | _, _ => 0
  end.

(** All the multi-indices of a shape, in row-major order. *)
Fixpoint all_indices (s : list nat) : list (list nat) :=
  match s with
  | [] => [[]]
  | d :: s' => flat_map (fun i => map (cons i) (all_indices s')) (seq 0 d)
  end.

(** Equality of shapes. *)
Fixpoint shape_eqb (s t : list nat) : bool :=
  match s, t with
  | [], [] => true
  | d :: s', e :: t' => (d =? e) && shape_eqb s' t'
  | _, _ => false
  end.

(** [idx] addresses an element of an array of shape [s]. *)
Definition in_bounds (idx s : list nat) : Prop := Forall2 lt idx s.

Record ndarray (F : Type) : Type := mk_ndarray {
  shape : list nat;
  data : list F
}.

Arguments mk_ndarray {F} shape data.

Section Arrays.
Context {F : Type}.

Definition ndim (a : ndarray F) : nat := length (shape a).

Definition well_formed (a : ndarray F) : Prop :=
  length (data a) = prod (shape a).

(** [a[idx]]; [d0] is what an index out of the data reads. *)
Definition get (d0 : F) (a : ndarray F) (idx : list nat) : F :=
  nth (ravel (shape a) idx) (data a) d0.

(** The array of shape [s] whose element at [idx] is [f idx]. *)
Definition tabulate (s : list nat) (f : list nat -> F) : ndarray F :=
  mk_ndarray s (map f (all_indices s)).

(** [jnp.full(s, v)] *)
Definition full (s : list nat) (v : F) : ndarray F :=
  mk_ndarray s (repeat v (prod s)).

(** [f] applied to every element. *)
Definition amap (d0 : F) (f : F -> F) (a : ndarray F) : ndarray F :=
  tabulate (shape a) (fun idx => f (get d0 a idx)).

(** [x[i]] along the leading axis. *)
Definition slice0 (d0 : F) (x : ndarray F) (i : nat) : ndarray F :=
  tabulate (tl (shape x)) (fun idx => get d0 x (i :: idx)).
End Arrays.

(** ** Scalars *)

(** The arithmetic of array elements.  Only the operations are named; no
    law is assumed of them. *)
Class Scalar (F : Type) : Type := {
  f0 : F;
  f1 : F;
  fadd : F -> F -> F;
  fsub : F -> F -> F;
  fmul : F -> F -> F;
  fdiv : F -> F -> F;
  fsqrt : F -> F;
  frsqrt : F -> F;
  of_nat : nat -> F;
  feqb : F -> F -> bool;
  fltb : F -> F -> bool;
  to_int : F -> Z
}.

(** ** Einsum subscripts *)

(** One operand of an einsum string: ["...ab"] or ["ab"]. *)
Record subscript : Type := mk_subscript {
  has_ellipsis : bool;
  labels : list ascii
}.

Definition is_letter (c : ascii) : bool :=
  let n := nat_of_ascii c in
  ((65 <=? n) && (n <=? 90)) || ((97 <=? n) && (n <=? 122)).

(** The pieces of a sequence between occurrences of [sep]. *)
Fixpoint split_on (sep : ascii) (l : list ascii) : list (list ascii) :=
  match l with
  | [] => [[]]
  | c :: l' =>
      if Ascii.eqb c sep then [] :: split_on sep l'
      else
        match split_on sep l' with
        | piece :: pieces => (c :: piece) :: pieces
        | [] => [[c]]
        end
  end.

(** What stands left and right of the first ["->"]. *)
Fixpoint split_arrow (l : list ascii) : option (list ascii * list ascii) :=
  match l with
  | [] => None
  | c :: l' =>
      match l' with
      | c' :: l'' =>
          if Ascii.eqb c "-" && Ascii.eqb c' ">" then Some ([], l'')
          else
            match split_arrow l' with
            | Some (lhs, rhs) => Some (c :: lhs, rhs)
            | None => None
            end
      | [] => None
      end
  end.

Definition parse_operand (l : list ascii) : option subscript :=
  match l with
  | "."%char :: "."%char :: "."%char :: rest =>
      if forallb is_letter rest then Some (mk_subscript true rest) else None
  | _ =>
      if forallb is_letter l then Some (mk_subscript false l) else None
  end.

Fixpoint parse_operands (pieces : list (list ascii)) : option (list subscript) :=
  match pieces with
  | [] => Some []
  | piece :: pieces' =>
      match parse_operand piece, parse_operands pieces' with
      | Some sub, Some subs => Some (sub :: subs)
      | _, _ => None
      end
  end.

Definition parse_einsum (s : string) : option (list subscript * subscript) :=
  match split_arrow (list_ascii_of_string s) with
  | Some (lhs, rhs) =>
      match parse_operands (split_on ","%char lhs), parse_operand rhs with
      | Some ins, Some out => Some (ins, out)
      | _, _ => None
      end
  | None => None
  end.

(** Association lists keyed by labels. *)
Fixpoint lookup {A : Type} (l : ascii) (env : list (ascii * A)) : option A :=
  match env with
  | [] => None
  | (l', v) :: env' => if Ascii.eqb l l' then Some v else lookup l env'
  end.

Definition lookup_default (l : ascii) (env : list (ascii * nat)) : nat :=
  match lookup l env with
  | Some v => v
  | None => 0
  end.

(** The labels of [l] that are not in [seen], each once, in the order of
    their first occurrence. *)
Fixpoint uniq (seen l : list ascii) : list ascii :=
  match l with
  | [] => []
  | c :: l' =>
      if existsb (Ascii.eqb c) seen then uniq seen l'
      else c :: uniq (c :: seen) l'
  end.

(** ** Host primitives: [jax.lax] and [jax] *)

(** [math.prod] of a sequence of integers. *)
Definition prod_int (s : list Z) : Z := fold_right Z.mul 1%Z s.

(** [jax.core.divide_shape_sizes(s1, s2)]: the integer [i] such that
    [i * size(s2) == size(s1)]; [divmod] raises [ZeroDivisionError] for a
    size [0], and a remainder raises [InconclusiveDimensionOperation]. *)
Definition divide_shape_sizes (s1 : list nat) (s2 : list Z) : result Z :=
  let sz1 := Z.of_nat (prod s1) in
  let sz2 := prod_int s2 in
  if (sz1 =? sz2)%Z then Ok 1%Z
  else if (sz2 =? 0)%Z then Raise ZeroDivisionError
  else
    let q := (sz1 / sz2)%Z in
    let r := (sz1 mod sz2)%Z in
    if negb (r =? 0)%Z then Raise InconclusiveDimensionOperation
    else Ok q.

(** [_compute_newshape(a, newshape)] of [jax.numpy]: fixes a [-1] value
    in [newshape], if present. *)
Definition _compute_newshape (s : list nat) (newshape : list Z)
  : result (list Z) :=
  mapM (fun d =>
          if (d =? -1)%Z
          then q <- divide_shape_sizes s newshape ;; Ok (- q)%Z
          else Ok d)
       newshape.

(** The shape rule of [jax.lax.reshape]: the new sizes are not negative
    and the total size is unchanged. *)
Definition reshape_shape_rule (s : list nat) (new_sizes : list Z)
  : result (list nat) :=
  if negb (forallb (fun d => (0 <=? d)%Z) new_sizes) then Raise TypeError
  else if negb (prod (map Z.to_nat new_sizes) =? prod s) then Raise TypeError
  else Ok (map Z.to_nat new_sizes).

Module Jnp.
Section Jnp.
Context {F : Type}.

(** [jnp.reshape(a, newshape)]: the row-major data is kept. *)
Definition reshape (a : ndarray F) (newshape : list Z) : result (ndarray F) :=
  new_sizes <- _compute_newshape (shape a) newshape ;;
  s <- reshape_shape_rule (shape a) new_sizes ;;
  Ok (mk_ndarray s (data a)).

(** [jnp.squeeze(a)]: every axis of length one is dropped. *)
Definition squeeze (a : ndarray F) : ndarray F :=
  mk_ndarray (filter (fun d => negb (d =? 1)) (shape a)) (data a).

(** How [jnp.pad] reads a [pad_width] made of [(before, after)] pairs for
    an array of [nd] axes: one pair per axis, or one pair for all. *)
Definition broadcast_to_pairs (nd : nat) (pad_width : list (Z * Z))
  : result (list (Z * Z)) :=
  if length pad_width =? nd then Ok pad_width
  else if length pad_width =? 1 then Ok (repeat (hd (0, 0)%Z pad_width) nd)
  else Raise ValueError.

(** [idx], an index of the padded array, falls on an element of the
    original array of shape [s] placed [lefts] away from the origin. *)
Definition interior (lefts s idx : list nat) : bool :=
  forallb (fun '(i, (l, d)) => (l <=? i) && (i <? l + d))
          (combine idx (combine lefts s)).

Definition nonneg_pairs (pw : list (Z * Z)) : bool :=
  forallb (fun '(l, r) => (0 <=? l)%Z && (0 <=? r)%Z) pw.

Definition padded_shape (s : list nat) (pw : list (Z * Z)) : list nat :=
  zip_with (fun d '(l, r) => Z.to_nat l + d + Z.to_nat r) s pw.

(** [jnp.pad(array, pad_width, constant_values=v)], mode ["constant"]. *)
Definition pad (d0 : F) (array : ndarray F) (pad_width : list (Z * Z))
    (constant_values : F) : result (ndarray F) :=
  pw <- broadcast_to_pairs (ndim array) pad_width ;;
  if negb (nonneg_pairs pw) then Raise ValueError
  else
    let lefts := map (fun p => Z.to_nat (fst p)) pw in
    Ok (tabulate (padded_shape (shape array) pw)
          (fun idx =>
             if interior lefts (shape array) idx
             then get d0 array (zip_with Nat.sub idx lefts)
             else constant_values)).
End Jnp.

Section JnpNumeric.
Context {F : Type} `{Scalar F}.

(** The sum of a sequence, from the left. *)
Definition sum (l : list F) : F := fold_left fadd l f0.

(** Which of the [n] axes a reduction over [axes] removes. *)
Definition reduce_mask (n : nat) (axes : list nat) : list bool :=
  map (fun k => existsb (Nat.eqb k) axes) (seq 0 n).

(** The shape a reduction leaves with [keepdims=True]. *)
Definition kept_shape (mask : list bool) (s : list nat) : list nat :=
  zip_with (fun (r : bool) d => if r then 1 else d) mask s.

(** The shape of what is reduced for one element of the result. *)
Definition reduced_shape (mask : list bool) (s : list nat) : list nat :=
  zip_with (fun (r : bool) d => if r then d else 1) mask s.

(** [jnp.mean(x, axis=axes, keepdims=True)]: the sum over the reduced
    axes divided by the number of elements summed. *)
Definition mean_keepdims (x : ndarray F) (axes : list nat) : ndarray F :=
  let mask := reduce_mask (ndim x) axes in
  let rs := reduced_shape mask (shape x) in
  tabulate (kept_shape mask (shape x))
    (fun idx =>
       fdiv (sum (map (fun j => get f0 x (zip_with Nat.add idx j))
                      (all_indices rs)))
            (of_nat (prod rs))).

(** Broadcasting of two shapes, read from the last axis. *)
Fixpoint broadcast_rev (s1 s2 : list nat) : option (list nat) :=
  match s1, s2 with
  | [], _ => Some s2
  | _, [] => Some s1
  | d1 :: r1, d2 :: r2 =>
      match broadcast_rev r1 r2 with
      | None => None
      | Some r =>
          if d1 =? d2 then Some (d1 :: r)
          else if d1 =? 1 then Some (d2 :: r)
          else if d2 =? 1 then Some (d1 :: r)
          else None
      end
  end.

Definition broadcast_shapes (s1 s2 : list nat) : option (list nat) :=
  option_map (@rev nat) (broadcast_rev (rev s1) (rev s2)).

(** The element of an operand of shape [s] that the element [idx] of the
    broadcast result reads. *)
Definition bcast_index (s idx : list nat) : list nat :=
  zip_with (fun d i => if d =? 1 then 0 else i) s
           (skipn (length idx - length s) idx).

(** An elementwise binary operation on two arrays, with broadcasting. *)
Definition binop (f : F -> F -> F) (a b : ndarray F) : result (ndarray F) :=
  match broadcast_shapes (shape a) (shape b) with
  | None => Raise ValueError
  | Some s =>
      Ok (tabulate s (fun idx => f (get f0 a (bcast_index (shape a) idx))
                                   (get f0 b (bcast_index (shape b) idx))))
  end.

Definition add := binop fadd.
Definition sub := binop fsub.
Definition mul := binop fmul.
Definition div := binop fdiv.

(** An array and a Python scalar. *)
Definition add_scalar (a : ndarray F) (v : F) : ndarray F :=
  amap f0 (fun u => fadd u v) a.
Definition scalar_mul (v : F) (a : ndarray F) : ndarray F :=
  amap f0 (fun u => fmul v u) a.

Definition square (a : ndarray F) : ndarray F := amap f0 (fun u => fmul u u) a.
Definition sqrt (a : ndarray F) : ndarray F := amap f0 fsqrt a.

(** [jnp.where(mask, a, v)] for a Python scalar [v]. *)
Definition where_ (mask : ndarray bool) (a : ndarray F) (v : F)
  : result (ndarray F) :=
  match broadcast_shapes (shape mask) (shape a) with
  | None => Raise ValueError
  | Some s =>
      Ok (tabulate s
            (fun idx =>
               if get false mask (bcast_index (shape mask) idx)
               then get f0 a (bcast_index (shape a) idx)
               else v))
  end.

(** *** [jnp.einsum], explicit mode, subscripts with a leading ellipsis *)

(** The product of a sequence, from the left. *)
Definition product (l : list F) : F :=
  match l with
  | [] => f1
  | v :: l' => fold_left fmul l' v
  end.

(** An operand's shape split into what the ellipsis covers and the
    dimensions of its labels. *)
Definition split_operand (sub : subscript) (x : ndarray F)
  : result (list nat * list nat) :=
  let n := length (labels sub) in
  if has_ellipsis sub then
    if n <=? ndim x
    then Ok (firstn (ndim x - n) (shape x), skipn (ndim x - n) (shape x))
    else Raise ValueError
  else if n =? ndim x then Ok ([], shape x)
  else Raise ValueError.

(** The size of every label; a label met twice must have one size. *)
Fixpoint bind_sizes (env : list (ascii * nat)) (pairs : list (ascii * nat))
  : result (list (ascii * nat)) :=
  match pairs with
  | [] => Ok env
  | (l, d) :: rest =>
      match lookup l env with
      | Some d' => if d =? d' then bind_sizes env rest else Raise ValueError
      | None => bind_sizes (env ++ [(l, d)]) rest
      end
  end.

Definition broadcast_all (shapes : list (list nat)) : option (list nat) :=
  fold_left (fun acc s => match acc with
                          | Some a => broadcast_shapes a s
                          | None => None
                          end) shapes (Some []).

Definition lookup_size (env : list (ascii * nat)) (l : ascii) : result nat :=
  match lookup l env with
  | Some d => Ok d
  | None => Raise ValueError
  end.

Definition einsum_eval (ins : list subscript) (out : subscript)
    (operands : list (ndarray F)) : result (ndarray F) :=
  if negb (length ins =? length operands) then Raise ValueError
  else if negb (has_ellipsis out) && existsb has_ellipsis ins
  then Raise ValueError
  else
    parts <- mapM (fun '(sub, x) => split_operand sub x)
                  (combine ins operands) ;;
    sizes <- bind_sizes []
               (concat (map (fun '(sub, part) => combine (labels sub) (snd part))
                            (combine ins parts))) ;;
    batch <- match broadcast_all (map fst parts) with
             | Some batch => Ok batch
             | None => Raise ValueError
             end ;;
    out_sizes <- mapM (lookup_size sizes) (labels out) ;;
    let contracted := uniq (labels out) (concat (map labels ins)) in
    let csizes := map (fun l => lookup_default l sizes) contracted in
    Ok (tabulate (batch ++ out_sizes)
          (fun idx =>
             let b := firstn (length batch) idx in
             let o := skipn (length batch) idx in
             sum (map (fun cvals =>
                         let env := combine (labels out) o
                                    ++ combine contracted cvals in
                         product
                           (map (fun '(sub, (x, part)) =>
                                   get f0 x
                                     (bcast_index (fst part) b
                                      ++ map (fun l => lookup_default l env)
                                             (labels sub)))
                                (combine ins (combine operands parts))))
                      (all_indices csizes)))).

(** [jnp.einsum(subscripts, *operands)] *)
Definition einsum (subscripts : string) (operands : list (ndarray F))
  : result (ndarray F) :=
  match parse_einsum subscripts with
  | Some (ins, out) => einsum_eval ins out operands
  | None => Raise ValueError
  end.

(** [jnp.zeros(s)] and [jnp.ones(s)] *)
Definition zeros (s : list nat) : ndarray F := full s f0.
Definition ones (s : list nat) : ndarray F := full s f1.
End JnpNumeric.
End Jnp.

Module Lax.
Section Lax.
Context {F : Type}.

(** [jax.lax.collapse(operand, start_dimension, stop_dimension)] *)
Definition collapse (operand : ndarray F) (start_dimension stop_dimension : Z)
  : result (ndarray F) :=
  let n := length (shape operand) in
  let lo := slice_bound n start_dimension in
  let hi := slice_bound n stop_dimension in
  if hi <? lo + 2 then Ok operand
  else
    let size := prod (firstn (hi - lo) (skipn lo (shape operand))) in
    let new_shape :=
      firstn lo (shape operand) ++ [size] ++ skipn hi (shape operand) in
    Jnp.reshape operand (map Z.of_nat new_shape).

(** Where a slice of length [sz] really starts on an axis of length
    [d]: a negative start counts from the end, and the start is moved
    so the slice fits. *)
Definition clamp_start (d : nat) (sz start : Z) : Z :=
  let start := if (start <? 0)%Z then (start + Z.of_nat d)%Z else start in
  Z.max 0 (Z.min start (Z.of_nat d - sz)).

(** [jax.lax.dynamic_slice(operand, start_indices, slice_sizes)] *)
Definition dynamic_slice (d0 : F) (operand : ndarray F)
    (start_indices slice_sizes : list Z) : result (ndarray F) :=
  if negb (length start_indices =? ndim operand) then Raise TypeError
  else if negb (length slice_sizes =? ndim operand) then Raise TypeError
  else if negb (forallb (fun '(d, sz) => (0 <=? sz)%Z && (sz <=? Z.of_nat d)%Z)
                        (combine (shape operand) slice_sizes))
  then Raise TypeError
  else
    let offsets :=
      map (fun '(d, (sz, st)) => Z.to_nat (clamp_start d sz st))
          (combine (shape operand) (combine slice_sizes start_indices)) in
    Ok (tabulate (map Z.to_nat slice_sizes)
                 (fun idx => get d0 operand (zip_with Nat.add offsets idx))).
End Lax.

(** [jax.lax.rsqrt] *)
Definition rsqrt {F : Type} `{Scalar F} (a : ndarray F) : ndarray F :=
  amap f0 frsqrt a.

(** [jax.lax.stop_gradient] is the identity on values. *)
Definition stop_gradient {A : Type} (a : A) : A := a.

(** [jax.lax.cond(pred, true_fun, false_fun, operand)]: both branches are
    traced, their results must have the same type (here: the same
    shapes, checked by [same_type]), and the result is that of the branch
    [pred] selects. *)
Definition cond {A B : Type} (same_type : B -> B -> bool) (pred : bool)
    (true_fun false_fun : A -> result B) (operand : A) : result B :=
  t <- true_fun operand ;;
  f <- false_fun operand ;;
  if same_type t f then Ok (if pred then t else f) else Raise TypeError.
End Lax.

Module Jax.
Section Jax.
Context {F : Type}.

(** [jax.vmap(f)(x)]: [f] is mapped over the leading axis of [x].  The
    function is traced once on the shape of one example, which decides
    whether the call raises and what shape the results have; element
    [i] of the result is [f(x[i])]. *)
Definition vmap (d0 : F) (f : ndarray F -> result (ndarray F))
    (x : ndarray F) : result (ndarray F) :=
  match shape x with
  | [] => Raise ValueError
  | c :: _ =>
      proto <- f (slice0 d0 x 0) ;;
      Ok (tabulate (c :: shape proto)
            (fun idx =>
               match idx with
               | i :: idx' =>
                   match f (slice0 d0 x i) with
                   | Ok y => get d0 y idx'
                   | Raise _ => d0
                   end
               | [] => d0
               end))
  end.
End Jax.
End Jax.

(** ** [serket._src.nn.reshape]: flatten and unflatten *)

Section Flatten.
Context {F : Type}.

Definition flatten (array : ndarray F) (start_dim end_dim : Z)
  : result (ndarray F) :=
  let start_dim :=
    (start_dim + (if 0 <=? start_dim then 0 else Z.of_nat (ndim array)))%Z in
  let end_dim :=
    (end_dim + 1 + (if 0 <=? end_dim then 0 else Z.of_nat (ndim array)))%Z in
  Lax.collapse array start_dim end_dim.

Definition unflatten (array : ndarray F) (dim : Z) (shape_ : list Z)
  : result (ndarray F) :=
  let in_shape := map Z.of_nat (shape array) in
  let out_shape :=
    py_slice_to in_shape dim ++ shape_ ++ py_slice_from in_shape (dim + 1) in
  Jnp.reshape array out_shape.
End Flatten.

(** ** [serket._src.nn.reshape]: centre crop *)

Section CenterCrop.
Context {F : Type}.

(** [serket._src.utils.validate_spatial_nd], the decorator of every
    spatial layer's [__call__]: its code is not part of the sources at
    hand, so it is a parameter, given the layer's [spatial_ndim] and the
    input. *)
Variable validate_spatial_nd : nat -> ndarray F -> result unit.

(** Crops an array to the given size at the center. *)
Definition center_crop_nd (d0 : F) (array : ndarray F) (sizes : list Z)
  : result (ndarray F) :=
  let shapes := shape array in
  let starts :=
    map (fun '(shape, size) => Z.max (Z.of_nat shape / 2 - size / 2) 0)
        (combine shapes sizes) in
  Lax.dynamic_slice d0 array starts sizes.

(** The start of the crop on an axis of length [d] for a crop of
    [size], as [center_crop_nd] computes it before any clamping. *)
Definition crop_start (d : nat) (size : Z) : nat :=
  Z.to_nat (Z.max (Z.of_nat d / 2 - size / 2) 0).

Definition center_starts (shapes : list nat) (sizes : list Z) : list nat :=
  zip_with crop_start shapes sizes.

Record CenterCropND : Type := mk_CenterCropND {
  CenterCropND_size : list Z;
  CenterCropND_spatial_ndim : nat
}.

Definition CenterCropND_call (d0 : F) (self : CenterCropND) (x : ndarray F)
  : result (ndarray F) :=
  _ <- validate_spatial_nd (CenterCropND_spatial_ndim self) x ;;
  Jax.vmap d0 (fun a => center_crop_nd d0 a (CenterCropND_size self)) x.
End CenterCrop.

(** ** [PadND]: the layer of [serket.nn.padding] and the layer of
       [serket._src.nn.reshape] *)

Module OldPad.
Section OldPad.
Context {F : Type}.

(** [serket.nn.utils._check_spatial_in_shape], the decorator of
    [__call__]: not part of the sources at hand, hence a parameter, given
    the layer's [ndim] and the input. *)
Variable _check_spatial_in_shape : nat -> ndarray F -> result unit.

(** The fields [__init__] sets; [padding] holds what
    [_check_and_return_padding] returned. *)
Record PadND : Type := mk_PadND {
  ndim_ : nat;
  padding : list (Z * Z);
  value : F
}.

Definition call (d0 : F) (self : PadND) (x : ndarray F) : result (ndarray F) :=
  _ <- _check_spatial_in_shape (ndim_ self) x ;;
  (* do not pad the channel axis *)
  Jnp.pad d0 x ((0, 0)%Z :: padding self) (value self).
End OldPad.
End OldPad.

Module NewPad.
Section NewPad.
Context {F : Type}.

Variable validate_spatial_nd : nat -> ndarray F -> result unit.

(** The fields [__init__] sets; [padding] holds what
    [delayed_canonicalize_padding] returned. *)
Record PadND : Type := mk_PadND {
  padding : list (Z * Z);
  value : F;
  spatial_ndim : nat
}.

Definition call (d0 : F) (self : PadND) (x : ndarray F) : result (ndarray F) :=
  _ <- validate_spatial_nd (spatial_ndim self) x ;;
  let value := Lax.stop_gradient (value self) in
  let pad := fun a => Jnp.pad d0 a (padding self) value in
  Jax.vmap d0 pad x.
End NewPad.
End NewPad.

(** ** Initialisers *)

(** What [resolve_init] (and, in the older API, [init_func_cb]) turns an
    init argument into: a function of a key, a shape and a dtype.  It
    returns [None] for the layers' "not trainable" parameters. *)
Definition Initializer (F Key DType : Type) : Type :=
  Key -> list Z -> DType -> result (option (ndarray F)).

(** An init argument: the name of an initialiser, [None], or a callable. *)
Inductive InitType (F Key DType : Type) : Type :=
| InitName (name : string)
| InitNone
| InitCallable (f : Initializer F Key DType).

Arguments InitName {F Key DType} name.
Arguments InitNone {F Key DType}.
Arguments InitCallable {F Key DType} f.

(** An initialiser that yields an array of the shape it is asked for. *)
Definition produces_shape {F Key DType : Type} (f : Initializer F Key DType)
  : Prop :=
  forall key shp dtype,
    Forall (fun d => (0 <= d)%Z) shp ->
    exists a, f key shp dtype = Ok (Some a) /\ shape a = map Z.to_nat shp.

(** ** [serket._src.nn.normalization]: batch normalisation *)

Section BatchNormImpl.
Context {F : Type} `{Scalar F}.

(** [jax.lax.pmean(a, axis_name)], a collective over a named axis: a
    parameter. *)
Variable pmean : ndarray F -> string -> result (ndarray F).

Record BatchNormState : Type := mk_BatchNormState {
  running_mean : ndarray F;
  running_var : ndarray F
}.

(** The type check of [jax.lax.cond] on an (output, state) pair. *)
Definition same_shapes (p q : ndarray F * BatchNormState) : bool :=
  shape_eqb (shape (fst p)) (shape (fst q))
  && shape_eqb (shape (running_mean (snd p))) (shape (running_mean (snd q)))
  && shape_eqb (shape (running_var (snd p))) (shape (running_var (snd q))).

Definition same_shape (a b : ndarray F) : bool :=
  shape_eqb (shape a) (shape b).

Definition maybe_pmean (axis_name : option string) (a : ndarray F)
  : result (ndarray F) :=
  match axis_name with
  | Some name => pmean a name
  | None => Ok a
  end.

(** The two branches of [_batchnorm_impl], with the variables they
    capture as leading arguments. *)
Definition eval_step (broadcast_shape : list Z) (eps : F)
    (operand : ndarray F * BatchNormState)
  : result (ndarray F * BatchNormState) :=
  let '(x, state) := operand in
  let run_mean := running_mean state in
  let run_var := running_var state in
  run_mean <- Jnp.reshape run_mean broadcast_shape ;;
  run_var <- Jnp.reshape run_var broadcast_shape ;;
  centred <- Jnp.sub x run_mean ;;
  output <- Jnp.mul centred (Lax.rsqrt (Jnp.add_scalar run_var eps)) ;;
  Ok (output, state).

Definition train_step (momentum eps : F) (axis : Z)
    (axis_name : option string) (operand : ndarray F * BatchNormState)
  : result (ndarray F * BatchNormState) :=
  let '(x, state) := operand in
  let run_mean := running_mean state in
  let run_var := running_var state in
  let axes := seq 0 (ndim x) in
  axes <- del_item axes axis ;;
  let batch_mean := Jnp.mean_keepdims x axes in
  batch_mean <- maybe_pmean axis_name batch_mean ;;
  batch_var <- Jnp.sub (Jnp.mean_keepdims (Jnp.square x) axes)
                       (Jnp.square batch_mean) ;;
  batch_var <- maybe_pmean axis_name batch_var ;;
  centred <- Jnp.sub x batch_mean ;;
  output <- Jnp.div centred (Jnp.sqrt (Jnp.add_scalar batch_var eps)) ;;
  run_mean <- Jnp.add (Jnp.scalar_mul momentum run_mean)
                      (Jnp.scalar_mul (fsub f1 momentum)
                                      (Jnp.squeeze batch_mean)) ;;
  run_var <- Jnp.add (Jnp.scalar_mul momentum run_var)
                     (Jnp.scalar_mul (fsub f1 momentum)
                                     (Jnp.squeeze batch_var)) ;;
  Ok (output, mk_BatchNormState run_mean run_var).

(** The scale or the shift, when present, reshaped and applied. *)
Definition apply_param (op : ndarray F -> ndarray F -> result (ndarray F))
    (broadcast_shape : list Z) (param : option (ndarray F))
    (output : ndarray F) : result (ndarray F) :=
  match param with
  | Some param => p <- Jnp.reshape param broadcast_shape ;; op output p
  | None => Ok output
  end.

Definition _batchnorm_impl (x : ndarray F) (state : BatchNormState)
    (momentum eps : F) (gamma beta : option (ndarray F)) (evalution : bool)
    (axis : Z) (axis_name : option string)
  : result (ndarray F * BatchNormState) :=
  let broadcast_shape := repeat 1 (ndim x) in
  d <- get_item (shape x) axis ;;
  broadcast_shape <- set_item broadcast_shape axis d ;;
  let broadcast_shape := map Z.of_nat broadcast_shape in
  r <- Lax.cond same_shapes evalution
         (eval_step broadcast_shape eps)
         (train_step momentum eps axis axis_name) (x, state) ;;
  let '(output, state) := r in
  let state := Lax.stop_gradient state in
  output <- apply_param Jnp.mul broadcast_shape gamma output ;;
  output <- apply_param Jnp.add broadcast_shape beta output ;;
  output <- Lax.cond same_shape evalution
              (fun o => Ok (Lax.stop_gradient o)) (fun o => Ok o) output ;;
  Ok (output, state).
End BatchNormImpl.

(** *** The statistics of a batch, feature by feature *)

Section BatchStatistics.
Context {F : Type} `{Scalar F}.

(** The mean of a sequence of values. *)
Definition mean_list (l : list F) : F :=
  fdiv (Jnp.sum l) (of_nat (length l)).

(** The elements of [x] whose index along axis [a] is [c], in row-major
    order: what is averaged "over all axes except [a]" for feature [c]. *)
Definition feature_values (x : ndarray F) (a c : nat) : list F :=
  map (get f0 x)
      (filter (fun idx => nth a idx 0 =? c) (all_indices (shape x))).

Definition batch_mean_of (x : ndarray F) (a c : nat) : F :=
  mean_list (feature_values x a c).

(** [mean(x^2) - batch_mean^2] *)
Definition batch_var_of (x : ndarray F) (a c : nat) : F :=
  fsub (mean_list (map (fun v => fmul v v) (feature_values x a c)))
       (fmul (batch_mean_of x a c) (batch_mean_of x a c)).

(** The scale and shift of feature [c], when present. *)
Definition affine (weight bias : option (ndarray F)) (c : nat) (v : F) : F :=
  let v := match weight with
           | Some w => fmul v (get f0 w [c])
           | None => v
           end in
  match bias with
  | Some b => fadd v (get f0 b [c])
  | None => v
  end.
End BatchStatistics.

(** An index with the reduced axes set to zero. *)
Definition proj (mask : list bool) (idx : list nat) : list nat :=
  zip_with (fun (r : bool) i => if r then 0 else i) mask idx.

(** [i] and [idx] are equal on the axes that are kept. *)
Definition agree (mask : list bool) (i idx : list nat) : bool :=
  forallb (fun '(r, (u, v)) => r || (u =? v)) (combine mask (combine i idx)).

(** The index that is [c] on axis [a] and zero on the other [a + m]. *)
Definition unit_index (a m c : nat) : list nat :=
  repeat 0 a ++ c :: repeat 0 m.

(** The mask that reduces every axis but axis [a], of [a + 1 + m] axes. *)
Definition all_but (a m : nat) : list bool :=
  repeat true a ++ false :: repeat true m.

(** [BatchNorm] and [EvalNorm] have the same fields. *)
Record NormFields (F Key DType : Type) : Type := mk_NormFields {
  in_features : Z;
  momentum : F;
  eps : F;
  weight_init : InitType F Key DType;
  bias_init : InitType F Key DType;
  axis : Z;
  axis_name : option string;
  weight : option (ndarray F);
  bias : option (ndarray F)
}.

Section BatchNormLayers.
Context {F Key DType : Type} `{Scalar F}.
Variable pmean : ndarray F -> string -> result (ndarray F).
Variable resolve_init : InitType F Key DType -> result (Initializer F Key DType).

(** [BatchNorm.__init__] and [EvalNorm.__init__], which have the same body,
    for an integer [in_features] (with [None] the [maybe_lazy_init]
    decorator defers the body). *)
Definition Norm_init (in_features : Z) (key : Key) (momentum eps : F)
    (weight_init bias_init : InitType F Key DType) (axis : Z)
    (axis_name : option string) (dtype : DType)
  : result (NormFields F Key DType) :=
  w_init <- resolve_init weight_init ;;
  weight <- w_init key [in_features] dtype ;;
  b_init <- resolve_init bias_init ;;
  bias <- b_init key [in_features] dtype ;;
  Ok (mk_NormFields in_features momentum eps weight_init bias_init axis
        axis_name weight bias).

(** The [tree_state] rule of [BatchNorm]. *)
Definition BatchNorm_state (batchnorm : NormFields F Key DType)
  : BatchNormState :=
  let running_mean := Jnp.zeros [Z.to_nat (in_features batchnorm)] in
  let running_var := Jnp.ones [Z.to_nat (in_features batchnorm)] in
  mk_BatchNormState running_mean running_var.

(** [BatchNorm.__call__] of an initialised layer.  The body is a
    [custom_vmap] of the identity: outside [jax.vmap] it returns its
    arguments, under [jax.vmap] its rule runs [_batchnorm_impl] on the
    batched [x]. *)
Definition BatchNorm_call (under_vmap : bool) (self : NormFields F Key DType)
    (x : ndarray F) (state : option BatchNormState)
  : result (ndarray F * BatchNormState) :=
  let state := match state with
               | None => BatchNorm_state self
               | Some state => state
               end in
  if under_vmap then
    _batchnorm_impl pmean x state (momentum self) (eps self) (weight self)
      (bias self) false (axis self) (axis_name self)
  else Ok (x, state).

(** [EvalNorm.__call__], likewise, for a given state.  (With
    [state=None] the call asks [tree_state] for a state of the [EvalNorm];
    the sources at hand register a state rule for [BatchNorm] only.) *)
Definition EvalNorm_call (under_vmap : bool) (self : NormFields F Key DType)
    (x : ndarray F) (state : BatchNormState)
  : result (ndarray F * BatchNormState) :=
  if under_vmap then
    _batchnorm_impl pmean x state f0 (eps self) (weight self)
      (bias self) true (axis self) (axis_name self)
  else Ok (x, state).
End BatchNormLayers.

(** ** Pytrees and [serket.nn.custom_transform.tree_eval] *)

(** The classes of the objects met in a tree of layers. *)
Inductive cls : Type :=
| C_object
| C_list
| C_tuple
| C_dict
| C_RandomCrop1D
| C_RandomCrop2D
| C_RandomCrop3D
| C_RandomZoom1D
| C_RandomZoom2D
| C_RandomZoom3D
| C_BatchNorm
| C_EvalNorm
| C_Identity
| C_class (name : string).

Definition cls_eqb (c d : cls) : bool :=
  match c, d with
  | C_object, C_object | C_list, C_list | C_tuple, C_tuple | C_dict, C_dict
  | C_RandomCrop1D, C_RandomCrop1D | C_RandomCrop2D, C_RandomCrop2D
  | C_RandomCrop3D, C_RandomCrop3D | C_RandomZoom1D, C_RandomZoom1D
  | C_RandomZoom2D, C_RandomZoom2D | C_RandomZoom3D, C_RandomZoom3D
  | C_BatchNorm, C_BatchNorm | C_EvalNorm, C_EvalNorm
  | C_Identity, C_Identity => true
  | C_class n, C_class n' => String.eqb n n'
  | _, _ => false
  end.

(** Objects without children: arrays, numbers, strings, [None] and init
    arguments. *)
Inductive atom (F Key DType : Type) : Type :=
| AArray (a : ndarray F)
| AFloat (v : F)
| AInt (z : Z)
| AStr (s : string)
| ANone
| AInit (i : InitType F Key DType).

Arguments AArray {F Key DType} a.
Arguments AFloat {F Key DType} v.
Arguments AInt {F Key DType} z.
Arguments AStr {F Key DType} s.
Arguments ANone {F Key DType}.
Arguments AInit {F Key DType} i.

(** A pytree: an object without children, or a container or class
    instance with its items or field values, in order. *)
Inductive pytree (F Key DType : Type) : Type :=
| Atom (a : atom F Key DType)
| Node (c : cls) (children : list (pytree F Key DType)).

Arguments Atom {F Key DType} a.
Arguments Node {F Key DType} c children.

Section TreeMap.
Context {F Key DType : Type}.
Notation pytree := (pytree F Key DType).

(** [jax.tree_map(f, tree, is_leaf=is_leaf)]: [f] is applied to the
    objects [is_leaf] accepts and to the objects without children; the
    other objects are rebuilt from their mapped children. *)
Fixpoint tree_map (f : pytree -> result pytree) (is_leaf : pytree -> bool)
    (tree : pytree) : result pytree :=
  if is_leaf tree then f tree
  else
    match tree with
    | Atom _ => f tree
    | Node c children =>
        children' <- mapM (tree_map f is_leaf) children ;;
        Ok (Node c children')
    end.

(** The class an object is dispatched on; objects without children have
    builtin classes, for which nothing is registered here. *)
Definition class_of (x : pytree) : cls :=
  match x with
  | Atom _ => C_object
  | Node c _ => c
  end.

Fixpoint lookup_rule (c : cls) (registry : list (cls * (pytree -> result pytree)))
  : option (pytree -> result pytree) :=
  match registry with
  | [] => None
  | (d, rule) :: registry' =>
      if cls_eqb c d then Some rule else lookup_rule c registry'
  end.

(** A [functools.singledispatch] function with its [registry]: the rule of
    the argument's class, or else the rule of [object]. *)
Definition singledispatch (registry : list (cls * (pytree -> result pytree)))
    (x : pytree) : result pytree :=
  match lookup_rule (class_of x) registry with
  | Some rule => rule x
  | None =>
      match lookup_rule C_object registry with
      | Some rule => rule x
      | None => Raise TypeError
      end
  end.

(** [isinstance(x, types)] *)
Definition isinstance (x : pytree) (types : list cls) : bool :=
  match x with
  | Atom _ => false
  | Node c _ => existsb (cls_eqb c) types
  end.
End TreeMap.

Section TreeEval.
Context {F Key DType : Type}.
Notation pytree := (pytree F Key DType).
Notation NormFields := (NormFields F Key DType).

Variable resolve_init : InitType F Key DType -> result (Initializer F Key DType).
(** [None] passed as a key, and [jnp.float32]. *)
Variable key_none : Key.
Variable float32 : DType.

(** The field values of a [BatchNorm] or an [EvalNorm], in the order
    [__init__] sets them. *)
Definition opt_str (s : option string) : atom F Key DType :=
  match s with Some s => AStr s | None => ANone end.

Definition opt_array (a : option (ndarray F)) : atom F Key DType :=
  match a with Some a => AArray a | None => ANone end.

Definition norm_object (c : cls) (f : NormFields) : pytree :=
  Node c [Atom (AInt (in_features f)); Atom (AFloat (momentum f));
          Atom (AFloat (eps f)); Atom (AInit (weight_init f));
          Atom (AInit (bias_init f)); Atom (AInt (axis f));
          Atom (opt_str (axis_name f)); Atom (opt_array (weight f));
          Atom (opt_array (bias f))].

(** Reading the attributes of such an object. *)
Definition norm_fields (x : pytree) : result NormFields :=
  match x with
  | Node _ [Atom (AInt in_features); Atom (AFloat momentum);
            Atom (AFloat eps); Atom (AInit weight_init);
            Atom (AInit bias_init); Atom (AInt axis);
            Atom axis_name; Atom weight; Atom bias] =>
      axis_name <- match axis_name with
                   | AStr s => Ok (Some s)
                   | ANone => Ok None
                   | _ => Raise AttributeError
                   end ;;
      weight <- match weight with
                | AArray a => Ok (Some a)
                | ANone => Ok None
                | _ => Raise AttributeError
                end ;;
      bias <- match bias with
              | AArray a => Ok (Some a)
              | ANone => Ok None
              | _ => Raise AttributeError
              end ;;
      Ok (mk_NormFields in_features momentum eps weight_init bias_init axis
            axis_name weight bias)
  | _ => Raise AttributeError
  end.

(** The rule registered for the six random crop and zoom classes. *)
Definition eval_identity (_ : pytree) : result pytree :=
  Ok (Node C_Identity []).

(** The rule registered for [BatchNorm]. *)
Definition eval_batchnorm (batchnorm : pytree) : result pytree :=
  batchnorm <- norm_fields batchnorm ;;
  evalnorm <-
    Norm_init resolve_init
      (in_features batchnorm)
      key_none
      (momentum batchnorm)  (* ignored *)
      (eps batchnorm)
      (InitCallable (fun _ _ _ => Ok (weight batchnorm)))
      (InitCallable (fun _ _ _ => Ok (bias batchnorm)))
      (axis batchnorm)
      (axis_name batchnorm)
      float32 ;;
  Ok (norm_object C_EvalNorm evalnorm).

(** [tree_eval.eval_dispatcher.registry] once the modules are loaded:
    [singledispatch(lambda x: x)] and the [def_eval] registrations. *)
Definition eval_registry : list (cls * (pytree -> result pytree)) :=
  [(C_object, fun x => Ok x);
   (C_BatchNorm, eval_batchnorm);
   (C_RandomZoom3D, eval_identity);
   (C_RandomZoom2D, eval_identity);
   (C_RandomZoom1D, eval_identity);
   (C_RandomCrop3D, eval_identity);
   (C_RandomCrop2D, eval_identity);
   (C_RandomCrop1D, eval_identity)].

Definition eval_dispatcher : pytree -> result pytree :=
  singledispatch eval_registry.

(** Modify tree layers to disable any trainning related behavior. *)
Definition tree_eval (tree : pytree) : result pytree :=
  let types :=
    filter (fun c => negb (cls_eqb c C_object)) (map fst eval_registry) in
  let is_leaf := fun x => isinstance x types in
  tree_map eval_dispatcher is_leaf tree.
End TreeEval.

(** *** The relation [tree_eval] is specified by *)

Section TreeEvalSpec.
Context {F Key DType : Type}.
Notation pytree := (pytree F Key DType).

(** The classes with an eval rule. *)
Definition random_class (c : cls) : bool :=
  match c with
  | C_RandomCrop1D | C_RandomCrop2D | C_RandomCrop3D
  | C_RandomZoom1D | C_RandomZoom2D | C_RandomZoom3D => true
  | _ => false
  end.

Definition has_rule (c : cls) : bool :=
  random_class c || cls_eqb c C_BatchNorm.

(** [tree'] is [tree] with every random crop or zoom replaced by
    [Identity], every [BatchNorm] by an [EvalNorm] with the same
    [in_features], [eps], [axis], [axis_name], [weight] and [bias], and
    everything else in place. *)
Inductive eval_of : pytree -> pytree -> Prop :=
| eval_of_random c children :
    random_class c = true ->
    eval_of (Node c children) (Node C_Identity [])
| eval_of_batchnorm (bn en : NormFields F Key DType) :
    in_features en = in_features bn ->
    eps en = eps bn ->
    axis en = axis bn ->
    axis_name en = axis_name bn ->
    weight en = weight bn ->
    bias en = bias bn ->
    eval_of (norm_object C_BatchNorm bn) (norm_object C_EvalNorm en)
| eval_of_atom a :
    eval_of (Atom a) (Atom a)
| eval_of_node c children children' :
    has_rule c = false ->
    Forall2 eval_of children children' ->
    eval_of (Node c children) (Node c children').

(** Every [BatchNorm] object in the tree has the fields of a [BatchNorm]. *)
Inductive batchnorms_initialised : pytree -> Prop :=
| bi_atom a : batchnorms_initialised (Atom a)
| bi_batchnorm bn : batchnorms_initialised (norm_object C_BatchNorm bn)
| bi_node c children :
    cls_eqb c C_BatchNorm = false ->
    Forall batchnorms_initialised children ->
    batchnorms_initialised (Node c children).

(** No object of the tree has an eval rule. *)
Inductive rule_free : pytree -> Prop :=
| rf_atom a : rule_free (Atom a)
| rf_node c children :
    has_rule c = false ->
    Forall rule_free children ->
    rule_free (Node c children).
End TreeEvalSpec.

(** ** [serket.nn.linear]: [Multilinear] *)

Definition alpha : string :=
  "abcdefghijklmnopqrstuvwxyzABCDEFGHIJKLMNOPQRSTUVWXYZ".

(** Generate einsum string for a linear layer of degree n *)
Definition _multilinear_einsum_string (degree : Z) : result string :=
  if negb ((1 <=? degree)%Z && (degree <=? Z.of_nat (String.length alpha) - 1)%Z)
  then Raise ValueError
  else
    let xs_string :=
      map (fun i => ("..." ++ String i EmptyString)%string)
          (list_ascii_of_string (substring 0 (Z.to_nat degree) alpha)) in
    let output_string := String.concat "," xs_string in
    match String.get (Z.to_nat degree) alpha with
    | Some last =>
        Ok (output_string ++ ","
            ++ substring 0 (Z.to_nat (degree + 1)) alpha
            ++ "->..." ++ String last EmptyString)%string
    | None => Raise IndexError
    end.

(** The letters of [alpha]. *)
Definition alpha_letters : list ascii := list_ascii_of_string alpha.

(** The subscripts the string of degree [d] is meant to stand for: one
    operand ["...l_i"] per input, the operand ["l_1..l_d l_out"] of the
    weight, and the result ["...l_out"]. *)
Definition multilinear_subscripts (d : nat) : list subscript * subscript :=
  (map (fun c => mk_subscript true [c]) (firstn d alpha_letters)
   ++ [mk_subscript false (firstn d alpha_letters ++ [nth d alpha_letters "0"%char])],
   mk_subscript true [nth d alpha_letters "0"%char]).

Module Multilinear.
Section Multilinear.
Context {F : Type} `{Scalar F}.

Record t : Type := mk {
  weight : ndarray F;
  bias : option (ndarray F);
  in_features : list Z;
  out_features : Z
}.

(** [Multilinear.__call__] of an initialised layer ([in_features] a
    tuple). *)
Definition call (self : t) (x : list (ndarray F)) : result (ndarray F) :=
  einsum_string <-
    _multilinear_einsum_string (Z.of_nat (length (in_features self))) ;;
  x <- Jnp.einsum einsum_string (x ++ [weight self]) ;;
  match bias self with
  | None => Ok x
  | Some bias => Jnp.add x bias
  end.
End Multilinear.
End Multilinear.

(** The contraction the layer is specified to compute at batch index [b] and output
    feature [o]: the sum over [a_1 .. a_d] of
    [x_1[b, a_1] * ... * x_d[b, a_d] * weight[a_1, ..., a_d, o]]. *)
Definition multilinear_at {F : Type} `{Scalar F} (xs : list (ndarray F))
    (w : ndarray F) (ns : list nat) (b : list nat) (o : nat) : F :=
  Jnp.sum
    (map (fun a =>
            Jnp.product
              (zip_with (fun x ai => get f0 x (b ++ [ai])) xs a
               ++ [get f0 w (a ++ [o])]))
         (all_indices ns)).

(** ** [serket._src.nn.normalization]: the [GroupNorm] constructor *)

Module GroupNorm.
Section GroupNorm.
Context {F Key DType : Type}.

(** Helpers of [serket._src.utils] and [serket._src.nn.initialization]
    whose code is not part of the sources at hand: parameters. *)
Variable positive_int_cb : Z -> result Z.
Variable eps_on_setattr : F -> result F.
Variable resolve_init : InitType F Key DType -> result (Initializer F Key DType).

Record t : Type := mk {
  in_features : Z;
  groups : Z;
  eps : F;
  weight : option (ndarray F);
  bias : option (ndarray F)
}.

(** [GroupNorm.__init__] for an integer [in_features] (with [None] the
    [maybe_lazy_init] decorator defers the body). *)
Definition init (in_features : Z) (key : Key) (groups : Z) (eps : F)
    (weight_init bias_init : InitType F Key DType) (dtype : DType)
  : result t :=
  self_in_features <- positive_int_cb in_features ;;
  self_groups <- positive_int_cb groups ;;
  self_eps <- eps_on_setattr eps ;;
  (* needs more info for checking *)
  r <- py_mod in_features groups ;;
  if negb (r =? 0)%Z then Raise ValueError
  else
    w_init <- resolve_init weight_init ;;
    self_weight <- w_init key [in_features] dtype ;;
    b_init <- resolve_init bias_init ;;
    self_bias <- b_init key [in_features] dtype ;;
    Ok (mk self_in_features self_groups self_eps self_weight self_bias).
End GroupNorm.
End GroupNorm.

(** ** [serket.nn.linear]: the [GeneralLinear] constructor *)

Module GeneralLinear.
Section GeneralLinear.
Context {F Key : Type}.

(** [serket.nn.callbacks.init_func_cb]: not part of the sources at hand,
    a parameter.  Its result may be [None]. *)
Variable init_func_cb :
  InitType F Key unit -> result (option (Initializer F Key unit)).

Record t : Type := mk {
  in_features : list Z;
  out_features : Z;
  in_axes : list Z;
  weight : option (ndarray F);
  bias : option (ndarray F)
}.

(** Calling what [init_func_cb] returned: [None] is not callable. *)
Definition call_init (f : option (Initializer F Key unit)) (key : Key)
    (shp : list Z) : result (option (ndarray F)) :=
  match f with
  | Some f => f key shp tt
  | None => Raise TypeError
  end.

(** [GeneralLinear.__init__] for tuples [in_features] and [in_axes] (the
    field callbacks accept tuples; with [in_features = None] the
    [lazy_class] decorator defers the body). *)
Definition init (in_features : list Z) (out_features : Z) (in_axes : list Z)
    (weight_init_func bias_init_func : InitType F Key unit) (key : Key)
  : result t :=
  if negb (length in_axes =? length in_features) then Raise ValueError
  else
    self_weight_init_func <- init_func_cb weight_init_func ;;
    self_bias_init_func <- init_func_cb bias_init_func ;;
    self_weight <-
      call_init self_weight_init_func key (in_features ++ [out_features]) ;;
    self_bias <-
      match self_bias_init_func with
      | None => Ok None
      | Some f => f key [out_features] tt
      end ;;
    Ok (mk in_features out_features in_axes self_weight self_bias).
End GeneralLinear.
End GeneralLinear.

(** ** Random layers: [serket.nn.dropout], [serket.nn.random_transform]
       and the random layers of [serket._src.nn.reshape] *)

(** The samplers of [jax.random]: functions of a key. *)
Record Sampler (F Key : Type) : Type := mk_Sampler {
  bernoulli : Key -> F -> list nat -> ndarray bool;
  randint : Key -> Z -> Z -> Z;
  uniform : Key -> F -> F -> F
}.

Section RandomLayers.
Context {F Key : Type} `{Scalar F}.

(** [jax.random.PRNGKey] and [jax.random.split]. *)
Variable PRNGKey : Z -> Key.
Variable split : Key -> nat -> list Key.

(** [jax.image.resize(x, shape, method)]. *)
Variable resize : ndarray F -> list Z -> string -> result (ndarray F).

(** Decorators and layers whose code is not part of the sources at hand. *)
Variable validate_spatial_nd : nat -> ndarray F -> result unit.
Variable validate_spatial_in_shape : nat -> ndarray F -> result unit.
Variable _check_spatial_in_shape : nat -> ndarray F -> result unit.
Variable Crop1D : Z -> Z -> ndarray F -> result (ndarray F).
Variable Crop2D : Z -> Z -> Z -> Z -> ndarray F -> result (ndarray F).

Variable S : Sampler F Key.

(** The key a call uses: the one passed, or the default [PRNGKey(0)]. *)
Definition key_or_default (key : option Key) : Key :=
  match key with
  | Some key => key
  | None => PRNGKey 0
  end.

Definition random_crop_nd (x : ndarray F) (crop_size : list Z) (key : Key)
  : result (ndarray F) :=
  start <-
    mapM (fun '(i, s) =>
            d <- get_item (shape x) (Z.of_nat i) ;;
            Ok (randint S key 0 (Z.of_nat d - s)))
         (combine (seq 0 (length crop_size)) crop_size) ;;
  Lax.dynamic_slice f0 x start crop_size.

Definition random_zoom_along_axis (key : Key) (x : ndarray F) (factor : F)
    (axis : Z) : result (ndarray F) :=
  if feqb factor f0 then Ok x
  else
    axis_size <- get_item (shape x) axis ;;
    let resized_axis_size :=
      to_int (fmul (of_nat axis_size) (fadd f1 factor)) in
    let zoom_in := fun x : ndarray F =>
      let shape_ := map Z.of_nat (shape x) in
      resized_shape <- set_item shape_ axis resized_axis_size ;;
      x <- resize x resized_shape "linear" ;;
      random_crop_nd x shape_ key in
    let zoom_out := fun x : ndarray F =>
      let shape_ := map Z.of_nat (shape x) in
      resized_shape <- set_item shape_ axis resized_axis_size ;;
      x <- resize x resized_shape "linear" ;;
      let pad_width := repeat (0, 0)%Z (ndim x) in
      let left := ((Z.of_nat axis_size - resized_axis_size) / 2)%Z in
      let right := (Z.of_nat axis_size - resized_axis_size - left)%Z in
      pad_width <- set_item pad_width axis (left, right) ;;
      Jnp.pad f0 x pad_width f0 in
    if fltb factor f0 then zoom_out x else zoom_in x.

(** Unpacking the keys [jr.split] returns. *)
Definition unpack (n : nat) (keys : list Key) : result (list Key) :=
  if length keys =? n then Ok keys else Raise ValueError.

Definition RandomZoom1D_call (length_factor : F * F) (x : ndarray F)
    (key : Key) : result (ndarray F) :=
  _ <- validate_spatial_nd 1 x ;;
  keys <- unpack 2 (split key 2) ;;
  let k1 := nth 0 keys key in
  let k2 := nth 1 keys key in
  let '(low, high) := Lax.stop_gradient length_factor in
  let factor := uniform S k1 low high in
  random_zoom_along_axis k2 x factor 1.

Definition RandomZoom2D_call (height_factor width_factor : F * F)
    (x : ndarray F) (key : Key) : result (ndarray F) :=
  _ <- validate_spatial_nd 2 x ;;
  keys <- unpack 4 (split key 4) ;;
  let k1 := nth 0 keys key in
  let k2 := nth 1 keys key in
  let k3 := nth 2 keys key in
  let k4 := nth 3 keys key in
  let '((hfl, hfh), (wfl, wfh)) :=
    Lax.stop_gradient (height_factor, width_factor) in
  let factor := uniform S k1 hfl hfh in
  x <- random_zoom_along_axis k3 x factor 1 ;;
  let factor := uniform S k2 wfl wfh in
  x <- random_zoom_along_axis k4 x factor 2 ;;
  Ok (Lax.stop_gradient x).

Definition RandomZoom3D_call (height_factor width_factor depth_factor : F * F)
    (x : ndarray F) (key : Key) : result (ndarray F) :=
  _ <- validate_spatial_nd 3 x ;;
  keys <- unpack 6 (split key 6) ;;
  let k1 := nth 0 keys key in
  let k2 := nth 1 keys key in
  let k3 := nth 2 keys key in
  let k4 := nth 3 keys key in
  let k5 := nth 4 keys key in
  let k6 := nth 5 keys key in
  let '((hfl, hfh), (wfl, wfh), (dfl, dfh)) :=
    Lax.stop_gradient (height_factor, width_factor, depth_factor) in
  let factor := uniform S k1 hfl hfh in
  x <- random_zoom_along_axis k3 x factor 1 ;;
  let factor := uniform S k2 wfl wfh in
  x <- random_zoom_along_axis k4 x factor 2 ;;
  let factor := uniform S k5 dfl dfh in
  random_zoom_along_axis k6 x factor 3.

Definition RandomCropND_call (size : list Z) (spatial_ndim : nat)
    (x : ndarray F) (key : Key) : result (ndarray F) :=
  _ <- validate_spatial_nd spatial_ndim x ;;
  d <- get_item (shape x) 0 ;;
  let crop_size := Z.of_nat d :: size in
  random_crop_nd x crop_size key.

Definition Dropout_call (p : F) (x : ndarray F) (key : Key)
  : result (ndarray F) :=
  Jnp.where_ (bernoulli S key (fsub f1 p) (shape x))
             (amap f0 (fun u => fdiv u (fsub f1 p)) x) f0.

Definition DropoutND_call (spatial_ndim : nat) (p : F) (x : ndarray F)
    (key : Key) : result (ndarray F) :=
  _ <- validate_spatial_in_shape spatial_ndim x ;;
  d <- get_item (shape x) 0 ;;
  let mask := bernoulli S key (fsub f1 p) [d] in
  Jnp.where_ mask (amap f0 (fun u => fdiv u (fsub f1 p)) x) f0.

Definition RandomCrop1D_old_call (length_ : Z) (x : ndarray F) (key : Key)
  : result (ndarray F) :=
  if negb (ndim x =? 2) then Raise AssertionError
  else
    d <- get_item (shape x) 1 ;;
    let start := randint S key 0 (Z.of_nat d - length_) in
    Crop1D length_ start x.

Definition RandomCrop2D_old_call (height width : Z) (x : ndarray F)
    (key : Key) : result (ndarray F) :=
  if negb (ndim x =? 3) then Raise AssertionError
  else
    h <- get_item (shape x) 1 ;;
    let top := randint S key 0 (Z.of_nat h - height) in
    w <- get_item (shape x) 2 ;;
    let left := randint S key 0 (Z.of_nat w - width) in
    Crop2D height width top left x.

End RandomLayers.

(** *** Which keys a call may reach *)

Section Derived.
Context {F Key : Type}.
Variable split : Key -> nat -> list Key.

(** The keys obtained from [k0] by splitting. *)
Inductive derived (k0 : Key) : Key -> Prop :=
| derived_refl : derived k0 k0
| derived_split k n k' :
    derived k0 k -> In k' (split k n) -> derived k0 k'.

(** Two samplers that draw the same values at every key derived from
    [k0]. *)
Definition agree_from (k0 : Key) (S1 S2 : Sampler F Key) : Prop :=
  forall k, derived k0 k ->
    (forall p shp, bernoulli S1 k p shp = bernoulli S2 k p shp)
    /\ (forall lo hi, randint S1 k lo hi = randint S2 k lo hi)
    /\ (forall lo hi, uniform S1 k lo hi = uniform S2 k lo hi).
End Derived.

(** ** Instances of the parameters, used to run the model *)

(** A rank check of the kind [validate_spatial_nd] stands for: the input
  has one channel axis and [n] spatial axes. *)
Definition check_channel_first {F : Type} (n : nat) (x : ndarray F)
: result unit :=
if ndim x =? S n then Ok tt else Raise ValueError.

(** Integer arithmetic as scalars; [frsqrt] is [1 / sqrt]. *)
#[export] Instance Scalar_Z : Scalar Z := {
  f0 := 0%Z;
  f1 := 1%Z;
  fadd := Z.add;
  fsub := Z.sub;
  fmul := Z.mul;
  fdiv := Z.div;
  fsqrt := Z.sqrt;
  frsqrt := fun x => (1 / Z.sqrt x)%Z;
  of_nat := Z.of_nat;
  feqb := Z.eqb;
  fltb := Z.ltb;
  to_int := fun x => x
}.

(** A [positive_int_cb]: positive integers pass. *)
Definition accept_positive (v : Z) : result Z :=
  if (0 <? v)%Z then Ok v else Raise ValueError.

(** A [resolve_init]: the names ["ones"] and ["zeros"], [None] (no
    parameter) and callables (used as they are). *)
Definition basic_resolve_init {F Key DType : Type} `{Scalar F}
    (init : InitType F Key DType) : result (Initializer F Key DType) :=
  match init with
  | InitName name =>
      if String.eqb name "ones" then
        Ok (fun _ shp _ => Ok (Some (full (map Z.to_nat shp) f1)))
      else if String.eqb name "zeros" then
        Ok (fun _ shp _ => Ok (Some (full (map Z.to_nat shp) f0)))
      else Raise ValueError
  | InitNone => Ok (fun _ _ _ => Ok None)
  | InitCallable f => Ok f
  end.

(** An [init_func_cb] in the same spirit. *)
Definition basic_init_func_cb {F Key : Type} `{Scalar F}
    (init : InitType F Key unit) : result (option (Initializer F Key unit)) :=
  match init with
  | InitNone => Ok None
  | _ => f <- basic_resolve_init init ;; Ok (Some f)
  end.

(** A [pmean] over an axis with a single member. *)
Definition pmean_single {F : Type} (a : ndarray F) (_ : string)
  : result (ndarray F) := Ok a.

(** A batch of two examples with three features, and a layer for it. *)
Definition example_batch : ndarray Z :=
  mk_ndarray [2; 3] [1; 2; 3; 5; 8; 13]%Z.

Definition example_norm : NormFields Z nat unit :=
  mk_NormFields 3%Z 2%Z 1%Z (InitName "ones") (InitName "zeros") 1%Z None
    (Some (mk_ndarray [3] [1; 2; 3]%Z)) (Some (mk_ndarray [3] [10; 20; 30]%Z)).

(** A list holding a random crop, a batch normalisation, a layer without
    eval rule and a number. *)
Definition example_tree : pytree Z nat unit :=
  Node C_list
    [Node C_RandomCrop2D [Atom (AInt 4); Atom (AInt 4)];
     norm_object C_BatchNorm example_norm;
     Node (C_class "Linear")
       [Atom (AArray (mk_ndarray [3; 1] [1; 1; 1]%Z)); Atom ANone];
     Atom (AInt 1)].

(** Keys as numbers, and samplers that draw from them. *)
Definition example_split (k : nat) (n : nat) : list nat :=
  map (fun i => k * 8 + i + 1) (seq 0 n).

Definition example_sampler : Sampler Z nat :=
  mk_Sampler (fun k _ shp => full shp (Nat.even k))
             (fun k lo hi => (lo + Z.of_nat k mod (Z.max 1 (hi - lo)))%Z)
             (fun k lo hi => lo).

(** A bilinear layer and two inputs for it. *)
Definition example_bilinear : Multilinear.t (F := Z) :=
  Multilinear.mk
    (mk_ndarray [2; 3; 2] [1; 2; 3; 4; 5; 6; 7; 8; 9; 10; 11; 12]%Z)
    (Some (mk_ndarray [2] [100; 200]%Z)) [2; 3]%Z 2%Z.

Definition example_inputs : list (ndarray Z) :=
  [mk_ndarray [2; 2] [1; 2; 3; 4]%Z; mk_ndarray [2; 3] [1; 0; 2; 0; 1; 1]%Z].

(** Keys made from seeds: none is 0 or 1. *)
Definition example_PRNGKey (seed : Z) : nat := Z.to_nat seed + 2.

(** A sampler that differs from [example_sampler] at the default key
    [PRNGKey(0)], and only there. *)
Definition other_sampler : Sampler Z nat :=
  mk_Sampler
    (fun k p shp => if k =? example_PRNGKey 0 then full shp false
                    else bernoulli example_sampler k p shp)
    (fun k lo hi => if k =? example_PRNGKey 0 then hi
                    else randint example_sampler k lo hi)
    (fun k lo hi => if k =? example_PRNGKey 0 then hi
                    else uniform example_sampler k lo hi).

(** [jnp.arange(n).reshape(s)] *)
Definition arange (s : list nat) : ndarray nat :=
mk_ndarray s (seq 0 (prod s)).

Definition example_cube : ndarray nat := arange [2; 3; 4].

(** The initialisers the names ["ones"] and ["zeros"] resolve to. *)
Definition ones_init : Initializer Z nat unit :=
  fun _ shp _ => Ok (Some (full (map Z.to_nat shp) f1)).

Definition zeros_init : Initializer Z nat unit :=
  fun _ shp _ => Ok (Some (full (map Z.to_nat shp) f0)).

(** Stand-ins for [jax.image.resize] and the old crop layers, and an
    input for the random layers. *)
Definition example_resize (x : ndarray Z) (_ : list Z) (_ : string)
    (_ : bool) : result (ndarray Z) := Ok x.

(** A stand-in for the matrix product [@] of a batch of vectors and a
    matrix. *)
Definition example_matmul (a b : ndarray Z) : result (ndarray Z) :=
  Jnp.einsum "...a,ab->...b" [a; b].

Definition example_crop1 (_ _ : Z) (x : ndarray Z) : result (ndarray Z) :=
  Ok x.

Definition example_crop2 (_ _ _ _ : Z) (x : ndarray Z)
  : result (ndarray Z) := Ok x.

Definition example_image : ndarray Z :=
  mk_ndarray [2; 5] [0; 1; 2; 3; 4; 5; 6; 7; 8; 9]%Z.

(** ** [serket._src.nn.reshape]: [CropND] *)

Section Crop.
Context {F : Type}.
Variable validate_spatial_nd : nat -> ndarray F -> result unit.

(** The fields [__init__] sets; [size] and [start] hold what
    [canonicalize] returned: one entry per spatial axis. *)
Record CropND : Type := mk_CropND {
  CropND_size : list Z;
  CropND_start : list Z;
  CropND_spatial_ndim : nat
}.

Definition CropND_call (d0 : F) (self : CropND) (x : ndarray F)
  : result (ndarray F) :=
  _ <- validate_spatial_nd (CropND_spatial_ndim self) x ;;
  Jax.vmap d0
    (fun a => Lax.dynamic_slice d0 a (CropND_start self) (CropND_size self)) x.
End Crop.

(** Where [jax.lax.dynamic_slice] places a window of [sizes] asked for at
    [starts] on axes of lengths [sp]. *)
Definition window_offsets (sp : list nat) (sizes starts : list Z) : list nat :=
  map (fun '(d, (sz, st)) => Z.to_nat (Lax.clamp_start d sz st))
      (combine sp (combine sizes starts)).

(** ** [serket.nn.custom_transform.tree_state] *)

Section TreeState.
Context {F Key DType : Type} `{Scalar F}.
Notation pytree := (pytree F Key DType).

(** [jax.tree_map(f, tree, is_leaf=is_leaf)] as [tree_map], with [None]
    treated as JAX does: a node without leaves, which [f] is not applied
    to. *)
Fixpoint tree_map_leaves (f : pytree -> result pytree)
    (is_leaf : pytree -> bool) (tree : pytree) : result pytree :=
  if is_leaf tree then f tree
  else
    match tree with
    | Atom ANone => Ok tree
    | Atom _ => f tree
    | Node c children =>
        children' <- mapM (tree_map_leaves f is_leaf) children ;;
        Ok (Node c children')
    end.

(** [NoState(_, __)]: the constructor takes exactly two arguments. *)
Definition NoState (args : list pytree) : result pytree :=
  match args with
  | [_; _] => Ok (Node (C_class "NoState") [])
  | _ => Raise TypeError
  end.

(** A [BatchNormState] object. *)
Definition state_object (s : BatchNormState) : pytree :=
  Node (C_class "BatchNormState")
    [Atom (AArray (running_mean s)); Atom (AArray (running_var s))].

(** [jnp.zeros([n])] and [jnp.ones([n])] for an attribute value [n]: the
    shape must be made of non-negative integers. *)
Definition shape_of_attr (v : atom F Key DType) : result (list nat) :=
  match v with
  | AInt n => if (n <? 0)%Z then Raise TypeError else Ok [Z.to_nat n]
  | _ => Raise TypeError
  end.

(** The rule registered for [BatchNorm], of signature [(batchnorm, **_)]:
    it reads [batchnorm.in_features], the first field. *)
Definition state_batchnorm (args : list pytree) : result pytree :=
  match args with
  | [batchnorm] =>
      in_features <- match batchnorm with
                     | Node _ (Atom v :: _) => Ok v
                     | _ => Raise AttributeError
                     end ;;
      s <- shape_of_attr in_features ;;
      let running_mean := Jnp.zeros s in
      s <- shape_of_attr in_features ;;
      let running_var := Jnp.ones s in
      Ok (state_object (mk_BatchNormState running_mean running_var))
  | _ => Raise TypeError
  end.

(** [tree_state.state_dispatcher.registry] once the modules are loaded:
    [singledispatch(NoState)] and the [def_state] registration. *)
Definition state_registry : list (cls * (list pytree -> result pytree)) :=
  [(C_object, NoState); (C_BatchNorm, state_batchnorm)].

Fixpoint find_rule {R : Type} (c : cls) (registry : list (cls * R))
  : option R :=
  match registry with
  | [] => None
  | (d, rule) :: registry' =>
      if cls_eqb c d then Some rule else find_rule c registry'
  end.

(** A [functools.singledispatch] function called with [args]: it
    dispatches on the class of the first. *)
Definition state_dispatcher (args : list pytree) : result pytree :=
  match args with
  | [] => Raise TypeError
  | x :: _ =>
      match find_rule (class_of x) state_registry with
      | Some rule => rule args
      | None =>
          match find_rule C_object state_registry with
          | Some rule => rule args
          | None => Raise TypeError
          end
      end
  end.

(** Build state for a tree of layers. *)
Definition tree_state (tree : pytree) (array : pytree) : result pytree :=
  let types :=
    filter (fun c => negb (cls_eqb c C_object)) (map fst state_registry) in
  let is_leaf := fun x => isinstance x types in
  let dispatch_func := fun leaf =>
    match state_dispatcher [leaf] with
    | Raise TypeError =>
        (* with optional array argument *)
        state_dispatcher [leaf; array]
    | r => r
    end in
  tree_map_leaves dispatch_func is_leaf tree.

(** [state] is [tree] with every [BatchNorm] replaced by its initial
    state, every other leaf by [NoState()], [None] and the containers in
    place. *)
Inductive state_of : pytree -> pytree -> Prop :=
| state_of_batchnorm n fields :
    (0 <= n)%Z ->
    state_of (Node C_BatchNorm (Atom (AInt n) :: fields))
             (state_object
                (mk_BatchNormState (Jnp.zeros [Z.to_nat n])
                                   (Jnp.ones [Z.to_nat n])))
| state_of_none :
    state_of (Atom ANone) (Atom ANone)
| state_of_leaf a :
    a <> ANone ->
    state_of (Atom a) (Node (C_class "NoState") [])
| state_of_node c children children' :
    cls_eqb c C_BatchNorm = false ->
    Forall2 state_of children children' ->
    state_of (Node c children) (Node c children').

(** Every [BatchNorm] object of the tree has a non-negative integer
    [in_features]. *)
Inductive batchnorms_sized : pytree -> Prop :=
| bs_atom a : batchnorms_sized (Atom a)
| bs_batchnorm n fields :
    (0 <= n)%Z ->
    batchnorms_sized (Node C_BatchNorm (Atom (AInt n) :: fields))
| bs_node c children :
    cls_eqb c C_BatchNorm = false ->
    Forall batchnorms_sized children ->
    batchnorms_sized (Node c children).

(** No object of the tree is a [BatchNorm]. *)
Inductive stateless : pytree -> Prop :=
| sl_atom a : stateless (Atom a)
| sl_node c children :
    cls_eqb c C_BatchNorm = false ->
    Forall stateless children ->
    stateless (Node c children).

(** No leaf of a tree of states is a [BatchNormState]: every leaf is
    [NoState()] or [None]. *)
Inductive no_state : pytree -> Prop :=
| ns_none : no_state (Atom ANone)
| ns_nostate : no_state (Node (C_class "NoState") [])
| ns_node c children :
    Forall no_state children ->
    no_state (Node c children).
End TreeState.

(** ** [serket._src.nn.normalization]: layer and group normalisation *)

(** [range(lo, hi)] *)
Definition py_range (lo hi : Z) : list Z :=
  map (fun k => (lo + Z.of_nat k)%Z) (seq 0 (Z.to_nat (hi - lo))).

(** No element of the list occurs twice. *)
Fixpoint distinct (l : list nat) : bool :=
  match l with
  | [] => true
  | a :: l' => negb (existsb (Nat.eqb a) l') && distinct l'
  end.

(** How the [axis] argument of a [jnp] function is read for an array of
    [n] axes: negative axes count from the end; an axis out of range or
    given twice is refused. *)
Definition canonicalize_axes (n : nat) (axes : list Z) : result (list nat) :=
  ax <- mapM (fun a => match py_index n a with
                       | Some k => Ok k
                       | None => Raise ValueError
                       end) axes ;;
  if distinct ax then Ok ax else Raise ValueError.

(** Where [jnp.expand_dims] puts the dimensions of its argument and the
    new dimensions of length one, for a result of [n] further axes from
    position [pos] on. *)
Fixpoint insert_axes (pos n : nat) (axes dims : list nat) : list nat :=
  match n with
  | 0 => []
  | S n' =>
      if existsb (Nat.eqb pos) axes then 1 :: insert_axes (S pos) n' axes dims
      else
        match dims with
        | d :: dims' => d :: insert_axes (S pos) n' axes dims'
        | [] => []
        end
  end.

Section Normalization.
Context {F : Type} `{Scalar F}.

(** [jnp.mean(x, axis=axes, keepdims=True)] *)
Definition mean_axes (x : ndarray F) (axes : list Z) : result (ndarray F) :=
  ax <- canonicalize_axes (ndim x) axes ;;
  Ok (Jnp.mean_keepdims x ax).

(** [jnp.var(x, axis=axes, keepdims=True)]: the mean of the squared
    deviations from the mean. *)
Definition var_axes (x : ndarray F) (axes : list Z) : result (ndarray F) :=
  a_mean <- mean_axes x axes ;;
  centered <- Jnp.sub x a_mean ;;
  mean_axes (Jnp.square centered) axes.

(** [jnp.expand_dims(a, axis=axes)] *)
Definition expand_dims (a : ndarray F) (axes : list Z) : result (ndarray F) :=
  let ndim_out := ndim a + length axes in
  ax <- canonicalize_axes ndim_out axes ;;
  Ok (mk_ndarray (insert_axes 0 ndim_out ax (shape a)) (data a)).

Definition layer_norm (x : ndarray F) (gamma beta : option (ndarray F))
    (eps : F) (normalized_shape : list Z) : result (ndarray F) :=
  let dims :=
    py_range (Z.of_nat (length (shape x))
              - Z.of_nat (length normalized_shape))
             (Z.of_nat (length (shape x))) in
  mu <- mean_axes x dims ;;
  sigma_2 <- var_axes x dims ;;
  centred <- Jnp.sub x mu ;;
  x_hat <- Jnp.mul centred (Lax.rsqrt (Jnp.add_scalar sigma_2 eps)) ;;
  x_hat <- match gamma with
           | Some gamma => Jnp.mul x_hat gamma
           | None => Ok x_hat
           end ;;
  match beta with
  | Some beta => Jnp.add x_hat beta
  | None => Ok x_hat
  end.

Definition group_norm (x : ndarray F) (gamma beta : option (ndarray F))
    (eps : F) (groups : Z) : result (ndarray F) :=
  (* split channels into groups *)
  xx <- Jnp.reshape x [groups; (-1)%Z] ;;
  mu <- mean_axes xx [(-1)%Z] ;;
  sigma_2 <- var_axes xx [(-1)%Z] ;;
  centred <- Jnp.sub xx mu ;;
  x_hat <- Jnp.mul centred (Lax.rsqrt (Jnp.add_scalar sigma_2 eps)) ;;
  x_hat <- Jnp.reshape x_hat (map Z.of_nat (shape x)) ;;
  x_hat <- match gamma with
           | Some gamma =>
               gamma <- expand_dims gamma (py_range 1 (Z.of_nat (ndim x))) ;;
               Jnp.mul x_hat gamma
           | None => Ok x_hat
           end ;;
  match beta with
  | Some beta =>
      beta <- expand_dims beta (py_range 1 (Z.of_nat (ndim x))) ;;
      Jnp.add x_hat beta
  | None => Ok x_hat
  end.

(** [GroupNorm.__call__] of an initialised layer. *)
Definition GroupNorm_call (self : GroupNorm.t (F := F)) (x : ndarray F)
  : result (ndarray F) :=
  group_norm x (GroupNorm.weight self) (GroupNorm.bias self)
    (GroupNorm.eps self) (GroupNorm.groups self).

(** The values a row of [x] holds: the elements at [i ++ j] for [j] over
    the trailing axes [ns], and their statistics. *)
Definition row_values (x : ndarray F) (ns i : list nat) : list F :=
  map (fun j => get f0 x (i ++ j)) (all_indices ns).

Definition row_mean (x : ndarray F) (ns i : list nat) : F :=
  mean_list (row_values x ns i).

Definition row_var (x : ndarray F) (ns i : list nat) : F :=
  mean_list (map (fun v => fmul (fsub v (row_mean x ns i))
                                (fsub v (row_mean x ns i)))
                 (row_values x ns i)).

(** The scale and shift at index [j] of the parameters, when present. *)
Definition affine_at (gamma beta : option (ndarray F)) (j : list nat) (v : F)
  : F :=
  let v := match gamma with
           | Some g => fmul v (get f0 g j)
           | None => v
           end in
  match beta with
  | Some b => fadd v (get f0 b j)
  | None => v
  end.
End Normalization.

Module LayerNorm.
Section LayerNorm.
Context {F Key DType : Type} `{Scalar F}.
Variable eps_on_setattr : F -> result F.
Variable resolve_init : InitType F Key DType -> result (Initializer F Key DType).

Record t : Type := mk {
  normalized_shape : list Z;
  eps : F;
  weight_init : InitType F Key DType;
  bias_init : InitType F Key DType;
  gamma : option (ndarray F);
  beta : option (ndarray F)
}.

(** [LayerNorm.__init__] for a [normalized_shape] that is an integer or
    a tuple (with [None] the [maybe_lazy_init] decorator defers the
    body). *)
Definition init (normalized_shape : Z + list Z) (key : Key) (eps : F)
    (weight_init bias_init : InitType F Key DType) (dtype : DType)
  : result t :=
  let self_normalized_shape :=
    match normalized_shape with
    | inr tuple => tuple
    | inl n => [n]
    end in
  self_eps <- eps_on_setattr eps ;;
  w_init <- resolve_init weight_init ;;
  self_gamma <- w_init key self_normalized_shape dtype ;;
  b_init <- resolve_init bias_init ;;
  self_beta <- b_init key self_normalized_shape dtype ;;
  Ok (mk self_normalized_shape self_eps weight_init bias_init
        self_gamma self_beta).

(** [LayerNorm.__call__] of an initialised layer. *)
Definition call (self : t) (x : ndarray F) : result (ndarray F) :=
  layer_norm x (gamma self) (beta self) (eps self) (normalized_shape self).
End LayerNorm.
End LayerNorm.

(** [InstanceNorm.__init__]: a [GroupNorm] with one group per feature. *)
Definition InstanceNorm_init {F Key DType : Type}
    (positive_int_cb : Z -> result Z) (eps_on_setattr : F -> result F)
    (resolve_init : InitType F Key DType -> result (Initializer F Key DType))
    (in_features : Z) (key : Key) (eps : F)
    (weight_init bias_init : InitType F Key DType) (dtype : DType)
  : result (GroupNorm.t (F := F)) :=
  GroupNorm.init positive_int_cb eps_on_setattr resolve_init
    in_features key in_features eps weight_init bias_init dtype.

(** The mask that reduces the last [k] of [p + k] axes. *)
Definition trailing (p k : nat) : list bool :=
  repeat false p ++ repeat true k.

(** The values a group of channels holds: the elements of the [cg]
    consecutive channels of group [g], and their statistics. *)
Section GroupStatistics.
Context {F : Type} `{Scalar F}.

Definition group_values (x : ndarray F) (cg g : nat) : list F :=
  flat_map (fun ch => map (fun idx => get f0 x (ch :: idx))
                          (all_indices (tl (shape x))))
           (seq (g * cg) cg).

Definition group_mean (x : ndarray F) (cg g : nat) : F :=
  mean_list (group_values x cg g).

Definition group_var (x : ndarray F) (cg g : nat) : F :=
  mean_list (map (fun v => fmul (fsub v (group_mean x cg g))
                                (fsub v (group_mean x cg g)))
                 (group_values x cg g)).
End GroupStatistics.

(** ** [serket.nn.linear]: [GeneralLinear.__call__] *)

(** [sorted(l)] on integers. *)
Fixpoint insert_sorted (a : Z) (l : list Z) : list Z :=
  match l with
  | [] => [a]
  | b :: l' => if (a <=? b)%Z then a :: l else b :: insert_sorted a l'
  end.

Definition sorted (l : list Z) : list Z := fold_right insert_sorted [] l.

(** [min(l)]: an empty sequence raises [ValueError]. *)
Definition py_min (l : list Z) : result Z :=
  match l with
  | [] => Raise ValueError
  | a :: l' => Ok (fold_left Z.min l' a)
  end.

(** [s[i]] on a string. *)
Definition str_item (s : string) (i : Z) : result ascii :=
  get_item (list_ascii_of_string s) i.

(** [c in s] for a character [c]. *)
Definition char_in (c : ascii) (s : string) : bool :=
  existsb (Ascii.eqb c) (list_ascii_of_string s).

(** Return the einsum string for a general linear layer. *)
Definition _general_linear_einsum_string (axes : list Z) : result string :=
  if negb (forallb (fun i => (i <? 0)%Z) axes) then Raise ValueError
  else
    let axes := sorted axes in
    m <- py_min axes ;;
    let total_axis := Z.abs m in  (* get the total number of axes *)
    let input_string :=
      ("..." ++ substring 0 (Z.to_nat total_axis) alpha)%string in
    picked <- mapM (fun axis => str_item input_string axis) axes ;;
    last <- str_item alpha total_axis ;;
    let weight_string :=
      (string_of_list_ascii picked ++ String last EmptyString)%string in
    let result_string :=
      string_of_list_ascii
        (filter (fun ai => negb (char_in ai weight_string))
                (list_ascii_of_string input_string)) in
    last <- str_item alpha total_axis ;;
    let result_string := (result_string ++ String last EmptyString)%string in
    Ok (input_string ++ "," ++ weight_string ++ "->" ++ result_string)%string.

(** [GeneralLinear.__call__] of an initialised layer. *)
Definition GeneralLinear_call {F : Type} `{Scalar F}
    (self : GeneralLinear.t (F := F)) (x : ndarray F) : result (ndarray F) :=
  (* ensure negative axes *)
  let axes := map (fun i => if (i <? 0)%Z then i else (i - Z.of_nat (ndim x))%Z)
                  (GeneralLinear.in_axes self) in
  einsum_string <- _general_linear_einsum_string axes ;;
  match GeneralLinear.weight self with
  | Some weight => Jnp.einsum einsum_string [x; weight]
  | None => Raise TypeError
  end.

(** ** [serket._src.nn.reshape]: the length [random_zoom_along_axis]
    resizes an axis of length [axis_size] to *)

Definition resized_axis_size {F : Type} `{Scalar F} (axis_size : nat)
    (factor : F) : Z :=
  to_int (fmul (of_nat axis_size) (fadd f1 factor)).

(** A stand-in for [jax.image.resize]: nearest neighbour. *)
Definition nearest_resize (x : ndarray Z) (shp : list Z) (_ : string)
  : result (ndarray Z) :=
  Ok (tabulate (map Z.to_nat shp)
        (fun idx =>
           get 0%Z x
             (zip_with (fun i '(d, n) => i * d / n) idx
                (combine (shape x) (map Z.to_nat shp))))).

(** ** [serket._src.nn.reshape]: [ResizeND] and [UpsampleND] *)

Section Resize.
Context {F : Type}.
Variable validate_spatial_nd : nat -> ndarray F -> result unit.

(** [jax.image.resize(image, shape, method, antialias)]. *)
Variable image_resize :
  ndarray F -> list Z -> string -> bool -> result (ndarray F).

Record ResizeND : Type := mk_ResizeND {
  ResizeND_size : list Z;
  ResizeND_method : string;
  ResizeND_antialias : bool;
  ResizeND_spatial_ndim : nat
}.

Definition ResizeND_call (d0 : F) (self : ResizeND) (x : ndarray F)
  : result (ndarray F) :=
  _ <- validate_spatial_nd (ResizeND_spatial_ndim self) x ;;
  Jax.vmap d0
    (fun a => image_resize a (ResizeND_size self) (ResizeND_method self)
                (ResizeND_antialias self)) x.

Record UpsampleND : Type := mk_UpsampleND {
  UpsampleND_scale : list Z;
  UpsampleND_method : string;
  UpsampleND_spatial_ndim : nat
}.

(** [antialias] is left at its default, [True]. *)
Definition UpsampleND_call (d0 : F) (self : UpsampleND) (x : ndarray F)
  : result (ndarray F) :=
  _ <- validate_spatial_nd (UpsampleND_spatial_ndim self) x ;;
  resized_shape <-
    mapM (fun '(i, s) =>
            d <- get_item (shape x) (Z.of_nat i + 1) ;;
            Ok (s * Z.of_nat d)%Z)
         (combine (seq 0 (length (UpsampleND_scale self)))
                  (UpsampleND_scale self)) ;;
  Jax.vmap d0
    (fun a => image_resize a resized_shape (UpsampleND_method self) true) x.
End Resize.

(** ** [osiris.nn.linear]: [Linear] and [MLP] *)

Module Osiris.
Section Osiris.
Context {F : Type} `{Scalar F}.

(** [x @ w], a host primitive. *)
Variable matmul : ndarray F -> ndarray F -> result (ndarray F).

(** The fields [__init__] sets; [bias] is the number [0] when
    [bias_init_func] is [None]: then it is [None] here. *)
Record Linear : Type := mk_Linear {
  weight : ndarray F;
  bias : option (ndarray F);
  in_features : Z;
  out_features : Z
}.

Definition Linear_call (self : Linear) (x : ndarray F) : result (ndarray F) :=
  y <- matmul x (weight self) ;;
  match bias self with
  | Some bias => Jnp.add y bias
  | None => Ok (Jnp.add_scalar y f0)
  end.

(** [names] lists the registered [Linear] layers in order; they are kept
    here as the layers themselves. *)
Record MLP : Type := mk_MLP {
  act_func : ndarray F -> result (ndarray F);
  layers : list Linear
}.

Definition MLP_call (self : MLP) (x : ndarray F) : result (ndarray F) :=
  x <- fold_left (fun acc layer =>
                    x <- acc ;;
                    x <- Linear_call layer x ;;
                    act_func self x)
                 (removelast (layers self)) (Ok x) ;;
  match rev (layers self) with
  | [] => Raise IndexError
  | last_layer :: _ => Linear_call last_layer x
  end.
End Osiris.
End Osiris.

(** ** A layer call with its arguments *)

Section LayerCall.
Context {F Key DType : Type} `{Scalar F}.

(** What a call finds around it: [jax.random.PRNGKey] and
    [jax.random.split], [jax.image.resize], [jax.lax.pmean], the matrix
    product [@], whether the driver traces the call under [jax.vmap], and
    the decorators and layers whose code is not part of the sources at
    hand. *)
Variable PRNGKey : Z -> Key.
Variable split : Key -> nat -> list Key.
Variable image_resize :
  ndarray F -> list Z -> string -> bool -> result (ndarray F).
Variable pmean : ndarray F -> string -> result (ndarray F).
Variable matmul : ndarray F -> ndarray F -> result (ndarray F).
Variable under_vmap : bool.
Variable validate_spatial_nd : nat -> ndarray F -> result unit.
Variable validate_spatial_in_shape : nat -> ndarray F -> result unit.
Variable _check_spatial_in_shape : nat -> ndarray F -> result unit.
Variable Crop1D : Z -> Z -> ndarray F -> result (ndarray F).
Variable Crop2D : Z -> Z -> Z -> Z -> ndarray F -> result (ndarray F).

(** The layers declared with [pytc.treeclass] ([serket.nn.linear],
    [serket.nn.padding], [serket.nn.dropout],
    [serket.nn.random_transform]): the ones [RandomApply.__init__]
    accepts as its [layer] ([is_treeclass]).  Their [__call__] takes the
    input and a [key] keyword; the layers that draw nothing take it
    through [**k] and ignore it. *)
Inductive Treeclass : Type :=
| TIdentity
| TMultilinear (layer : Multilinear.t (F := F))
| TGeneralLinear (layer : GeneralLinear.t (F := F))
| TPadND (layer : OldPad.PadND (F := F))
| TDropout (p : F)
| TDropoutND (spatial_ndim : nat) (p : F)
| TRandomCrop1D (length_ : Z)
| TRandomCrop2D (height width : Z)
| TRandomApply (layer : Treeclass) (p : F) (eval : option bool).

(** A layer together with an argument tuple its [__call__] takes: the
    input (the inputs, for [Multilinear]), and the random key or the
    state where the signature has one.  A key or a state left out is
    [None]. *)
Inductive Call : Type :=
| CTreeclass (layer : Treeclass) (x : ndarray F) (key : option Key)
| CMultilinear (layer : Multilinear.t (F := F)) (x : list (ndarray F))
| CFlatten (start_dim end_dim : Z) (x : ndarray F)
| CUnflatten (dim : Z) (shape_ : list Z) (x : ndarray F)
| CResizeND (layer : ResizeND) (x : ndarray F)
| CUpsampleND (layer : UpsampleND) (x : ndarray F)
| CCropND (layer : CropND) (x : ndarray F)
| CPadND (layer : NewPad.PadND (F := F)) (x : ndarray F)
| CCenterCropND (layer : CenterCropND) (x : ndarray F) (key : option Key)
| CRandomCropND (size : list Z) (spatial_ndim : nat) (x : ndarray F)
    (key : option Key)
| CRandomZoom1D (length_factor : F * F) (x : ndarray F) (key : option Key)
| CRandomZoom2D (height_factor width_factor : F * F) (x : ndarray F)
    (key : option Key)
| CRandomZoom3D (height_factor width_factor depth_factor : F * F)
    (x : ndarray F) (key : option Key)
| CLayerNorm (layer : LayerNorm.t (F := F) (Key := Key) (DType := DType))
    (x : ndarray F)
| CGroupNorm (layer : GroupNorm.t (F := F)) (x : ndarray F)
| CBatchNorm (layer : NormFields F Key DType) (x : ndarray F)
    (state : option (BatchNormState (F := F)))
| CEvalNorm (layer : NormFields F Key DType) (x : ndarray F)
    (state : BatchNormState (F := F))
| COsirisLinear (layer : Osiris.Linear (F := F)) (x : ndarray F)
| COsirisMLP (layer : Osiris.MLP (F := F)) (x : ndarray F).

(** [jax.image.resize(x, shape, method)], as [random_zoom_along_axis]
    calls it. *)
Definition resize (x : ndarray F) (shape_ : list Z) (method : string)
  : result (ndarray F) :=
  image_resize x shape_ method true.

Section Sampled.
Variable S : Sampler F Key.

(** [layer(x, key=key)] for a [pytc.treeclass] layer; with [key = None]
    the call leaves the key out and a layer that takes one uses its
    default.  [RandomApply] draws its coin at its own key and calls the
    wrapped layer with the input alone. *)
Fixpoint treeclass_call (layer : Treeclass) (x : ndarray F)
    (key : option Key) : result (ndarray F) :=
  match layer with
  | TIdentity => Ok x
  | TMultilinear layer => Multilinear.call layer [x]
  | TGeneralLinear layer => GeneralLinear_call layer x
  | TPadND layer => OldPad.call _check_spatial_in_shape f0 layer x
  | TDropout p => Dropout_call S p x (key_or_default PRNGKey key)
  | TDropoutND spatial_ndim p =>
      DropoutND_call validate_spatial_in_shape S spatial_ndim p x
        (key_or_default PRNGKey key)
  | TRandomCrop1D length_ =>
      RandomCrop1D_old_call Crop1D S length_ x (key_or_default PRNGKey key)
  | TRandomCrop2D height width =>
      RandomCrop2D_old_call Crop2D S height width x
        (key_or_default PRNGKey key)
  | TRandomApply layer p eval =>
      let key := key_or_default PRNGKey key in
      let drawn := get false (bernoulli S key p []) [] in
      if match eval with Some true => true | _ => false end || negb drawn
      then Ok x
      else treeclass_call layer x None
  end.

(** The call, with what it returns: an array, and the new state for the
    layers that take one. *)
Definition layer_call (c : Call)
  : result (ndarray F * option (BatchNormState (F := F))) :=
  let array := fun r : result (ndarray F) => y <- r ;; Ok (y, None) in
  let stateful := fun r : result (ndarray F * BatchNormState) =>
    out <- r ;; Ok (fst out, Some (snd out)) in
  match c with
  | CTreeclass layer x key => array (treeclass_call layer x key)
  | CMultilinear layer x => array (Multilinear.call layer x)
  | CFlatten start_dim end_dim x => array (flatten x start_dim end_dim)
  | CUnflatten dim shape_ x => array (unflatten x dim shape_)
  | CResizeND layer x =>
      array (ResizeND_call validate_spatial_nd image_resize f0 layer x)
  | CUpsampleND layer x =>
      array (UpsampleND_call validate_spatial_nd image_resize f0 layer x)
  | CCropND layer x => array (CropND_call validate_spatial_nd f0 layer x)
  | CPadND layer x => array (NewPad.call validate_spatial_nd f0 layer x)
  | CCenterCropND layer x _ =>
      array (CenterCropND_call validate_spatial_nd f0 layer x)
  | CRandomCropND size spatial_ndim x key =>
      array (RandomCropND_call validate_spatial_nd S size spatial_ndim x
               (key_or_default PRNGKey key))
  | CRandomZoom1D length_factor x key =>
      array (RandomZoom1D_call split resize validate_spatial_nd S
               length_factor x (key_or_default PRNGKey key))
  | CRandomZoom2D height_factor width_factor x key =>
      array (RandomZoom2D_call split resize validate_spatial_nd S
               height_factor width_factor x (key_or_default PRNGKey key))
  | CRandomZoom3D height_factor width_factor depth_factor x key =>
      array (RandomZoom3D_call split resize validate_spatial_nd S
               height_factor width_factor depth_factor x
               (key_or_default PRNGKey key))
  | CLayerNorm layer x => array (LayerNorm.call layer x)
  | CGroupNorm layer x => array (GroupNorm_call layer x)
  | CBatchNorm layer x state =>
      stateful (BatchNorm_call pmean under_vmap layer x state)
  | CEvalNorm layer x state =>
      stateful (EvalNorm_call pmean under_vmap layer x state)
  | COsirisLinear layer x => array (Osiris.Linear_call matmul layer x)
  | COsirisMLP layer x => array (Osiris.MLP_call matmul layer x)
  end.
End Sampled.

(** The keys from which a call derives every key it draws at: for a
    layer that samples, the key passed, or the default [PRNGKey(0)] when
    the key is left out; for [RandomApply], its own key and, as the
    wrapped layer is called without one, what that layer derives from
    the default.  The other layers draw nothing. *)
Fixpoint treeclass_roots (layer : Treeclass) (key : option Key) : list Key :=
  match layer with
  | TDropout _ | TDropoutND _ _ | TRandomCrop1D _ | TRandomCrop2D _ _ =>
      [key_or_default PRNGKey key]
  | TRandomApply layer _ _ =>
      key_or_default PRNGKey key :: treeclass_roots layer None
  | TIdentity | TMultilinear _ | TGeneralLinear _ | TPadND _ => []
  end.

Definition call_roots (c : Call) : list Key :=
  match c with
  | CTreeclass layer _ key => treeclass_roots layer key
  | CRandomCropND _ _ _ key | CRandomZoom1D _ _ key
  | CRandomZoom2D _ _ _ key | CRandomZoom3D _ _ _ _ key =>
      [key_or_default PRNGKey key]
  | _ => []
  end.
End LayerCall.

(** ** Further instances, used to run the model *)

Definition example_vector : ndarray Z := mk_ndarray [3] [1; 2; 3]%Z.

(** Four channels of two elements, and a [GroupNorm] with two groups
    for them. *)
Definition example_channels : ndarray Z :=
  mk_ndarray [4; 2] [1; 2; 3; 4; 5; 6; 7; 8]%Z.

Definition example_group_norm : GroupNorm.t (F := Z) :=
  GroupNorm.mk 4%Z 2%Z 1%Z (Some (mk_ndarray [4] [1; 1; 1; 1]%Z))
    (Some (mk_ndarray [4] [0; 0; 0; 0]%Z)).

(** A [LayerNorm] over a last axis of length three. *)
Definition example_layer_norm
  : LayerNorm.t (F := Z) (Key := nat) (DType := unit) :=
  LayerNorm.mk [3%Z] 1%Z (InitName "ones") (InitName "zeros")
    (Some (mk_ndarray [3] [1; 1; 1]%Z)) (Some (mk_ndarray [3] [0; 0; 0]%Z)).

(** A state whose statistics hold two elements. *)
Definition example_short_state : BatchNormState (F := Z) :=
  mk_BatchNormState (full [2] 0%Z) (full [2] 1%Z).

(** [GeneralLinear] layers: one over two axes, given in any order, and
    one over the last axis with the [Multilinear] it is compared to. *)
Definition example_general_linear (in_axes : list Z)
  : GeneralLinear.t (F := Z) :=
  GeneralLinear.mk [2; 3]%Z 2%Z in_axes
    (Some (Multilinear.weight example_bilinear)) None.

Definition example_weight : ndarray Z :=
  mk_ndarray [3; 2] [1; 2; 3; 4; 5; 6]%Z.

Definition example_last_axis : GeneralLinear.t (F := Z) :=
  GeneralLinear.mk [3]%Z 2%Z [(-1)%Z] (Some example_weight)
    (Some (mk_ndarray [2] [100; 200]%Z)).

Definition example_linear : Multilinear.t (F := Z) :=
  Multilinear.mk example_weight None [3]%Z 2%Z.

(** A call of [RandomCrop1D(2)] with a key. *)
Definition example_call : Call (F := Z) (Key := nat) (DType := unit) :=
  CRandomCropND [2%Z] 1 example_image (Some 4).

(** Rational arithmetic as scalars, for probabilities between 0 and 1:
    exact, every result reduced; a square root is rounded down to a
    multiple of the inverse of the denominator. *)
#[export] Instance Scalar_Q : Scalar QArith_base.Q | 10 := {
  f0 := QArith_base.Qmake 0 1;
  f1 := QArith_base.Qmake 1 1;
  fadd := fun x y => Qreduction.Qred (QArith_base.Qplus x y);
  fsub := fun x y => Qreduction.Qred (QArith_base.Qminus x y);
  fmul := fun x y => Qreduction.Qred (QArith_base.Qmult x y);
  fdiv := fun x y => Qreduction.Qred (QArith_base.Qdiv x y);
  fsqrt := fun x =>
    Qreduction.Qred
      (QArith_base.Qmake
         (Z.sqrt (QArith_base.Qnum x * Z.pos (QArith_base.Qden x)))
         (QArith_base.Qden x));
  frsqrt := fun x =>
    Qreduction.Qred
      (QArith_base.Qinv
         (QArith_base.Qmake
            (Z.sqrt (QArith_base.Qnum x * Z.pos (QArith_base.Qden x)))
            (QArith_base.Qden x)));
  of_nat := fun n => QArith_base.inject_Z (Z.of_nat n);
  feqb := QArith_base.Qeq_bool;
  fltb := fun x y => negb (QArith_base.Qle_bool y x);
  to_int := Qround.Qfloor
}.

(** The probability [0.5], the default [p] of the dropout layers. *)
Definition one_half : QArith_base.Q := QArith_base.Qmake 1 2.

(** A sampler whose masks keep some elements and drop others: the entry
    at [idx] of the mask drawn at key [k] is set when [k] plus the sum of
    [idx] is even. *)
Definition checker_sampler : Sampler QArith_base.Q nat :=
  mk_Sampler
    (fun k _ shp => tabulate shp (fun idx => Nat.even (k + list_sum idx)))
    (fun _ lo _ => lo)
    (fun _ lo _ => lo).

(** Two channels of two rational elements. *)
Definition example_rationals : ndarray QArith_base.Q :=
  mk_ndarray [2; 2] (map QArith_base.inject_Z [1; 2; 3; 4]%Z).

(* ===================================================================== *)
(** * Part II - lemmas and theorems                                       *)
(* ===================================================================== *)

(** ** Shapes and slices *)

Lemma prod_app (s t : list nat) : prod (s ++ t) = prod s * prod t.
Proof.
induction s as [|d s IH]; simpl.
- lia.
- rewrite IH. lia.
Qed.

Lemma prod_firstn_skipn (s : list nat) (a b : nat) :
a <= b ->
prod (firstn a s ++ [prod (firstn (b - a) (skipn a s))] ++ skipn b s) = prod s.
Proof.
intros Hab.
rewrite <- (firstn_skipn a s) at 4.
rewrite <- (firstn_skipn (b - a) (skipn a s)) at 2.
rewrite !prod_app. simpl.
rewrite skipn_skipn.
replace (b - a + a) with b by lia. lia.
Qed.

Lemma map_to_nat_of_nat (s : list nat) : map Z.to_nat (map Z.of_nat s) = s.
Proof.
induction s as [|d s IH]; simpl; [reflexivity|].
now rewrite Nat2Z.id, IH.
Qed.

Lemma mapM_keep {A : Type} (f : A -> result A) (l : list A) :
(forall a, In a l -> f a = Ok a) -> mapM f l = Ok l.
Proof.
induction l as [|a l IH]; intros Hf; [reflexivity|].
cbn [mapM]. rewrite (Hf a (or_introl eq_refl)). cbn [bind].
change ((fix go (l0 : list A) : result (list A) :=
           match l0 with
           | [] => Ok []
           | a0 :: l' => b <- f a0 ;; l'' <- go l' ;; Ok (b :: l'')
           end) l) with (mapM f l).
rewrite IH by (intros b Hb; apply Hf; now right). reflexivity.
Qed.

(** Explicit sizes are taken as they are. *)
Lemma compute_newshape_of_nat (s0 s : list nat) :
_compute_newshape s0 (map Z.of_nat s) = Ok (map Z.of_nat s).
Proof.
unfold _compute_newshape. apply mapM_keep.
intros d Hd. apply in_map_iff in Hd. destruct Hd as [n [<- _]].
destruct (Z.eqb_spec (Z.of_nat n) (-1)); [lia|reflexivity].
Qed.

Lemma shape_rule_of_nat (s0 s : list nat) :
reshape_shape_rule s0 (map Z.of_nat s)
= if prod s =? prod s0 then Ok s else Raise TypeError.
Proof.
unfold reshape_shape_rule.
assert (Hnn : forallb (fun d => (0 <=? d)%Z) (map Z.of_nat s) = true).
{ apply forallb_forall. intros d Hd. apply in_map_iff in Hd.
  destruct Hd as [n [<- _]]. apply Z.leb_le. lia. }
rewrite Hnn, map_to_nat_of_nat. cbn [negb].
now destruct (prod s =? prod s0).
Qed.

Lemma slice_bound_of_nat (n k : nat) : slice_bound n (Z.of_nat k) = Nat.min k n.
Proof.
unfold slice_bound.
destruct (Z.ltb_spec (Z.of_nat k) 0); lia.
Qed.

Lemma slice_bound_neg (n : nat) (b : Z) :
(b < 0)%Z -> slice_bound n b = Z.to_nat (b + Z.of_nat n).
Proof.
intros Hb. unfold slice_bound.
destruct (Z.ltb_spec b 0); lia.
Qed.

(** ** Flatten and unflatten *)

Section FlattenFacts.
Context {F : Type}.

Lemma reshape_of_nat (a : ndarray F) (s : list nat) :
  prod s = prod (shape a) ->
  Jnp.reshape a (map Z.of_nat s) = Ok (mk_ndarray s (data a)).
Proof.
  intros Hs. unfold Jnp.reshape.
  rewrite compute_newshape_of_nat. cbn [bind].
  rewrite shape_rule_of_nat, (proj2 (Nat.eqb_eq _ _) Hs). reflexivity.
Qed.

(** Explicit sizes of another total are refused. *)
Lemma reshape_mismatch (a : ndarray F) (s : list nat) :
  prod s <> prod (shape a) ->
  Jnp.reshape a (map Z.of_nat s) = Raise TypeError.
Proof.
  intros Hs. unfold Jnp.reshape.
  rewrite compute_newshape_of_nat. cbn [bind].
  rewrite shape_rule_of_nat, (proj2 (Nat.eqb_neq _ _) Hs). reflexivity.
Qed.

(** What [flatten] computes for in-range, non-negative dimensions. *)
Lemma flatten_nonneg (x : ndarray F) (s e : nat) :
  s <= e < ndim x ->
  flatten x (Z.of_nat s) (Z.of_nat e) =
  Ok (mk_ndarray
        (firstn s (shape x) ++ [prod (firstn (S e - s) (skipn s (shape x)))]
           ++ skipn (S e) (shape x))
        (data x)).
Proof.
  intros [Hse He]. unfold flatten, Lax.collapse, ndim in *. cbv zeta.
  destruct (Z.leb_spec 0 (Z.of_nat s)); [|lia].
  destruct (Z.leb_spec 0 (Z.of_nat e)); [|lia].
  rewrite !Z.add_0_r.
  replace (Z.of_nat e + 1)%Z with (Z.of_nat (S e)) by lia.
  rewrite !slice_bound_of_nat.
  rewrite (Nat.min_l s) by lia. rewrite (Nat.min_l (S e)) by lia.
  destruct (Nat.ltb_spec (S e) (s + 2)) as [Hlt|Hge].
  - assert (e = s) by lia. subst e.
    replace (S s - s) with 1 by lia.
    destruct x as [sh dt]. cbn [shape data] in *. f_equal. f_equal.
    rewrite <- (firstn_skipn s sh) at 1. f_equal.
    destruct (skipn s sh) as [|d r] eqn:Hsk.
    + exfalso. apply (f_equal (@length nat)) in Hsk.
      rewrite length_skipn in Hsk. simpl in Hsk. lia.
    + assert (Hr : skipn (S s) sh = r).
      { change (S s) with (1 + s). now rewrite <- skipn_skipn, Hsk. }
      rewrite Hr. simpl. now rewrite Nat.mul_1_r.
  - apply reshape_of_nat. apply prod_firstn_skipn. lia.
Qed.

(** Negative dimensions name the same axes as their non-negative
    counterparts. *)
Lemma flatten_negative (x : ndarray F) (s e : nat) :
  s <= e < ndim x ->
  flatten x (Z.of_nat s - Z.of_nat (ndim x)) (Z.of_nat e - Z.of_nat (ndim x))
  = flatten x (Z.of_nat s) (Z.of_nat e).
Proof.
  intros [Hse He]. unfold flatten.
  destruct (Z.leb_spec 0 (Z.of_nat s - Z.of_nat (ndim x))); [lia|].
  destruct (Z.leb_spec 0 (Z.of_nat e - Z.of_nat (ndim x))); [lia|].
  destruct (Z.leb_spec 0 (Z.of_nat s)); [|lia].
  destruct (Z.leb_spec 0 (Z.of_nat e)); [|lia].
  f_equal; lia.
Qed.
End FlattenFacts.

Lemma firstn_mid_skipn {A : Type} (l : list A) (a b : nat) :
a <= b -> firstn a l ++ firstn (b - a) (skipn a l) ++ skipn b l = l.
Proof.
intros Hab.
rewrite <- (firstn_skipn a l) at 4. f_equal.
rewrite <- (firstn_skipn (b - a) (skipn a l)) at 2. f_equal.
rewrite skipn_skipn. f_equal. lia.
Qed.

Lemma ravel_app (s1 s2 i1 i2 : list nat) :
length i1 = length s1 ->
ravel (s1 ++ s2) (i1 ++ i2) = ravel s1 i1 * prod s2 + ravel s2 i2.
Proof.
revert i1. induction s1 as [|d s1 IH]; intros [|i i1] Hlen;
  simpl in Hlen; try discriminate; simpl.
- reflexivity.
- rewrite IH by lia. rewrite prod_app. lia.
Qed.

(** Collapsing the middle block of a shape keeps the row-major position
  of every element. *)
Lemma ravel_collapse (s1 s2 s3 i1 i2 i3 : list nat) :
length i1 = length s1 -> length i2 = length s2 ->
ravel (s1 ++ [prod s2] ++ s3) (i1 ++ [ravel s2 i2] ++ i3)
= ravel (s1 ++ s2 ++ s3) (i1 ++ i2 ++ i3).
Proof.
intros H1 H2.
rewrite (ravel_app s1 ([prod s2] ++ s3) i1 ([ravel s2 i2] ++ i3) H1).
rewrite (ravel_app s1 (s2 ++ s3) i1 (i2 ++ i3) H1).
rewrite (ravel_app s2 s3 i2 i3 H2).
rewrite !prod_app. cbn [ravel app].
replace (prod [prod s2]) with (prod s2) by (unfold prod; simpl; lia).
lia.
Qed.

Section UnflattenFacts.
Context {F : Type}.

Lemma unflatten_collapsed (sh : list nat) (dt : list F) (s e : nat) :
  s <= e < length sh ->
  let mid := firstn (S e - s) (skipn s sh) in
  unflatten (mk_ndarray (firstn s sh ++ [prod mid] ++ skipn (S e) sh) dt)
            (Z.of_nat s) (map Z.of_nat mid)
  = Ok (mk_ndarray sh dt).
Proof.
  intros [Hse He] mid. unfold unflatten, py_slice_to, py_slice_from.
  cbn [shape data].
  replace (Z.of_nat s + 1)%Z with (Z.of_nat (S s)) by lia.
  rewrite !slice_bound_of_nat, length_map.
  assert (Hlen : length (firstn s sh) = s) by (rewrite length_firstn; lia).
  assert (Hl : length (firstn s sh ++ [prod mid] ++ skipn (S e) sh)
               = s + 1 + (length sh - S e)).
  { rewrite !length_app, Hlen, length_skipn. simpl. lia. }
  rewrite Hl, (Nat.min_l s), (Nat.min_l (S s)) by lia.
  rewrite firstn_map, skipn_map.
  rewrite firstn_app, Hlen, Nat.sub_diag, firstn_firstn, Nat.min_id.
  cbn [firstn]. rewrite app_nil_r.
  rewrite skipn_app, Hlen.
  rewrite (skipn_all2 (firstn s sh)) by lia.
  replace (S s - s) with 1 by lia.
  change (skipn 1 ([prod mid] ++ skipn (S e) sh)) with (skipn (S e) sh).
  cbn [map app].
  rewrite <- !map_app.
  unfold mid. rewrite (firstn_mid_skipn sh (a := s) (b := S e)) by lia.
  rewrite reshape_of_nat; [reflexivity|].
  cbn [shape]. symmetry. apply prod_firstn_skipn. lia.
Qed.
End UnflattenFacts.

(** C9.  [Flatten] and [Unflatten] are inverse to each other: for every
  array [x] and dimensions [0 <= start_dim <= end_dim < x.ndim],
  [flatten] returns an array [y] such that unflattening [y] at
  [start_dim] with the shape [x.shape[start_dim .. end_dim]] returns [x]
  exactly.  [flatten] collapses the dimensions [start_dim .. end_dim]
  (inclusive) into one whose size is their product, keeps the
  row-major data, hence the order of the elements, and accepts the
  same dimensions written negatively. *)
Theorem flatten_unflatten_inverse {F : Type} (d0 : F) (x : ndarray F)
  (start_dim end_dim : Z) :
(0 <= start_dim)%Z -> (start_dim <= end_dim)%Z ->
(end_dim < Z.of_nat (ndim x))%Z ->
let mid := py_slice (shape x) start_dim (end_dim + 1) in
exists y,
  flatten x start_dim end_dim = Ok y
  /\ unflatten y start_dim (map Z.of_nat mid) = Ok x
  /\ shape y = py_slice_to (shape x) start_dim ++ [prod mid]
                 ++ py_slice_from (shape x) (end_dim + 1)
  /\ data y = data x
  /\ (forall pre i post,
         length pre = Z.to_nat start_dim -> length i = length mid ->
         get d0 y (pre ++ [ravel mid i] ++ post)
         = get d0 x (pre ++ i ++ post))
  /\ flatten x (start_dim - Z.of_nat (ndim x)) (end_dim - Z.of_nat (ndim x))
     = Ok y.
Proof.
intros Hs Hse He mid.
pose (s := Z.to_nat start_dim). pose (e := Z.to_nat end_dim).
assert (Es : start_dim = Z.of_nat s) by (unfold s; lia).
assert (Ee : end_dim = Z.of_nat e) by (unfold e; lia).
assert (Hr : s <= e < ndim x) by (unfold s, e; lia).
assert (Hmid : mid = firstn (S e - s) (skipn s (shape x))).
{ unfold mid, py_slice. rewrite Es, Ee.
  replace (Z.of_nat e + 1)%Z with (Z.of_nat (S e)) by lia.
  rewrite !slice_bound_of_nat.
  unfold ndim in Hr. now rewrite (Nat.min_l s), (Nat.min_l (S e)) by lia. }
assert (Hto : py_slice_to (shape x) start_dim = firstn s (shape x)).
{ unfold py_slice_to. rewrite Es, slice_bound_of_nat.
  unfold ndim in Hr. now rewrite Nat.min_l by lia. }
assert (Hfrom : py_slice_from (shape x) (end_dim + 1) = skipn (S e) (shape x)).
{ unfold py_slice_from. rewrite Ee.
  replace (Z.of_nat e + 1)%Z with (Z.of_nat (S e)) by lia.
  rewrite slice_bound_of_nat.
  unfold ndim in Hr. now rewrite Nat.min_l by lia. }
eexists. split; [|split; [|split; [|split; [|split]]]].
- rewrite Es, Ee. apply (flatten_nonneg x Hr).
- rewrite Hmid, Es. destruct x as [sh dt].
  apply (unflatten_collapsed sh dt Hr).
- cbn [shape]. now rewrite Hto, Hfrom, Hmid.
- reflexivity.
- intros pre i post Hpre Hi. unfold get. cbn [shape data].
  rewrite <- Hmid. f_equal.
  rewrite <- (firstn_mid_skipn (shape x) (a := s) (b := S e)) at 3 by lia.
  rewrite <- Hmid.
  apply ravel_collapse; [|assumption].
  rewrite Hpre, length_firstn. unfold ndim in Hr. fold s. lia.
- rewrite Es, Ee, (flatten_negative x Hr). apply (flatten_nonneg x Hr).
Qed.

Lemma flatten_unflatten_inverse_witness :
((0 <= 1)%Z /\ (1 <= 2)%Z /\ (2 < Z.of_nat (ndim example_cube))%Z)
/\ exists y,
    flatten example_cube 1 2 = Ok y
    /\ unflatten y 1 (map Z.of_nat (py_slice (shape example_cube) 1 (2 + 1))) = Ok example_cube
    /\ shape y = py_slice_to (shape example_cube) 1
                   ++ [prod (py_slice (shape example_cube) 1 (2 + 1))]
                   ++ py_slice_from (shape example_cube) (2 + 1)
    /\ data y = data example_cube
    /\ (forall pre i post,
           length pre = Z.to_nat 1 ->
           length i = length (py_slice (shape example_cube) 1 (2 + 1)) ->
           get 0 y (pre ++ [ravel (py_slice (shape example_cube) 1 (2 + 1)) i] ++ post)
           = get 0 example_cube (pre ++ i ++ post))
    /\ flatten example_cube (1 - Z.of_nat (ndim example_cube)) (2 - Z.of_nat (ndim example_cube)) = Ok y.
Proof.
split.
- cbn. lia.
- apply (flatten_unflatten_inverse 0 example_cube (start_dim := 1) (end_dim := 2));
    cbn; lia.
Defined.

(** ** Arrays: enumeration of indices and [tabulate] *)

Lemma length_flat_map_uniform {A B : Type} (g : A -> list B) (m : nat)
  (l : list A) :
(forall a, In a l -> length (g a) = m) ->
length (flat_map g l) = length l * m.
Proof.
induction l as [|a l IH]; intros Hg; simpl; [reflexivity|].
rewrite length_app, Hg, IH; auto with datatypes.
Qed.

Lemma nth_flat_map_uniform {A B : Type} (g : A -> list B) (m : nat)
  (l : list A) (i j : nat) (a0 : A) (b0 : B) :
(forall a, In a l -> length (g a) = m) ->
i < length l -> j < m ->
nth (i * m + j) (flat_map g l) b0 = nth j (g (nth i l a0)) b0.
Proof.
revert i. induction l as [|a l IH]; intros i Hg Hi Hj; simpl in Hi; [lia|].
cbn [flat_map]. destruct i as [|i].
- simpl. apply app_nth1. rewrite Hg; auto with datatypes.
- rewrite app_nth2; rewrite Hg by auto with datatypes; [|simpl; lia].
  replace (S i * m + j - m) with (i * m + j) by (simpl; lia).
  cbn [nth]. apply IH; auto with datatypes. lia.
Qed.

Lemma length_all_indices (s : list nat) : length (all_indices s) = prod s.
Proof.
induction s as [|d s IH]; [reflexivity|].
cbn [all_indices]. rewrite (@length_flat_map_uniform _ _ _ (prod s)).
- now rewrite length_seq.
- intros a _. now rewrite length_map.
Qed.

Lemma ravel_lt (s idx : list nat) : in_bounds idx s -> ravel s idx < prod s.
Proof.
intros H. induction H as [|i d idx s Hi _ IH]; simpl; [lia|].
fold (prod s). nia.
Qed.

Lemma nth_all_indices (s idx : list nat) :
in_bounds idx s -> nth (ravel s idx) (all_indices s) [] = idx.
Proof.
intros H. induction H as [|i d idx s Hi Hb IH]; [reflexivity|].
cbn [ravel all_indices].
rewrite (@nth_flat_map_uniform _ _ _ (prod s) _ _ _ 0).
- rewrite seq_nth by assumption. cbn [Nat.add].
  rewrite (nth_indep _ [] (i :: [])).
  + now rewrite (map_nth (cons i)), IH.
  + rewrite length_map, length_all_indices. now apply ravel_lt.
- intros a _. now rewrite length_map, length_all_indices.
- now rewrite length_seq.
- now apply ravel_lt.
Qed.

Lemma in_bounds_length (idx s : list nat) :
in_bounds idx s -> length idx = length s.
Proof. intros H. induction H; simpl; congruence. Qed.

Lemma in_all_indices (s idx : list nat) :
In idx (all_indices s) -> in_bounds idx s.
Proof.
revert idx. induction s as [|d s IH]; intros idx Hin.
- destruct Hin as [<-|[]]. constructor.
- cbn [all_indices] in Hin. apply in_flat_map in Hin.
  destruct Hin as [i [Hi Hin]]. apply in_map_iff in Hin.
  destruct Hin as [idx' [<- Hin']]. apply in_seq in Hi.
  constructor; [lia|]. now apply IH.
Qed.

Section ArrayFacts.
Context {F : Type}.
Variable d0 : F.

Lemma get_tabulate (s : list nat) (f : list nat -> F) (idx : list nat) :
  in_bounds idx s -> get d0 (tabulate s f) idx = f idx.
Proof.
  intros Hb. unfold get, tabulate. cbn [shape data].
  rewrite (nth_indep _ d0 (f [])).
  - now rewrite map_nth, nth_all_indices.
  - rewrite length_map, length_all_indices. now apply ravel_lt.
Qed.

Lemma tabulate_ext (s : list nat) (f g : list nat -> F) :
  (forall idx, in_bounds idx s -> f idx = g idx) ->
  tabulate s f = tabulate s g.
Proof.
  intros Hfg. unfold tabulate. f_equal.
  apply map_ext_in. intros idx Hin. apply Hfg.
  now apply in_all_indices.
Qed.

Lemma well_formed_tabulate (s : list nat) (f : list nat -> F) :
  well_formed (tabulate s f).
Proof.
  unfold well_formed, tabulate. cbn [shape data].
  now rewrite length_map, length_all_indices.
Qed.

Lemma get_slice0 (x : ndarray F) (c : nat) (sp : list nat) (i : nat)
    (idx : list nat) :
  shape x = c :: sp -> in_bounds idx sp ->
  get d0 (slice0 d0 x i) idx = get d0 x (i :: idx).
Proof.
  intros Hx Hb. unfold slice0. rewrite Hx. cbn [tl].
  now rewrite get_tabulate.
Qed.
End ArrayFacts.

(** ** Centre crop *)

Lemma crop_start_fits (d : nat) (sz : Z) :
(0 <= sz <= Z.of_nat d)%Z ->
Z.to_nat (Lax.clamp_start d sz (Z.max (Z.of_nat d / 2 - sz / 2) 0))
= crop_start d sz
/\ crop_start d sz + Z.to_nat sz <= d.
Proof.
intros Hsz. unfold Lax.clamp_start, crop_start.
destruct (Z.ltb_spec (Z.max (Z.of_nat d / 2 - sz / 2) 0) 0) as [Hneg|_];
  [lia|].
assert (Hfit : (Z.of_nat d / 2 - sz / 2 <= Z.of_nat d - sz)%Z).
{ Z.to_euclidean_division_equations. lia. }
split; lia.
Qed.

Lemma offsets_center (sp : list nat) (sizes : list Z) :
Forall2 (fun sz d => (0 <= sz <= Z.of_nat d)%Z) sizes sp ->
map (fun '(d, (sz, st)) => Z.to_nat (Lax.clamp_start d sz st))
    (combine sp
       (combine sizes
          (map (fun '(shape, size) => Z.max (Z.of_nat shape / 2 - size / 2) 0)
               (combine sp sizes))))
= center_starts sp sizes.
Proof.
intros Hs. unfold center_starts.
induction Hs as [|sz d sizes sp Hsz _ IH]; [reflexivity|].
cbn [combine map zip_with]. rewrite IH. f_equal.
now apply crop_start_fits.
Qed.

Section CenterCropFacts.
Context {F : Type}.
Variable d0 : F.

Lemma dynamic_slice_center (a : ndarray F) (sizes : list Z) :
  Forall2 (fun sz d => (0 <= sz <= Z.of_nat d)%Z) sizes (shape a) ->
  center_crop_nd d0 a sizes
  = Ok (tabulate (map Z.to_nat sizes)
          (fun idx =>
             get d0 a (zip_with Nat.add (center_starts (shape a) sizes) idx))).
Proof.
  intros Hs. unfold center_crop_nd, Lax.dynamic_slice, ndim.
  assert (Hlen : length sizes = length (shape a))
    by (induction Hs; simpl; congruence).
  rewrite length_map, length_combine, Hlen, Nat.min_id, Nat.eqb_refl.
  cbn [negb].
  assert (Hchk : forallb (fun '(d, sz) => (0 <=? sz)%Z && (sz <=? Z.of_nat d)%Z)
                   (combine (shape a) sizes) = true).
  { clear Hlen. induction Hs as [|sz d sizes sp Hsz _ IH]; [reflexivity|].
    cbn [combine forallb]. rewrite IH, andb_true_r.
    apply andb_true_iff. split; [apply Z.leb_le|apply Z.leb_le]; lia. }
  rewrite Hchk. cbn [negb]. now rewrite (offsets_center Hs).
Qed.

Lemma center_starts_in_bounds (sp : list nat) (sizes : list Z)
    (idx : list nat) :
  Forall2 (fun sz d => (0 <= sz <= Z.of_nat d)%Z) sizes sp ->
  in_bounds idx (map Z.to_nat sizes) ->
  in_bounds (zip_with Nat.add (center_starts sp sizes) idx) sp.
Proof.
  intros Hs. revert idx. unfold center_starts, in_bounds.
  induction Hs as [|sz d sizes sp Hsz _ IH]; intros idx Hb;
    inversion Hb; subst; cbn [zip_with]; constructor.
  - pose proof (@crop_start_fits d sz Hsz) as [_ Hfit]. lia.
  - now apply IH.
Qed.
End CenterCropFacts.

Section VmapFacts.
Context {F : Type}.
Variable d0 : F.

(** [vmap] of a function that succeeds on every example with results of
    one shape. *)
Lemma vmap_ok (f : ndarray F -> result (ndarray F)) (x : ndarray F)
    (c : nat) (sp s' : list nat) (g : nat -> ndarray F) :
  shape x = c :: sp ->
  (forall i, f (slice0 d0 x i) = Ok (g i)) ->
  (forall i, shape (g i) = s') ->
  Jax.vmap d0 f x
  = Ok (tabulate (c :: s')
          (fun idx => match idx with
                      | i :: idx' => get d0 (g i) idx'
                      | [] => d0
                      end)).
Proof.
  intros Hx Hf Hg. unfold Jax.vmap. rewrite Hx, Hf. cbn [bind].
  rewrite Hg. f_equal. apply tabulate_ext.
  intros [|i idx] _; [reflexivity|]. now rewrite Hf.
Qed.
End VmapFacts.

Section CenterCropTheorem.
Context {F : Type}.
Variable validate_spatial_nd : nat -> ndarray F -> result unit.
Hypothesis validate_accepts :
  forall n x, ndim x = S n -> validate_spatial_nd n x = Ok tt.

(** C5.  For every channel-first array [x] (shape [c :: sp]) and sizes
    with [0 <= sizes[k] <= x.shape[k+1]] on every spatial axis,
    [CenterCropND] returns an array of shape [(x.shape[0], *sizes)] whose
    element at spatial index [idx] of channel [ch] is the element of [x]
    in the same channel at [start + idx], where
    [start_k = max(x.shape[k+1] // 2 - sizes[k] // 2, 0)]. *)
Theorem CenterCropND_call_spec (d0 : F) (x : ndarray F) (c : nat)
    (sp : list nat) (sizes : list Z) :
  shape x = c :: sp ->
  Forall2 (fun sz d => (0 <= sz <= Z.of_nat d)%Z) sizes sp ->
  exists y,
    CenterCropND_call validate_spatial_nd d0
      (mk_CenterCropND sizes (length sp)) x = Ok y
    /\ shape y = c :: map Z.to_nat sizes
    /\ forall ch idx,
        ch < c -> in_bounds idx (map Z.to_nat sizes) ->
        get d0 y (ch :: idx)
        = get d0 x (ch :: zip_with Nat.add (center_starts sp sizes) idx).
Proof.
  intros Hx Hs. unfold CenterCropND_call.
  cbn [CenterCropND_spatial_ndim CenterCropND_size].
  rewrite validate_accepts by (unfold ndim; now rewrite Hx). cbn [bind].
  assert (Hsl : forall i, shape (slice0 d0 x i) = sp).
  { intros i. unfold slice0. cbn [tabulate shape]. now rewrite Hx. }
  rewrite (@vmap_ok F d0 _ x c sp (map Z.to_nat sizes)
             (fun i => tabulate (map Z.to_nat sizes)
                (fun idx => get d0 (slice0 d0 x i)
                   (zip_with Nat.add (center_starts sp sizes) idx)))).
  - eexists. split; [reflexivity|]. split; [reflexivity|].
    intros ch idx Hch Hb.
    rewrite get_tabulate by (constructor; assumption).
    rewrite get_tabulate by assumption.
    apply (get_slice0 d0 x ch Hx).
    now apply center_starts_in_bounds.
  - assumption.
  - intros i. rewrite dynamic_slice_center; rewrite Hsl; [reflexivity|].
    assumption.
  - reflexivity.
Qed.
End CenterCropTheorem.

Lemma CenterCropND_call_spec_witness :
((forall n (x : ndarray nat), ndim x = S n -> check_channel_first n x = Ok tt)
 /\ shape (arange [1; 12]) = [1; 12]
 /\ Forall2 (fun sz d => (0 <= sz <= Z.of_nat d)%Z) [4%Z] [12])
/\ exists y,
    CenterCropND_call check_channel_first 0
      (mk_CenterCropND [4%Z] (length [12])) (arange [1; 12]) = Ok y
    /\ shape y = [1; 4]
    /\ forall ch idx,
        ch < 1 -> in_bounds idx [4] ->
        get 0 y (ch :: idx)
        = get 0 (arange [1; 12])
            (ch :: zip_with Nat.add (center_starts [12] [4%Z]) idx).
Proof.
assert (Hv : forall n (x : ndarray nat),
           ndim x = S n -> check_channel_first n x = Ok tt).
{ intros n x H. unfold check_channel_first. now rewrite H, Nat.eqb_refl. }
assert (Hs : Forall2 (fun sz d => (0 <= sz <= Z.of_nat d)%Z) [4%Z] [12]).
{ constructor; [lia|constructor]. }
split; [split; [exact Hv|split; [reflexivity|exact Hs]]|].
exact (CenterCropND_call_spec check_channel_first Hv 0 (arange [1; 12])
         (c := 1) (sp := [12]) (sizes := [4%Z]) eq_refl Hs).
Defined.

(** ** Padding *)

Lemma length_zip_with {A B C : Type} (f : A -> B -> C) (l : list A)
    (m : list B) :
  length (zip_with f l m) = Nat.min (length l) (length m).
Proof.
  revert m. induction l as [|a l IH]; intros [|b m]; simpl; auto.
Qed.

Lemma interior_in_bounds (lefts s idx : list nat) :
  length idx = length s -> length lefts = length s ->
  Jnp.interior lefts s idx = true ->
  in_bounds (zip_with Nat.sub idx lefts) s.
Proof.
  unfold Jnp.interior, in_bounds. revert lefts idx.
  induction s as [|d s IH]; intros [|l lefts] [|i idx] Hi Hl Hint;
    simpl in Hi, Hl; try discriminate; cbn [zip_with]; constructor.
  - cbn [combine forallb] in Hint. apply andb_true_iff in Hint.
    destruct Hint as [Hh _]. apply andb_true_iff in Hh. destruct Hh as [H1 H2].
    apply Nat.leb_le in H1. apply Nat.ltb_lt in H2. lia.
  - apply IH; try lia.
    cbn [combine forallb] in Hint. apply andb_true_iff in Hint. tauto.
Qed.

Section PadFacts.
Context {F : Type}.
Variable d0 : F.

Lemma pad_per_axis (a : ndarray F) (pw : list (Z * Z)) (v : F) :
  length pw = ndim a ->
  Jnp.pad d0 a pw v
  = if Jnp.nonneg_pairs pw
    then Ok (tabulate (Jnp.padded_shape (shape a) pw)
               (fun idx =>
                  if Jnp.interior (map (fun p => Z.to_nat (fst p)) pw)
                       (shape a) idx
                  then get d0 a
                         (zip_with Nat.sub idx
                            (map (fun p => Z.to_nat (fst p)) pw))
                  else v))
    else Raise ValueError.
Proof.
  intros Hlen. unfold Jnp.pad, Jnp.broadcast_to_pairs.
  rewrite Hlen, Nat.eqb_refl. cbn [bind].
  now destruct (Jnp.nonneg_pairs pw).
Qed.
End PadFacts.

Section PadTheorem.
Context {F : Type}.
Variable _check_spatial_in_shape : nat -> ndarray F -> result unit.
Variable validate_spatial_nd : nat -> ndarray F -> result unit.
Hypothesis check_accepts :
  forall n x, ndim x = S n -> _check_spatial_in_shape n x = Ok tt.
Hypothesis validate_accepts :
  forall n x, ndim x = S n -> validate_spatial_nd n x = Ok tt.

(** C10.  The two [PadND] layers are equivalent: on every channel-first
    input (shape [c :: sp]), with the same padding (one pair per spatial
    axis) and the same value, the layer that pads the whole array with
    [((0, 0), *padding)] and the layer that maps [jnp.pad] over the channel
    axis return the same result.  When no width is negative that result
    is an array whose channel axis is unchanged, whose spatial axes grew
    by their left plus right padding, which holds [x] at the offset of
    the left paddings and the constant value elsewhere. *)
Theorem PadND_old_new_equivalent (d0 : F) (x : ndarray F) (c : nat)
    (sp : list nat) (padding : list (Z * Z)) (value : F) :
  shape x = c :: sp ->
  length padding = length sp ->
  let old := OldPad.mk_PadND (length sp) padding value in
  let new := NewPad.mk_PadND padding value (length sp) in
  let lefts := map (fun p => Z.to_nat (fst p)) padding in
  OldPad.call _check_spatial_in_shape d0 old x
  = NewPad.call validate_spatial_nd d0 new x
  /\ (Jnp.nonneg_pairs padding = true ->
      exists y,
        NewPad.call validate_spatial_nd d0 new x = Ok y
        /\ shape y = c :: Jnp.padded_shape sp padding
        /\ forall ch idx,
            ch < c -> in_bounds idx (Jnp.padded_shape sp padding) ->
            get d0 y (ch :: idx)
            = if Jnp.interior lefts sp idx
              then get d0 x (ch :: zip_with Nat.sub idx lefts)
              else value).
Proof.
  intros Hx Hlen old new lefts.
  unfold OldPad.call, NewPad.call, Lax.stop_gradient. subst old new.
  cbn [OldPad.ndim_ OldPad.padding OldPad.value
       NewPad.padding NewPad.value NewPad.spatial_ndim].
  assert (Hnd : ndim x = S (length sp)) by (unfold ndim; now rewrite Hx).
  rewrite check_accepts, validate_accepts by assumption. cbn [bind].
  assert (Hsl : forall i, shape (slice0 d0 x i) = sp).
  { intros i. unfold slice0. cbn [tabulate shape]. now rewrite Hx. }
  rewrite pad_per_axis by (simpl; lia).
  change (Jnp.nonneg_pairs ((0, 0)%Z :: padding))
    with (Jnp.nonneg_pairs padding).
  destruct (Jnp.nonneg_pairs padding) eqn:Hnn.
  - pose (g := fun i : nat =>
        tabulate (Jnp.padded_shape sp padding)
          (fun idx => if Jnp.interior lefts sp idx
                      then get d0 (slice0 d0 x i) (zip_with Nat.sub idx lefts)
                      else value)).
    assert (Hv : Jax.vmap d0 (fun a => Jnp.pad d0 a padding value) x
                 = Ok (tabulate (c :: Jnp.padded_shape sp padding)
                         (fun idx => match idx with
                                     | i :: idx' => get d0 (g i) idx'
                                     | [] => d0
                                     end))).
    { apply (@vmap_ok F d0 _ x c sp (Jnp.padded_shape sp padding) g Hx).
      - intros i. rewrite pad_per_axis by (unfold ndim; now rewrite Hsl).
        now rewrite Hnn, Hsl.
      - reflexivity. }
    assert (Hel : forall ch idx,
               ch < c -> in_bounds idx (Jnp.padded_shape sp padding) ->
               get d0 (g ch) idx
               = if Jnp.interior lefts sp idx
                 then get d0 x (ch :: zip_with Nat.sub idx lefts)
                 else value).
    { intros ch idx Hch Hb. unfold g. rewrite get_tabulate by assumption.
      destruct (Jnp.interior lefts sp idx) eqn:Hint; [|reflexivity].
      apply (get_slice0 d0 x ch Hx).
      apply interior_in_bounds; [| |assumption].
      - apply in_bounds_length in Hb. rewrite Hb.
        unfold Jnp.padded_shape. rewrite length_zip_with. lia.
      - unfold lefts. now rewrite length_map. }
    rewrite Hv. split.
    + f_equal. rewrite Hx. unfold Jnp.padded_shape at 1. cbn [zip_with].
      fold (Jnp.padded_shape sp padding).
      replace (Z.to_nat 0 + c + Z.to_nat 0) with c by lia.
      apply tabulate_ext. intros idx Hb.
      inversion Hb as [|ch d idx' s' Hch Hb']; subst.
      rewrite Hel by assumption.
      cbn [map fst zip_with]. fold lefts.
      unfold Jnp.interior at 1. cbn [combine forallb].
      fold (Jnp.interior lefts sp idx').
      replace (Z.to_nat 0 <=? ch) with true
        by (symmetry; apply Nat.leb_le; lia).
      replace (ch <? Z.to_nat 0 + c) with true
        by (symmetry; apply Nat.ltb_lt; lia).
      cbn [andb]. now replace (ch - Z.to_nat 0) with ch by lia.
    + intros _. eexists. split; [reflexivity|]. split; [reflexivity|].
      intros ch idx Hch Hb.
      rewrite get_tabulate by (constructor; assumption).
      now apply Hel.
  - split; [|discriminate].
    unfold Jax.vmap. rewrite Hx.
    rewrite pad_per_axis by (unfold ndim; now rewrite Hsl).
    now rewrite Hnn.
Qed.
End PadTheorem.

Lemma check_channel_first_accepts {F : Type} (n : nat) (x : ndarray F) :
  ndim x = S n -> check_channel_first n x = Ok tt.
Proof.
  intros H. unfold check_channel_first. now rewrite H, Nat.eqb_refl.
Qed.

Lemma PadND_old_new_equivalent_witness :
  ((forall n (x : ndarray nat), ndim x = S n -> check_channel_first n x = Ok tt)
   /\ shape (arange [2; 3]) = [2; 3]
   /\ length [(1, 2)%Z] = length [3])
  /\ (OldPad.call check_channel_first 0
        (OldPad.mk_PadND (length [3]) [(1, 2)%Z] 9) (arange [2; 3])
      = NewPad.call check_channel_first 0
          (NewPad.mk_PadND [(1, 2)%Z] 9 (length [3])) (arange [2; 3])
      /\ (Jnp.nonneg_pairs [(1, 2)%Z] = true ->
          exists y,
            NewPad.call check_channel_first 0
              (NewPad.mk_PadND [(1, 2)%Z] 9 (length [3])) (arange [2; 3]) = Ok y
            /\ shape y = 2 :: Jnp.padded_shape [3] [(1, 2)%Z]
            /\ forall ch idx,
                ch < 2 -> in_bounds idx (Jnp.padded_shape [3] [(1, 2)%Z]) ->
                get 0 y (ch :: idx)
                = if Jnp.interior (map (fun p => Z.to_nat (fst p)) [(1, 2)%Z])
                       [3] idx
                  then get 0 (arange [2; 3])
                         (ch :: zip_with Nat.sub idx
                                  (map (fun p => Z.to_nat (fst p)) [(1, 2)%Z]))
                  else 9)).
Proof.
  split.
  - split; [exact (@check_channel_first_accepts nat)|split; reflexivity].
  - exact (PadND_old_new_equivalent check_channel_first check_channel_first
             (@check_channel_first_accepts nat) (@check_channel_first_accepts nat)
             0 (arange [2; 3]) (c := 2) (sp := [3]) [(1, 2)%Z] 9
             eq_refl eq_refl).
Defined.

(** ** Constructors *)

Section GroupNormTheorem.
Context {F Key DType : Type}.
Variable positive_int_cb : Z -> result Z.
Variable eps_on_setattr : F -> result F.
Variable resolve_init : InitType F Key DType -> result (Initializer F Key DType).
Hypothesis positive_int_accepts :
  forall v, (0 < v)%Z -> positive_int_cb v = Ok v.

(** C3.  For positive integers [in_features] and [groups], an accepted
    [eps] and init arguments that resolve to initialisers yielding arrays
    of the requested shape, the [GroupNorm] constructor raises
    [ValueError] if and only if [in_features] is not divisible by
    [groups]; otherwise it returns a layer, and the weight and the bias of
    a returned layer have shape [(in_features,)]. *)
Theorem GroupNorm_init_spec (in_features groups : Z) (key : Key)
    (eps eps' : F) (weight_init bias_init : InitType F Key DType)
    (dtype : DType) (w_init b_init : Initializer F Key DType) :
  (0 < in_features)%Z -> (0 < groups)%Z ->
  eps_on_setattr eps = Ok eps' ->
  resolve_init weight_init = Ok w_init -> produces_shape w_init ->
  resolve_init bias_init = Ok b_init -> produces_shape b_init ->
  let r := GroupNorm.init positive_int_cb eps_on_setattr resolve_init
             in_features key groups eps weight_init bias_init dtype in
  (r = Raise ValueError <-> ~ (groups | in_features)%Z)
  /\ ((groups | in_features)%Z -> returns r)
  /\ (forall layer,
         r = Ok layer ->
         exists w b,
           GroupNorm.weight layer = Some w /\ GroupNorm.bias layer = Some b
           /\ shape w = [Z.to_nat in_features]
           /\ shape b = [Z.to_nat in_features]).
Proof.
  intros Hin Hg Heps Hw Hwp Hb Hbp r. subst r. unfold GroupNorm.init.
  rewrite !positive_int_accepts by assumption. cbn [bind].
  rewrite Heps. cbn [bind]. unfold py_mod.
  destruct (Z.eqb_spec groups 0) as [|Hg0]; [lia|]. cbn [bind].
  assert (Hshape : Forall (fun d => (0 <= d)%Z) [in_features])
    by (constructor; [lia|constructor]).
  destruct (Hwp key [in_features] dtype Hshape) as [w [Ew Sw]].
  destruct (Hbp key [in_features] dtype Hshape) as [b [Eb Sb]].
  destruct (Z.eqb_spec (in_features mod groups) 0) as [Hdiv|Hndiv]; cbn [negb].
  - rewrite Hw. cbn [bind]. rewrite Ew. cbn [bind].
    rewrite Hb. cbn [bind]. rewrite Eb. cbn [bind].
    apply Z.mod_divide in Hdiv; [|assumption].
    split; [split; [discriminate|tauto]|].
    split; [intros _; eexists; reflexivity|].
    intros layer [= <-]. exists w, b. cbn. auto.
  - assert (Hnd : ~ (groups | in_features)%Z).
    { intros Hd. apply Hndiv. now apply Z.mod_divide. }
    split; [tauto|]. split; [tauto|]. discriminate.
Qed.

(** Under the same conditions, an init argument whose initialiser yields
    no array (the documented meaning of [None]: the parameter is not
    trainable) leaves the field [None]; the functions applying the layer
    test [gamma is not None] and [beta is not None] accordingly. *)
Lemma GroupNorm_init_absent (in_features groups : Z) (key : Key)
    (eps eps' : F) (weight_init bias_init : InitType F Key DType)
    (dtype : DType) (w_init b_init : Initializer F Key DType) :
  (0 < in_features)%Z -> (0 < groups)%Z -> (groups | in_features)%Z ->
  eps_on_setattr eps = Ok eps' ->
  resolve_init weight_init = Ok w_init ->
  w_init key [in_features] dtype = Ok None ->
  resolve_init bias_init = Ok b_init ->
  b_init key [in_features] dtype = Ok None ->
  GroupNorm.init positive_int_cb eps_on_setattr resolve_init
    in_features key groups eps weight_init bias_init dtype
  = Ok (GroupNorm.mk in_features groups eps' None None).
Proof.
  intros Hin Hg Hdiv Heps Hw Ew Hb Eb. unfold GroupNorm.init.
  rewrite !positive_int_accepts by assumption. cbn [bind].
  rewrite Heps. cbn [bind]. unfold py_mod.
  destruct (Z.eqb_spec groups 0) as [|Hg0]; [lia|]. cbn [bind].
  apply Z.mod_divide in Hdiv; [|assumption]. rewrite Hdiv. cbn [Z.eqb negb].
  rewrite Hw. cbn [bind]. rewrite Ew. cbn [bind].
  rewrite Hb. cbn [bind]. rewrite Eb. reflexivity.
Qed.
End GroupNormTheorem.

Section GeneralLinearTheorem.
Context {F Key : Type}.
Variable init_func_cb :
  InitType F Key unit -> result (option (Initializer F Key unit)).

(** C6.  For tuples [in_features] and [in_axes] of non-negative sizes, a
    non-negative [out_features] and init arguments that resolve to
    initialisers yielding arrays of the requested shape (the bias one may
    be absent), the [GeneralLinear] constructor raises [ValueError] if and
    only if [len(in_axes) != len(in_features)]; otherwise it returns a
    layer, and the weight of a returned layer has the shape made of
    [in_features] followed by [out_features]. *)
Theorem GeneralLinear_init_spec (in_features : list Z) (out_features : Z)
    (in_axes : list Z) (weight_init_func bias_init_func : InitType F Key unit)
    (key : Key) (w_init : Initializer F Key unit)
    (b_init : option (Initializer F Key unit)) :
  Forall (fun d => (0 <= d)%Z) in_features -> (0 <= out_features)%Z ->
  init_func_cb weight_init_func = Ok (Some w_init) -> produces_shape w_init ->
  init_func_cb bias_init_func = Ok b_init ->
  (forall f, b_init = Some f -> produces_shape f) ->
  let r := GeneralLinear.init init_func_cb in_features out_features in_axes
             weight_init_func bias_init_func key in
  (r = Raise ValueError <-> length in_axes <> length in_features)
  /\ (length in_axes = length in_features -> returns r)
  /\ (forall layer,
         r = Ok layer ->
         exists w,
           GeneralLinear.weight layer = Some w
           /\ shape w = map Z.to_nat (in_features ++ [out_features])).
Proof.
  intros Hin Hout Hw Hwp Hb Hbp r. subst r. unfold GeneralLinear.init.
  destruct (Nat.eqb_spec (length in_axes) (length in_features)) as [Hlen|Hlen];
    cbn [negb].
  - rewrite Hw, Hb. cbn [bind GeneralLinear.call_init].
    assert (Hshape : Forall (fun d => (0 <= d)%Z) (in_features ++ [out_features])).
    { apply Forall_app. split; [assumption|]. constructor; [lia|constructor]. }
    destruct (Hwp key _ tt Hshape) as [w [Ew Sw]].
    rewrite Ew. cbn [bind].
    assert (Hbias : exists b,
               match b_init with
               | Some f => f key [out_features] tt
               | None => Ok None
               end = Ok b).
    { destruct b_init as [f|]; [|now eexists].
      destruct (Hbp f eq_refl key [out_features] tt) as [b [Eb _]].
      - constructor; [lia|constructor].
      - rewrite Eb. now eexists. }
    destruct Hbias as [b Eb]. rewrite Eb. cbn [bind].
    split; [split; [discriminate|tauto]|].
    split; [intros _; eexists; reflexivity|].
    intros layer [= <-]. exists w. cbn. auto.
  - split; [tauto|]. split; [tauto|]. discriminate.
Qed.
End GeneralLinearTheorem.

Lemma accept_positive_accepts (v : Z) : (0 < v)%Z -> accept_positive v = Ok v.
Proof.
  intros H. unfold accept_positive. now destruct (Z.ltb_spec 0 v); [|lia].
Qed.

Lemma produces_shape_full {F Key DType : Type} (v : F) :
  produces_shape
    (fun (_ : Key) shp (_ : DType) => Ok (Some (full (map Z.to_nat shp) v))).
Proof. intros key shp dtype _. eexists. split; reflexivity. Qed.

Lemma GroupNorm_init_spec_witness :
  ((forall v, (0 < v)%Z -> accept_positive v = Ok v)
   /\ (0 < 6)%Z /\ (0 < 3)%Z
   /\ Ok 1%Z = Ok 1%Z
   /\ basic_resolve_init (InitName "ones") = Ok ones_init /\ produces_shape ones_init
   /\ basic_resolve_init (InitName "zeros") = Ok zeros_init /\ produces_shape zeros_init)
  /\ ((GroupNorm.init accept_positive (@Ok Z) basic_resolve_init
     6%Z 0 3%Z 1%Z (InitName "ones") (InitName "zeros") tt) = Raise ValueError <-> ~ (3 | 6)%Z)
  /\ ((3 | 6)%Z -> returns
     (GroupNorm.init accept_positive (@Ok Z) basic_resolve_init
     6%Z 0 3%Z 1%Z (InitName "ones") (InitName "zeros") tt))
  /\ (forall layer,
         (GroupNorm.init accept_positive (@Ok Z) basic_resolve_init
     6%Z 0 3%Z 1%Z (InitName "ones") (InitName "zeros") tt) = Ok layer ->
         exists w b,
           GroupNorm.weight layer = Some w /\ GroupNorm.bias layer = Some b
           /\ shape w = [Z.to_nat 6] /\ shape b = [Z.to_nat 6]).
Proof.
  split.
  - repeat split; try reflexivity; try lia.
    + exact accept_positive_accepts.
    + apply produces_shape_full.
    + apply produces_shape_full.
  - exact (GroupNorm_init_spec accept_positive (@Ok Z) basic_resolve_init
             accept_positive_accepts 0 1%Z (InitName "ones") (InitName "zeros")
             tt (in_features := 6) (groups := 3)
             ltac:(lia) ltac:(lia) eq_refl
             eq_refl (produces_shape_full 1%Z)
             eq_refl (produces_shape_full 0%Z)).
Defined.

Lemma GeneralLinear_init_spec_witness :
  (Forall (fun d => (0 <= d)%Z) [1; 2]%Z /\ (0 <= 5)%Z
   /\ basic_init_func_cb (InitName "ones") = Ok (Some ones_init)
   /\ produces_shape ones_init
   /\ basic_init_func_cb (F := Z) (Key := nat) InitNone = Ok None
   /\ (forall f : Initializer Z nat unit, None = Some f -> produces_shape f))
  /\ ((GeneralLinear.init basic_init_func_cb [1; 2]%Z 5%Z [0; 1]%Z
     (InitName "ones") InitNone 0) = Raise ValueError <-> length [0; 1]%Z <> length [1; 2]%Z)
  /\ (length [0; 1]%Z = length [1; 2]%Z -> returns
     (GeneralLinear.init basic_init_func_cb [1; 2]%Z 5%Z [0; 1]%Z
     (InitName "ones") InitNone 0))
  /\ (forall layer,
         (GeneralLinear.init basic_init_func_cb [1; 2]%Z 5%Z [0; 1]%Z
     (InitName "ones") InitNone 0) = Ok layer ->
         exists w,
           GeneralLinear.weight layer = Some w
           /\ shape w = map Z.to_nat ([1; 2] ++ [5])%Z).
Proof.
  assert (Hin : Forall (fun d => (0 <= d)%Z) [1; 2]%Z)
    by (repeat constructor; lia).
  assert (Hnone : forall f : Initializer Z nat unit,
             None = Some f -> produces_shape f) by discriminate.
  split.
  - repeat split; try reflexivity; try assumption; try lia.
    apply produces_shape_full.
  - exact (GeneralLinear_init_spec basic_init_func_cb [0; 1]%Z
             (InitName "ones") InitNone 0 (out_features := 5)
             Hin ltac:(lia) eq_refl (produces_shape_full 1%Z) eq_refl Hnone).
Defined.

(** ** Broadcasting *)

Lemma zip_with_rev {A B C : Type} (f : A -> B -> C) (l : list A) (m : list B) :
  length l = length m ->
  zip_with f (rev l) (rev m) = rev (zip_with f l m).
Proof.
  revert m. induction l as [|a l IH]; intros [|b m] Hlen;
    simpl in Hlen; try discriminate; [reflexivity|].
  cbn [rev zip_with].
  assert (Happ : forall (l1 : list A) (m1 : list B) x y,
             length l1 = length m1 ->
             zip_with f (l1 ++ [x]) (m1 ++ [y]) = zip_with f l1 m1 ++ [f x y]).
  { clear. induction l1 as [|a l1 IH]; intros [|b m1] x y Hl;
      simpl in Hl; try discriminate; [reflexivity|].
    cbn [app zip_with]. now rewrite IH by lia. }
  rewrite Happ by (rewrite !length_rev; lia).
  now rewrite IH by lia.
Qed.

Lemma broadcast_rev_kept (mask : list bool) (s : list nat) :
  length mask = length s ->
  Jnp.broadcast_rev s (Jnp.kept_shape mask s) = Some s.
Proof.
  revert mask. induction s as [|d s IH]; intros [|r mask] Hlen;
    simpl in Hlen; try discriminate; [reflexivity|].
  unfold Jnp.kept_shape. cbn [zip_with Jnp.broadcast_rev].
  fold (Jnp.kept_shape mask s). rewrite IH by lia.
  destruct r.
  - destruct (Nat.eqb_spec d 1) as [->|Hd]; reflexivity.
  - now rewrite Nat.eqb_refl.
Qed.

Lemma broadcast_shapes_kept (mask : list bool) (s : list nat) :
  length mask = length s ->
  Jnp.broadcast_shapes s (Jnp.kept_shape mask s) = Some s.
Proof.
  intros Hlen. unfold Jnp.broadcast_shapes, Jnp.kept_shape.
  rewrite <- zip_with_rev by assumption.
  fold (Jnp.kept_shape (rev mask) (rev s)).
  rewrite broadcast_rev_kept by (rewrite !length_rev; assumption).
  cbn [option_map]. now rewrite rev_involutive.
Qed.

Lemma bcast_index_same (s idx : list nat) :
  in_bounds idx s -> Jnp.bcast_index s idx = idx.
Proof.
  intros Hb. unfold Jnp.bcast_index.
  rewrite (in_bounds_length Hb), Nat.sub_diag. cbn [skipn].
  induction Hb as [|i d idx s Hi _ IH]; [reflexivity|].
  cbn [zip_with]. rewrite IH. f_equal.
  destruct (Nat.eqb_spec d 1); lia.
Qed.

Lemma bcast_index_kept (mask : list bool) (s idx : list nat) :
  length mask = length s -> in_bounds idx s ->
  Jnp.bcast_index (Jnp.kept_shape mask s) idx = proj mask idx.
Proof.
  intros Hlen Hb. unfold Jnp.bcast_index, Jnp.kept_shape.
  rewrite length_zip_with, Hlen, Nat.min_id, (in_bounds_length Hb), Nat.sub_diag.
  cbn [skipn]. revert mask Hlen. unfold proj.
  induction Hb as [|i d idx s Hi _ IH]; intros [|r mask] Hlen;
    simpl in Hlen; try discriminate; [reflexivity|].
  cbn [zip_with]. rewrite IH by lia. f_equal.
  destruct r; [reflexivity|].
  destruct (Nat.eqb_spec d 1); lia.
Qed.

Lemma in_bounds_proj (mask : list bool) (s idx : list nat) :
  length mask = length s -> in_bounds idx s ->
  in_bounds (proj mask idx) (Jnp.kept_shape mask s).
Proof.
  intros Hlen Hb. revert mask Hlen. unfold proj, Jnp.kept_shape, in_bounds.
  induction Hb as [|i d idx s Hi _ IH]; intros [|r mask] Hlen;
    simpl in Hlen; try discriminate; cbn [zip_with]; constructor.
  - destruct r; lia.
  - apply IH. lia.
Qed.

Lemma broadcast_rev_same (s : list nat) : Jnp.broadcast_rev s s = Some s.
Proof.
  induction s as [|d s IH]; [reflexivity|].
  cbn [Jnp.broadcast_rev]. now rewrite IH, Nat.eqb_refl.
Qed.

Lemma broadcast_shapes_same (s : list nat) : Jnp.broadcast_shapes s s = Some s.
Proof.
  unfold Jnp.broadcast_shapes. rewrite broadcast_rev_same. cbn [option_map].
  now rewrite rev_involutive.
Qed.

Section NumericFacts.
Context {F : Type} `{Scalar F}.

Lemma binop_kept (f : F -> F -> F) (a b : ndarray F) (mask : list bool) :
  length mask = ndim a ->
  shape b = Jnp.kept_shape mask (shape a) ->
  Jnp.binop f a b
  = Ok (tabulate (shape a)
          (fun idx => f (get f0 a idx) (get f0 b (proj mask idx)))).
Proof.
  intros Hlen Hb. unfold Jnp.binop.
  rewrite Hb, broadcast_shapes_kept by assumption. f_equal.
  apply tabulate_ext. intros idx Hidx.
  now rewrite bcast_index_same, bcast_index_kept.
Qed.

Lemma binop_same (f : F -> F -> F) (a b : ndarray F) :
  shape b = shape a ->
  Jnp.binop f a b
  = Ok (tabulate (shape a) (fun idx => f (get f0 a idx) (get f0 b idx))).
Proof.
  intros Hb. unfold Jnp.binop. rewrite Hb, broadcast_shapes_same. f_equal.
  apply tabulate_ext. intros idx Hidx. now rewrite bcast_index_same.
Qed.

(** A one-element vector and a scalar array. *)
Lemma binop_one_scalar (f : F -> F -> F) (a b : ndarray F) :
  shape a = [1] -> shape b = [] ->
  Jnp.binop f a b
  = Ok (tabulate [1] (fun idx => f (get f0 a [0]) (get f0 b []))).
Proof.
  intros Ha Hb. unfold Jnp.binop. rewrite Ha, Hb. cbn. reflexivity.
Qed.

Lemma get_amap (f : F -> F) (a : ndarray F) (idx : list nat) :
  in_bounds idx (shape a) -> get f0 (amap f0 f a) idx = f (get f0 a idx).
Proof. intros Hb. unfold amap. now rewrite get_tabulate. Qed.
End NumericFacts.

(** ** Reductions: which elements a mean averages *)

Lemma map_flat_map {A B C : Type} (f : B -> C) (g : A -> list B) (l : list A) :
  map f (flat_map g l) = flat_map (fun a => map f (g a)) l.
Proof.
  induction l as [|a l IH]; [reflexivity|].
  cbn [flat_map]. now rewrite map_app, IH.
Qed.

Lemma filter_flat_map {A B : Type} (p : B -> bool) (g : A -> list B)
    (l : list A) :
  filter p (flat_map g l) = flat_map (fun a => filter p (g a)) l.
Proof.
  induction l as [|a l IH]; [reflexivity|].
  cbn [flat_map]. now rewrite filter_app, IH.
Qed.

Lemma filter_map_comm {A B : Type} (p : B -> bool) (f : A -> B) (l : list A) :
  filter p (map f l) = map f (filter (fun a => p (f a)) l).
Proof.
  induction l as [|a l IH]; [reflexivity|].
  cbn [map filter]. destruct (p (f a)); cbn [map]; now rewrite IH.
Qed.

Lemma filter_false {A : Type} (l : list A) : filter (fun _ => false) l = [].
Proof. induction l; auto. Qed.

Lemma flat_map_single {B : Type} (g : nat -> list B) (i0 s d : nat) :
  s <= i0 < s + d ->
  flat_map (fun i => if i =? i0 then g i else []) (seq s d) = g i0.
Proof.
  revert s. induction d as [|d IH]; intros s Hi; [lia|].
  cbn [seq flat_map]. destruct (Nat.eqb_spec s i0) as [->|Hne].
  - assert (Hrest : forall k n, i0 < k ->
               flat_map (fun i => if i =? i0 then g i else []) (seq k n) = []).
    { clear. intros k n. revert k. induction n as [|n IHn]; intros k Hk;
        [reflexivity|].
      cbn [seq flat_map]. destruct (Nat.eqb_spec k i0); [lia|].
      rewrite IHn by lia. reflexivity. }
    rewrite Hrest by lia. apply app_nil_r.
  - cbn [app]. apply IH. lia.
Qed.

Lemma mean_indices (s : list nat) (mask : list bool) (idx : list nat) :
  length mask = length s -> length idx = length s ->
  in_bounds (proj mask idx) (Jnp.kept_shape mask s) ->
  map (zip_with Nat.add (proj mask idx))
      (all_indices (Jnp.reduced_shape mask s))
  = filter (fun i => agree mask i idx) (all_indices s).
Proof.
  revert mask idx.
  induction s as [|d s IH]; intros [|r mask] [|i0 idx] Hlen Hli Hb;
    simpl in Hlen, Hli; try discriminate; [reflexivity|].
  unfold proj, Jnp.kept_shape in Hb. cbn [zip_with] in Hb.
  fold (proj mask idx) in Hb. fold (Jnp.kept_shape mask s) in Hb.
  inversion Hb as [|? ? ? ? Hi Hb']; subst.
  specialize (IH mask idx ltac:(lia) ltac:(lia) Hb').
  unfold Jnp.reduced_shape, proj. cbn [zip_with all_indices].
  fold (Jnp.reduced_shape mask s). fold (proj mask idx).
  rewrite map_flat_map, filter_flat_map.
  assert (Hin : forall i,
             map (zip_with Nat.add ((if r then 0 else i0) :: proj mask idx))
                 (map (cons i) (all_indices (Jnp.reduced_shape mask s)))
             = map (cons ((if r then 0 else i0) + i))
                   (filter (fun j => agree mask j idx) (all_indices s))).
  { intros i. rewrite map_map. cbn [zip_with].
    rewrite <- IH. now rewrite map_map. }
  rewrite (flat_map_ext _ _ Hin).
  assert (Hout : forall i,
             filter (fun j => agree (r :: mask) j (i0 :: idx))
                    (map (cons i) (all_indices s))
             = if r || (i =? i0)
               then map (cons i)
                        (filter (fun j => agree mask j idx) (all_indices s))
               else []).
  { intros i. rewrite filter_map_comm. unfold agree at 1.
    cbn [combine forallb]. fold (agree mask).
    destruct (r || (i =? i0)); cbn [andb]; [reflexivity|].
    now rewrite filter_false. }
  rewrite (flat_map_ext _ _ Hout).
  destruct r; cbn [orb].
  - reflexivity.
  - cbn [seq flat_map]. rewrite app_nil_r, Nat.add_0_r.
    now rewrite (flat_map_single
                   (fun i => map (cons i)
                               (filter (fun j => agree mask j idx)
                                       (all_indices s)))) by (cbn in Hi; lia).
Qed.

(** ** Reducing every axis but one *)

Lemma kept_shape_true (m : nat) (s : list nat) :
  length s = m -> Jnp.kept_shape (repeat true m) s = repeat 1 m.
Proof.
  revert s. induction m as [|m IH]; intros [|d s] Hs; simpl in Hs;
    try discriminate; [reflexivity|].
  unfold Jnp.kept_shape. cbn [repeat zip_with]. f_equal. apply IH. lia.
Qed.

Lemma proj_true (m : nat) (idx : list nat) :
  length idx = m -> proj (repeat true m) idx = repeat 0 m.
Proof.
  revert idx. induction m as [|m IH]; intros [|i idx] Hs; simpl in Hs;
    try discriminate; [reflexivity|].
  unfold proj. cbn [repeat zip_with]. f_equal. apply IH. lia.
Qed.

Lemma agree_true (m : nat) (i idx : list nat) :
  agree (repeat true m) i idx = true.
Proof.
  revert i idx. induction m as [|m IH]; intros i idx; [reflexivity|].
  destruct i as [|u i], idx as [|v idx]; try reflexivity.
  unfold agree. cbn [repeat combine forallb orb andb]. apply IH.
Qed.

Lemma prod_repeat_1 (m : nat) : prod (repeat 1 m) = 1.
Proof. induction m as [|m IH]; [reflexivity|]. cbn [repeat prod fold_right].
  fold (prod (repeat 1 m)). lia. Qed.

Lemma ravel_repeat_0 (s : list nat) (m : nat) : ravel s (repeat 0 m) = 0.
Proof.
  revert m. induction s as [|d s IH]; intros [|m]; try reflexivity.
  cbn [repeat ravel]. now rewrite IH.
Qed.

Lemma agree_all_but (a m : nat) (i idx : list nat) :
  length i = a + S m -> length idx = a + S m ->
  agree (all_but a m) i idx = (nth a i 0 =? nth a idx 0).
Proof.
  revert i idx. induction a as [|a IH]; intros [|u i] [|v idx] Hi Hidx;
    simpl in Hi, Hidx; try discriminate.
  - unfold agree, all_but. cbn [repeat app combine forallb orb nth].
    fold (agree (repeat true m) i idx). now rewrite agree_true, andb_true_r.
  - unfold agree, all_but. cbn [repeat app combine forallb orb andb nth].
    apply (IH i idx); lia.
Qed.

Lemma kept_shape_all_but (a m : nat) (s : list nat) :
  length s = a + S m ->
  Jnp.kept_shape (all_but a m) s = repeat 1 a ++ nth a s 0 :: repeat 1 m.
Proof.
  revert s. induction a as [|a IH]; intros [|d s] Hs; simpl in Hs;
    try discriminate.
  - unfold Jnp.kept_shape, all_but. cbn [repeat app zip_with nth]. f_equal.
    apply kept_shape_true. lia.
  - unfold Jnp.kept_shape, all_but. cbn [repeat app zip_with nth]. f_equal.
    apply (IH s). lia.
Qed.

Lemma proj_all_but (a m : nat) (idx : list nat) :
  length idx = a + S m ->
  proj (all_but a m) idx = repeat 0 a ++ nth a idx 0 :: repeat 0 m.
Proof.
  revert idx. induction a as [|a IH]; intros [|i idx] Hs; simpl in Hs;
    try discriminate.
  - unfold proj, all_but. cbn [repeat app zip_with nth]. f_equal.
    apply proj_true. lia.
  - unfold proj, all_but. cbn [repeat app zip_with nth]. f_equal.
    apply (IH idx). lia.
Qed.

Lemma ravel_unit (a m C c : nat) :
  ravel (repeat 1 a ++ C :: repeat 1 m) (unit_index a m c) = c.
Proof.
  unfold unit_index. induction a as [|a IH].
  - cbn [repeat app ravel]. rewrite prod_repeat_1, ravel_repeat_0. lia.
  - cbn [repeat app ravel]. rewrite IH. lia.
Qed.

Lemma nth_unit_index (a m c : nat) : nth a (unit_index a m c) 0 = c.
Proof.
  unfold unit_index. rewrite app_nth2; rewrite repeat_length; [|lia].
  now rewrite Nat.sub_diag.
Qed.

Lemma in_bounds_unit_index (a m C c : nat) :
  c < C -> in_bounds (unit_index a m c) (repeat 1 a ++ C :: repeat 1 m).
Proof.
  intros Hc. unfold unit_index, in_bounds.
  assert (Hones : forall k, Forall2 lt (repeat 0 k) (repeat 1 k)).
  { induction k; cbn [repeat]; constructor; auto. }
  apply Forall2_app; [apply Hones|]. constructor; [assumption|apply Hones].
Qed.

Lemma in_bounds_nth (idx s : list nat) (a : nat) :
  in_bounds idx s -> a < length s -> nth a idx 0 < nth a s 0.
Proof.
  intros Hb. revert a. induction Hb as [|i d idx s Hi _ IH]; intros a Ha;
    simpl in Ha; [lia|].
  destruct a as [|a]; [assumption|]. cbn [nth]. apply IH. lia.
Qed.

Lemma squeeze_unit (a m C : nat) :
  filter (fun d => negb (d =? 1)) (repeat 1 a ++ C :: repeat 1 m)
  = if C =? 1 then [] else [C].
Proof.
  assert (Hones : forall k, filter (fun d => negb (d =? 1)) (repeat 1 k) = []).
  { induction k as [|k IHk]; [reflexivity|]. cbn [repeat filter]. exact IHk. }
  rewrite filter_app, Hones. cbn [app filter]. rewrite Hones.
  now destruct (C =? 1).
Qed.

Lemma reduce_mask_all_but (a m : nat) :
  Jnp.reduce_mask (a + S m) (seq 0 a ++ seq (S a) m) = all_but a m.
Proof.
  unfold Jnp.reduce_mask, all_but.
  rewrite seq_app, map_app. cbn [seq map Nat.add]. f_equal; [|f_equal].
  - transitivity (map (fun _ : nat => true) (seq 0 a));
      [|now rewrite map_const, length_seq].
    apply map_ext_in. intros k Hk. apply existsb_exists. exists k.
    split; [|apply Nat.eqb_refl]. apply in_or_app. now left.
  - apply not_true_is_false. intros Hex. apply existsb_exists in Hex.
    destruct Hex as [k [Hk Heq]]. apply Nat.eqb_eq in Heq. subst k.
    apply in_app_or in Hk. destruct Hk as [Hk|Hk]; apply in_seq in Hk; lia.
  - transitivity (map (fun _ : nat => true) (seq (S a) m));
      [|now rewrite map_const, length_seq].
    apply map_ext_in. intros k Hk. apply existsb_exists. exists k.
    split; [|apply Nat.eqb_refl]. apply in_or_app. now right.
Qed.

Lemma firstn_repeat {A : Type} (v : A) (a n : nat) :
  a <= n -> firstn a (repeat v n) = repeat v a.
Proof.
  revert n. induction a as [|a IH]; intros [|n] Hn; try reflexivity; [lia|].
  cbn [repeat firstn]. f_equal. apply IH. lia.
Qed.

Lemma skipn_repeat {A : Type} (v : A) (a n : nat) :
  skipn a (repeat v n) = repeat v (n - a).
Proof.
  revert n. induction a as [|a IH]; intros [|n]; try reflexivity.
  cbn [repeat skipn]. apply IH.
Qed.

Lemma py_index_lt (n : nat) (i : Z) (a : nat) :
  py_index n i = Some a -> a < n.
Proof.
  unfold py_index. intros Hp.
  destruct ((0 <=? (if (i <? 0)%Z then (i + Z.of_nat n)%Z else i))%Z
            && ((if (i <? 0)%Z then (i + Z.of_nat n)%Z else i) <? Z.of_nat n)%Z)
    eqn:Hc; [|discriminate].
  injection Hp as <-. apply andb_true_iff in Hc. destruct Hc as [H1 H2].
  apply Z.leb_le in H1. apply Z.ltb_lt in H2. lia.
Qed.

Section ItemFacts.
Context {A : Type}.

Lemma get_item_at (l : list A) (i : Z) (a : nat) (d : A) :
  py_index (length l) i = Some a -> get_item l i = Ok (nth a l d).
Proof.
  intros Hp. unfold get_item. rewrite Hp.
  now rewrite (nth_error_nth' l d (py_index_lt _ _ Hp)).
Qed.

Lemma set_item_repeat (v w : A) (n : nat) (i : Z) (a : nat) :
  py_index n i = Some a ->
  set_item (repeat v n) i w
  = Ok (repeat v a ++ w :: repeat v (n - S a)).
Proof.
  intros Hp. unfold set_item. rewrite repeat_length, Hp.
  pose proof (py_index_lt _ _ Hp).
  now rewrite firstn_repeat, skipn_repeat by lia.
Qed.
End ItemFacts.

Lemma firstn_seq_le (a n start : nat) :
  a <= n -> firstn a (seq start n) = seq start a.
Proof.
  intros Han. replace n with (a + (n - a)) by lia.
  rewrite seq_app, firstn_app, length_seq, Nat.sub_diag.
  cbn [firstn]. rewrite app_nil_r.
  rewrite <- (length_seq a start) at 1. apply firstn_all.
Qed.

Lemma del_item_seq (n : nat) (i : Z) (a : nat) :
  py_index n i = Some a ->
  del_item (seq 0 n) i = Ok (seq 0 a ++ seq (S a) (n - S a)).
Proof.
  intros Hp. unfold del_item. rewrite length_seq, Hp.
  pose proof (py_index_lt _ _ Hp).
  rewrite firstn_seq_le, skipn_seq by lia. reflexivity.
Qed.

Section MeanFacts.
Context {F : Type} `{Scalar F}.

Lemma shape_amap (f : F -> F) (a : ndarray F) : shape (amap f0 f a) = shape a.
Proof. reflexivity. Qed.

Lemma feature_values_square (x : ndarray F) (a c : nat) :
  feature_values (Jnp.square x) a c
  = map (fun v => fmul v v) (feature_values x a c).
Proof.
  unfold feature_values, Jnp.square. rewrite shape_amap, map_map.
  apply map_ext_in. intros idx Hin. apply filter_In in Hin.
  destruct Hin as [Hin _].
  apply (get_amap (fun u => fmul u u)). now apply in_all_indices.
Qed.

(** The element of [jnp.mean(x, axis=all but a, keepdims=True)] for
    feature [c] is the mean of that feature. *)
Lemma get_mean_all_but (x : ndarray F) (a m c : nat) :
  ndim x = a + S m -> c < nth a (shape x) 0 ->
  get f0 (Jnp.mean_keepdims x (seq 0 a ++ seq (S a) m)) (unit_index a m c)
  = batch_mean_of x a c.
Proof.
  intros Hnd Hc. unfold Jnp.mean_keepdims.
  rewrite Hnd, reduce_mask_all_but.
  assert (Hmask : length (all_but a m) = length (shape x)).
  { unfold all_but. rewrite length_app, repeat_length. cbn [length].
    rewrite repeat_length. exact (eq_sym Hnd). }
  assert (Hlu : length (unit_index a m c) = a + S m).
  { unfold unit_index. rewrite length_app, repeat_length. cbn [length].
    now rewrite repeat_length. }
  assert (Hpu : proj (all_but a m) (unit_index a m c) = unit_index a m c).
  { rewrite proj_all_but by assumption. now rewrite nth_unit_index. }
  assert (Hbu : in_bounds (unit_index a m c)
                  (Jnp.kept_shape (all_but a m) (shape x))).
  { rewrite kept_shape_all_but by exact Hnd. now apply in_bounds_unit_index. }
  rewrite get_tabulate by exact Hbu.
  unfold batch_mean_of, mean_list, feature_values.
  assert (Hidx :
    map (zip_with Nat.add (unit_index a m c))
        (all_indices (Jnp.reduced_shape (all_but a m) (shape x)))
    = filter (fun i => nth a i 0 =? c) (all_indices (shape x))).
  { rewrite <- Hpu at 1.
    rewrite mean_indices; [|assumption|now rewrite Hlu|now rewrite Hpu].
    apply filter_ext_in. intros i Hi. apply in_all_indices in Hi.
    rewrite agree_all_but; [now rewrite nth_unit_index| |assumption].
    rewrite (in_bounds_length Hi). exact Hnd. }
  rewrite <- Hidx, !map_map, !length_map, length_all_indices. reflexivity.
Qed.
End MeanFacts.

(** ** Batch normalisation *)

Unset Implicit Arguments.

Lemma shape_eqb_refl (s : list nat) : shape_eqb s s = true.
Proof.
  induction s as [|d s IH]; [reflexivity|].
  cbn [shape_eqb]. now rewrite Nat.eqb_refl, IH.
Qed.

Section BatchNormFacts.
Context {F : Type} `{Scalar F}.
Variable pmean : ndarray F -> string -> result (ndarray F).

(** The update of a running statistic [r] from a batch statistic [b] that
    still has its kept dimensions. *)
Lemma running_update (mom k : F) (r b : ndarray F) (a m C : nat) :
  shape r = [C] -> shape b = repeat 1 a ++ C :: repeat 1 m ->
  exists r',
    Jnp.add (Jnp.scalar_mul mom r) (Jnp.scalar_mul k (Jnp.squeeze b)) = Ok r'
    /\ shape r' = [C]
    /\ forall c, c < C ->
         get f0 r' [c]
         = fadd (fmul mom (get f0 r [c]))
                (fmul k (get f0 b (unit_index a m c))).
Proof.
  intros Hr Hb.
  assert (Hsq : shape (Jnp.squeeze b) = if C =? 1 then [] else [C]).
  { unfold Jnp.squeeze. cbn [shape]. rewrite Hb. apply squeeze_unit. }
  assert (Hgb : forall c, get f0 b (unit_index a m c) = nth c (data b) f0).
  { intros c. unfold get. now rewrite Hb, ravel_unit. }
  unfold Jnp.add. destruct (Nat.eqb_spec C 1) as [->|HC].
  - rewrite binop_one_scalar by assumption.
    eexists. split; [reflexivity|]. split; [reflexivity|].
    intros c Hc. assert (c = 0) by lia. subst c.
    rewrite get_tabulate by (repeat constructor).
    unfold Jnp.scalar_mul.
    rewrite (get_amap (fun u => fmul mom u))
      by (rewrite Hr; repeat constructor).
    rewrite (get_amap (fun u => fmul k u)) by (rewrite Hsq; constructor).
    rewrite Hgb. unfold get. now rewrite Hsq.
  - rewrite binop_same by (unfold Jnp.scalar_mul; now rewrite !shape_amap, Hsq).
    unfold Jnp.scalar_mul at 1. rewrite shape_amap, Hr.
    eexists. split; [reflexivity|]. split; [reflexivity|].
    intros c Hc.
    rewrite get_tabulate by (repeat constructor; assumption).
    unfold Jnp.scalar_mul.
    rewrite (get_amap (fun u => fmul mom u))
      by (rewrite Hr; repeat constructor; assumption).
    rewrite (get_amap (fun u => fmul k u))
      by (rewrite Hsq; repeat constructor; assumption).
    rewrite Hgb. do 2 f_equal. unfold get, Jnp.squeeze. cbn [shape data].
    rewrite Hb, squeeze_unit.
    destruct (Nat.eqb_spec C 1); [contradiction|].
    cbn [ravel prod fold_right]. f_equal. lia.
Qed.
End BatchNormFacts.

Section BatchNormSteps.
Context {F : Type} `{Scalar F}.
Variable pmean : ndarray F -> string -> result (ndarray F).

Lemma length_all_but (a m : nat) : length (all_but a m) = a + S m.
Proof.
  unfold all_but. rewrite length_app, repeat_length. cbn [length].
  now rewrite repeat_length.
Qed.

Lemma proj_in_bounds_unit (x : ndarray F) (a m : nat) (idx : list nat) :
  ndim x = a + S m -> in_bounds idx (shape x) ->
  proj (all_but a m) idx = unit_index a m (nth a idx 0)
  /\ nth a idx 0 < nth a (shape x) 0.
Proof.
  intros Hnd Hb. split.
  - apply proj_all_but. rewrite (in_bounds_length Hb). exact Hnd.
  - apply in_bounds_nth; [assumption|]. unfold ndim in Hnd. lia.
Qed.

Lemma train_step_spec (mom eps : F) (axis : Z) (x : ndarray F)
    (st : BatchNormState) (a m : nat) :
  py_index (ndim x) axis = Some a ->
  ndim x = a + S m ->
  shape (running_mean st) = [nth a (shape x) 0] ->
  shape (running_var st) = [nth a (shape x) 0] ->
  exists out st',
    train_step pmean mom eps axis None (x, st) = Ok (out, st')
    /\ shape out = shape x
    /\ shape (running_mean st') = [nth a (shape x) 0]
    /\ shape (running_var st') = [nth a (shape x) 0]
    /\ (forall c, c < nth a (shape x) 0 ->
          get f0 (running_mean st') [c]
          = fadd (fmul mom (get f0 (running_mean st) [c]))
                 (fmul (fsub f1 mom) (batch_mean_of x a c)))
    /\ (forall c, c < nth a (shape x) 0 ->
          get f0 (running_var st') [c]
          = fadd (fmul mom (get f0 (running_var st) [c]))
                 (fmul (fsub f1 mom) (batch_var_of x a c)))
    /\ (forall idx, in_bounds idx (shape x) ->
          get f0 out idx
          = fdiv (fsub (get f0 x idx) (batch_mean_of x a (nth a idx 0)))
                 (fsqrt (fadd (batch_var_of x a (nth a idx 0)) eps))).
Proof.
  intros Hp Hnd Hrm Hrv.
  set (C := nth a (shape x) 0) in *.
  unfold train_step. cbv beta iota zeta.
  rewrite (@del_item_seq _ _ _ Hp). replace (ndim x - S a) with m by lia.
  cbn [bind maybe_pmean].
  set (axes := seq 0 a ++ seq (S a) m).
  set (bm := Jnp.mean_keepdims x axes).
  set (msq := Jnp.mean_keepdims (Jnp.square x) axes).
  set (mask := all_but a m).
  assert (Hmask : length mask = ndim x)
    by (unfold mask; now rewrite length_all_but).
  assert (Hbm : shape bm = Jnp.kept_shape mask (shape x)).
  { unfold bm, Jnp.mean_keepdims, axes. cbn [shape tabulate].
    now rewrite Hnd, reduce_mask_all_but. }
  assert (Hmsq : shape msq = Jnp.kept_shape mask (shape x)).
  { unfold msq, Jnp.mean_keepdims, axes. cbn [shape tabulate].
    change (ndim (Jnp.square x)) with (ndim x).
    change (shape (Jnp.square x)) with (shape x).
    now rewrite Hnd, reduce_mask_all_but. }
  assert (Hks : Jnp.kept_shape mask (shape x)
                = repeat 1 a ++ C :: repeat 1 m).
  { unfold mask. now apply kept_shape_all_but. }
  unfold Jnp.sub, Jnp.div.
  rewrite (@binop_same F H fsub msq (Jnp.square bm))
    by (unfold Jnp.square; now rewrite shape_amap, Hbm, Hmsq).
  cbn [bind].
  set (bv := tabulate (shape msq)
               (fun idx => fsub (get f0 msq idx) (get f0 (Jnp.square bm) idx))).
  rewrite (@binop_kept F H fsub x bm mask Hmask Hbm). cbn [bind].
  set (centred := tabulate (shape x)
                    (fun idx => fsub (get f0 x idx) (get f0 bm (proj mask idx)))).
  rewrite (@binop_kept F H fdiv centred (Jnp.sqrt (Jnp.add_scalar bv eps)) mask)
    by (try exact Hmask; unfold Jnp.sqrt, Jnp.add_scalar;
        now rewrite ?shape_amap).
  cbn [bind].
  destruct (running_update mom (fsub f1 mom) (running_mean st) bm a m C
              Hrm (eq_trans Hbm Hks)) as (rm' & Erm & Srm & Grm).
  rewrite Erm. cbn [bind].
  assert (Hbv : shape bv = repeat 1 a ++ C :: repeat 1 m)
    by (unfold bv; cbn [shape tabulate]; now rewrite Hmsq).
  destruct (running_update mom (fsub f1 mom) (running_var st) bv a m C
              Hrv Hbv) as (rv' & Erv & Srv & Grv).
  rewrite Erv. cbn [bind].
  assert (Ebm : forall c, c < C -> get f0 bm (unit_index a m c)
                                   = batch_mean_of x a c).
  { intros c Hc. unfold bm, axes. now apply get_mean_all_but. }
  assert (Ebv : forall c, c < C -> get f0 bv (unit_index a m c)
                                   = batch_var_of x a c).
  { intros c Hc.
    assert (Hu : in_bounds (unit_index a m c) (repeat 1 a ++ C :: repeat 1 m))
      by (now apply in_bounds_unit_index).
    unfold bv. rewrite get_tabulate by (now rewrite Hmsq, Hks).
    unfold Jnp.square at 1.
    rewrite (get_amap (fun u => fmul u u)) by (now rewrite Hbm, Hks).
    rewrite Ebm by assumption. unfold batch_var_of. f_equal.
    unfold msq, axes. rewrite get_mean_all_but; [|exact Hnd|exact Hc].
    unfold batch_mean_of. now rewrite feature_values_square. }
  eexists. eexists. split; [reflexivity|].
  cbn [running_mean running_var shape tabulate].
  split; [reflexivity|]. split; [exact Srm|]. split; [exact Srv|].
  split; [|split].
  - intros c Hc. now rewrite Grm, Ebm.
  - intros c Hc. now rewrite Grv, Ebv.
  - intros idx Hb.
    destruct (proj_in_bounds_unit x a m idx Hnd Hb) as [Hpr Hlt]. fold C in Hlt.
    assert (Hu : in_bounds (unit_index a m (nth a idx 0))
                   (repeat 1 a ++ C :: repeat 1 m))
      by (now apply in_bounds_unit_index).
    fold mask in Hpr.
    rewrite get_tabulate by exact Hb. rewrite Hpr.
    unfold centred. rewrite get_tabulate by exact Hb.
    rewrite Hpr, Ebm by assumption. f_equal.
    unfold Jnp.sqrt, Jnp.add_scalar.
    rewrite (get_amap fsqrt) by (now rewrite shape_amap, Hbv).
    rewrite (get_amap (fun u => fadd u eps)) by (now rewrite Hbv).
    now rewrite Ebv.
Qed.
End BatchNormSteps.

Section BatchNormImplFacts.
Context {F : Type} `{Scalar F}.
Variable pmean : ndarray F -> string -> result (ndarray F).

Lemma prod_unit_shape (a m C : nat) : prod (repeat 1 a ++ C :: repeat 1 m) = C.
Proof.
  rewrite prod_app, prod_repeat_1. cbn [prod fold_right].
  fold (prod (repeat 1 m)). rewrite prod_repeat_1. lia.
Qed.

(** A parameter of shape [(C,)] reshaped to the broadcast shape. *)
Lemma reshape_param (r : ndarray F) (a m C : nat) :
  shape r = [C] ->
  Jnp.reshape r (map Z.of_nat (repeat 1 a ++ C :: repeat 1 m))
  = Ok (mk_ndarray (repeat 1 a ++ C :: repeat 1 m) (data r))
  /\ forall c,
      get f0 (mk_ndarray (repeat 1 a ++ C :: repeat 1 m) (data r))
          (unit_index a m c)
      = get f0 r [c].
Proof.
  intros Hr. split.
  - apply reshape_of_nat. rewrite Hr, prod_unit_shape.
    cbn [prod fold_right]. lia.
  - intros c. unfold get. cbn [shape data]. rewrite ravel_unit, Hr.
    cbn [ravel prod fold_right]. f_equal. lia.
Qed.

(** An elementwise operation of an array with a per-feature parameter. *)
Lemma binop_param (f : F -> F -> F) (out r : ndarray F) (a m : nat) :
  ndim out = a + S m ->
  shape r = [nth a (shape out) 0] ->
  exists out',
    (p <- Jnp.reshape r (map Z.of_nat (repeat 1 a ++ nth a (shape out) 0
                                          :: repeat 1 m)) ;;
     Jnp.binop f out p) = Ok out'
    /\ shape out' = shape out
    /\ forall idx, in_bounds idx (shape out) ->
         get f0 out' idx = f (get f0 out idx) (get f0 r [nth a idx 0]).
Proof.
  intros Hnd Hr.
  destruct (reshape_param r a m _ Hr) as [Er Gr]. rewrite Er. cbn [bind].
  rewrite (@binop_kept F H f out _ (all_but a m)).
  - eexists. split; [reflexivity|]. split; [reflexivity|].
    intros idx Hb. rewrite get_tabulate by exact Hb.
    destruct (proj_in_bounds_unit out a m idx Hnd Hb) as [-> _].
    now rewrite Gr.
  - now rewrite length_all_but.
  - cbn [shape]. symmetry. now apply kept_shape_all_but.
Qed.

Lemma apply_param_spec (f : F -> F -> F) (param : option (ndarray F))
    (out : ndarray F) (a m : nat) :
  ndim out = a + S m ->
  (forall r, param = Some r -> shape r = [nth a (shape out) 0]) ->
  exists out',
    apply_param (Jnp.binop f)
      (map Z.of_nat (repeat 1 a ++ nth a (shape out) 0 :: repeat 1 m))
      param out = Ok out'
    /\ shape out' = shape out
    /\ forall idx, in_bounds idx (shape out) ->
         get f0 out' idx
         = match param with
           | Some r => f (get f0 out idx) (get f0 r [nth a idx 0])
           | None => get f0 out idx
           end.
Proof.
  intros Hnd Hp. unfold apply_param. destruct param as [r|].
  - apply binop_param; auto.
  - exists out. auto.
Qed.

Lemma eval_step_spec (eps : F) (x : ndarray F) (st : BatchNormState)
    (a m : nat) :
  ndim x = a + S m ->
  shape (running_mean st) = [nth a (shape x) 0] ->
  shape (running_var st) = [nth a (shape x) 0] ->
  exists out,
    eval_step (map Z.of_nat (repeat 1 a ++ nth a (shape x) 0 :: repeat 1 m))
      eps (x, st) = Ok (out, st)
    /\ shape out = shape x
    /\ forall idx, in_bounds idx (shape x) ->
         get f0 out idx
         = fmul (fsub (get f0 x idx) (get f0 (running_mean st) [nth a idx 0]))
                (frsqrt (fadd (get f0 (running_var st) [nth a idx 0]) eps)).
Proof.
  intros Hnd Hrm Hrv. unfold eval_step. cbv beta iota zeta.
  destruct (reshape_param (running_mean st) a m _ Hrm) as [Em Gm].
  destruct (reshape_param (running_var st) a m _ Hrv) as [Ev Gv].
  rewrite Em. cbn [bind]. rewrite Ev. cbn [bind].
  assert (Hmask : length (all_but a m) = ndim x)
    by (now rewrite length_all_but).
  assert (Hks : repeat 1 a ++ nth a (shape x) 0 :: repeat 1 m
                = Jnp.kept_shape (all_but a m) (shape x))
    by (symmetry; now apply kept_shape_all_but).
  unfold Jnp.sub, Jnp.mul.
  rewrite (@binop_kept F H fsub x
             (mk_ndarray (repeat 1 a ++ nth a (shape x) 0 :: repeat 1 m)
                         (data (running_mean st)))
             (all_but a m) Hmask Hks).
  cbn [bind].
  rewrite (@binop_kept F H fmul _ _ (all_but a m))
    by (try exact Hmask; unfold Lax.rsqrt, Jnp.add_scalar;
        rewrite !shape_amap; exact Hks).
  cbn [bind]. eexists. split; [reflexivity|]. split; [reflexivity|].
  intros idx Hb. cbn [shape tabulate].
  destruct (proj_in_bounds_unit x a m idx Hnd Hb) as [Hpr Hlt].
  assert (Hu : in_bounds (unit_index a m (nth a idx 0))
                 (repeat 1 a ++ nth a (shape x) 0 :: repeat 1 m))
    by (now apply in_bounds_unit_index).
  rewrite !get_tabulate by exact Hb. rewrite Hpr, Gm. f_equal.
  unfold Lax.rsqrt, Jnp.add_scalar.
  rewrite (get_amap frsqrt) by (rewrite shape_amap; exact Hu).
  rewrite (get_amap (fun u => fadd u eps)) by exact Hu.
  now rewrite Gv.
Qed.

(** Whatever the evaluation branch returns, its state is the operand's. *)
Lemma eval_step_state (bs : list Z) (eps : F) (x out : ndarray F)
    (st st' : BatchNormState) :
  eval_step bs eps (x, st) = Ok (out, st') -> st' = st.
Proof.
  unfold eval_step. cbv beta iota zeta.
  destruct (Jnp.reshape (running_mean st) bs); cbn [bind]; [|discriminate].
  destruct (Jnp.reshape (running_var st) bs); cbn [bind]; [|discriminate].
  destruct (Jnp.sub x a); cbn [bind]; [|discriminate].
  destruct (Jnp.mul _ _); cbn [bind]; [|discriminate].
  now intros [= _ ->].
Qed.

Lemma cond_true {A B : Type} (same : B -> B -> bool) (tf ff : A -> result B)
    (op : A) (r : B) :
  Lax.cond same true tf ff op = Ok r -> tf op = Ok r.
Proof.
  unfold Lax.cond. destruct (tf op) as [t|]; cbn [bind]; [|discriminate].
  destruct (ff op) as [f|]; cbn [bind]; [|discriminate].
  destruct (same t f); [|discriminate]. now intros [= ->].
Qed.
End BatchNormImplFacts.

Section BatchNormTheorems.
Context {F Key DType : Type} `{Scalar F}.
Variable pmean : ndarray F -> string -> result (ndarray F).


(** [_batchnorm_impl] in evaluation mode, without a named axis. *)
Lemma batchnorm_impl_eval (x : ndarray F) (st : BatchNormState)
    (mom eps : F) (gamma beta : option (ndarray F)) (axis : Z) (a : nat) :
  py_index (ndim x) axis = Some a ->
  shape (running_mean st) = [nth a (shape x) 0] ->
  shape (running_var st) = [nth a (shape x) 0] ->
  (forall w, gamma = Some w -> shape w = [nth a (shape x) 0]) ->
  (forall b, beta = Some b -> shape b = [nth a (shape x) 0]) ->
  exists out,
    _batchnorm_impl pmean x st mom eps gamma beta true axis None
    = Ok (out, st)
    /\ shape out = shape x
    /\ (forall idx, in_bounds idx (shape x) ->
          get f0 out idx
          = affine gamma beta (nth a idx 0)
              (fmul (fsub (get f0 x idx)
                          (get f0 (running_mean st) [nth a idx 0]))
                    (frsqrt (fadd (get f0 (running_var st) [nth a idx 0])
                                  eps)))).
Proof.
  intros Hp Hrm Hrv Hg Hb.
  pose proof (py_index_lt _ _ Hp) as Ha.
  pose (m := ndim x - S a).
  assert (Hnd : ndim x = a + S m) by (unfold m; lia).
  unfold _batchnorm_impl.
  rewrite (@get_item_at nat (shape x) axis a 0 Hp). cbn [bind].
  rewrite (@set_item_repeat nat 1 (nth a (shape x) 0) (ndim x) axis a Hp).
  cbn [bind]. fold m.
  destruct (eval_step_spec eps x st a m Hnd Hrm Hrv) as (oe & Ee & Se & Goe).
  destruct (train_step_spec pmean mom eps axis x st a m Hp Hnd Hrm Hrv)
    as (ot & st' & Et & St & Srm & Srv & _).
  unfold Lax.cond at 1. rewrite Ee, Et. cbn [bind].
  unfold same_shapes. cbn [fst snd].
  rewrite Se, St, Hrm, Srm, Hrv, Srv, !shape_eqb_refl. cbn [andb bind].
  unfold Lax.stop_gradient, Jnp.mul, Jnp.add.
  pose proof (apply_param_spec fmul gamma oe a m) as Sg.
  unfold ndim in Sg. rewrite Se in Sg.
  destruct (Sg Hnd Hg) as (o1 & E1 & S1 & G1). rewrite E1. cbn [bind].
  pose proof (apply_param_spec fadd beta o1 a m) as Sb.
  unfold ndim in Sb. rewrite S1 in Sb.
  destruct (Sb Hnd Hb) as (o2 & E2 & S2 & G2). rewrite E2. cbn [bind].
  unfold Lax.cond, same_shape. cbn [bind]. rewrite shape_eqb_refl.
  exists o2. split; [reflexivity|]. split; [congruence|].
  intros idx Hidx. rewrite G2, G1, Goe by assumption.
  unfold affine. now destruct gamma, beta.
Qed.

(** Evaluation mode never changes the state, whatever else happens. *)
Lemma batchnorm_impl_eval_state (x out : ndarray F) (st st' : BatchNormState)
    (mom eps : F) (gamma beta : option (ndarray F)) (axis : Z)
    (axis_name : option string) :
  _batchnorm_impl pmean x st mom eps gamma beta true axis axis_name
  = Ok (out, st') ->
  st' = st.
Proof.
  unfold _batchnorm_impl.
  destruct (get_item (shape x) axis) as [d|]; cbn [bind]; [|discriminate].
  destruct (set_item (repeat 1 (ndim x)) axis d) as [bs|]; cbn [bind];
    [|discriminate].
  destruct (Lax.cond same_shapes true _ _ (x, st)) as [[o s]|] eqn:Ec;
    cbn [bind]; [|discriminate].
  apply cond_true in Ec. apply eval_step_state in Ec. subst s.
  unfold Lax.stop_gradient.
  destruct (apply_param Jnp.mul _ gamma o); cbn [bind]; [|discriminate].
  destruct (apply_param Jnp.add _ beta _); cbn [bind]; [|discriminate].
  destruct (Lax.cond same_shape true _ _ _); cbn [bind]; [|discriminate].
  now intros [= _ ->].
Qed.
End BatchNormTheorems.

Section BatchNormTheorems.
Context {F Key DType : Type} `{Scalar F}.
Variable pmean : ndarray F -> string -> result (ndarray F).


(** C8.  [EvalNorm] returns the state it was given: whenever a call
    returns, under [jax.vmap] or not, the returned state (its
    [running_mean] and [running_var]) is the input state; and under
    [jax.vmap] the call does return, for a state and parameters that have
    one entry per feature and no axis name. *)
Theorem EvalNorm_state_unchanged (self : NormFields F Key DType)
    (x : ndarray F) (st : BatchNormState) :
  (forall under_vmap out st',
      EvalNorm_call pmean under_vmap self x st = Ok (out, st') ->
      st' = st
      /\ running_mean st' = running_mean st
      /\ running_var st' = running_var st)
  /\ (forall a,
         py_index (ndim x) (axis self) = Some a ->
         axis_name self = None ->
         shape (running_mean st) = [nth a (shape x) 0] ->
         shape (running_var st) = [nth a (shape x) 0] ->
         (forall w, weight self = Some w -> shape w = [nth a (shape x) 0]) ->
         (forall b, bias self = Some b -> shape b = [nth a (shape x) 0]) ->
         exists out,
           EvalNorm_call pmean true self x st = Ok (out, st)
           /\ shape out = shape x).
Proof.
  split.
  - intros under_vmap out st' Hcall.
    assert (Hst : st' = st).
    { unfold EvalNorm_call in Hcall. destruct under_vmap.
      - now apply batchnorm_impl_eval_state in Hcall.
      - now injection Hcall as _ <-. }
    now subst st'.
  - intros a Hp Hname Hrm Hrv Hw Hb. unfold EvalNorm_call. rewrite Hname.
    destruct (batchnorm_impl_eval pmean x st f0 (eps self) (weight self)
                (bias self) (axis self) a Hp Hrm Hrv Hw Hb)
      as (out & E & S & _).
    exists out. auto.
Qed.
End BatchNormTheorems.


Lemma EvalNorm_state_unchanged_witness :
  (py_index (ndim example_batch) (axis example_norm) = Some 1
   /\ axis_name example_norm = None
   /\ shape (running_mean (BatchNorm_state example_norm)) = [3]
   /\ shape (running_var (BatchNorm_state example_norm)) = [3]
   /\ (forall w, weight example_norm = Some w -> shape w = [3])
   /\ (forall b, bias example_norm = Some b -> shape b = [3]))
  /\ exists out,
      EvalNorm_call pmean_single true example_norm example_batch
        (BatchNorm_state example_norm)
      = Ok (out, BatchNorm_state example_norm)
      /\ shape out = shape example_batch.
Proof.
  assert (Hw : forall w, weight example_norm = Some w -> shape w = [3])
    by (now intros w [= <-]).
  assert (Hb : forall b, bias example_norm = Some b -> shape b = [3])
    by (now intros b [= <-]).
  split.
  - repeat split; try reflexivity; assumption.
  - exact (proj2 (EvalNorm_state_unchanged pmean_single example_norm
                    example_batch (BatchNorm_state example_norm))
             1 eq_refl eq_refl eq_refl eq_refl Hw Hb).
Defined.

(** ** [tree_eval] *)

Lemma pytree_ind' {F Key DType : Type} (P : pytree F Key DType -> Prop) :
  (forall a, P (Atom a)) ->
  (forall c children, Forall P children -> P (Node c children)) ->
  forall t, P t.
Proof.
  intros P_atom P_node. fix IH 1. intros [a|c children].
  - apply P_atom.
  - apply P_node. induction children as [|t l IHl]; constructor.
    + apply IH.
    + apply IHl.
Qed.

Lemma mapM_Forall2 {A B : Type} (f : A -> result B) (R : A -> B -> Prop)
    (l : list A) :
  Forall (fun a => exists b, f a = Ok b /\ R a b) l ->
  exists l', mapM f l = Ok l' /\ Forall2 R l l'.
Proof.
  intros Hl. induction Hl as [|a l [b [Eb Rb]] _ [l' [El Rl]]].
  - exists []. split; [reflexivity|constructor].
  - exists (b :: l'). split; [|now constructor].
    cbn [mapM]. rewrite Eb. cbn [bind].
    change ((fix go (l0 : list A) : result (list B) :=
               match l0 with
               | [] => Ok []
               | a0 :: l'0 => b0 <- f a0 ;; l'' <- go l'0 ;; Ok (b0 :: l'')
               end) l) with (mapM f l).
    now rewrite El.
Qed.

Lemma mapM_id {A : Type} (f : A -> result A) (l : list A) :
  Forall (fun a => f a = Ok a) l -> mapM f l = Ok l.
Proof.
  intros Hl. induction Hl as [|a l Ea _ El]; [reflexivity|].
  cbn [mapM]. rewrite Ea. cbn [bind].
  change ((fix go (l0 : list A) : result (list A) :=
             match l0 with
             | [] => Ok []
             | a0 :: l'0 => b0 <- f a0 ;; l'' <- go l'0 ;; Ok (b0 :: l'')
             end) l) with (mapM f l).
  now rewrite El.
Qed.

Section TreeEvalFacts.
Context {F Key DType : Type}.
Variable resolve_init : InitType F Key DType -> result (Initializer F Key DType).
Variable key_none : Key.
Variable float32 : DType.
Hypothesis resolve_callable : forall f, resolve_init (InitCallable f) = Ok f.

Lemma norm_fields_object (c : cls) (f : NormFields F Key DType) :
  norm_fields (norm_object c f) = Ok f.
Proof.
  destruct f as [inf mom e wi bi ax axn w b].
  unfold norm_object, norm_fields. cbn.
  destruct axn, w, b; reflexivity.
Qed.

Lemma eval_batchnorm_object (bn : NormFields F Key DType) :
  exists en,
    eval_batchnorm resolve_init key_none float32 (norm_object C_BatchNorm bn)
    = Ok (norm_object C_EvalNorm en)
    /\ in_features en = in_features bn /\ eps en = eps bn
    /\ axis en = axis bn /\ axis_name en = axis_name bn
    /\ weight en = weight bn /\ bias en = bias bn.
Proof.
  unfold eval_batchnorm. rewrite norm_fields_object. cbn [bind].
  unfold Norm_init. rewrite !resolve_callable. cbn [bind].
  eexists. split; [reflexivity|]. cbn. auto 10.
Qed.

Lemma is_leaf_has_rule (c : cls) (children : list (pytree F Key DType)) :
  isinstance (Node c children)
    (filter (fun c => negb (cls_eqb c C_object))
            (map fst (eval_registry resolve_init key_none float32)))
  = has_rule c.
Proof. destruct c; reflexivity. Qed.

Lemma eval_dispatcher_random (c : cls) (children : list (pytree F Key DType)) :
  random_class c = true ->
  eval_dispatcher resolve_init key_none float32 (Node c children)
  = Ok (Node C_Identity []).
Proof. destruct c; try discriminate; reflexivity. Qed.

Lemma has_rule_cases (c : cls) :
  has_rule c = true -> random_class c = true \/ c = C_BatchNorm.
Proof. destruct c; try discriminate; auto. Qed.

(** C2.  For every pytree of layers (whose [BatchNorm] objects are
    initialised), [tree_eval] returns a tree of the same structure in
    which every [RandomCrop1D/2D/3D] and [RandomZoom1D/2D/3D] is replaced
    by [Identity], every [BatchNorm] by an [EvalNorm] whose [in_features],
    [eps], [axis], [axis_name], [weight] and [bias] are the [BatchNorm]'s,
    and every other object is in place ([eval_of]); a tree without any
    object of a class with an eval rule is returned unchanged. *)
Theorem tree_eval_spec (tree : pytree F Key DType) :
  (batchnorms_initialised tree ->
   exists tree',
     tree_eval resolve_init key_none float32 tree = Ok tree'
     /\ eval_of tree tree')
  /\ (rule_free tree -> tree_eval resolve_init key_none float32 tree = Ok tree).
Proof.
  unfold tree_eval. cbv zeta.
  induction tree as [a|c children IH] using pytree_ind'.
  - split; intros _.
    + exists (Atom a). split; [reflexivity|constructor].
    + reflexivity.
  - cbn [tree_map]. rewrite is_leaf_has_rule.
    destruct (has_rule c) eqn:Hrule.
    + split.
      * intros Hinit. destruct (has_rule_cases c Hrule) as [Hrand| ->].
        -- rewrite eval_dispatcher_random by assumption.
           eexists. split; [reflexivity|]. now constructor.
        -- inversion Hinit as [|bn Hbn|c' ch' Hc _]; [|discriminate Hc].
           destruct (eval_batchnorm_object bn)
             as (en & E & H1 & H2 & H3 & H4 & H5 & H6).
           exists (norm_object C_EvalNorm en). split.
           ++ exact E.
           ++ now constructor.
      * intros Hfree. inversion Hfree as [|c' ch' Hc _]; subst. congruence.
    + split.
      * intros Hinit.
        assert (Hch : Forall batchnorms_initialised children).
        { inversion Hinit as [|bn Hbn|c' ch' Hc Hall]; subst; [|assumption].
          discriminate Hrule. }
        destruct (mapM_Forall2
                    (tree_map (eval_dispatcher resolve_init key_none float32)
                       (fun x => isinstance x
                          (filter (fun c => negb (cls_eqb c C_object))
                             (map fst (eval_registry resolve_init key_none
                                         float32)))))
                    eval_of children) as [children' [E Hrel]].
        { rewrite Forall_forall in IH, Hch |- *. intros t Ht.
          exact (proj1 (IH t Ht) (Hch t Ht)). }
        rewrite E. cbn [bind]. eexists. split; [reflexivity|].
        now constructor.
      * intros Hfree.
        assert (Hch : Forall rule_free children)
          by (now inversion Hfree).
        rewrite mapM_id; [reflexivity|].
        rewrite Forall_forall in IH, Hch |- *. intros t Ht.
        exact (proj2 (IH t Ht) (Hch t Ht)).
Qed.
End TreeEvalFacts.

Lemma basic_resolve_init_callable {F Key DType : Type} `{Scalar F}
    (f : Initializer F Key DType) :
  basic_resolve_init (InitCallable f) = Ok f.
Proof. reflexivity. Qed.

Lemma tree_eval_spec_witness :
  ((forall f : Initializer Z nat unit,
       basic_resolve_init (InitCallable f) = Ok f)
   /\ batchnorms_initialised example_tree)
  /\ exists tree',
      tree_eval basic_resolve_init 0 tt example_tree = Ok tree'
      /\ eval_of example_tree tree'.
Proof.
  assert (Hinit : batchnorms_initialised example_tree).
  { apply bi_node; [reflexivity|].
    constructor; [constructor; [reflexivity|repeat constructor]|].
    constructor; [apply (bi_batchnorm example_norm)|].
    repeat constructor. }
  split.
  - split; [exact basic_resolve_init_callable|exact Hinit].
  - exact (proj1 (tree_eval_spec basic_resolve_init 0 tt
                    basic_resolve_init_callable example_tree) Hinit).
Defined.

(** ** Random layers draw from the key they are given *)

Lemma mapM_ext {A B : Type} (f g : A -> result B) (l : list A) :
  (forall a, f a = g a) -> mapM f l = mapM g l.
Proof.
  intros Hfg. induction l as [|a l IH]; [reflexivity|].
  cbn [mapM]. rewrite Hfg. destruct (g a); cbn [bind]; [|reflexivity].
  change ((fix go (l0 : list A) : result (list B) :=
             match l0 with
             | [] => Ok []
             | a1 :: l' => b <- f a1 ;; l'' <- go l' ;; Ok (b :: l'')
             end) l) with (mapM f l).
  change ((fix go (l0 : list A) : result (list B) :=
             match l0 with
             | [] => Ok []
             | a1 :: l' => b <- g a1 ;; l'' <- go l' ;; Ok (b :: l'')
             end) l) with (mapM g l).
  now rewrite IH.
Qed.

Section RandomFacts.
Context {F Key : Type} `{Scalar F}.
Variable PRNGKey : Z -> Key.
Variable split : Key -> nat -> list Key.
Variable resize : ndarray F -> list Z -> string -> result (ndarray F).
Variable validate_spatial_nd : nat -> ndarray F -> result unit.
Variable validate_spatial_in_shape : nat -> ndarray F -> result unit.
Variable _check_spatial_in_shape : nat -> ndarray F -> result unit.
Variable Crop1D : Z -> Z -> ndarray F -> result (ndarray F).
Variable Crop2D : Z -> Z -> Z -> Z -> ndarray F -> result (ndarray F).
Variables S1 S2 : Sampler F Key.

Lemma derived_nth (k0 key : Key) (n i : nat) :
  derived split k0 key -> derived split k0 (nth i (split key n) key).
Proof.
  intros Hd. destruct (Nat.lt_ge_cases i (length (split key n))) as [Hi|Hi].
  - eapply derived_split; [exact Hd|]. apply nth_In. exact Hi.
  - now rewrite nth_overflow.
Qed.

Lemma random_crop_nd_agree (k0 key : Key) (x : ndarray F) (crop_size : list Z) :
  agree_from split k0 S1 S2 -> derived split k0 key ->
  random_crop_nd S1 x crop_size key = random_crop_nd S2 x crop_size key.
Proof.
  intros Hag Hd. unfold random_crop_nd.
  destruct (Hag key Hd) as (_ & Hri & _).
  erewrite mapM_ext; [reflexivity|].
  intros [i s].
  destruct (get_item (shape x) (Z.of_nat i)); cbn [bind]; [|reflexivity].
  now rewrite Hri.
Qed.

Lemma random_zoom_along_axis_agree (k0 key : Key) (x : ndarray F) (factor : F)
    (axis : Z) :
  agree_from split k0 S1 S2 -> derived split k0 key ->
  random_zoom_along_axis resize S1 key x factor axis
  = random_zoom_along_axis resize S2 key x factor axis.
Proof.
  intros Hag Hd. unfold random_zoom_along_axis.
  destruct (feqb factor f0); [reflexivity|].
  destruct (get_item (shape x) axis) as [axis_size|]; cbn [bind];
    [|reflexivity].
  destruct (fltb factor f0); [reflexivity|].
  destruct (set_item _ axis _) as [rs|]; cbn [bind]; [|reflexivity].
  destruct (resize x rs "linear") as [x'|]; cbn [bind]; [|reflexivity].
  now apply (random_crop_nd_agree k0).
Qed.
End RandomFacts.

Section Determinism.
Context {F Key DType : Type} `{Scalar F}.
Variable PRNGKey : Z -> Key.
Variable split : Key -> nat -> list Key.
Variable image_resize :
  ndarray F -> list Z -> string -> bool -> result (ndarray F).
Variable pmean : ndarray F -> string -> result (ndarray F).
Variable matmul : ndarray F -> ndarray F -> result (ndarray F).
Variable under_vmap : bool.
Variable validate_spatial_nd : nat -> ndarray F -> result unit.
Variable validate_spatial_in_shape : nat -> ndarray F -> result unit.
Variable _check_spatial_in_shape : nat -> ndarray F -> result unit.
Variable Crop1D : Z -> Z -> ndarray F -> result (ndarray F).
Variable Crop2D : Z -> Z -> Z -> Z -> ndarray F -> result (ndarray F).
Variables S1 S2 : Sampler F Key.

(** The [pytc.treeclass] layers: what they return depends on the
    samplers through the draws at the keys derived from their roots. *)
Lemma treeclass_call_agree (layer : Treeclass (F := F)) (x : ndarray F)
    (key : option Key) :
  (forall k0, In k0 (treeclass_roots PRNGKey layer key) ->
              agree_from split k0 S1 S2) ->
  treeclass_call PRNGKey validate_spatial_in_shape _check_spatial_in_shape
    Crop1D Crop2D S1 layer x key
  = treeclass_call PRNGKey validate_spatial_in_shape _check_spatial_in_shape
      Crop1D Crop2D S2 layer x key.
Proof.
  revert x key.
  induction layer as [| l | l | l | p | nd p | len | h w | inner IH p ev];
    intros x key Hroots; cbn [treeclass_call]; try reflexivity.
  - (* Dropout *)
    pose proof (Hroots _ (or_introl eq_refl)) as Hkey.
    unfold Dropout_call.
    destruct (Hkey _ (derived_refl split _)) as (Hb & _ & _).
    now rewrite Hb.
  - (* DropoutND *)
    pose proof (Hroots _ (or_introl eq_refl)) as Hkey.
    unfold DropoutND_call.
    destruct (Hkey _ (derived_refl split _)) as (Hb & _ & _).
    destruct (validate_spatial_in_shape nd x); cbn [bind]; [|reflexivity].
    destruct (get_item (shape x) 0); cbn [bind]; [|reflexivity].
    now rewrite Hb.
  - (* RandomCrop1D *)
    pose proof (Hroots _ (or_introl eq_refl)) as Hkey.
    unfold RandomCrop1D_old_call.
    destruct (Hkey _ (derived_refl split _)) as (_ & Hr & _).
    destruct (negb (ndim x =? 2)); [reflexivity|].
    destruct (get_item (shape x) 1); cbn [bind]; [|reflexivity].
    now rewrite Hr.
  - (* RandomCrop2D *)
    pose proof (Hroots _ (or_introl eq_refl)) as Hkey.
    unfold RandomCrop2D_old_call.
    destruct (Hkey _ (derived_refl split _)) as (_ & Hr & _).
    destruct (negb (ndim x =? 3)); [reflexivity|].
    destruct (get_item (shape x) 1); cbn [bind]; [|reflexivity].
    destruct (get_item (shape x) 2); cbn [bind]; [|reflexivity].
    now rewrite !Hr.
  - (* RandomApply: the coin at its own key, the wrapped layer at the
       default key *)
    cbv zeta.
    pose proof (Hroots _ (or_introl eq_refl)) as Hkey.
    destruct (Hkey _ (derived_refl split _)) as (Hb & _ & _).
    rewrite Hb.
    destruct (_ || _); [reflexivity|].
    apply IH. intros k0 Hk0. apply Hroots. now right.
Qed.

(** The random layers of [serket._src.nn.reshape], at the key [k] they
    are given. *)
Lemma RandomCropND_call_agree (size : list Z) (nd : nat) (x : ndarray F)
    (k : Key) :
  agree_from split k S1 S2 ->
  RandomCropND_call validate_spatial_nd S1 size nd x k
  = RandomCropND_call validate_spatial_nd S2 size nd x k.
Proof.
  intros Hkey. unfold RandomCropND_call.
  destruct (validate_spatial_nd nd x); cbn [bind]; [|reflexivity].
  destruct (get_item (shape x) 0); cbn [bind]; [|reflexivity].
  apply (random_crop_nd_agree split S1 S2 k); [assumption|constructor].
Qed.

Lemma RandomZoom1D_call_agree (lf : F * F) (x : ndarray F) (k : Key) :
  agree_from split k S1 S2 ->
  RandomZoom1D_call split (resize image_resize) validate_spatial_nd S1 lf x k
  = RandomZoom1D_call split (resize image_resize) validate_spatial_nd S2 lf x k.
Proof.
  intros Hkey. unfold RandomZoom1D_call.
  destruct (validate_spatial_nd 1 x); cbn [bind]; [|reflexivity].
  destruct (unpack 2 _) as [keys|] eqn:Ek; cbn [bind]; [|reflexivity].
  assert (keys = split k 2) as ->.
  { unfold unpack in Ek. destruct (_ =? 2); now inversion Ek. }
  unfold Lax.stop_gradient. destruct lf as [low high].
  pose proof (derived_nth split k k 2 0 (derived_refl split k)) as D1.
  pose proof (derived_nth split k k 2 1 (derived_refl split k)) as D2.
  destruct (Hkey _ D1) as (_ & _ & Hu). rewrite Hu.
  now apply (random_zoom_along_axis_agree split (resize image_resize) S1 S2 k).
Qed.

Lemma RandomZoom2D_call_agree (hf wf : F * F) (x : ndarray F) (k : Key) :
  agree_from split k S1 S2 ->
  RandomZoom2D_call split (resize image_resize) validate_spatial_nd S1 hf wf x k
  = RandomZoom2D_call split (resize image_resize) validate_spatial_nd S2 hf wf
      x k.
Proof.
  intros Hkey. unfold RandomZoom2D_call.
  destruct (validate_spatial_nd 2 x); cbn [bind]; [|reflexivity].
  destruct (unpack 4 _) as [keys|] eqn:Ek; cbn [bind]; [|reflexivity].
  assert (keys = split k 4) as ->.
  { unfold unpack in Ek. destruct (_ =? 4); now inversion Ek. }
  unfold Lax.stop_gradient. destruct hf as [hfl hfh], wf as [wfl wfh].
  pose proof (derived_nth split k k 4 0 (derived_refl split k)) as D1.
  pose proof (derived_nth split k k 4 1 (derived_refl split k)) as D2.
  pose proof (derived_nth split k k 4 2 (derived_refl split k)) as D3.
  pose proof (derived_nth split k k 4 3 (derived_refl split k)) as D4.
  destruct (Hkey _ D1) as (_ & _ & Hu1). rewrite Hu1.
  destruct (Hkey _ D2) as (_ & _ & Hu2). rewrite Hu2.
  rewrite (random_zoom_along_axis_agree split (resize image_resize) S1 S2
             k _ x _ 1 Hkey D3).
  destruct (random_zoom_along_axis (resize image_resize) S2 _ x _ 1) as [x1|];
    cbn [bind]; [|reflexivity].
  now rewrite (random_zoom_along_axis_agree split (resize image_resize) S1 S2
                 k _ x1 _ 2 Hkey D4).
Qed.

Lemma RandomZoom3D_call_agree (hf wf df : F * F) (x : ndarray F) (k : Key) :
  agree_from split k S1 S2 ->
  RandomZoom3D_call split (resize image_resize) validate_spatial_nd S1 hf wf
    df x k
  = RandomZoom3D_call split (resize image_resize) validate_spatial_nd S2 hf wf
      df x k.
Proof.
  intros Hkey. unfold RandomZoom3D_call.
  destruct (validate_spatial_nd 3 x); cbn [bind]; [|reflexivity].
  destruct (unpack 6 _) as [keys|] eqn:Ek; cbn [bind]; [|reflexivity].
  assert (keys = split k 6) as ->.
  { unfold unpack in Ek. destruct (_ =? 6); now inversion Ek. }
  unfold Lax.stop_gradient.
  destruct hf as [hfl hfh], wf as [wfl wfh], df as [dfl dfh].
  pose proof (derived_nth split k k 6 0 (derived_refl split k)) as D1.
  pose proof (derived_nth split k k 6 1 (derived_refl split k)) as D2.
  pose proof (derived_nth split k k 6 2 (derived_refl split k)) as D3.
  pose proof (derived_nth split k k 6 3 (derived_refl split k)) as D4.
  pose proof (derived_nth split k k 6 4 (derived_refl split k)) as D5.
  pose proof (derived_nth split k k 6 5 (derived_refl split k)) as D6.
  destruct (Hkey _ D1) as (_ & _ & Hu1). rewrite Hu1.
  destruct (Hkey _ D2) as (_ & _ & Hu2). rewrite Hu2.
  destruct (Hkey _ D5) as (_ & _ & Hu5). rewrite Hu5.
  rewrite (random_zoom_along_axis_agree split (resize image_resize) S1 S2
             k _ x _ 1 Hkey D3).
  destruct (random_zoom_along_axis (resize image_resize) S2 _ x _ 1) as [x1|];
    cbn [bind]; [|reflexivity].
  rewrite (random_zoom_along_axis_agree split (resize image_resize) S1 S2
             k _ x1 _ 2 Hkey D4).
  destruct (random_zoom_along_axis (resize image_resize) S2 _ x1 _ 2) as [x2|];
    cbn [bind]; [|reflexivity].
  now rewrite (random_zoom_along_axis_agree split (resize image_resize) S1 S2
                 k _ x2 _ 3 Hkey D6).
Qed.

(** C7.  A layer call is a function of the layer's fields and of its
    explicit arguments (the input, and the key or the state where the
    signature takes one).  What [jax.random] may return is a parameter of
    the call, the sampler; the theorem holds for every layer with every
    argument tuple, and for any two samplers: the outputs (and the states
    returned) are equal as soon as the samplers draw the same values at
    the keys derived from the roots of the call.  For [Dropout],
    [DropoutND], [RandomCropND] and [RandomZoom1D/2D/3D] called with a
    key, the only root is that key: the samplers may differ at every
    other key, the default [PRNGKey(0)] included, so all the randomness
    comes from the key passed.  The layers that draw nothing, the
    state-taking [BatchNorm] and [EvalNorm] among them, have no root:
    their result is the same for all samplers.  [RandomApply] alone
    reaches further than its key, as it calls the wrapped layer without
    one and that layer falls back on the constant [PRNGKey(0)]. *)
Theorem layer_call_deterministic (c : Call (F := F) (Key := Key)
                                           (DType := DType)) :
  (forall k0, In k0 (call_roots PRNGKey c) -> agree_from split k0 S1 S2) ->
  layer_call PRNGKey split image_resize pmean matmul under_vmap
    validate_spatial_nd validate_spatial_in_shape _check_spatial_in_shape
    Crop1D Crop2D S1 c
  = layer_call PRNGKey split image_resize pmean matmul under_vmap
      validate_spatial_nd validate_spatial_in_shape _check_spatial_in_shape
      Crop1D Crop2D S2 c.
Proof.
  intros Hroots.
  destruct c as [layer x key | layer xs | s e x | d shp x | layer x
                | layer x | layer x
                | layer x | layer x key | size nd x key | lf x key
                | hf wf x key | hf wf df x key | layer x | layer x
                | layer x state | layer x state | layer x | layer x];
    cbn [layer_call call_roots] in *; try reflexivity.
  - now rewrite (treeclass_call_agree layer x key Hroots).
  - now rewrite (RandomCropND_call_agree size nd x _
                   (Hroots _ (or_introl eq_refl))).
  - now rewrite (RandomZoom1D_call_agree lf x _
                   (Hroots _ (or_introl eq_refl))).
  - now rewrite (RandomZoom2D_call_agree hf wf x _
                   (Hroots _ (or_introl eq_refl))).
  - now rewrite (RandomZoom3D_call_agree hf wf df x _
                   (Hroots _ (or_introl eq_refl))).
Qed.
End Determinism.

(** ** The einsum string of [Multilinear] *)

Lemma einsum_string_cases :
  Forall (fun d =>
            match _multilinear_einsum_string (Z.of_nat d) with
            | Ok s => parse_einsum s = Some (multilinear_subscripts d)
            | Raise _ => False
            end)
         (seq 1 51).
Proof.
  cbv [seq].
  repeat (apply Forall_cons; [vm_compute; reflexivity|]).
  apply Forall_nil.
Qed.

Lemma einsum_string_parses (d : nat) :
  1 <= d <= 51 ->
  exists s,
    _multilinear_einsum_string (Z.of_nat d) = Ok s
    /\ parse_einsum s = Some (multilinear_subscripts d).
Proof.
  intros Hd. pose proof einsum_string_cases as Hall.
  rewrite Forall_forall in Hall. specialize (Hall d).
  destruct (_multilinear_einsum_string (Z.of_nat d)) as [s|].
  - exists s. split; [reflexivity|]. apply Hall. apply in_seq. lia.
  - exfalso. apply Hall. apply in_seq. lia.
Qed.

(** Outside [1 .. 51] no string is generated. *)
Lemma einsum_string_range (degree : Z) :
  (degree < 1 \/ 51 < degree)%Z ->
  _multilinear_einsum_string degree = Raise ValueError.
Proof.
  intros Hd. unfold _multilinear_einsum_string.
  change (Z.of_nat (String.length alpha) - 1)%Z with 51%Z.
  destruct (Z.leb_spec 1 degree), (Z.leb_spec degree 51); cbn; try reflexivity.
  lia.
Qed.

Lemma NoDup_alpha_letters : NoDup alpha_letters.
Proof.
  assert (E : nodup ascii_dec alpha_letters = alpha_letters)
    by (vm_compute; reflexivity).
  rewrite <- E. apply NoDup_nodup.
Qed.

(** ** Labels, sizes and contracted indices *)

Lemma lookup_app {A : Type} (l : ascii) (env1 env2 : list (ascii * A)) :
  lookup l (env1 ++ env2)
  = match lookup l env1 with
    | Some v => Some v
    | None => lookup l env2
    end.
Proof.
  induction env1 as [|[l' v] env1 IH]; [reflexivity|].
  cbn [app lookup]. now destruct (Ascii.eqb l l').
Qed.

Lemma lookup_combine_notin {A : Type} (l : ascii) (L : list ascii)
    (vs : list A) :
  ~ In l L -> lookup l (combine L vs) = None.
Proof.
  revert vs. induction L as [|l' L IH]; intros [|v vs] Hn; try reflexivity.
  cbn [combine lookup]. destruct (Ascii.eqb_spec l l') as [->|Hne].
  - exfalso. apply Hn. now left.
  - apply IH. intros Hin. apply Hn. now right.
Qed.

Lemma map_lookup_combine (L : list ascii) (vs : list nat)
    (pre post : list (ascii * nat)) :
  NoDup L -> length L = length vs ->
  (forall l, In l L -> lookup l pre = None) ->
  map (fun l => lookup_default l (pre ++ combine L vs ++ post)) L = vs.
Proof.
  revert vs pre. induction L as [|l L IH]; intros [|v vs] pre Hnd Hlen Hpre;
    simpl in Hlen; try discriminate; [reflexivity|].
  inversion Hnd as [|? ? Hnotin Hnd']; subst.
  cbn [map combine app]. f_equal.
  - unfold lookup_default. rewrite lookup_app, Hpre by (now left).
    cbn [lookup]. now rewrite Ascii.eqb_refl.
  - change (pre ++ (l, v) :: combine L vs ++ post)
      with (pre ++ [(l, v)] ++ combine L vs ++ post).
    rewrite app_assoc. apply IH; [assumption|lia|].
    intros l' Hl'. rewrite lookup_app, Hpre by (now right).
    cbn [lookup]. destruct (Ascii.eqb_spec l' l) as [->|_]; [|reflexivity].
    contradiction.
Qed.

Section BindSizes.
Context {F : Type} `{Scalar F}.

Lemma bind_sizes_fresh (L : list ascii) (ns : list nat)
    (env rest : list (ascii * nat)) :
  NoDup L -> length L = length ns ->
  (forall l, In l L -> lookup l env = None) ->
  Jnp.bind_sizes env (combine L ns ++ rest)
  = Jnp.bind_sizes (env ++ combine L ns) rest.
Proof.
  revert ns env. induction L as [|l L IH]; intros [|n ns] env Hnd Hlen Henv;
    simpl in Hlen; try discriminate.
  - cbn [combine app]. now rewrite app_nil_r.
  - inversion Hnd as [|? ? Hnotin Hnd']; subst.
    cbn [combine app Jnp.bind_sizes]. rewrite Henv by (now left).
    rewrite IH; [|assumption|lia|].
    + now rewrite <- app_assoc.
    + intros l' Hl'. rewrite lookup_app, Henv by (now right).
      cbn [lookup]. destruct (Ascii.eqb_spec l' l) as [->|_]; [|reflexivity].
      contradiction.
Qed.

Lemma bind_sizes_known (pairs env rest : list (ascii * nat)) :
  (forall l d, In (l, d) pairs -> lookup l env = Some d) ->
  Jnp.bind_sizes env (pairs ++ rest) = Jnp.bind_sizes env rest.
Proof.
  induction pairs as [|[l d] pairs IH]; intros Hk; [reflexivity|].
  cbn [app Jnp.bind_sizes]. rewrite (Hk l d) by (now left).
  rewrite Nat.eqb_refl. apply IH. intros l' d' Hin. apply Hk. now right.
Qed.
End BindSizes.

Lemma lookup_combine_in (L : list ascii) (vs : list nat)
    (post : list (ascii * nat)) (l : ascii) (v : nat) :
  NoDup L -> In (l, v) (combine L vs) ->
  lookup l (combine L vs ++ post) = Some v.
Proof.
  revert vs. induction L as [|l' L IH]; intros [|v' vs] Hnd Hin;
    try (now destruct Hin).
  inversion Hnd as [|? ? Hnotin Hnd']; subst.
  cbn [combine app lookup]. destruct Hin as [[= -> ->]|Hin].
  - now rewrite Ascii.eqb_refl.
  - destruct (Ascii.eqb_spec l l') as [->|_].
    + exfalso. apply Hnotin. apply (in_combine_l _ _ _ _ Hin).
    + now apply IH.
Qed.

Lemma existsb_eqb_In (c : ascii) (seen : list ascii) :
  existsb (Ascii.eqb c) seen = true <-> In c seen.
Proof.
  rewrite existsb_exists. split.
  - intros [c' [Hin Heq]]. apply Ascii.eqb_eq in Heq. now subst.
  - intros Hin. exists c. split; [assumption|apply Ascii.eqb_refl].
Qed.

Lemma uniq_seen (seen l : list ascii) :
  (forall c, In c l -> In c seen) -> uniq seen l = [].
Proof.
  induction l as [|c l IH]; intros Hs; [reflexivity|].
  cbn [uniq]. rewrite (proj2 (existsb_eqb_In c seen)) by (apply Hs; now left).
  apply IH. intros c' Hc'. apply Hs. now right.
Qed.

Lemma uniq_fresh (L seen rest : list ascii) :
  NoDup L -> (forall c, In c L -> ~ In c seen) ->
  uniq seen (L ++ rest) = L ++ uniq (rev L ++ seen) rest.
Proof.
  revert seen. induction L as [|c L IH]; intros seen Hnd Hs; [reflexivity|].
  inversion Hnd as [|? ? Hnotin Hnd']; subst.
  cbn [app uniq].
  destruct (existsb (Ascii.eqb c) seen) eqn:Hex.
  - apply existsb_eqb_In in Hex. exfalso. apply (Hs c); [now left|assumption].
  - f_equal. rewrite IH; [|assumption|].
    + cbn [rev]. now rewrite <- app_assoc.
    + intros c' Hc' [<-|Hin]; [contradiction|].
      apply (Hs c'); [now right|assumption].
Qed.

(** ** The contraction an einsum string of [Multilinear] denotes *)

Lemma mapM_cons {A B : Type} (f : A -> result B) (a : A) (l : list A) :
  mapM f (a :: l) = (b <- f a ;; l' <- mapM f l ;; Ok (b :: l')).
Proof. reflexivity. Qed.

Lemma mapM_app {A B : Type} (f : A -> result B) (l1 l2 : list A) :
  mapM f (l1 ++ l2)
  = (l1' <- mapM f l1 ;; l2' <- mapM f l2 ;; Ok (l1' ++ l2')).
Proof.
  induction l1 as [|a l1 IH].
  - cbn [app]. change (mapM f []) with (@Ok (list B) []). cbn [bind].
    destruct (mapM f l2); reflexivity.
  - cbn [app]. rewrite !mapM_cons. destruct (f a) as [b|]; cbn [bind];
      [|reflexivity].
    rewrite IH. destruct (mapM f l1) as [l1'|]; cbn [bind]; [|reflexivity].
    destruct (mapM f l2); reflexivity.
Qed.

Lemma combine_app_eq {A B : Type} (l1 l2 : list A) (m1 m2 : list B) :
  length l1 = length m1 ->
  combine (l1 ++ l2) (m1 ++ m2) = combine l1 m1 ++ combine l2 m2.
Proof.
  revert m1. induction l1 as [|a l1 IH]; intros [|b m1] Hlen;
    simpl in Hlen; try discriminate; [reflexivity|].
  cbn [app combine]. f_equal. apply IH. lia.
Qed.

Lemma broadcast_shapes_nil_l (s : list nat) : Jnp.broadcast_shapes [] s = Some s.
Proof.
  unfold Jnp.broadcast_shapes. cbn [rev Jnp.broadcast_rev option_map].
  now rewrite rev_involutive.
Qed.

Lemma broadcast_rev_nil_r (s : list nat) : Jnp.broadcast_rev s [] = Some s.
Proof. now destruct s. Qed.

Lemma broadcast_shapes_nil_r (s : list nat) : Jnp.broadcast_shapes s [] = Some s.
Proof.
  unfold Jnp.broadcast_shapes. cbn [rev]. rewrite broadcast_rev_nil_r.
  cbn [option_map]. now rewrite rev_involutive.
Qed.

Lemma broadcast_all_inputs (batch : list nat) (k : nat) :
  Jnp.broadcast_all (repeat batch (S k) ++ [[]]) = Some batch.
Proof.
  unfold Jnp.broadcast_all. cbn [repeat app fold_left].
  rewrite broadcast_shapes_nil_l.
  induction k as [|k IH].
  - cbn [repeat app fold_left]. apply broadcast_shapes_nil_r.
  - cbn [repeat app fold_left]. now rewrite broadcast_shapes_same.
Qed.

Section MultilinearParts.
Context {F : Type} `{Scalar F}.

Lemma split_inputs (Ld : list ascii) (xs : list (ndarray F)) (ns batch : list nat) :
  Forall2 (fun x n => shape x = batch ++ [n]) xs ns ->
  length Ld = length xs ->
  mapM (fun '(sub, x) => Jnp.split_operand sub x)
       (combine (map (fun c => mk_subscript true [c]) Ld) xs)
  = Ok (map (fun n => (batch, [n])) ns).
Proof.
  intros Hxs. revert Ld.
  induction Hxs as [|x n xs ns Hx _ IH]; intros [|c Ld] Hlen;
    simpl in Hlen; try discriminate; [reflexivity|].
  cbn [map combine]. rewrite mapM_cons.
  unfold Jnp.split_operand at 1. cbn [has_ellipsis labels length].
  unfold ndim. rewrite Hx, length_app. cbn [length].
  destruct (Nat.leb_spec 1 (length batch + 1)); [|lia]. cbn [bind].
  replace (length batch + 1 - 1) with (length batch) by lia.
  rewrite firstn_app, firstn_all, Nat.sub_diag. cbn [firstn].
  rewrite skipn_app, skipn_all, Nat.sub_diag. cbn [skipn app].
  rewrite app_nil_r. rewrite IH by lia. reflexivity.
Qed.

Lemma input_pairs (Ld : list ascii) (ns batch : list nat) :
  length Ld = length ns ->
  concat (map (fun '(sub, part) =>
                 combine (labels sub) (snd (part : list nat * list nat)))
              (combine (map (fun c => mk_subscript true [c]) Ld)
                       (map (fun n => (batch, [n])) ns)))
  = combine Ld ns.
Proof.
  revert ns. induction Ld as [|c Ld IH]; intros [|n ns] Hlen;
    simpl in Hlen; try discriminate; [reflexivity|].
  cbn [map combine concat labels snd app]. f_equal. apply IH. lia.
Qed.

Lemma input_labels (Ld : list ascii) :
  concat (map labels (map (fun c => mk_subscript true [c]) Ld)) = Ld.
Proof.
  induction Ld as [|c Ld IH]; [reflexivity|].
  cbn [map concat labels app]. now rewrite IH.
Qed.

Lemma input_ellipsis (Ld : list ascii) (sub : subscript) :
  length (map (fun c => mk_subscript true [c]) Ld ++ [sub]) = S (length Ld).
Proof. rewrite length_app, length_map. cbn [length]. lia. Qed.

(** The factors of one term of the sum, for the inputs. *)
Lemma input_factors (Ld : list ascii) (xs : list (ndarray F))
    (ns batch b : list nat) (env : list (ascii * nat)) :
  length Ld = length xs -> length xs = length ns ->
  in_bounds b batch ->
  map (fun '(sub, (x, part)) =>
         get f0 x
           (Jnp.bcast_index (fst (part : list nat * list nat)) b
            ++ map (fun l => lookup_default l env) (labels sub)))
      (combine (map (fun c => mk_subscript true [c]) Ld)
               (combine xs (map (fun n => (batch, [n])) ns)))
  = zip_with (fun x ai => get f0 x (b ++ [ai])) xs
             (map (fun l => lookup_default l env) Ld).
Proof.
  intros H1 H2 Hb. revert xs ns H1 H2.
  induction Ld as [|c Ld IH]; intros [|x xs] [|n ns] H1 H2;
    simpl in H1, H2; try discriminate; [reflexivity|].
  cbn [map combine zip_with fst labels].
  rewrite bcast_index_same by assumption. f_equal. apply IH; lia.
Qed.
End MultilinearParts.

Section MultilinearEinsum.
Context {F : Type} `{Scalar F}.

Lemma einsum_multilinear (Ld : list ascii) (lo : ascii)
    (xs : list (ndarray F)) (w : ndarray F) (ns batch : list nat) (m : nat) :
  NoDup (Ld ++ [lo]) ->
  xs <> [] ->
  length Ld = length xs ->
  Forall2 (fun x n => shape x = batch ++ [n]) xs ns ->
  shape w = ns ++ [m] ->
  exists y,
    Jnp.einsum_eval
      (map (fun c => mk_subscript true [c]) Ld
       ++ [mk_subscript false (Ld ++ [lo])])
      (mk_subscript true [lo]) (xs ++ [w]) = Ok y
    /\ shape y = batch ++ [m]
    /\ forall b o, in_bounds b batch -> o < m ->
         get f0 y (b ++ [o]) = multilinear_at xs w ns b o.
Proof.
  intros Hnd Hne Hlen Hxs Hw.
  assert (Hns : length xs = length ns)
    by (clear - Hxs; induction Hxs; simpl; congruence).
  assert (HndL : NoDup Ld) by (now apply NoDup_app_remove_r in Hnd).
  assert (Hlo : ~ In lo Ld).
  { intros Hin. apply NoDup_remove_2 in Hnd. rewrite app_nil_r in Hnd.
    contradiction. }
  unfold Jnp.einsum_eval.
  rewrite input_ellipsis, length_app. cbn [length has_ellipsis negb andb].
  replace (length xs + 1) with (S (length Ld)) by lia.
  rewrite Nat.eqb_refl. cbn [negb].
  (* the parts of the operands *)
  rewrite combine_app_eq by (now rewrite length_map).
  rewrite mapM_app, (split_inputs Ld xs ns batch Hxs Hlen). cbn [bind combine].
  rewrite mapM_cons. unfold Jnp.split_operand at 1.
  cbn [has_ellipsis labels]. unfold ndim. rewrite Hw, !length_app.
  cbn [length]. replace (length Ld + 1 =? length ns + 1) with true
    by (symmetry; apply Nat.eqb_eq; lia).
  cbn [bind mapM].
  (* the sizes of the labels *)
  rewrite combine_app_eq by (rewrite !length_map; lia).
  rewrite map_app, concat_app, input_pairs by lia.
  cbn [combine map concat labels snd]. rewrite app_nil_r.
  rewrite combine_app_eq by lia. cbn [combine].
  rewrite <- (app_nil_l (combine Ld ns ++ combine Ld ns ++ [(lo, m)])).
  cbn [app].
  rewrite (bind_sizes_fresh Ld ns [] _ HndL ltac:(lia))
    by (intros; reflexivity).
  cbn [app].
  rewrite (bind_sizes_known (combine Ld ns) (combine Ld ns) [(lo, m)]).
  2:{ intros l d Hin.
      rewrite <- (app_nil_r (combine Ld ns)).
      now apply lookup_combine_in. }
  cbn [Jnp.bind_sizes].
  rewrite (lookup_combine_notin lo Ld ns Hlo). cbn [bind].
  (* the batch shape *)
  rewrite map_app, map_map. cbn [map fst].
  rewrite map_const.
  destruct ns as [|n0 ns'] eqn:Ens.
  { destruct xs; [contradiction|discriminate]. }
  rewrite <- Ens in *. replace (length ns) with (S (length ns'))
    by (rewrite Ens; reflexivity).
  rewrite broadcast_all_inputs. cbn [bind].
  (* the size of the result *)
  unfold Jnp.lookup_size at 1.
  rewrite lookup_app, (lookup_combine_notin lo Ld ns Hlo).
  cbn [lookup]. rewrite Ascii.eqb_refl. cbn [bind mapM].
  eexists. split; [reflexivity|]. cbn [shape tabulate].
  split; [reflexivity|].
  intros b o Hb Ho.
  rewrite get_tabulate
    by (apply Forall2_app; [assumption|repeat constructor; assumption]).
  rewrite firstn_app, skipn_app, (in_bounds_length Hb), Nat.sub_diag.
  rewrite firstn_all2, skipn_all2 by (rewrite (in_bounds_length Hb); lia).
  cbn [firstn skipn app]. rewrite app_nil_r.
  (* the contracted labels and their sizes *)
  rewrite map_app, concat_app, input_labels. cbn [map concat labels].
  rewrite app_nil_r.
  rewrite (uniq_fresh Ld [lo] (Ld ++ [lo]) HndL)
    by (intros c Hc [<-|[]]; contradiction).
  rewrite uniq_seen, app_nil_r.
  2:{ intros c Hc. apply in_app_or in Hc. apply in_or_app.
      destruct Hc as [Hc|Hc]; [left; now apply in_rev in Hc|now right]. }
  rewrite <- (app_nil_l (combine Ld ns ++ [(lo, m)])).
  rewrite (map_lookup_combine Ld ns [] [(lo, m)] HndL ltac:(lia))
    by (intros; reflexivity).
  unfold multilinear_at. f_equal. apply map_ext_in. intros a Ha.
  apply in_all_indices in Ha. apply in_bounds_length in Ha.
  (* the factors of a term *)
  f_equal.
  rewrite (combine_app_eq xs [w] (map (fun n => (batch, [n])) ns)
             [([], ns ++ [m])]) by (rewrite length_map; lia).
  rewrite combine_app_eq
    by (rewrite length_map, length_combine, length_map; lia).
  rewrite map_app. cbn [combine map fst labels].
  assert (Henv : map (fun l => lookup_default l ((lo, o) :: combine Ld a)) Ld
                 = a).
  { change ((lo, o) :: combine Ld a) with ([(lo, o)] ++ combine Ld a).
    rewrite <- (app_nil_r (combine Ld a)).
    apply (map_lookup_combine Ld a [(lo, o)] [] HndL); [lia|].
    intros l Hl. cbn [lookup].
    destruct (Ascii.eqb_spec l lo) as [->|_]; [contradiction|reflexivity]. }
  rewrite (input_factors Ld xs ns batch b _ Hlen Hns Hb), Henv.
  f_equal. f_equal. unfold Jnp.bcast_index. cbn [zip_with app].
  f_equal. rewrite map_app, Henv. cbn [map]. f_equal. f_equal.
  unfold lookup_default. cbn [lookup]. now rewrite Ascii.eqb_refl.
Qed.
End MultilinearEinsum.

Lemma firstn_succ_nth {A : Type} (l : list A) (d : nat) (dflt : A) :
  d < length l -> firstn (S d) l = firstn d l ++ [nth d l dflt].
Proof.
  revert d. induction l as [|a l IH]; intros d Hd; simpl in Hd; [lia|].
  destruct d as [|d]; [reflexivity|].
  cbn [firstn nth app]. f_equal. apply IH. lia.
Qed.

Lemma NoDup_multilinear_labels (d : nat) :
  d <= 51 ->
  NoDup (firstn d alpha_letters ++ [nth d alpha_letters "0"%char])
  /\ length (firstn d alpha_letters) = d.
Proof.
  intros Hd.
  assert (Hlen : length alpha_letters = 52) by reflexivity.
  split.
  - rewrite <- firstn_succ_nth by lia.
    pose proof NoDup_alpha_letters as Hnd.
    rewrite <- (firstn_skipn (S d) alpha_letters) in Hnd.
    now apply NoDup_app_remove_r in Hnd.
  - rewrite length_firstn. lia.
Qed.

Section MultilinearTheorem.
Context {F : Type} `{Scalar F}.

Lemma add_last_axis (y bias : ndarray F) (batch : list nat) (m : nat) :
  shape y = batch ++ [m] -> shape bias = [m] ->
  exists y',
    Jnp.add y bias = Ok y'
    /\ shape y' = batch ++ [m]
    /\ forall b o, in_bounds b batch -> o < m ->
         get f0 y' (b ++ [o]) = fadd (get f0 y (b ++ [o])) (get f0 bias [o]).
Proof.
  intros Hy Hb. unfold Jnp.add, Jnp.binop.
  assert (Hbs : Jnp.broadcast_shapes (batch ++ [m]) [m] = Some (batch ++ [m])).
  { unfold Jnp.broadcast_shapes. rewrite rev_unit. cbn [rev app].
    cbn [Jnp.broadcast_rev]. rewrite broadcast_rev_nil_r, Nat.eqb_refl.
    cbn [option_map rev]. now rewrite rev_involutive. }
  rewrite Hy, Hb, Hbs. eexists. split; [reflexivity|].
  split; [reflexivity|]. intros b o Hbb Ho.
  assert (Hidx : in_bounds (b ++ [o]) (batch ++ [m]))
    by (apply Forall2_app; [assumption|repeat constructor; assumption]).
  rewrite get_tabulate by exact Hidx.
  rewrite bcast_index_same by exact Hidx. f_equal.
  unfold Jnp.bcast_index. rewrite length_app. cbn [length].
  replace (length b + 1 - 1) with (length b) by lia.
  rewrite skipn_app, skipn_all, Nat.sub_diag. cbn [skipn app zip_with].
  destruct (Nat.eqb_spec m 1) as [->|_]; [|reflexivity].
  now replace o with 0 by lia.
Qed.

(** C4.  For a [Multilinear] layer with [in_features] a tuple of length
    [d], [1 <= d <= 51], and [d] inputs with one leading shape whose last
    axes have the sizes [in_features], the call returns [y] with
    [y[b, o] = sum over a_1..a_d of
       x_1[b, a_1] * ... * x_d[b, a_d] * weight[a_1, ..., a_d, o]],
    plus [bias[o]] when the bias is not [None]; the einsum string of
    degree [d] parses to the subscripts of exactly this contraction. *)
Theorem Multilinear_call_spec (self : Multilinear.t) (xs : list (ndarray F))
    (ns batch : list nat) (m : nat) :
  let d := length (Multilinear.in_features self) in
  1 <= d <= 51 ->
  Multilinear.in_features self = map Z.of_nat ns ->
  Forall2 (fun x n => shape x = batch ++ [n]) xs ns ->
  shape (Multilinear.weight self) = ns ++ [m] ->
  (forall bias, Multilinear.bias self = Some bias -> shape bias = [m]) ->
  (exists s,
      _multilinear_einsum_string (Z.of_nat d) = Ok s
      /\ parse_einsum s = Some (multilinear_subscripts d))
  /\ exists y,
      Multilinear.call self xs = Ok y
      /\ shape y = batch ++ [m]
      /\ forall b o, in_bounds b batch -> o < m ->
           get f0 y (b ++ [o])
           = match Multilinear.bias self with
             | None => multilinear_at xs (Multilinear.weight self) ns b o
             | Some bias =>
                 fadd (multilinear_at xs (Multilinear.weight self) ns b o)
                      (get f0 bias [o])
             end.
Proof.
  intros d Hd Hin Hxs Hw Hbias.
  destruct (einsum_string_parses d Hd) as (s & Es & Ps).
  split; [now exists s|].
  assert (Hns : length xs = length ns)
    by (clear - Hxs; induction Hxs; simpl; congruence).
  assert (Hdn : d = length ns)
    by (unfold d; now rewrite Hin, length_map).
  destruct (NoDup_multilinear_labels d ltac:(lia)) as [Hnd HlenL].
  destruct (einsum_multilinear (firstn d alpha_letters)
              (nth d alpha_letters "0"%char) xs (Multilinear.weight self)
              ns batch m Hnd) as (y & Ey & Sy & Gy); try assumption.
  { intros ->. simpl in Hns. lia. }
  { lia. }
  unfold Multilinear.call. fold d. rewrite Es. cbn [bind].
  unfold Jnp.einsum. rewrite Ps. unfold multilinear_subscripts.
  rewrite Ey. cbn [bind].
  destruct (Multilinear.bias self) as [bias|] eqn:Eb.
  - destruct (add_last_axis y bias batch m Sy (Hbias bias eq_refl))
      as (y' & Ey' & Sy' & Gy').
    exists y'. split; [assumption|]. split; [assumption|].
    intros b o Hb Ho. now rewrite Gy', Gy.
  - exists y. auto.
Qed.
End MultilinearTheorem.

Lemma Multilinear_call_spec_witness :
  (1 <= length (Multilinear.in_features example_bilinear) <= 51
   /\ Multilinear.in_features example_bilinear = map Z.of_nat [2; 3]
   /\ Forall2 (fun x n => shape x = [2] ++ [n]) example_inputs [2; 3]
   /\ shape (Multilinear.weight example_bilinear) = [2; 3] ++ [2]
   /\ (forall bias, Multilinear.bias example_bilinear = Some bias ->
                    shape bias = [2]))
  /\ (exists s,
         _multilinear_einsum_string
           (Z.of_nat (length (Multilinear.in_features example_bilinear)))
         = Ok s
         /\ parse_einsum s
            = Some (multilinear_subscripts
                      (length (Multilinear.in_features example_bilinear))))
  /\ exists y,
      Multilinear.call example_bilinear example_inputs = Ok y
      /\ shape y = [2] ++ [2]
      /\ forall b o, in_bounds b [2] -> o < 2 ->
           get f0 y (b ++ [o])
           = match Multilinear.bias example_bilinear with
             | None =>
                 multilinear_at example_inputs
                   (Multilinear.weight example_bilinear) [2; 3] b o
             | Some bias =>
                 fadd (multilinear_at example_inputs
                         (Multilinear.weight example_bilinear) [2; 3] b o)
                      (get f0 bias [o])
             end.
Proof.
  assert (Hd : 1 <= length (Multilinear.in_features example_bilinear) <= 51)
    by (cbn; lia).
  assert (Hxs : Forall2 (fun x n => shape x = [2] ++ [n]) example_inputs [2; 3])
    by (repeat constructor).
  assert (Hb : forall bias, Multilinear.bias example_bilinear = Some bias ->
                            shape bias = [2])
    by (now intros bias [= <-]).
  split.
  - repeat split; try assumption; try reflexivity; cbn; lia.
  - exact (Multilinear_call_spec example_bilinear example_inputs [2; 3] [2] 2
             Hd eq_refl Hxs eq_refl Hb).
Defined.

Lemma derived_example_ge (k0 k : nat) :
  3 <= k0 -> derived example_split k0 k -> 3 <= k.
Proof.
  intros Hk0 Hd. induction Hd as [|k n k' _ IH Hin]; [assumption|].
  unfold example_split in Hin. apply in_map_iff in Hin.
  destruct Hin as [i [<- _]]. lia.
Qed.

(** The two samplers agree at every key derived from a key other than
    the default one. *)
Lemma samplers_agree (k0 : nat) :
  3 <= k0 -> agree_from example_split k0 example_sampler other_sampler.
Proof.
  intros Hk0 k Hd. pose proof (derived_example_ge k0 k Hk0 Hd) as Hk.
  unfold other_sampler, example_PRNGKey. cbn [bernoulli randint uniform].
  change (Z.to_nat 0 + 2) with 2.
  destruct (Nat.eqb_spec k 2); [lia|]. repeat split.
Qed.

Lemma layer_call_deterministic_witness :
  (forall k0, In k0 (call_roots example_PRNGKey example_call) ->
              agree_from example_split k0 example_sampler other_sampler)
  /\ layer_call example_PRNGKey example_split example_resize pmean_single
       example_matmul true check_channel_first check_channel_first
       check_channel_first example_crop1 example_crop2 example_sampler example_call
     = layer_call example_PRNGKey example_split example_resize pmean_single
         example_matmul true check_channel_first check_channel_first
         check_channel_first example_crop1 example_crop2 other_sampler example_call.
Proof.
  assert (Hr : forall k0, In k0 (call_roots example_PRNGKey example_call) ->
                 agree_from example_split k0 example_sampler other_sampler).
  { intros k0 [<-|[]]. apply samplers_agree. cbn. lia. }
  split; [exact Hr|].
  exact (layer_call_deterministic example_PRNGKey example_split example_resize
           pmean_single example_matmul true check_channel_first
           check_channel_first check_channel_first example_crop1
           example_crop2 example_sampler other_sampler example_call Hr).
Defined.

(** The draws at the roots do decide the result.  The two samplers
    differ at the default key only: [Dropout] called without a key
    returns different arrays for them, and so does a [RandomApply] called
    with a key, since its wrapped [Dropout] falls back on the default
    key. *)
Example Dropout_draws_at_its_key :
  layer_call example_PRNGKey example_split example_resize pmean_single
    example_matmul true check_channel_first check_channel_first
    check_channel_first example_crop1 example_crop2 example_sampler
    (CTreeclass (DType := unit) (TDropout 0%Z) example_image None)
  <> layer_call example_PRNGKey example_split example_resize pmean_single
       example_matmul true check_channel_first check_channel_first
       check_channel_first example_crop1 example_crop2 other_sampler
       (CTreeclass (DType := unit) (TDropout 0%Z) example_image None).
Proof. vm_compute. discriminate. Qed.

Example RandomApply_reaches_the_default_key :
  layer_call example_PRNGKey example_split example_resize pmean_single
    example_matmul true check_channel_first check_channel_first
    check_channel_first example_crop1 example_crop2 example_sampler
    (CTreeclass (DType := unit) (TRandomApply (TDropout 0%Z) 1%Z None)
       example_image (Some 4))
  <> layer_call example_PRNGKey example_split example_resize pmean_single
       example_matmul true check_channel_first check_channel_first
       check_channel_first example_crop1 example_crop2 other_sampler
       (CTreeclass (DType := unit) (TRandomApply (TDropout 0%Z) 1%Z None)
          example_image (Some 4)).
Proof. vm_compute. discriminate. Qed.

(** ** The examples of the docstrings, run on the model *)

Example Flatten_docstring_shapes :
  map (fun '(s, e) =>
         match flatten (full [1; 2; 3; 4; 5] 1%Z) s e with
         | Ok y => Some (shape y)
         | Raise _ => None
         end)
      [(0, 1); (0, 2); (1, 2); (-1, -1); (-2, -1); (-3, -1)]%Z
  = [Some [2; 3; 4; 5]; Some [6; 4; 5]; Some [1; 6; 4; 5];
     Some [1; 2; 3; 4; 5]; Some [1; 2; 3; 20]; Some [1; 2; 60]].
Proof. vm_compute. reflexivity. Qed.

Example Unflatten_docstring_shapes :
  (match unflatten (full [120] 1%Z) 0 [1; 2; 3; 4; 5]%Z with
   | Ok y => Some (shape y) | Raise _ => None end,
   match unflatten (full [1; 2; 6] 1%Z) 2 [2; 3]%Z with
   | Ok y => Some (shape y) | Raise _ => None end)
  = (Some [1; 2; 3; 4; 5], Some [1; 2; 2; 3]).
Proof. vm_compute. reflexivity. Qed.

Example CenterCrop1D_docstring :
  CenterCropND_call check_channel_first 0 (mk_CenterCropND [4%Z] 1)
    (amap 0 S (arange [1; 12]))
  = Ok (mk_ndarray [1; 4] [5; 6; 7; 8]).
Proof. vm_compute. reflexivity. Qed.

Example CenterCrop2D_docstring :
  CenterCropND_call check_channel_first 0 (mk_CenterCropND [4; 4]%Z 2)
    (amap 0 S (arange [1; 12; 12]))
  = Ok (mk_ndarray [1; 4; 4]
          [53; 54; 55; 56; 65; 66; 67; 68; 77; 78; 79; 80; 89; 90; 91; 92]).
Proof. vm_compute. reflexivity. Qed.

Example multilinear_einsum_string_linear :
  _multilinear_einsum_string 1 = Ok "...a,ab->...b"%string.
Proof. vm_compute. reflexivity. Qed.

Example multilinear_einsum_string_bilinear :
  _multilinear_einsum_string 2 = Ok "...a,...b,abc->...c"%string.
Proof. vm_compute. reflexivity. Qed.

Example multilinear_einsum_string_out_of_range :
  _multilinear_einsum_string 0 = Raise ValueError
  /\ _multilinear_einsum_string 52 = Raise ValueError.
Proof. split; vm_compute; reflexivity. Qed.

(** * Further properties of the layers *)

(** ** [unflatten]: sizes, negative dimensions, and the way back *)

Lemma shape_split (s : list nat) (k : nat) :
  k < length s -> s = firstn k s ++ nth k s 0 :: skipn (S k) s.
Proof.
  revert k. induction s as [|d s IH]; intros k Hk; simpl in Hk; [lia|].
  destruct k as [|k]; [reflexivity|].
  cbn [firstn nth skipn app]. f_equal. apply IH. lia.
Qed.

Lemma block_of_app {A : Type} (pre mid post : list A) :
  firstn (length pre) (pre ++ mid ++ post) = pre
  /\ firstn (length mid) (skipn (length pre) (pre ++ mid ++ post)) = mid
  /\ skipn (length pre + length mid) (pre ++ mid ++ post) = post.
Proof.
  repeat split.
  - rewrite firstn_app, Nat.sub_diag, firstn_all. cbn [firstn].
    apply app_nil_r.
  - rewrite skipn_app, Nat.sub_diag, skipn_all. cbn [skipn app].
    rewrite firstn_app, Nat.sub_diag, firstn_all. cbn [firstn].
    apply app_nil_r.
  - rewrite app_assoc, skipn_app, length_app, Nat.sub_diag.
    rewrite skipn_all2 by (rewrite length_app; lia). reflexivity.
Qed.

Section UnflattenEdges.
Context {F : Type}.

(** The shape [unflatten] asks [jnp.reshape] for, at a non-negative
    dimension. *)
Lemma unflatten_target (x : ndarray F) (k : nat) (shp : list nat) :
  k < ndim x ->
  unflatten x (Z.of_nat k) (map Z.of_nat shp)
  = Jnp.reshape x
      (map Z.of_nat (firstn k (shape x) ++ shp ++ skipn (S k) (shape x))).
Proof.
  intros Hk. unfold unflatten, py_slice_to, py_slice_from, ndim in *.
  replace (Z.of_nat k + 1)%Z with (Z.of_nat (S k)) by lia.
  rewrite !slice_bound_of_nat, length_map.
  rewrite (Nat.min_l k), (Nat.min_l (S k)) by lia.
  now rewrite firstn_map, skipn_map, !map_app.
Qed.

Lemma prod_target (s : list nat) (k : nat) (shp : list nat) :
  k < length s ->
  prod (firstn k s ++ shp ++ skipn (S k) s)
  = prod (firstn k s) * prod shp * prod (skipn (S k) s)
  /\ prod s = prod (firstn k s) * nth k s 0 * prod (skipn (S k) s).
Proof.
  intros Hk. pose proof (f_equal prod (shape_split s k Hk)) as E.
  rewrite prod_app in E. cbn [prod fold_right] in E.
  fold (prod (skipn (S k) s)) in E.
  rewrite !prod_app. split; [ring|]. rewrite E. ring.
Qed.

(** X1.  For new dimensions that are all given ([shape] holds
    non-negative integers, no [-1] to be inferred), [unflatten] at an axis
    of a non-empty array returns exactly when the new dimensions multiply
    to the length of that axis, and raises [TypeError] otherwise; what it
    returns has the new dimensions in place of the axis and the same
    row-major data. *)
Theorem unflatten_checks_size (x : ndarray F) (k : nat) (shp : list nat) :
  k < ndim x -> 0 < prod (shape x) ->
  (prod shp = nth k (shape x) 0 ->
   unflatten x (Z.of_nat k) (map Z.of_nat shp)
   = Ok (mk_ndarray (firstn k (shape x) ++ shp ++ skipn (S k) (shape x))
           (data x)))
  /\ (prod shp <> nth k (shape x) 0 ->
      unflatten x (Z.of_nat k) (map Z.of_nat shp) = Raise TypeError).
Proof.
  intros Hk Hpos. rewrite unflatten_target by assumption.
  destruct (prod_target (shape x) k shp Hk) as [Ht Ex].
  split; intros Hs.
  - apply (@reshape_of_nat F). rewrite Ht, Ex, Hs. reflexivity.
  - apply (@reshape_mismatch F).
    intros E. apply Hs. nia.
Qed.

(** X2.  A negative dimension [-k] with [k >= 2] names the axis
    [ndim - k]. *)
Theorem unflatten_negative_dim (x : ndarray F) (k : nat) (shp : list Z) :
  2 <= k <= ndim x ->
  unflatten x (- Z.of_nat k) shp = unflatten x (Z.of_nat (ndim x - k)) shp.
Proof.
  intros Hk. unfold unflatten, py_slice_to, py_slice_from, ndim in *.
  rewrite length_map.
  replace (Z.of_nat (length (shape x) - k) + 1)%Z
    with (Z.of_nat (S (length (shape x) - k))) by lia.
  rewrite !slice_bound_of_nat.
  rewrite !slice_bound_neg by lia.
  do 2 f_equal; [f_equal; lia|]. f_equal. f_equal. lia.
Qed.

(** X3.  The dimension [-1] is not the last axis: [in_shape[dim + 1:]] is
    then the whole shape, so that unflattening the last axis of an array
    with more than one element into dimensions that multiply to its
    length raises [TypeError]. *)
Theorem unflatten_last_dim_raises (x : ndarray F) (shp : list nat) :
  1 <= ndim x -> 1 < prod (shape x) ->
  prod shp = last (shape x) 0 ->
  unflatten x (-1) (map Z.of_nat shp) = Raise TypeError.
Proof.
  intros Hn Hpos Hs. unfold unflatten, py_slice_to, py_slice_from, ndim in *.
  rewrite length_map. change (-1 + 1)%Z with (Z.of_nat 0).
  rewrite slice_bound_of_nat, slice_bound_neg by lia.
  cbn [Nat.min skipn].
  rewrite firstn_map, <- !map_app.
  apply (@reshape_mismatch F).
  rewrite !prod_app, Hs.
  assert (Hsplit : prod (shape x)
                   = prod (firstn (Z.to_nat (-1 + Z.of_nat (length (shape x))))
                             (shape x)) * last (shape x) 0).
  { replace (Z.to_nat (-1 + Z.of_nat (length (shape x))))
      with (length (shape x) - 1) by lia.
    destruct (shape x) as [|d s _] using rev_ind; [simpl in Hn; lia|].
    rewrite last_last, length_app. cbn [length].
    replace (length s + 1 - 1) with (length s) by lia.
    rewrite firstn_app, Nat.sub_diag, firstn_all. cbn [firstn].
    rewrite app_nil_r, prod_app. cbn [prod fold_right]. lia. }
  nia.
Qed.

(** X4.  [flatten] undoes [unflatten]: when the new dimensions (at least
    one) multiply to the length of axis [k], unflattening that axis and
    flattening the new axes again returns the array. *)
Theorem unflatten_flatten_inverse (y : ndarray F) (k : nat) (shp : list nat) :
  k < ndim y -> shp <> [] -> prod shp = nth k (shape y) 0 ->
  exists x,
    unflatten y (Z.of_nat k) (map Z.of_nat shp) = Ok x
    /\ shape x = firstn k (shape y) ++ shp ++ skipn (S k) (shape y)
    /\ flatten x (Z.of_nat k) (Z.of_nat (k + length shp - 1)) = Ok y.
Proof.
  intros Hk Hne Hs. rewrite unflatten_target by assumption.
  destruct (prod_target (shape y) k shp Hk) as [Ht Ey].
  rewrite (@reshape_of_nat F) by (rewrite Ht, Ey, Hs; reflexivity).
  eexists. split; [reflexivity|]. split; [reflexivity|].
  assert (Hlen : 0 < length shp) by (destruct shp; [congruence|simpl; lia]).
  unfold ndim in Hk.
  assert (Hpre : length (firstn k (shape y)) = k)
    by (rewrite length_firstn; lia).
  destruct (block_of_app (firstn k (shape y)) shp (skipn (S k) (shape y)))
    as (B1 & B2 & B3).
  rewrite Hpre in B1, B2, B3.
  rewrite (@flatten_nonneg F).
  - cbn [shape data].
    replace (S (k + length shp - 1) - k) with (length shp) by lia.
    replace (S (k + length shp - 1)) with (k + length shp) by lia.
    rewrite B1, B2, B3, Hs.
    change ([nth k (shape y) 0] ++ skipn (S k) (shape y))
      with (nth k (shape y) 0 :: skipn (S k) (shape y)).
    rewrite <- (shape_split (shape y) k Hk).
    now destruct y.
  - unfold ndim. cbn [shape]. rewrite !length_app, Hpre. lia.
Qed.
End UnflattenEdges.

Lemma unflatten_checks_size_witness :
  (2 < ndim example_cube /\ 0 < prod (shape example_cube))
  /\ (prod [2; 2] = nth 2 (shape example_cube) 0 ->
      unflatten example_cube (Z.of_nat 2) (map Z.of_nat [2; 2])
      = Ok (mk_ndarray (firstn 2 (shape example_cube) ++ [2; 2]
                          ++ skipn 3 (shape example_cube))
              (data example_cube)))
  /\ (prod [2; 2] <> nth 2 (shape example_cube) 0 ->
      unflatten example_cube (Z.of_nat 2) (map Z.of_nat [2; 2])
      = Raise TypeError).
Proof.
  assert (H1 : 2 < ndim example_cube) by (cbn; lia).
  assert (H2 : 0 < prod (shape example_cube)) by (cbn; lia).
  split; [split; assumption|].
  exact (unflatten_checks_size example_cube 2 [2; 2] H1 H2).
Defined.

Lemma unflatten_negative_dim_witness :
  2 <= 2 <= ndim example_cube
  /\ unflatten example_cube (- Z.of_nat 2) [3; 1]%Z
     = unflatten example_cube (Z.of_nat (ndim example_cube - 2)) [3; 1]%Z.
Proof.
  assert (H1 : 2 <= 2 <= ndim example_cube) by (cbn; lia).
  split; [exact H1|].
  exact (unflatten_negative_dim example_cube 2 [3; 1]%Z H1).
Defined.

Lemma unflatten_last_dim_raises_witness :
  (1 <= ndim example_cube /\ 1 < prod (shape example_cube)
   /\ prod [2; 2] = last (shape example_cube) 0)
  /\ unflatten example_cube (-1) (map Z.of_nat [2; 2]) = Raise TypeError.
Proof.
  assert (H1 : 1 <= ndim example_cube) by (cbn; lia).
  assert (H2 : 1 < prod (shape example_cube)) by (cbn; lia).
  split; [split; [exact H1|split; [exact H2|reflexivity]]|].
  exact (unflatten_last_dim_raises example_cube [2; 2] H1 H2 eq_refl).
Defined.

Lemma unflatten_flatten_inverse_witness :
  (1 < ndim example_cube /\ [3; 1] <> []
   /\ prod [3; 1] = nth 1 (shape example_cube) 0)
  /\ exists x,
      unflatten example_cube (Z.of_nat 1) (map Z.of_nat [3; 1]) = Ok x
      /\ shape x = firstn 1 (shape example_cube) ++ [3; 1]
                     ++ skipn 2 (shape example_cube)
      /\ flatten x (Z.of_nat 1) (Z.of_nat (1 + length [3; 1] - 1))
         = Ok example_cube.
Proof.
  assert (H1 : 1 < ndim example_cube) by (cbn; lia).
  assert (H2 : [3; 1] <> @nil nat) by discriminate.
  split; [split; [exact H1|split; [exact H2|reflexivity]]|].
  exact (unflatten_flatten_inverse example_cube 1 [3; 1] H1 H2 eq_refl).
Defined.

(** ** Arrays are determined by their elements *)

Lemma map_add_seq (a n : nat) : map (fun k => a + k) (seq 0 n) = seq a n.
Proof.
  revert a. induction n as [|n IH]; intros a; [reflexivity|].
  cbn [seq map]. rewrite Nat.add_0_r. f_equal.
  rewrite <- seq_shift, map_map.
  rewrite <- (IH (S a)). apply map_ext. intros k. lia.
Qed.

Lemma flat_map_seq_blocks (P d start : nat) :
  flat_map (fun i => map (fun k => i * P + k) (seq 0 P)) (seq start d)
  = seq (start * P) (d * P).
Proof.
  revert start. induction d as [|d IH]; intros start; [reflexivity|].
  cbn [seq flat_map]. rewrite IH, map_add_seq.
  replace (S d * P) with (P + d * P) by (simpl; lia).
  rewrite seq_app. f_equal. f_equal. simpl. lia.
Qed.

(** The multi-indices of a shape are enumerated in row-major order. *)
Lemma map_ravel_all_indices (s : list nat) :
  map (ravel s) (all_indices s) = seq 0 (prod s).
Proof.
  induction s as [|d s IH]; [reflexivity|].
  cbn [all_indices]. rewrite map_flat_map.
  rewrite (flat_map_ext _ (fun i => map (fun k => i * prod s + k)
                                        (seq 0 (prod s)))).
  - rewrite flat_map_seq_blocks. reflexivity.
  - intros i. rewrite map_map. cbn [ravel]. rewrite <- IH, map_map.
    reflexivity.
Qed.

Lemma map_nth_seq {A : Type} (l : list A) (d : A) :
  map (fun k => nth k l d) (seq 0 (length l)) = l.
Proof.
  induction l as [|a l IH]; [reflexivity|].
  cbn [length seq map nth]. f_equal.
  rewrite <- seq_shift, map_map. exact IH.
Qed.

Section ArrayExt.
Context {F : Type}.
Variable d0 : F.

Lemma tabulate_get (x : ndarray F) :
  well_formed x -> tabulate (shape x) (get d0 x) = x.
Proof.
  intros Hwf. unfold tabulate, get, well_formed in *.
  destruct x as [s dt]. cbn [shape data] in *. f_equal.
  rewrite <- (map_map (ravel s) (fun k => nth k dt d0)).
  rewrite map_ravel_all_indices, <- Hwf. apply map_nth_seq.
Qed.

(** An array given by its channels. *)
Lemma tabulate_channels (x : ndarray F) (c : nat) (sp : list nat) :
  well_formed x -> shape x = c :: sp ->
  tabulate (c :: sp)
    (fun idx => match idx with
                | ch :: idx' => get d0 x (ch :: idx')
                | [] => d0
                end) = x.
Proof.
  intros Hwf Hx.
  transitivity (tabulate (shape x) (get d0 x)); [|now apply tabulate_get].
  rewrite Hx.
  apply tabulate_ext. intros [|ch idx] Hb; [inversion Hb|reflexivity].
Qed.
End ArrayExt.

(** ** Windows: [CropND], [RandomCropND], and padding undone *)

Lemma clamp_start_fits (d : nat) (sz st : Z) :
  (0 <= sz <= Z.of_nat d)%Z ->
  Z.to_nat (Lax.clamp_start d sz st) + Z.to_nat sz <= d.
Proof. intros Hsz. unfold Lax.clamp_start. lia. Qed.

Lemma clamp_start_in_range (d : nat) (sz st : Z) :
  (0 <= st <= Z.of_nat d - sz)%Z -> Lax.clamp_start d sz st = st.
Proof.
  intros Hst. unfold Lax.clamp_start.
  destruct (Z.ltb_spec st 0); lia.
Qed.

Lemma window_offsets_fit (sp : list nat) (sizes starts : list Z)
    (idx : list nat) :
  Forall2 (fun sz d => (0 <= sz <= Z.of_nat d)%Z) sizes sp ->
  length starts = length sp ->
  in_bounds idx (map Z.to_nat sizes) ->
  in_bounds (zip_with Nat.add (window_offsets sp sizes starts) idx) sp.
Proof.
  intros Hs. revert starts idx. unfold window_offsets, in_bounds.
  induction Hs as [|sz d sizes sp Hsz _ IH]; intros [|st starts] idx Hl Hb;
    simpl in Hl; try discriminate; inversion Hb; subst;
    cbn [combine map zip_with]; constructor.
  - pose proof (clamp_start_fits d sz st Hsz). lia.
  - apply IH; [lia|assumption].
Qed.

Lemma window_offsets_in_range (sp : list nat) (sizes starts : list Z) :
  length sizes = length sp ->
  Forall2 (fun st '(sz, d) => (0 <= st <= Z.of_nat d - sz)%Z)
          starts (combine sizes sp) ->
  window_offsets sp sizes starts = map Z.to_nat starts.
Proof.
  unfold window_offsets. revert sizes starts.
  induction sp as [|d sp IH]; intros [|sz sizes] starts Hl Hst;
    simpl in Hl; try discriminate; cbn [combine] in Hst;
    inversion Hst; subst; [reflexivity|].
  cbn [combine map]. f_equal.
  - now rewrite clamp_start_in_range.
  - apply IH; [lia|assumption].
Qed.

Section WindowFacts.
Context {F : Type}.
Variable d0 : F.

Lemma dynamic_slice_window (a : ndarray F) (starts sizes : list Z) :
  Forall2 (fun sz d => (0 <= sz <= Z.of_nat d)%Z) sizes (shape a) ->
  length starts = ndim a ->
  Lax.dynamic_slice d0 a starts sizes
  = Ok (tabulate (map Z.to_nat sizes)
          (fun idx =>
             get d0 a
               (zip_with Nat.add (window_offsets (shape a) sizes starts)
                  idx))).
Proof.
  intros Hs Hl. unfold Lax.dynamic_slice.
  assert (Hlen : length sizes = ndim a)
    by (unfold ndim; induction Hs; simpl; congruence).
  rewrite Hl, Hlen, Nat.eqb_refl. cbn [negb].
  assert (Hchk : forallb (fun '(d, sz) => (0 <=? sz)%Z && (sz <=? Z.of_nat d)%Z)
                   (combine (shape a) sizes) = true).
  { clear Hlen Hl. induction Hs as [|sz d sizes sp Hsz _ IH]; [reflexivity|].
    cbn [combine forallb]. rewrite IH, andb_true_r.
    apply andb_true_iff. split; apply Z.leb_le; lia. }
  rewrite Hchk. reflexivity.
Qed.

(** A window that does not fit is refused. *)
Lemma dynamic_slice_too_large (a : ndarray F) (starts sizes : list Z) :
  length starts = ndim a -> length sizes = ndim a ->
  Exists (fun '(d, sz) => (Z.of_nat d < sz)%Z) (combine (shape a) sizes) ->
  Lax.dynamic_slice d0 a starts sizes = Raise TypeError.
Proof.
  intros Hl Hlen Hex. unfold Lax.dynamic_slice.
  rewrite Hl, Hlen, Nat.eqb_refl. cbn [negb].
  assert (Hchk : forallb (fun '(d, sz) => (0 <=? sz)%Z && (sz <=? Z.of_nat d)%Z)
                   (combine (shape a) sizes) = false).
  { induction Hex as [[d sz] l Hd|[d sz] l _ IH]; cbn [forallb].
    - replace (sz <=? Z.of_nat d)%Z with false
        by (symmetry; apply Z.leb_gt; lia).
      now rewrite andb_false_r.
    - rewrite IH. apply andb_false_r. }
  now rewrite Hchk.
Qed.
End WindowFacts.

Section CropTheorems.
Context {F : Type}.
Variable validate_spatial_nd : nat -> ndarray F -> result unit.
Hypothesis validate_accepts :
  forall n x, ndim x = S n -> validate_spatial_nd n x = Ok tt.

Lemma slice0_shape (d0 : F) (x : ndarray F) (c : nat) (sp : list nat) (i : nat) :
  shape x = c :: sp -> shape (slice0 d0 x i) = sp.
Proof. intros Hx. unfold slice0. cbn [tabulate shape]. now rewrite Hx. Qed.

(** What [CropND] returns, element by element. *)
Lemma CropND_call_tabulate (d0 : F) (x : ndarray F) (c : nat)
    (sp : list nat) (sizes starts : list Z) :
  shape x = c :: sp ->
  Forall2 (fun sz d => (0 <= sz <= Z.of_nat d)%Z) sizes sp ->
  length starts = length sp ->
  CropND_call validate_spatial_nd d0 (mk_CropND sizes starts (length sp)) x
  = Ok (tabulate (c :: map Z.to_nat sizes)
          (fun idx =>
             match idx with
             | ch :: idx' =>
                 get d0 x
                   (ch :: zip_with Nat.add (window_offsets sp sizes starts)
                            idx')
             | [] => d0
             end)).
Proof.
  intros Hx Hs Hl. unfold CropND_call.
  cbn [CropND_spatial_ndim CropND_size CropND_start].
  rewrite validate_accepts by (unfold ndim; now rewrite Hx). cbn [bind].
  rewrite (@vmap_ok F d0 _ x c sp (map Z.to_nat sizes)
             (fun i => tabulate (map Z.to_nat sizes)
                (fun idx => get d0 (slice0 d0 x i)
                   (zip_with Nat.add (window_offsets sp sizes starts) idx)))).
  - f_equal. apply tabulate_ext. intros idx Hb.
    inversion Hb as [|ch d idx' s' Hch Hb']; subst.
    rewrite (@get_tabulate F d0) by assumption.
    apply (@get_slice0 F d0 x c sp ch _ Hx).
    now apply window_offsets_fit.
  - assumption.
  - intros i. pose proof (slice0_shape d0 x c sp i Hx) as Hsl.
    rewrite dynamic_slice_window.
    + now rewrite Hsl.
    + now rewrite Hsl.
    + unfold ndim. now rewrite Hsl.
  - reflexivity.
Qed.

(** X5.  [CropND] on a channel-first array returns the window of the
    requested sizes in every channel.  The window starts where
    [jax.lax.dynamic_slice] places it: at [start] when the window fits
    there, and otherwise moved so that it fits; no element outside the
    input is read, whatever [start] is. *)
Theorem CropND_call_spec (d0 : F) (x : ndarray F) (c : nat)
    (sp : list nat) (sizes starts : list Z) :
  shape x = c :: sp ->
  Forall2 (fun sz d => (0 <= sz <= Z.of_nat d)%Z) sizes sp ->
  length starts = length sp ->
  exists y,
    CropND_call validate_spatial_nd d0 (mk_CropND sizes starts (length sp)) x
    = Ok y
    /\ shape y = c :: map Z.to_nat sizes
    /\ (forall ch idx,
          ch < c -> in_bounds idx (map Z.to_nat sizes) ->
          get d0 y (ch :: idx)
          = get d0 x (ch :: zip_with Nat.add (window_offsets sp sizes starts)
                              idx)
          /\ in_bounds (zip_with Nat.add (window_offsets sp sizes starts) idx)
               sp)
    /\ (Forall2 (fun st '(sz, d) => (0 <= st <= Z.of_nat d - sz)%Z)
                starts (combine sizes sp) ->
        window_offsets sp sizes starts = map Z.to_nat starts).
Proof.
  intros Hx Hs Hl. rewrite (CropND_call_tabulate d0 x c sp sizes starts Hx Hs Hl).
  eexists. split; [reflexivity|]. split; [reflexivity|]. split.
  - intros ch idx Hch Hb. split.
    + now rewrite (@get_tabulate F d0) by (constructor; assumption).
    + now apply window_offsets_fit.
  - apply window_offsets_in_range. exact (Forall2_length Hs).
Qed.

(** A size that exceeds the length of its axis is refused. *)
Lemma CropND_too_large (d0 : F) (x : ndarray F) (c : nat)
    (sp : list nat) (sizes starts : list Z) :
  shape x = c :: sp ->
  length sizes = length sp -> length starts = length sp ->
  Exists (fun '(d, sz) => (Z.of_nat d < sz)%Z) (combine sp sizes) ->
  CropND_call validate_spatial_nd d0 (mk_CropND sizes starts (length sp)) x
  = Raise TypeError.
Proof.
  intros Hx Hls Hl Hex. unfold CropND_call.
  cbn [CropND_spatial_ndim CropND_size CropND_start].
  rewrite validate_accepts by (unfold ndim; now rewrite Hx). cbn [bind].
  unfold Jax.vmap. rewrite Hx.
  rewrite dynamic_slice_too_large; [reflexivity| | |];
    unfold ndim; rewrite (slice0_shape d0 x c sp 0 Hx); assumption.
Qed.
End CropTheorems.

Lemma CropND_call_spec_witness :
  ((forall n (x : ndarray nat), ndim x = S n -> check_channel_first n x = Ok tt)
   /\ shape (arange [1; 12]) = [1; 12]
   /\ Forall2 (fun sz d => (0 <= sz <= Z.of_nat d)%Z) [4%Z] [12]
   /\ length [10%Z] = length [12])
  /\ exists y,
      CropND_call check_channel_first 0
        (mk_CropND [4%Z] [10%Z] (length [12])) (arange [1; 12]) = Ok y
      /\ shape y = 1 :: map Z.to_nat [4%Z]
      /\ (forall ch idx,
            ch < 1 -> in_bounds idx (map Z.to_nat [4%Z]) ->
            get 0 y (ch :: idx)
            = get 0 (arange [1; 12])
                (ch :: zip_with Nat.add
                         (window_offsets [12] [4%Z] [10%Z]) idx)
            /\ in_bounds
                 (zip_with Nat.add (window_offsets [12] [4%Z] [10%Z]) idx)
                 [12])
      /\ (Forall2 (fun st '(sz, d) => (0 <= st <= Z.of_nat d - sz)%Z)
                  [10%Z] (combine [4%Z] [12]) ->
          window_offsets [12] [4%Z] [10%Z] = map Z.to_nat [10%Z]).
Proof.
  assert (Hs : Forall2 (fun sz d => (0 <= sz <= Z.of_nat d)%Z) [4%Z] [12]).
  { constructor; [lia|constructor]. }
  split.
  - split; [exact (@check_channel_first_accepts nat)|].
    split; [reflexivity|]. split; [exact Hs|reflexivity].
  - exact (CropND_call_spec check_channel_first
             (@check_channel_first_accepts nat) 0 (arange [1; 12]) 1 [12]
             [4%Z] [10%Z] eq_refl Hs eq_refl).
Defined.

Lemma py_index_of_nat (n i : nat) : i < n -> py_index n (Z.of_nat i) = Some i.
Proof.
  intros Hi. unfold py_index.
  destruct (Z.ltb_spec (Z.of_nat i) 0) as [Hneg|_]; [lia|].
  replace (0 <=? Z.of_nat i)%Z with true by (symmetry; apply Z.leb_le; lia).
  replace (Z.of_nat i <? Z.of_nat n)%Z with true
    by (symmetry; apply Z.ltb_lt; lia).
  cbn [andb]. now rewrite Nat2Z.id.
Qed.

Section RandomCropTheorem.
Context {F Key : Type} `{Scalar F}.
Variable validate_spatial_nd : nat -> ndarray F -> result unit.
Hypothesis validate_accepts :
  forall n x, ndim x = S n -> validate_spatial_nd n x = Ok tt.
Variable S : Sampler F Key.

(** The starts [random_crop_nd] draws: one per entry of [crop_size]. *)
Lemma random_starts (x : ndarray F) (crop_size : list Z) (key : Key) :
  length crop_size <= ndim x ->
  exists starts,
    mapM (fun '(i, s) =>
            d <- get_item (shape x) (Z.of_nat i) ;;
            Ok (randint S key 0 (Z.of_nat d - s)))
         (combine (seq 0 (length crop_size)) crop_size) = Ok starts
    /\ length starts = length crop_size.
Proof.
  intros Hlen.
  destruct (mapM_Forall2
              (fun '(i, s) =>
                 d <- get_item (shape x) (Z.of_nat i) ;;
                 Ok (randint S key 0 (Z.of_nat d - s)))
              (fun _ _ => True)
              (combine (seq 0 (length crop_size)) crop_size))
    as [starts [E Hrel]].
  - apply Forall_forall. intros [i s] Hin.
    apply in_combine_l in Hin. apply in_seq in Hin.
    rewrite (@get_item_at nat (shape x) (Z.of_nat i) i 0)
      by (apply py_index_of_nat; unfold ndim in Hlen; lia).
    cbn [bind]. eexists. split; [reflexivity|exact I].
  - exists starts. split; [exact E|].
    rewrite <- (Forall2_length Hrel), length_combine, length_seq.
    apply Nat.min_id.
Qed.

(** X6.  [RandomCropND] returns a window of the input, whatever the
    sampler draws: on a channel-first array with [sizes] that fit, the
    result has shape [(x.shape[0], *sizes)] and is, in every channel, the
    block of [x] of those sizes at one offset per spatial axis that keeps
    the block inside [x]; channels are neither moved nor mixed. *)
Theorem RandomCropND_window (x : ndarray F) (c : nat) (sp : list nat)
    (sizes : list Z) (key : Key) :
  shape x = c :: sp ->
  Forall2 (fun sz d => (0 <= sz <= Z.of_nat d)%Z) sizes sp ->
  exists y offsets,
    RandomCropND_call validate_spatial_nd S sizes (length sp) x key = Ok y
    /\ shape y = c :: map Z.to_nat sizes
    /\ length offsets = length sp
    /\ (forall idx, in_bounds idx (map Z.to_nat sizes) ->
          in_bounds (zip_with Nat.add offsets idx) sp)
    /\ (forall ch idx,
          ch < c -> in_bounds idx (map Z.to_nat sizes) ->
          get f0 y (ch :: idx)
          = get f0 x (ch :: zip_with Nat.add offsets idx)).
Proof.
  intros Hx Hs. unfold RandomCropND_call.
  rewrite validate_accepts by (unfold ndim; now rewrite Hx). cbn [bind].
  rewrite (@get_item_at nat (shape x) 0 0 0)
    by (rewrite Hx; reflexivity).
  cbn [bind]. rewrite Hx. cbn [nth].
  assert (Hs' : Forall2 (fun sz d => (0 <= sz <= Z.of_nat d)%Z)
                  (Z.of_nat c :: sizes) (shape x)).
  { rewrite Hx. constructor; [lia|assumption]. }
  unfold random_crop_nd.
  destruct (random_starts x (Z.of_nat c :: sizes) key) as [starts [E Hl]].
  { unfold ndim. rewrite <- (Forall2_length Hs'). lia. }
  rewrite E. cbn [bind].
  assert (Hst : length starts = ndim x).
  { rewrite Hl. unfold ndim. exact (Forall2_length Hs'). }
  rewrite (dynamic_slice_window f0 x starts (Z.of_nat c :: sizes) Hs' Hst).
  rewrite Hx.
  destruct starts as [|st starts]; [simpl in Hl; lia|].
  assert (Hl' : length starts = length sp).
  { simpl in Hl. rewrite (Forall2_length Hs) in Hl. lia. }
  exists (tabulate (map Z.to_nat (Z.of_nat c :: sizes))
            (fun idx =>
               get f0 x
                 (zip_with Nat.add
                    (window_offsets (c :: sp) (Z.of_nat c :: sizes)
                       (st :: starts)) idx))),
         (window_offsets sp sizes starts).
  split; [reflexivity|]. split.
  { cbn [shape tabulate map]. now rewrite Nat2Z.id. }
  split.
  { unfold window_offsets.
    rewrite length_map, !length_combine, Hl', (Forall2_length Hs).
    now rewrite !Nat.min_id. }
  split.
  { intros idx Hb. now apply window_offsets_fit. }
  intros ch idx Hch Hb.
  rewrite (@get_tabulate F f0)
    by (cbn [map]; rewrite Nat2Z.id; constructor; assumption).
  unfold window_offsets at 1. cbn [combine map zip_with].
  fold (window_offsets sp sizes starts).
  replace (Z.to_nat (Lax.clamp_start c (Z.of_nat c) st)) with 0
    by (unfold Lax.clamp_start; lia).
  reflexivity.
Qed.
End RandomCropTheorem.

Lemma RandomCropND_window_witness :
  ((forall n (x : ndarray Z), ndim x = S n -> check_channel_first n x = Ok tt)
   /\ shape example_image = [2; 5]
   /\ Forall2 (fun sz d => (0 <= sz <= Z.of_nat d)%Z) [2%Z] [5])
  /\ exists y offsets,
      RandomCropND_call check_channel_first example_sampler [2%Z]
        (length [5]) example_image 3 = Ok y
      /\ shape y = 2 :: map Z.to_nat [2%Z]
      /\ length offsets = length [5]
      /\ (forall idx, in_bounds idx (map Z.to_nat [2%Z]) ->
            in_bounds (zip_with Nat.add offsets idx) [5])
      /\ (forall ch idx,
            ch < 2 -> in_bounds idx (map Z.to_nat [2%Z]) ->
            get f0 y (ch :: idx)
            = get f0 example_image (ch :: zip_with Nat.add offsets idx)).
Proof.
  assert (Hs : Forall2 (fun sz d => (0 <= sz <= Z.of_nat d)%Z) [2%Z] [5]).
  { constructor; [lia|constructor]. }
  split.
  - split; [exact (@check_channel_first_accepts Z)|].
    split; [reflexivity|exact Hs].
  - exact (RandomCropND_window check_channel_first
             (@check_channel_first_accepts Z) example_sampler example_image
             2 [5] [2%Z] 3 eq_refl Hs).
Defined.

(** ** Padding and cropping compose *)

Lemma interior_shifted (lefts sp idx : list nat) :
  length lefts = length sp -> in_bounds idx sp ->
  Jnp.interior lefts sp (zip_with Nat.add lefts idx) = true
  /\ zip_with Nat.sub (zip_with Nat.add lefts idx) lefts = idx.
Proof.
  intros Hl Hb. revert lefts Hl. unfold Jnp.interior.
  induction Hb as [|i d idx sp Hi _ IH]; intros [|l lefts] Hl;
    simpl in Hl; try discriminate; [split; reflexivity|].
  destruct (IH lefts ltac:(lia)) as [I1 I2].
  cbn [zip_with combine forallb]. rewrite I1, I2. split.
  - replace (l <=? l + i) with true by (symmetry; apply Nat.leb_le; lia).
    replace (l + i <? l + d) with true by (symmetry; apply Nat.ltb_lt; lia).
    reflexivity.
  - f_equal. lia.
Qed.

Lemma in_bounds_shifted (sp : list nat) (padding : list (Z * Z))
    (idx : list nat) :
  length padding = length sp -> in_bounds idx sp ->
  in_bounds (zip_with Nat.add (map (fun p => Z.to_nat (fst p)) padding) idx)
            (Jnp.padded_shape sp padding).
Proof.
  intros Hl Hb. revert padding Hl. unfold Jnp.padded_shape, in_bounds.
  induction Hb as [|i d idx sp Hi _ IH]; intros [|[l r] padding] Hl;
    simpl in Hl; try discriminate; cbn [map zip_with fst]; constructor.
  - lia.
  - apply IH. lia.
Qed.

Lemma nonneg_pairs_cons (l r : Z) (pw : list (Z * Z)) :
  Jnp.nonneg_pairs ((l, r) :: pw) = true ->
  (0 <= l)%Z /\ (0 <= r)%Z /\ Jnp.nonneg_pairs pw = true.
Proof.
  unfold Jnp.nonneg_pairs. cbn [forallb]. intros Hc.
  apply andb_true_iff in Hc. destruct Hc as [Hh Ht].
  apply andb_true_iff in Hh. destruct Hh as [H1 H2].
  apply Z.leb_le in H1. apply Z.leb_le in H2. auto.
Qed.

Lemma in_bounds_cons_inv (idx : list nat) (c : nat) (sp : list nat) :
  in_bounds idx (c :: sp) ->
  exists ch idx', idx = ch :: idx' /\ ch < c /\ in_bounds idx' sp.
Proof.
  intros Hb. inversion Hb as [|ch d idx' s' Hch Hb']; subst.
  now exists ch, idx'.
Qed.

Lemma padded_shape_fits (sp : list nat) (padding : list (Z * Z)) :
  length padding = length sp ->
  Forall2 (fun sz d => (0 <= sz <= Z.of_nat d)%Z)
          (map Z.of_nat sp) (Jnp.padded_shape sp padding).
Proof.
  revert padding. unfold Jnp.padded_shape.
  induction sp as [|d sp IH]; intros [|[l r] padding] Hlen;
    simpl in Hlen; try discriminate; cbn [map zip_with]; constructor.
  - lia.
  - apply IH. lia.
Qed.

Lemma zip_with_add_zeros (n : nat) (idx : list nat) :
  zip_with Nat.add (repeat 0 n) idx = firstn n idx.
Proof.
  revert idx. induction n as [|n IH]; intros [|i idx]; try reflexivity.
  cbn [repeat zip_with firstn]. now rewrite IH.
Qed.

Section PadCropTheorems.
Context {F : Type}.
Variable _check_spatial_in_shape : nat -> ndarray F -> result unit.
Variable validate_spatial_nd : nat -> ndarray F -> result unit.
Hypothesis check_accepts :
  forall n x, ndim x = S n -> _check_spatial_in_shape n x = Ok tt.
Hypothesis validate_accepts :
  forall n x, ndim x = S n -> validate_spatial_nd n x = Ok tt.

(** What [PadND] returns, element by element. *)
Lemma NewPad_call_tabulate (d0 : F) (x : ndarray F) (c : nat)
    (sp : list nat) (padding : list (Z * Z)) (value : F) :
  shape x = c :: sp -> length padding = length sp ->
  Jnp.nonneg_pairs padding = true ->
  NewPad.call validate_spatial_nd d0
    (NewPad.mk_PadND padding value (length sp)) x
  = Ok (tabulate (c :: Jnp.padded_shape sp padding)
          (fun idx =>
             match idx with
             | ch :: idx' =>
                 if Jnp.interior (map (fun p => Z.to_nat (fst p)) padding)
                      sp idx'
                 then get d0 x
                        (ch :: zip_with Nat.sub idx'
                                 (map (fun p => Z.to_nat (fst p)) padding))
                 else value
             | [] => d0
             end)).
Proof.
  intros Hx Hlen Hnn. unfold NewPad.call, Lax.stop_gradient.
  cbn [NewPad.padding NewPad.value NewPad.spatial_ndim].
  rewrite validate_accepts by (unfold ndim; now rewrite Hx). cbn [bind].
  set (lefts := map (fun p => Z.to_nat (fst p)) padding).
  rewrite (@vmap_ok F d0 _ x c sp (Jnp.padded_shape sp padding)
             (fun i => tabulate (Jnp.padded_shape sp padding)
                (fun idx => if Jnp.interior lefts sp idx
                            then get d0 (slice0 d0 x i)
                                   (zip_with Nat.sub idx lefts)
                            else value))).
  - f_equal. apply tabulate_ext. intros idx Hb.
    inversion Hb as [|ch d idx' s' Hch Hb']; subst.
    rewrite (@get_tabulate F d0) by assumption.
    destruct (Jnp.interior lefts sp idx') eqn:Hint; [|reflexivity].
    apply (@get_slice0 F d0 x c sp ch _ Hx).
    apply interior_in_bounds; [| |assumption].
    + rewrite (in_bounds_length Hb').
      unfold Jnp.padded_shape. rewrite length_zip_with. lia.
    + unfold lefts. now rewrite length_map.
  - assumption.
  - intros i. pose proof (slice0_shape d0 x c sp i Hx) as Hsl.
    rewrite (@pad_per_axis F d0) by (unfold ndim; now rewrite Hsl).
    now rewrite Hnn, Hsl.
  - reflexivity.
Qed.

(** X7.  Both [PadND] layers raise [ValueError] when a padding width is
    negative. *)
Theorem PadND_negative_width (d0 : F) (x : ndarray F) (c : nat)
    (sp : list nat) (padding : list (Z * Z)) (value : F) :
  shape x = c :: sp -> length padding = length sp ->
  Jnp.nonneg_pairs padding = false ->
  NewPad.call validate_spatial_nd d0
    (NewPad.mk_PadND padding value (length sp)) x = Raise ValueError
  /\ OldPad.call _check_spatial_in_shape d0
       (OldPad.mk_PadND (length sp) padding value) x = Raise ValueError.
Proof.
  intros Hx Hlen Hnn. split.
  - unfold NewPad.call, Lax.stop_gradient.
    cbn [NewPad.padding NewPad.value NewPad.spatial_ndim].
    rewrite validate_accepts by (unfold ndim; now rewrite Hx). cbn [bind].
    unfold Jax.vmap. rewrite Hx.
    rewrite (@pad_per_axis F d0)
      by (unfold ndim; now rewrite (slice0_shape d0 x c sp 0 Hx)).
    now rewrite Hnn.
  - unfold OldPad.call. cbn [OldPad.ndim_ OldPad.padding OldPad.value].
    rewrite check_accepts by (unfold ndim; now rewrite Hx). cbn [bind].
    rewrite (@pad_per_axis F d0) by (unfold ndim; rewrite Hx; simpl; lia).
    change (Jnp.nonneg_pairs ((0, 0)%Z :: padding))
      with (Jnp.nonneg_pairs padding).
    now rewrite Hnn.
Qed.

(** X8.  [CropND] undoes [PadND]: cropping a padded array to the
    original lengths, starting at the left padding widths, returns the
    original array. *)
Theorem CropND_undoes_PadND (d0 : F) (x : ndarray F) (c : nat)
    (sp : list nat) (padding : list (Z * Z)) (value : F) :
  well_formed x -> shape x = c :: sp -> length padding = length sp ->
  Jnp.nonneg_pairs padding = true ->
  (y <- NewPad.call validate_spatial_nd d0
          (NewPad.mk_PadND padding value (length sp)) x ;;
   CropND_call validate_spatial_nd d0
     (mk_CropND (map Z.of_nat sp) (map fst padding) (length sp)) y)
  = Ok x.
Proof.
  intros Hwf Hx Hlen Hnn.
  rewrite (NewPad_call_tabulate d0 x c sp padding value Hx Hlen Hnn).
  cbn [bind].
  set (lefts := map (fun p => Z.to_nat (fst p)) padding).
  set (y := tabulate (c :: Jnp.padded_shape sp padding) _).
  assert (Hps : length (Jnp.padded_shape sp padding) = length sp).
  { unfold Jnp.padded_shape. rewrite length_zip_with. lia. }
  assert (Hfit : Forall2 (fun sz d => (0 <= sz <= Z.of_nat d)%Z)
                   (map Z.of_nat sp) (Jnp.padded_shape sp padding)).
  { now apply padded_shape_fits. }
  assert (Hoff : window_offsets (Jnp.padded_shape sp padding)
                   (map Z.of_nat sp) (map fst padding) = lefts).
  { replace lefts with (map Z.to_nat (map fst padding))
      by (unfold lefts; now rewrite map_map).
    apply window_offsets_in_range; [rewrite length_map; lia|].
    clear -Hlen Hnn. revert padding Hlen Hnn. unfold Jnp.padded_shape.
    induction sp as [|d sp IH]; intros [|[l r] padding] Hlen Hnn;
      simpl in Hlen; try discriminate; cbn [map zip_with combine fst];
      constructor.
    - apply nonneg_pairs_cons in Hnn. lia.
    - apply IH; [lia|]. now apply nonneg_pairs_cons in Hnn. }
  rewrite <- Hps.
  rewrite (CropND_call_tabulate validate_spatial_nd validate_accepts d0 y c
             (Jnp.padded_shape sp padding) (map Z.of_nat sp)
             (map fst padding) eq_refl Hfit)
    by (rewrite length_map; lia).
  rewrite Hoff, map_to_nat_of_nat. f_equal.
  transitivity (tabulate (c :: sp)
                  (fun idx => match idx with
                              | ch :: idx' => get d0 x (ch :: idx')
                              | [] => d0
                              end));
    [|exact (tabulate_channels d0 x c sp Hwf Hx)].
  apply tabulate_ext. intros idx Hb.
  inversion Hb as [|ch d idx' s' Hch Hb']; subst.
  assert (Hll : length lefts = length sp)
    by (unfold lefts; rewrite length_map; exact Hlen).
  destruct (interior_shifted lefts sp idx' Hll Hb') as [I1 I2].
  unfold y. rewrite (@get_tabulate F d0).
  - fold lefts. now rewrite I1, I2.
  - constructor; [assumption|]. now apply in_bounds_shifted.
Qed.
End PadCropTheorems.

Lemma PadND_negative_width_witness :
  ((forall n (x : ndarray nat), ndim x = S n -> check_channel_first n x = Ok tt)
   /\ shape (arange [2; 3]) = [2; 3]
   /\ length [(-1, 2)%Z] = length [3]
   /\ Jnp.nonneg_pairs [(-1, 2)%Z] = false)
  /\ NewPad.call check_channel_first 0
       (NewPad.mk_PadND [(-1, 2)%Z] 9 (length [3])) (arange [2; 3])
     = Raise ValueError
  /\ OldPad.call check_channel_first 0
       (OldPad.mk_PadND (length [3]) [(-1, 2)%Z] 9) (arange [2; 3])
     = Raise ValueError.
Proof.
  split.
  - split; [exact (@check_channel_first_accepts nat)|].
    repeat split; reflexivity.
  - exact (PadND_negative_width check_channel_first check_channel_first
             (@check_channel_first_accepts nat)
             (@check_channel_first_accepts nat) 0 (arange [2; 3]) 2 [3]
             [(-1, 2)%Z] 9 eq_refl eq_refl eq_refl).
Defined.

Lemma CropND_undoes_PadND_witness :
  ((forall n (x : ndarray nat), ndim x = S n -> check_channel_first n x = Ok tt)
   /\ well_formed (arange [2; 3])
   /\ shape (arange [2; 3]) = [2; 3]
   /\ length [(1, 2)%Z] = length [3]
   /\ Jnp.nonneg_pairs [(1, 2)%Z] = true)
  /\ (y <- NewPad.call check_channel_first 0
             (NewPad.mk_PadND [(1, 2)%Z] 9 (length [3])) (arange [2; 3]) ;;
      CropND_call check_channel_first 0
        (mk_CropND (map Z.of_nat [3]) (map fst [(1, 2)%Z]) (length [3])) y)
     = Ok (arange [2; 3]).
Proof.
  split.
  - split; [exact (@check_channel_first_accepts nat)|].
    repeat split; reflexivity.
  - exact (CropND_undoes_PadND check_channel_first
             (@check_channel_first_accepts nat) 0 (arange [2; 3]) 2 [3]
             [(1, 2)%Z] 9 eq_refl eq_refl eq_refl eq_refl).
Defined.

Lemma crop_start_full (d : nat) : crop_start d (Z.of_nat d) = 0.
Proof. unfold crop_start. lia. Qed.

Lemma crop_start_symmetric (d l : nat) :
  crop_start (l + d + l) (Z.of_nat d) = l.
Proof.
  unfold crop_start.
  replace (Z.of_nat (l + d + l)) with (Z.of_nat d + Z.of_nat l * 2)%Z by lia.
  rewrite Z.div_add by lia. lia.
Qed.

Lemma center_starts_symmetric (sp widths : list nat) :
  length widths = length sp ->
  center_starts
    (Jnp.padded_shape sp (map (fun l => (Z.of_nat l, Z.of_nat l)) widths))
    (map Z.of_nat sp)
  = widths.
Proof.
  revert widths. unfold center_starts, Jnp.padded_shape.
  induction sp as [|d sp IH]; intros [|l widths] Hlw;
    simpl in Hlw; try discriminate; [reflexivity|].
  cbn [map zip_with]. rewrite IH by lia. f_equal.
  rewrite !Nat2Z.id. apply crop_start_symmetric.
Qed.

Section CenterCropCompositions.
Context {F : Type}.
Variable validate_spatial_nd : nat -> ndarray F -> result unit.
Hypothesis validate_accepts :
  forall n x, ndim x = S n -> validate_spatial_nd n x = Ok tt.

(** What [CenterCropND] returns, element by element. *)
Lemma CenterCropND_call_tabulate (d0 : F) (x : ndarray F) (c : nat)
    (sp : list nat) (sizes : list Z) :
  shape x = c :: sp ->
  Forall2 (fun sz d => (0 <= sz <= Z.of_nat d)%Z) sizes sp ->
  CenterCropND_call validate_spatial_nd d0
    (mk_CenterCropND sizes (length sp)) x
  = Ok (tabulate (c :: map Z.to_nat sizes)
          (fun idx =>
             match idx with
             | ch :: idx' =>
                 get d0 x (ch :: zip_with Nat.add (center_starts sp sizes) idx')
             | [] => d0
             end)).
Proof.
  intros Hx Hs. unfold CenterCropND_call.
  cbn [CenterCropND_spatial_ndim CenterCropND_size].
  rewrite validate_accepts by (unfold ndim; now rewrite Hx). cbn [bind].
  rewrite (@vmap_ok F d0 _ x c sp (map Z.to_nat sizes)
             (fun i => tabulate (map Z.to_nat sizes)
                (fun idx => get d0 (slice0 d0 x i)
                   (zip_with Nat.add (center_starts sp sizes) idx)))).
  - f_equal. apply tabulate_ext. intros idx Hb.
    inversion Hb as [|ch d idx' s' Hch Hb']; subst.
    rewrite (@get_tabulate F d0) by assumption.
    apply (@get_slice0 F d0 x c sp ch _ Hx).
    now apply center_starts_in_bounds.
  - assumption.
  - intros i. pose proof (slice0_shape d0 x c sp i Hx) as Hsl.
    rewrite (@dynamic_slice_center F d0); rewrite Hsl; [reflexivity|].
    assumption.
  - reflexivity.
Qed.

(** A size that exceeds the length of its axis is refused. *)
Lemma CenterCropND_too_large (d0 : F) (x : ndarray F) (c : nat)
    (sp : list nat) (sizes : list Z) :
  shape x = c :: sp -> length sizes = length sp ->
  Exists (fun '(d, sz) => (Z.of_nat d < sz)%Z) (combine sp sizes) ->
  CenterCropND_call validate_spatial_nd d0
    (mk_CenterCropND sizes (length sp)) x = Raise TypeError.
Proof.
  intros Hx Hls Hex. unfold CenterCropND_call.
  cbn [CenterCropND_spatial_ndim CenterCropND_size].
  rewrite validate_accepts by (unfold ndim; now rewrite Hx). cbn [bind].
  unfold Jax.vmap. rewrite Hx.
  pose proof (slice0_shape d0 x c sp 0 Hx) as Hsl.
  unfold center_crop_nd.
  rewrite dynamic_slice_too_large; [reflexivity| | |].
  - unfold ndim. rewrite length_map, length_combine, Hsl, Hls.
    apply Nat.min_id.
  - unfold ndim. now rewrite Hsl.
  - now rewrite Hsl.
Qed.

(** X9.  [CenterCropND] is idempotent: applied to its own result, the
    layer returns that result. *)
Theorem CenterCropND_idempotent (d0 : F) (x : ndarray F) (c : nat)
    (sp : list nat) (sizes : list Z) :
  shape x = c :: sp ->
  Forall2 (fun sz d => (0 <= sz <= Z.of_nat d)%Z) sizes sp ->
  let layer := CenterCropND_call validate_spatial_nd d0
                 (mk_CenterCropND sizes (length sp)) in
  (y <- layer x ;; layer y) = layer x.
Proof.
  intros Hx Hs layer. unfold layer.
  rewrite (CenterCropND_call_tabulate d0 x c sp sizes Hx Hs). cbn [bind].
  set (g := fun idx : list nat => match idx with
                                  | ch :: idx' => _
                                  | [] => d0
                                  end).
  assert (Hl : length sp = length (map Z.to_nat sizes))
    by (rewrite length_map; symmetry; exact (Forall2_length Hs)).
  assert (Hs' : Forall2 (fun sz d => (0 <= sz <= Z.of_nat d)%Z) sizes
                  (map Z.to_nat sizes)).
  { clear -Hs. induction Hs as [|sz d sizes sp Hsz _ IH]; constructor.
    - lia.
    - exact IH. }
  rewrite Hl.
  rewrite (CenterCropND_call_tabulate d0
             (tabulate (c :: map Z.to_nat sizes) g) c (map Z.to_nat sizes)
             sizes eq_refl Hs').
  f_equal. apply tabulate_ext. intros idx Hb.
  inversion Hb as [|ch d idx' s' Hch Hb']; subst.
  assert (Hz : center_starts (map Z.to_nat sizes) sizes
               = repeat 0 (length sizes)).
  { clear -Hs. unfold center_starts.
    induction Hs as [|sz d sizes sp Hsz _ IH]; [reflexivity|].
    cbn [map zip_with length repeat]. rewrite IH. f_equal.
    unfold crop_start.
    replace (Z.of_nat (Z.to_nat sz)) with sz by lia. lia. }
  rewrite Hz, zip_with_add_zeros.
  rewrite firstn_all2
    by (rewrite (in_bounds_length Hb'), length_map; lia).
  now rewrite (@get_tabulate F d0) by (constructor; assumption).
Qed.

(** X10.  [CenterCropND] undoes a symmetric [PadND]: cropping an array
    padded by the same width on both sides of every axis to the original
    lengths returns the original array. *)
Theorem CenterCropND_undoes_symmetric_PadND (d0 : F) (x : ndarray F)
    (c : nat) (sp : list nat) (widths : list nat) (value : F) :
  well_formed x -> shape x = c :: sp -> length widths = length sp ->
  let padding := map (fun l => (Z.of_nat l, Z.of_nat l)) widths in
  (y <- NewPad.call validate_spatial_nd d0
          (NewPad.mk_PadND padding value (length sp)) x ;;
   CenterCropND_call validate_spatial_nd d0
     (mk_CenterCropND (map Z.of_nat sp) (length sp)) y)
  = Ok x.
Proof.
  intros Hwf Hx Hlw padding.
  assert (Hlen : length padding = length sp)
    by (unfold padding; now rewrite length_map).
  assert (Hnn : Jnp.nonneg_pairs padding = true).
  { unfold padding, Jnp.nonneg_pairs. apply forallb_forall.
    intros [l r] Hin. apply in_map_iff in Hin.
    destruct Hin as [w [E _]]. cbn beta in E. injection E as <- <-.
    apply andb_true_iff. split; apply Z.leb_le; lia. }
  assert (Hlefts : map (fun p => Z.to_nat (fst p)) padding = widths).
  { unfold padding. rewrite map_map. cbn [fst].
    rewrite <- (map_id widths) at 2. apply map_ext. intros l. lia. }
  rewrite (NewPad_call_tabulate validate_spatial_nd validate_accepts d0 x c sp
             padding value Hx Hlen Hnn).
  cbn [bind]. rewrite Hlefts.
  set (y := tabulate (c :: Jnp.padded_shape sp padding) _).
  assert (Hps : length (Jnp.padded_shape sp padding) = length sp).
  { unfold Jnp.padded_shape. rewrite length_zip_with. lia. }
  assert (Hfit : Forall2 (fun sz d => (0 <= sz <= Z.of_nat d)%Z)
                   (map Z.of_nat sp) (Jnp.padded_shape sp padding)).
  { now apply padded_shape_fits. }
  assert (Hoff : center_starts (Jnp.padded_shape sp padding) (map Z.of_nat sp)
                 = widths).
  { unfold padding. now apply center_starts_symmetric. }
  rewrite <- Hps.
  rewrite (CenterCropND_call_tabulate d0 y c (Jnp.padded_shape sp padding)
             (map Z.of_nat sp) eq_refl Hfit).
  rewrite Hoff, map_to_nat_of_nat. f_equal.
  transitivity (tabulate (c :: sp)
                  (fun idx => match idx with
                              | ch :: idx' => get d0 x (ch :: idx')
                              | [] => d0
                              end));
    [|exact (tabulate_channels d0 x c sp Hwf Hx)].
  apply tabulate_ext. intros idx Hb.
  destruct (in_bounds_cons_inv idx c sp Hb) as (ch & idx' & -> & Hch & Hb').
  destruct (interior_shifted widths sp idx' Hlw Hb') as [I1 I2].
  unfold y. rewrite (@get_tabulate F d0).
  - now rewrite I1, I2.
  - constructor; [assumption|]. rewrite <- Hlefts.
    now apply in_bounds_shifted.
Qed.
End CenterCropCompositions.

Lemma CenterCropND_idempotent_witness :
  ((forall n (x : ndarray nat), ndim x = S n -> check_channel_first n x = Ok tt)
   /\ shape (arange [1; 12]) = [1; 12]
   /\ Forall2 (fun sz d => (0 <= sz <= Z.of_nat d)%Z) [4%Z] [12])
  /\ (y <- CenterCropND_call check_channel_first 0
             (mk_CenterCropND [4%Z] (length [12])) (arange [1; 12]) ;;
      CenterCropND_call check_channel_first 0
        (mk_CenterCropND [4%Z] (length [12])) y)
     = CenterCropND_call check_channel_first 0
         (mk_CenterCropND [4%Z] (length [12])) (arange [1; 12]).
Proof.
  assert (Hs : Forall2 (fun sz d => (0 <= sz <= Z.of_nat d)%Z) [4%Z] [12]).
  { constructor; [lia|constructor]. }
  split.
  - split; [exact (@check_channel_first_accepts nat)|].
    split; [reflexivity|exact Hs].
  - exact (CenterCropND_idempotent check_channel_first
             (@check_channel_first_accepts nat) 0 (arange [1; 12]) 1 [12]
             [4%Z] eq_refl Hs).
Defined.

Lemma CenterCropND_undoes_symmetric_PadND_witness :
  ((forall n (x : ndarray nat), ndim x = S n -> check_channel_first n x = Ok tt)
   /\ well_formed (arange [2; 3])
   /\ shape (arange [2; 3]) = [2; 3]
   /\ length [2] = length [3])
  /\ (y <- NewPad.call check_channel_first 0
             (NewPad.mk_PadND
                (map (fun l => (Z.of_nat l, Z.of_nat l)) [2]) 9 (length [3]))
             (arange [2; 3]) ;;
      CenterCropND_call check_channel_first 0
        (mk_CenterCropND (map Z.of_nat [3]) (length [3])) y)
     = Ok (arange [2; 3]).
Proof.
  split.
  - split; [exact (@check_channel_first_accepts nat)|].
    repeat split; reflexivity.
  - exact (CenterCropND_undoes_symmetric_PadND check_channel_first
             (@check_channel_first_accepts nat) 0 (arange [2; 3]) 2 [3]
             [2] 9 eq_refl eq_refl eq_refl).
Defined.

(** X11.  [CropND] and [CenterCropND] raise [TypeError] when a size
    exceeds the length of its axis: [jax.lax.dynamic_slice] refuses the
    window, wherever it starts. *)
Theorem Crop_call_too_large {F : Type}
    (validate_spatial_nd : nat -> ndarray F -> result unit)
    (d0 : F) (x : ndarray F) (c : nat) (sp : list nat)
    (sizes starts : list Z) :
  (forall n x, ndim x = S n -> validate_spatial_nd n x = Ok tt) ->
  shape x = c :: sp ->
  length sizes = length sp -> length starts = length sp ->
  Exists (fun '(d, sz) => (Z.of_nat d < sz)%Z) (combine sp sizes) ->
  CropND_call validate_spatial_nd d0 (mk_CropND sizes starts (length sp)) x
  = Raise TypeError
  /\ CenterCropND_call validate_spatial_nd d0
       (mk_CenterCropND sizes (length sp)) x = Raise TypeError.
Proof.
  intros Hv Hx Hsz Hst Hex. split.
  - exact (CropND_too_large validate_spatial_nd Hv d0 x c sp sizes starts
             Hx Hsz Hst Hex).
  - exact (CenterCropND_too_large validate_spatial_nd Hv d0 x c sp sizes
             Hx Hsz Hex).
Qed.

Lemma Crop_call_too_large_witness :
  ((forall n (x : ndarray nat), ndim x = S n -> check_channel_first n x = Ok tt)
   /\ shape (arange [1; 12]) = [1; 12]
   /\ length [13%Z] = length [12] /\ length [0%Z] = length [12]
   /\ Exists (fun '(d, sz) => (Z.of_nat d < sz)%Z) (combine [12] [13%Z]))
  /\ CropND_call check_channel_first 0
       (mk_CropND [13%Z] [0%Z] (length [12])) (arange [1; 12])
     = Raise TypeError
  /\ CenterCropND_call check_channel_first 0
       (mk_CenterCropND [13%Z] (length [12])) (arange [1; 12])
     = Raise TypeError.
Proof.
  assert (He : Exists (fun '(d, sz) => (Z.of_nat d < sz)%Z)
                 (combine [12] [13%Z])).
  { apply Exists_cons_hd. lia. }
  split.
  - split; [exact (@check_channel_first_accepts nat)|].
    repeat split; try reflexivity. exact He.
  - exact (Crop_call_too_large check_channel_first 0 (arange [1; 12]) 1 [12]
             [13%Z] [0%Z] (@check_channel_first_accepts nat)
             eq_refl eq_refl eq_refl He).
Defined.

(** ** Dropout *)

Lemma skipn_last {A : Type} (l : list A) (d : A) :
  l <> [] -> skipn (length l - 1) l = [last l d].
Proof.
  intros Hl. destruct l as [|a l _] using rev_ind; [congruence|].
  rewrite length_app. cbn [length].
  replace (length l + 1 - 1) with (length l) by lia.
  rewrite skipn_app, Nat.sub_diag, skipn_all, last_last. reflexivity.
Qed.

Section DropoutTheorems.
Context {F Key : Type} `{Scalar F}.
Variable validate_spatial_in_shape : nat -> ndarray F -> result unit.
Hypothesis validate_accepts :
  forall n x, ndim x = S n -> validate_spatial_in_shape n x = Ok tt.
Variable S : Sampler F Key.

(** X12.  [Dropout] keeps the shape of its input, and every element of
    the result is either zero or the input element divided by [1 - p]:
    the mask drawn for the input's shape decides which, element by
    element. *)
Theorem Dropout_call_spec (p : F) (x : ndarray F) (key : Key) :
  shape (bernoulli S key (fsub f1 p) (shape x)) = shape x ->
  exists y,
    Dropout_call S p x key = Ok y
    /\ shape y = shape x
    /\ forall idx, in_bounds idx (shape x) ->
         get f0 y idx
         = if get false (bernoulli S key (fsub f1 p) (shape x)) idx
           then fdiv (get f0 x idx) (fsub f1 p)
           else f0.
Proof.
  intros Hm. unfold Dropout_call, Jnp.where_.
  rewrite Hm, shape_amap, broadcast_shapes_same.
  eexists. split; [reflexivity|]. split; [reflexivity|].
  intros idx Hb. rewrite (@get_tabulate F f0) by assumption.
  rewrite bcast_index_same by assumption.
  now rewrite (get_amap (fun u => fdiv u (fsub f1 p))) by assumption.
Qed.

Lemma broadcast_channel_mask (c L : nat) (mid : list nat) :
  Jnp.broadcast_shapes [c] (c :: mid ++ [L])
  = if c =? L then Some (c :: mid ++ [L])
    else if c =? 1 then Some (c :: mid ++ [L])
    else if L =? 1 then Some (c :: mid ++ [c])
    else None.
Proof.
  unfold Jnp.broadcast_shapes.
  change (rev [c]) with [c].
  replace (rev (c :: mid ++ [L])) with (L :: rev mid ++ [c])
    by (cbn [rev]; rewrite rev_app_distr; reflexivity).
  cbn [Jnp.broadcast_rev].
  destruct (rev mid ++ [c]) as [|r0 r] eqn:Er;
    [destruct (rev mid); discriminate|].
  rewrite <- Er.
  destruct (Nat.eqb_spec c L) as [->|HcL].
  - cbn [option_map rev]. rewrite rev_app_distr, rev_involutive.
    reflexivity.
  - destruct (Nat.eqb_spec c 1) as [->|Hc1].
    + cbn [option_map rev]. rewrite rev_app_distr, rev_involutive.
      reflexivity.
    + destruct (Nat.eqb_spec L 1) as [->|HL1]; [|reflexivity].
      cbn [option_map rev]. rewrite rev_app_distr, rev_involutive.
      reflexivity.
Qed.

(** X13.  [DropoutND] compares its mask of shape [(channels,)] with the
    input by broadcasting, which aligns the mask with the last axis: on
    an input with [c] channels whose last axis has length [L], the call
    raises [ValueError] whenever [c], [L] and [1] are three different
    numbers. *)
Theorem DropoutND_call_mismatch (n : nat) (p : F) (x : ndarray F) (key : Key)
    (c L : nat) (mid : list nat) :
  shape x = c :: mid ++ [L] -> n = length (mid ++ [L]) ->
  shape (bernoulli S key (fsub f1 p) [c]) = [c] ->
  c <> L -> c <> 1 -> L <> 1 ->
  DropoutND_call validate_spatial_in_shape S n p x key = Raise ValueError.
Proof.
  intros Hx Hn Hm HcL Hc1 HL1. unfold DropoutND_call.
  rewrite validate_accepts by (unfold ndim; rewrite Hx, Hn; reflexivity).
  cbn [bind].
  rewrite (@get_item_at nat (shape x) 0 0 0) by (rewrite Hx; reflexivity).
  cbn [bind]. rewrite Hx. cbn [nth].
  unfold Jnp.where_. rewrite Hm, shape_amap, Hx, broadcast_channel_mask.
  destruct (Nat.eqb_spec c L); [contradiction|].
  destruct (Nat.eqb_spec c 1); [contradiction|].
  destruct (Nat.eqb_spec L 1); [contradiction|]. reflexivity.
Qed.

(** X14.  When [DropoutND] returns an array of the input's shape (one
    channel, or as many channels as the last axis is long), the mask
    entry that decides an element is entry [0] for one channel, and
    otherwise the entry at the element's position on the last axis: the
    element is zero or the input element divided by [1 - p]
    accordingly. *)
Theorem DropoutND_call_spec (n : nat) (p : F) (x : ndarray F) (key : Key)
    (c L : nat) (mid : list nat) :
  shape x = c :: mid ++ [L] -> n = length (mid ++ [L]) ->
  shape (bernoulli S key (fsub f1 p) [c]) = [c] ->
  c = 1 \/ c = L ->
  exists y,
    DropoutND_call validate_spatial_in_shape S n p x key = Ok y
    /\ shape y = shape x
    /\ forall idx, in_bounds idx (shape x) ->
         get f0 y idx
         = if get false (bernoulli S key (fsub f1 p) [c])
                [if c =? 1 then 0 else last idx 0]
           then fdiv (get f0 x idx) (fsub f1 p)
           else f0.
Proof.
  intros Hx Hn Hm Hc. unfold DropoutND_call.
  rewrite validate_accepts by (unfold ndim; rewrite Hx, Hn; reflexivity).
  cbn [bind].
  rewrite (@get_item_at nat (shape x) 0 0 0) by (rewrite Hx; reflexivity).
  cbn [bind]. rewrite Hx. cbn [nth].
  unfold Jnp.where_. rewrite Hm, shape_amap, Hx, broadcast_channel_mask.
  assert (Hs : (if c =? L then Some (c :: mid ++ [L])
                else if c =? 1 then Some (c :: mid ++ [L])
                else if L =? 1 then Some (c :: mid ++ [c])
                else None) = Some (c :: mid ++ [L])).
  { destruct (Nat.eqb_spec c L); [reflexivity|].
    destruct (Nat.eqb_spec c 1); [reflexivity|]. lia. }
  rewrite Hs.
  eexists. split; [reflexivity|]. split; [reflexivity|].
  intros idx Hb. rewrite (@get_tabulate F f0) by assumption.
  rewrite <- Hx in Hb |- *.
  rewrite (@bcast_index_same (shape x) idx Hb).
  rewrite (get_amap (fun u => fdiv u (fsub f1 p))) by assumption.
  unfold Jnp.bcast_index at 1. cbn [length].
  rewrite (skipn_last idx 0).
  - reflexivity.
  - intros ->. rewrite Hx in Hb. inversion Hb.
Qed.
End DropoutTheorems.

(** [Dropout(0.5)] on [[1, 2], [3, 4]] with a mask that keeps the
    diagonal: the kept elements are doubled, the others are zero. *)
Example Dropout_half :
  Dropout_call checker_sampler one_half example_rationals 0
  = Ok (mk_ndarray [2; 2] (map QArith_base.inject_Z [2; 0; 0; 8]%Z)).
Proof. vm_compute. reflexivity. Qed.

Lemma Dropout_call_spec_witness :
  shape (bernoulli checker_sampler 0 (fsub f1 one_half)
           (shape example_rationals))
  = shape example_rationals
  /\ exists y,
      Dropout_call checker_sampler one_half example_rationals 0 = Ok y
      /\ shape y = shape example_rationals
      /\ forall idx, in_bounds idx (shape example_rationals) ->
           get f0 y idx
           = if get false
                  (bernoulli checker_sampler 0 (fsub f1 one_half)
                     (shape example_rationals)) idx
             then fdiv (get f0 example_rationals idx) (fsub f1 one_half)
             else f0.
Proof.
  split; [reflexivity|].
  exact (Dropout_call_spec checker_sampler one_half example_rationals 0
           eq_refl).
Defined.

Lemma DropoutND_call_mismatch_witness :
  ((forall n (x : ndarray Z), ndim x = S n -> check_channel_first n x = Ok tt)
   /\ shape example_image = 2 :: [] ++ [5]
   /\ 1 = length ([] ++ [5])
   /\ shape (bernoulli example_sampler 2 (fsub f1 0%Z) [2]) = [2]
   /\ 2 <> 5 /\ 2 <> 1 /\ 5 <> 1)
  /\ DropoutND_call check_channel_first example_sampler 1 0%Z example_image 2
     = Raise ValueError.
Proof.
  assert (H1 : 2 <> 5) by discriminate.
  assert (H2 : 2 <> 1) by discriminate.
  assert (H3 : 5 <> 1) by discriminate.
  split.
  - split; [exact (@check_channel_first_accepts Z)|].
    repeat split; try reflexivity; assumption.
  - exact (DropoutND_call_mismatch check_channel_first
             (@check_channel_first_accepts Z) example_sampler 1 0%Z
             example_image 2 2 5 [] eq_refl eq_refl eq_refl H1 H2 H3).
Defined.

(** [DropoutND(0.5, spatial_ndim=1)] on the two channels [[1, 2], [3, 4]]
    with the mask [[True, False]]: position 0 of the last axis is kept
    (and doubled) in both channels, position 1 is dropped in both; no
    channel is dropped as a whole. *)
Example DropoutND_half :
  bernoulli checker_sampler 0 (fsub f1 one_half) [2]
  = mk_ndarray [2] [true; false]
  /\ DropoutND_call check_channel_first checker_sampler 1 one_half
       example_rationals 0
     = Ok (mk_ndarray [2; 2] (map QArith_base.inject_Z [2; 0; 6; 0]%Z)).
Proof. split; vm_compute; reflexivity. Qed.

Lemma DropoutND_call_spec_witness :
  ((forall n (x : ndarray QArith_base.Q),
       ndim x = S n -> check_channel_first n x = Ok tt)
   /\ shape example_rationals = 2 :: [] ++ [2]
   /\ 1 = length ([] ++ [2])
   /\ shape (bernoulli checker_sampler 0 (fsub f1 one_half) [2]) = [2]
   /\ (2 = 1 \/ 2 = 2))
  /\ exists y,
      DropoutND_call check_channel_first checker_sampler 1 one_half
        example_rationals 0 = Ok y
      /\ shape y = shape example_rationals
      /\ forall idx, in_bounds idx (shape example_rationals) ->
           get f0 y idx
           = if get false
                  (bernoulli checker_sampler 0 (fsub f1 one_half) [2])
                  [if 2 =? 1 then 0 else last idx 0]
             then fdiv (get f0 example_rationals idx) (fsub f1 one_half)
             else f0.
Proof.
  split.
  - split; [exact (@check_channel_first_accepts QArith_base.Q)|].
    repeat split; try reflexivity. now right.
  - exact (DropoutND_call_spec check_channel_first
             (@check_channel_first_accepts QArith_base.Q) checker_sampler 1
             one_half example_rationals 0 2 2 [] eq_refl eq_refl eq_refl
             (or_intror eq_refl)).
Defined.

(** ** [tree_state], and [tree_eval] applied twice *)

Lemma cls_eqb_BatchNorm (c : cls) : cls_eqb c C_BatchNorm = true -> c = C_BatchNorm.
Proof. destruct c; try discriminate; reflexivity. Qed.

Section TreeStateTheorems.
Context {F Key DType : Type} `{Scalar F}.

Lemma state_is_leaf (c : cls) (children : list (pytree F Key DType)) :
  isinstance (Node c children)
    (filter (fun c => negb (cls_eqb c C_object))
            (map fst (@state_registry F Key DType _)))
  = cls_eqb c C_BatchNorm.
Proof. destruct c; reflexivity. Qed.

(** X15.  [tree_state] keeps the structure of a tree of layers and
    replaces every [BatchNorm] (with [in_features >= 0]) by a
    [BatchNormState] whose [running_mean] is [in_features] zeros and whose
    [running_var] is [in_features] ones, every other leaf by [NoState()],
    and leaves [None] in place; it does not raise. *)
Theorem tree_state_spec (tree array : pytree F Key DType) :
  batchnorms_sized tree ->
  exists state, tree_state tree array = Ok state /\ state_of tree state.
Proof.
  unfold tree_state. cbv zeta.
  induction tree as [a|c children IH] using pytree_ind'; intros Hsized.
  - destruct a; cbn;
      (eexists; split; [reflexivity|constructor; discriminate]).
  - cbn [tree_map_leaves]. rewrite state_is_leaf.
    destruct (cls_eqb c C_BatchNorm) eqn:Hc.
    + apply cls_eqb_BatchNorm in Hc. subst c.
      inversion Hsized as [|n fields Hn|c' ch' Hc' _]; [|discriminate Hc'].
      subst. cbn.
      destruct (Z.ltb_spec n 0) as [Hneg|_]; [lia|]. cbn.
      eexists. split; [reflexivity|]. now constructor.
    + assert (Hch : Forall batchnorms_sized children).
      { inversion Hsized as [|n fields Hn|c' ch' Hc' Hall]; subst.
        - discriminate Hc.
        - assumption. }
      destruct (mapM_Forall2
                  (tree_map_leaves
                     (fun leaf =>
                        match state_dispatcher [leaf] with
                        | Raise TypeError => state_dispatcher [leaf; array]
                        | r => r
                        end)
                     (fun x => isinstance x
                        (filter (fun c => negb (cls_eqb c C_object))
                           (map fst (@state_registry F Key DType _)))))
                  state_of children) as [children' [E Hrel]].
      { rewrite Forall_forall in IH, Hch |- *. intros t Ht.
        exact (IH t Ht (Hch t Ht)). }
      rewrite E. cbn [bind]. eexists. split; [reflexivity|].
      now constructor.
Qed.

(** A tree without [BatchNorm] has no state. *)
Lemma tree_state_stateless (tree array : pytree F Key DType) :
  stateless tree ->
  exists state, tree_state tree array = Ok state /\ no_state state.
Proof.
  unfold tree_state. cbv zeta.
  induction tree as [a|c children IH] using pytree_ind'; intros Hsl.
  - destruct a; cbn; eexists; (split; [reflexivity|constructor]).
  - cbn [tree_map_leaves]. rewrite state_is_leaf.
    inversion Hsl as [|c' ch' Hc Hall]; subst. rewrite Hc.
    destruct (mapM_Forall2
                (tree_map_leaves
                   (fun leaf =>
                      match state_dispatcher [leaf] with
                      | Raise TypeError => state_dispatcher [leaf; array]
                      | r => r
                      end)
                   (fun x => isinstance x
                      (filter (fun c => negb (cls_eqb c C_object))
                         (map fst (@state_registry F Key DType _)))))
                (fun _ s => no_state s) children) as [children' [E Hrel]].
    { rewrite Forall_forall in IH, Hall |- *. intros t Ht.
      exact (IH t Ht (Hall t Ht)). }
    rewrite E. cbn [bind]. eexists. split; [reflexivity|].
    apply ns_node. clear -Hrel. induction Hrel; constructor; assumption.
Qed.
End TreeStateTheorems.

Lemma tree_state_spec_witness :
  batchnorms_sized example_tree
  /\ exists state,
      tree_state example_tree (Atom (AArray example_batch)) = Ok state
      /\ state_of example_tree state.
Proof.
  assert (Hs : batchnorms_sized example_tree).
  { apply bs_node; [reflexivity|].
    constructor; [apply bs_node; [reflexivity|repeat constructor]|].
    constructor; [apply (bs_batchnorm (n := 3)); lia|].
    constructor; [apply bs_node; [reflexivity|repeat constructor]|].
    repeat constructor. }
  split; [exact Hs|].
  exact (tree_state_spec example_tree (Atom (AArray example_batch)) Hs).
Defined.

Section TreeEvalTwice.
Context {F Key DType : Type} `{Scalar F}.
Variable resolve_init : InitType F Key DType -> result (Initializer F Key DType).
Variable key_none : Key.
Variable float32 : DType.
Hypothesis resolve_callable : forall f, resolve_init (InitCallable f) = Ok f.

Lemma rule_free_norm_object (en : NormFields F Key DType) :
  rule_free (norm_object C_EvalNorm en).
Proof.
  unfold norm_object. apply rf_node; [reflexivity|].
  repeat constructor.
Qed.

(** What [tree_eval] returns holds no object with an eval rule. *)
Lemma tree_eval_result (tree : pytree F Key DType) :
  batchnorms_initialised tree ->
  exists tree',
    tree_eval resolve_init key_none float32 tree = Ok tree'
    /\ rule_free tree'.
Proof.
  unfold tree_eval. cbv zeta.
  induction tree as [a|c children IH] using pytree_ind'; intros Hinit.
  - exists (Atom a). split; [reflexivity|constructor].
  - cbn [tree_map]. rewrite is_leaf_has_rule.
    destruct (has_rule c) eqn:Hrule.
    + destruct (has_rule_cases c Hrule) as [Hrand| ->].
      * rewrite eval_dispatcher_random by assumption.
        eexists. split; [reflexivity|].
        apply rf_node; [reflexivity|constructor].
      * inversion Hinit as [|bn Hbn|c' ch' Hc _]; [|discriminate Hc].
        destruct (eval_batchnorm_object resolve_init key_none float32
                    resolve_callable bn) as (en & E & _).
        exists (norm_object C_EvalNorm en). split; [exact E|].
        apply rule_free_norm_object.
    + assert (Hch : Forall batchnorms_initialised children).
      { inversion Hinit as [|bn Hbn|c' ch' Hc Hall]; subst; [|assumption].
        discriminate Hrule. }
      destruct (mapM_Forall2
                  (tree_map (eval_dispatcher resolve_init key_none float32)
                     (fun x => isinstance x
                        (filter (fun c => negb (cls_eqb c C_object))
                           (map fst (eval_registry resolve_init key_none
                                       float32)))))
                  (fun _ t => rule_free t) children) as [children' [E Hrel]].
      { rewrite Forall_forall in IH, Hch |- *. intros t Ht.
        exact (IH t Ht (Hch t Ht)). }
      rewrite E. cbn [bind]. eexists. split; [reflexivity|].
      apply rf_node; [assumption|].
      clear -Hrel. induction Hrel; constructor; assumption.
Qed.

Lemma tree_eval_rule_free (tree : pytree F Key DType) :
  rule_free tree -> tree_eval resolve_init key_none float32 tree = Ok tree.
Proof.
  unfold tree_eval. cbv zeta.
  induction tree as [a|c children IH] using pytree_ind'; intros Hfree.
  - reflexivity.
  - cbn [tree_map]. rewrite is_leaf_has_rule.
    inversion Hfree as [|c' ch' Hc Hall]; subst. rewrite Hc.
    rewrite mapM_id; [reflexivity|].
    rewrite Forall_forall in IH, Hall |- *. intros t Ht.
    exact (IH t Ht (Hall t Ht)).
Qed.

Lemma rule_free_stateless (tree : pytree F Key DType) :
  rule_free tree -> stateless tree.
Proof.
  induction tree as [a|c children IH] using pytree_ind'; intros Hfree.
  - constructor.
  - inversion Hfree as [|c' ch' Hc Hall]; subst. constructor.
    + destruct c; try reflexivity; discriminate Hc.
    + rewrite Forall_forall in IH, Hall |- *. intros t Ht.
      exact (IH t Ht (Hall t Ht)).
Qed.

(** X16.  [tree_eval] is idempotent: what it returns holds no object
    with an eval rule left, and evaluating it again returns it
    unchanged. *)
Theorem tree_eval_idempotent (tree : pytree F Key DType) :
  batchnorms_initialised tree ->
  exists tree',
    tree_eval resolve_init key_none float32 tree = Ok tree'
    /\ rule_free tree'
    /\ tree_eval resolve_init key_none float32 tree' = Ok tree'.
Proof.
  intros Hinit. destruct (tree_eval_result tree Hinit) as [tree' [E Hfree]].
  exists tree'. split; [exact E|]. split; [exact Hfree|].
  now apply tree_eval_rule_free.
Qed.

(** X17.  A tree in evaluation mode has no state: [tree_state] applied
    to the result of [tree_eval] returns a tree whose leaves are all
    [NoState()] or [None], so the state of the [BatchNorm] layers has to
    be built from the training tree. *)
Theorem tree_state_after_tree_eval (tree array : pytree F Key DType) :
  batchnorms_initialised tree ->
  exists tree' state,
    tree_eval resolve_init key_none float32 tree = Ok tree'
    /\ tree_state tree' array = Ok state
    /\ no_state state.
Proof.
  intros Hinit. destruct (tree_eval_result tree Hinit) as [tree' [E Hfree]].
  destruct (tree_state_stateless tree' array (rule_free_stateless tree' Hfree))
    as [state [Es Hns]].
  now exists tree', state.
Qed.
End TreeEvalTwice.

Lemma tree_eval_idempotent_witness :
  ((forall f : Initializer Z nat unit,
       basic_resolve_init (InitCallable f) = Ok f)
   /\ batchnorms_initialised example_tree)
  /\ exists tree',
      tree_eval basic_resolve_init 0 tt example_tree = Ok tree'
      /\ rule_free tree'
      /\ tree_eval basic_resolve_init 0 tt tree' = Ok tree'.
Proof.
  assert (Hinit : batchnorms_initialised example_tree).
  { apply bi_node; [reflexivity|].
    constructor; [constructor; [reflexivity|repeat constructor]|].
    constructor; [apply (bi_batchnorm example_norm)|].
    repeat constructor. }
  split.
  - split; [exact basic_resolve_init_callable|exact Hinit].
  - exact (tree_eval_idempotent basic_resolve_init 0 tt
             basic_resolve_init_callable example_tree Hinit).
Defined.

Lemma tree_state_after_tree_eval_witness :
  ((forall f : Initializer Z nat unit,
       basic_resolve_init (InitCallable f) = Ok f)
   /\ batchnorms_initialised example_tree)
  /\ exists tree' state,
      tree_eval basic_resolve_init 0 tt example_tree = Ok tree'
      /\ tree_state tree' (Atom (AArray example_batch)) = Ok state
      /\ no_state state.
Proof.
  assert (Hinit : batchnorms_initialised example_tree).
  { apply bi_node; [reflexivity|].
    constructor; [constructor; [reflexivity|repeat constructor]|].
    constructor; [apply (bi_batchnorm example_norm)|].
    repeat constructor. }
  split.
  - split; [exact basic_resolve_init_callable|exact Hinit].
  - exact (tree_state_after_tree_eval basic_resolve_init 0 tt
             basic_resolve_init_callable example_tree
             (Atom (AArray example_batch)) Hinit).
Defined.

(** ** [EvalNorm] and [BatchNorm]: evaluation output, and rejected calls *)

Section NormCalls.
Context {F Key DType : Type} `{Scalar F}.
Variable pmean : ndarray F -> string -> result (ndarray F).
Variable resolve_init : InitType F Key DType -> result (Initializer F Key DType).
Variable key_none : Key.
Variable float32 : DType.
Hypothesis resolve_callable : forall f, resolve_init (InitCallable f) = Ok f.

(** X18.  Under [jax.vmap], [EvalNorm] (no axis name) normalises with
    the running statistics it is given: the result has the shape of [x]
    and its element at [idx], of feature [c = idx[axis]], is
    [(x[idx] - running_mean[c]) * rsqrt(running_var[c] + eps)], multiplied
    by [weight[c]] and incremented by [bias[c]] when those are present. *)
Theorem EvalNorm_call_output (self : NormFields F Key DType)
    (x : ndarray F) (st : BatchNormState) (a : nat) :
  py_index (ndim x) (axis self) = Some a ->
  axis_name self = None ->
  shape (running_mean st) = [nth a (shape x) 0] ->
  shape (running_var st) = [nth a (shape x) 0] ->
  (forall w, weight self = Some w -> shape w = [nth a (shape x) 0]) ->
  (forall b, bias self = Some b -> shape b = [nth a (shape x) 0]) ->
  exists out,
    EvalNorm_call pmean true self x st = Ok (out, st)
    /\ shape out = shape x
    /\ forall idx, in_bounds idx (shape x) ->
         get f0 out idx
         = affine (weight self) (bias self) (nth a idx 0)
             (fmul (fsub (get f0 x idx)
                         (get f0 (running_mean st) [nth a idx 0]))
                   (frsqrt (fadd (get f0 (running_var st) [nth a idx 0])
                                 (eps self)))).
Proof.
  intros Hp Hname Hrm Hrv Hw Hb. unfold EvalNorm_call. rewrite Hname.
  exact (batchnorm_impl_eval pmean x st f0 (eps self) (weight self)
           (bias self) (axis self) a Hp Hrm Hrv Hw Hb).
Qed.

(** X19.  Evaluation mode end to end: the [EvalNorm] that the [tree_eval]
    rule builds from a [BatchNorm], called under [jax.vmap] with a state,
    normalises with the running statistics of that state and with the
    [eps], [axis], [weight] and [bias] of the [BatchNorm], and returns the
    state as it is. *)
Theorem BatchNorm_evaluated (bn : NormFields F Key DType)
    (x : ndarray F) (st : BatchNormState) (a : nat) :
  py_index (ndim x) (axis bn) = Some a ->
  axis_name bn = None ->
  shape (running_mean st) = [nth a (shape x) 0] ->
  shape (running_var st) = [nth a (shape x) 0] ->
  (forall w, weight bn = Some w -> shape w = [nth a (shape x) 0]) ->
  (forall b, bias bn = Some b -> shape b = [nth a (shape x) 0]) ->
  exists en out,
    eval_batchnorm resolve_init key_none float32 (norm_object C_BatchNorm bn)
    = Ok (norm_object C_EvalNorm en)
    /\ EvalNorm_call pmean true en x st = Ok (out, st)
    /\ shape out = shape x
    /\ forall idx, in_bounds idx (shape x) ->
         get f0 out idx
         = affine (weight bn) (bias bn) (nth a idx 0)
             (fmul (fsub (get f0 x idx)
                         (get f0 (running_mean st) [nth a idx 0]))
                   (frsqrt (fadd (get f0 (running_var st) [nth a idx 0])
                                 (eps bn)))).
Proof.
  intros Hp Hname Hrm Hrv Hw Hb.
  destruct (eval_batchnorm_object resolve_init key_none float32
              resolve_callable bn)
    as (en & E & _ & Eeps & Eax & Ename & Ew & Eb).
  exists en. unfold EvalNorm_call. rewrite Eeps, Eax, Ename, Ew, Eb, Hname.
  destruct (batchnorm_impl_eval pmean x st f0 (eps bn) (weight bn)
              (bias bn) (axis bn) a Hp Hrm Hrv Hw Hb) as (out & Eo & So & Go).
  exists out. auto.
Qed.


(** X21.  [jax.lax.cond] traces both branches, so a training call also
    needs a state that the evaluation branch accepts: under [jax.vmap],
    [BatchNorm] raises [TypeError] when [running_mean] does not hold one
    element per feature. *)
Theorem BatchNorm_call_state_size (self : NormFields F Key DType)
    (x : ndarray F) (st : BatchNormState) (a : nat) :
  py_index (ndim x) (axis self) = Some a ->
  prod (shape (running_mean st)) <> nth a (shape x) 0 ->
  BatchNorm_call pmean true self x (Some st) = Raise TypeError.
Proof.
  intros Hp Hsize. unfold BatchNorm_call, _batchnorm_impl.
  pose proof (py_index_lt _ _ Hp) as Ha.
  rewrite (@get_item_at nat (shape x) (axis self) a 0 Hp). cbn [bind].
  rewrite (@set_item_repeat nat 1 (nth a (shape x) 0) (ndim x) (axis self) a Hp).
  cbn [bind]. unfold Lax.cond at 1, eval_step.
  rewrite (@reshape_mismatch F); [reflexivity|].
  now rewrite prod_unit_shape.
Qed.
End NormCalls.

Lemma EvalNorm_call_output_witness :
  (py_index (ndim example_batch) (axis example_norm) = Some 1
   /\ axis_name example_norm = None
   /\ shape (running_mean (BatchNorm_state example_norm)) = [3]
   /\ shape (running_var (BatchNorm_state example_norm)) = [3]
   /\ (forall w, weight example_norm = Some w -> shape w = [3])
   /\ (forall b, bias example_norm = Some b -> shape b = [3]))
  /\ exists out,
      EvalNorm_call pmean_single true example_norm example_batch
        (BatchNorm_state example_norm)
      = Ok (out, BatchNorm_state example_norm)
      /\ shape out = shape example_batch
      /\ forall idx, in_bounds idx (shape example_batch) ->
           get f0 out idx
           = affine (weight example_norm) (bias example_norm) (nth 1 idx 0)
               (fmul (fsub (get f0 example_batch idx)
                           (get f0 (running_mean (BatchNorm_state example_norm))
                                [nth 1 idx 0]))
                     (frsqrt
                        (fadd (get f0
                                 (running_var (BatchNorm_state example_norm))
                                 [nth 1 idx 0])
                              (eps example_norm)))).
Proof.
  assert (Hw : forall w, weight example_norm = Some w -> shape w = [3])
    by (now intros w [= <-]).
  assert (Hb : forall b, bias example_norm = Some b -> shape b = [3])
    by (now intros b [= <-]).
  split.
  - repeat split; try reflexivity; assumption.
  - exact (EvalNorm_call_output pmean_single example_norm example_batch
             (BatchNorm_state example_norm) 1 eq_refl eq_refl eq_refl eq_refl
             Hw Hb).
Defined.

Lemma BatchNorm_evaluated_witness :
  ((forall f : Initializer Z nat unit,
       basic_resolve_init (InitCallable f) = Ok f)
   /\ py_index (ndim example_batch) (axis example_norm) = Some 1
   /\ axis_name example_norm = None
   /\ shape (running_mean (BatchNorm_state example_norm)) = [3]
   /\ shape (running_var (BatchNorm_state example_norm)) = [3]
   /\ (forall w, weight example_norm = Some w -> shape w = [3])
   /\ (forall b, bias example_norm = Some b -> shape b = [3]))
  /\ exists en out,
      eval_batchnorm basic_resolve_init 0 tt
        (norm_object C_BatchNorm example_norm)
      = Ok (norm_object C_EvalNorm en)
      /\ EvalNorm_call pmean_single true en example_batch
           (BatchNorm_state example_norm)
         = Ok (out, BatchNorm_state example_norm)
      /\ shape out = shape example_batch
      /\ forall idx, in_bounds idx (shape example_batch) ->
           get f0 out idx
           = affine (weight example_norm) (bias example_norm) (nth 1 idx 0)
               (fmul (fsub (get f0 example_batch idx)
                           (get f0 (running_mean (BatchNorm_state example_norm))
                                [nth 1 idx 0]))
                     (frsqrt
                        (fadd (get f0
                                 (running_var (BatchNorm_state example_norm))
                                 [nth 1 idx 0])
                              (eps example_norm)))).
Proof.
  assert (Hw : forall w, weight example_norm = Some w -> shape w = [3])
    by (now intros w [= <-]).
  assert (Hb : forall b, bias example_norm = Some b -> shape b = [3])
    by (now intros b [= <-]).
  split.
  - split; [exact basic_resolve_init_callable|].
    repeat split; try reflexivity; assumption.
  - exact (BatchNorm_evaluated pmean_single basic_resolve_init 0 tt
             basic_resolve_init_callable example_norm example_batch
             (BatchNorm_state example_norm) 1 eq_refl eq_refl eq_refl eq_refl
             Hw Hb).
Defined.


Lemma BatchNorm_call_state_size_witness :
  (py_index (ndim example_batch) (axis example_norm) = Some 1
   /\ prod (shape (running_mean example_short_state))
      <> nth 1 (shape example_batch) 0)
  /\ BatchNorm_call pmean_single true example_norm example_batch
       (Some example_short_state)
     = Raise TypeError.
Proof.
  assert (Hn : prod (shape (running_mean example_short_state))
               <> nth 1 (shape example_batch) 0) by discriminate.
  split; [split; [reflexivity|exact Hn]|].
  exact (BatchNorm_call_state_size pmean_single example_norm example_batch
           example_short_state 1 eq_refl Hn).
Defined.

(** ** Layer and group normalisation *)

Lemma mapM_map_ok {A B : Type} (f : A -> result B) (g : A -> B) (l : list A) :
  (forall a, In a l -> f a = Ok (g a)) -> mapM f l = Ok (map g l).
Proof.
  intros Hf. induction l as [|a l IH]; [reflexivity|].
  cbn [mapM map]. rewrite Hf by (now left). cbn [bind].
  change ((fix go (l0 : list A) : result (list B) :=
             match l0 with
             | [] => Ok []
             | a0 :: l'0 => b0 <- f a0 ;; l'' <- go l'0 ;; Ok (b0 :: l'')
             end) l) with (mapM f l).
  rewrite IH by (intros b Hb; apply Hf; now right). reflexivity.
Qed.

Lemma distinct_seq (p k : nat) : distinct (seq p k) = true.
Proof.
  revert p. induction k as [|k IH]; intros p; [reflexivity|].
  cbn [seq distinct]. rewrite IH, andb_true_r.
  apply negb_true_iff. apply not_true_is_false. intros Hex.
  apply existsb_exists in Hex. destruct Hex as [j [Hin Hj]].
  apply in_seq in Hin. apply Nat.eqb_eq in Hj. lia.
Qed.

(** The axes [range(n - k, n)] of an array of [n = p + k] axes. *)
Lemma canonicalize_trailing (p k : nat) :
  canonicalize_axes (p + k)
    (py_range (Z.of_nat (p + k) - Z.of_nat k) (Z.of_nat (p + k)))
  = Ok (seq p k).
Proof.
  unfold canonicalize_axes, py_range.
  replace (Z.to_nat (Z.of_nat (p + k) - (Z.of_nat (p + k) - Z.of_nat k)))
    with k by lia.
  rewrite (mapM_map_ok _ Z.to_nat).
  - cbn [bind]. rewrite map_map.
    rewrite (map_ext _ (fun j => p + j)) by (intros j; lia).
    now rewrite map_add_seq, distinct_seq.
  - intros a Hin. apply in_map_iff in Hin. destruct Hin as [j [<- Hj]].
    apply in_seq in Hj.
    replace (Z.of_nat (p + k) - Z.of_nat k + Z.of_nat j)%Z
      with (Z.of_nat (p + j)) by lia.
    rewrite py_index_of_nat by lia. now rewrite Nat2Z.id.
Qed.

Lemma map_constant {A B : Type} (f : A -> B) (v : B) (l : list A) :
  (forall a, In a l -> f a = v) -> map f l = repeat v (length l).
Proof.
  intros Hf. induction l as [|a l IH]; [reflexivity|].
  cbn [map length repeat]. rewrite Hf by (now left). f_equal.
  apply IH. intros b Hb. apply Hf. now right.
Qed.

Lemma reduce_mask_trailing (p k : nat) :
  Jnp.reduce_mask (p + k) (seq p k) = trailing p k.
Proof.
  unfold Jnp.reduce_mask, trailing. rewrite seq_app, map_app. f_equal.
  - rewrite (map_constant _ false); [now rewrite length_seq|].
    intros i Hi. apply in_seq in Hi. apply not_true_is_false. intros Hex.
    apply existsb_exists in Hex. destruct Hex as [j [Hin Hj]].
    apply in_seq in Hin. apply Nat.eqb_eq in Hj. lia.
  - rewrite (map_constant _ true); [now rewrite length_seq|].
    intros i Hi. apply existsb_exists. exists i. split; [assumption|].
    apply Nat.eqb_refl.
Qed.

Lemma zip_with_app {A B C : Type} (f : A -> B -> C) (l1 l2 : list A)
    (m1 m2 : list B) :
  length l1 = length m1 ->
  zip_with f (l1 ++ l2) (m1 ++ m2) = zip_with f l1 m1 ++ zip_with f l2 m2.
Proof.
  revert m1. induction l1 as [|a l1 IH]; intros [|b m1] Hl;
    simpl in Hl; try discriminate; [reflexivity|].
  cbn [app zip_with]. now rewrite IH by lia.
Qed.

Lemma zip_with_false {C : Type} (f : bool -> nat -> C) (g : nat -> C)
    (b : bool) (s : list nat) :
  (forall d, f b d = g d) ->
  zip_with f (repeat b (length s)) s = map g s.
Proof.
  intros Hf. induction s as [|d s IH]; [reflexivity|].
  cbn [length repeat zip_with map]. now rewrite Hf, IH.
Qed.

Lemma map_id_eq {A : Type} (f : A -> A) (l : list A) :
  (forall a, f a = a) -> map f l = l.
Proof.
  intros Hf. rewrite <- (map_id l) at 2. now apply map_ext.
Qed.

Lemma shapes_trailing (pre ns : list nat) :
  Jnp.kept_shape (trailing (length pre) (length ns)) (pre ++ ns)
  = pre ++ repeat 1 (length ns)
  /\ Jnp.reduced_shape (trailing (length pre) (length ns)) (pre ++ ns)
     = repeat 1 (length pre) ++ ns.
Proof.
  unfold Jnp.kept_shape, Jnp.reduced_shape, trailing.
  rewrite !zip_with_app by (now rewrite repeat_length).
  rewrite (zip_with_false _ (fun d => d)) by reflexivity.
  rewrite (zip_with_false _ (fun _ => 1)) by reflexivity.
  rewrite (zip_with_false _ (fun _ => 1)) by reflexivity.
  rewrite (zip_with_false _ (fun d => d)) by reflexivity.
  rewrite !map_id.
  rewrite !(map_constant (fun _ : nat => 1) 1) by reflexivity.
  split; reflexivity.
Qed.

Lemma proj_trailing (i j : list nat) :
  proj (trailing (length i) (length j)) (i ++ j) = i ++ repeat 0 (length j).
Proof.
  unfold proj, trailing.
  rewrite zip_with_app by (now rewrite repeat_length).
  rewrite (zip_with_false _ (fun d => d)) by reflexivity.
  rewrite (zip_with_false _ (fun _ => 0)) by reflexivity.
  rewrite map_id. now rewrite (map_constant (fun _ : nat => 0) 0).
Qed.

Lemma all_indices_ones (p : nat) (ns : list nat) :
  all_indices (repeat 1 p ++ ns) = map (app (repeat 0 p)) (all_indices ns).
Proof.
  induction p as [|p IH].
  - cbn [repeat app]. symmetry. apply map_id_eq. reflexivity.
  - cbn [repeat app all_indices seq flat_map]. rewrite app_nil_r, IH, map_map.
    reflexivity.
Qed.

Lemma zip_with_add_zeros_r (i : list nat) :
  zip_with Nat.add i (repeat 0 (length i)) = i.
Proof.
  induction i as [|a i IH]; [reflexivity|].
  cbn [length repeat zip_with]. rewrite IH. f_equal. lia.
Qed.

Lemma add_row_index (i j : list nat) (k : nat) :
  length j = k ->
  zip_with Nat.add (i ++ repeat 0 k) (repeat 0 (length i) ++ j) = i ++ j.
Proof.
  intros <-. rewrite zip_with_app by (now rewrite repeat_length).
  rewrite zip_with_add_zeros_r.
  rewrite zip_with_add_zeros. now rewrite firstn_all.
Qed.

Lemma in_bounds_app (i j pre ns : list nat) :
  in_bounds i pre -> in_bounds j ns -> in_bounds (i ++ j) (pre ++ ns).
Proof.
  intros Hi Hj. unfold in_bounds in *. now apply Forall2_app.
Qed.

Lemma in_bounds_zeros (k : nat) : in_bounds (repeat 0 k) (repeat 1 k).
Proof. induction k; constructor; [lia|assumption]. Qed.

Lemma in_bounds_split (idx pre ns : list nat) :
  in_bounds idx (pre ++ ns) ->
  idx = firstn (length pre) idx ++ skipn (length pre) idx
  /\ in_bounds (firstn (length pre) idx) pre
  /\ in_bounds (skipn (length pre) idx) ns.
Proof.
  intros Hb. split; [now rewrite firstn_skipn|].
  unfold in_bounds in *. apply Forall2_app_inv_r in Hb.
  destruct Hb as (i & j & Hi & Hj & ->).
  rewrite <- (Forall2_length Hi).
  rewrite firstn_app, Nat.sub_diag, firstn_all, skipn_app, Nat.sub_diag,
    skipn_all.
  cbn [firstn skipn app]. rewrite app_nil_r. auto.
Qed.

Lemma broadcast_rev_prefix (s t : list nat) :
  Jnp.broadcast_rev (s ++ t) s = Some (s ++ t).
Proof.
  induction s as [|d s IH].
  - cbn [app]. apply broadcast_rev_nil_r.
  - cbn [app Jnp.broadcast_rev]. now rewrite IH, Nat.eqb_refl.
Qed.

Lemma broadcast_shapes_suffix (pre ns : list nat) :
  Jnp.broadcast_shapes (pre ++ ns) ns = Some (pre ++ ns).
Proof.
  unfold Jnp.broadcast_shapes. rewrite rev_app_distr, broadcast_rev_prefix.
  cbn [option_map]. now rewrite <- rev_app_distr, rev_involutive.
Qed.

Section NormalisationFacts.
Context {F : Type} `{Scalar F}.

(** The mean over the trailing axes, at the row of a leading index. *)
Lemma get_mean_trailing (x : ndarray F) (pre ns i : list nat) :
  shape x = pre ++ ns -> in_bounds i pre ->
  get f0 (Jnp.mean_keepdims x (seq (length pre) (length ns)))
      (i ++ repeat 0 (length ns))
  = row_mean x ns i.
Proof.
  intros Hx Hi. unfold Jnp.mean_keepdims, ndim.
  rewrite Hx, length_app, reduce_mask_trailing.
  destruct (shapes_trailing pre ns) as [-> ->].
  rewrite (@get_tabulate F f0)
    by (apply in_bounds_app; [assumption|apply in_bounds_zeros]).
  unfold row_mean, mean_list, row_values.
  rewrite all_indices_ones, map_map, length_map, length_all_indices.
  rewrite prod_app, prod_repeat_1, Nat.mul_1_l. f_equal. f_equal.
  apply map_ext_in. intros j Hj. apply in_all_indices in Hj.
  rewrite <- (in_bounds_length Hi).
  now rewrite add_row_index by (apply (in_bounds_length Hj)).
Qed.

(** An elementwise operation with an operand that spans the trailing
    axes. *)
Lemma binop_trailing (f : F -> F -> F) (a b : ndarray F) (pre ns : list nat) :
  shape a = pre ++ ns -> shape b = ns ->
  Jnp.binop f a b
  = Ok (tabulate (pre ++ ns)
          (fun idx => f (get f0 a idx) (get f0 b (skipn (length pre) idx)))).
Proof.
  intros Ha Hb. unfold Jnp.binop.
  rewrite Ha, Hb, broadcast_shapes_suffix. f_equal.
  apply tabulate_ext. intros idx Hidx.
  rewrite bcast_index_same by assumption.
  destruct (in_bounds_split idx pre ns Hidx) as (_ & _ & Hj).
  unfold Jnp.bcast_index at 1.
  rewrite (in_bounds_length Hidx), length_app.
  replace (length pre + length ns - length ns) with (length pre) by lia.
  fold (Jnp.bcast_index ns (skipn (length pre) idx)).
  replace (zip_with (fun d i => if d =? 1 then 0 else i) ns
             (skipn (length pre) idx))
    with (skipn (length pre) idx); [reflexivity|].
  symmetry. clear -Hj. induction Hj as [|j d js ds Hjd _ IH]; [reflexivity|].
  cbn [zip_with]. rewrite IH. f_equal.
  destruct (Nat.eqb_spec d 1); lia.
Qed.

(** The normalisation that [layer_norm] and [group_norm] share: every
    element is centred and scaled by the statistics of its own row. *)
Lemma normalise_rows (x : ndarray F) (pre ns : list nat) (eps : F)
    (dims : list Z) :
  shape x = pre ++ ns ->
  canonicalize_axes (ndim x) dims = Ok (seq (length pre) (length ns)) ->
  (mu <- mean_axes x dims ;;
   sigma_2 <- var_axes x dims ;;
   centred <- Jnp.sub x mu ;;
   Jnp.mul centred (Lax.rsqrt (Jnp.add_scalar sigma_2 eps)))
  = Ok (tabulate (pre ++ ns)
          (fun idx =>
             let i := firstn (length pre) idx in
             fmul (fsub (get f0 x idx) (row_mean x ns i))
                  (frsqrt (fadd (row_var x ns i) eps)))).
Proof.
  intros Hx Hdims.
  set (mask := trailing (length pre) (length ns)).
  set (mu := Jnp.mean_keepdims x (seq (length pre) (length ns))).
  assert (Hmask : length mask = ndim x).
  { unfold mask, trailing, ndim. rewrite Hx, !length_app, !repeat_length.
    reflexivity. }
  assert (Hkept : forall y : ndarray F,
             shape y = shape x ->
             shape (Jnp.mean_keepdims y (seq (length pre) (length ns)))
             = Jnp.kept_shape mask (shape y)).
  { intros y Hy. unfold Jnp.mean_keepdims, ndim. cbn [shape tabulate].
    rewrite Hy, Hx, length_app. now rewrite reduce_mask_trailing. }
  assert (Hproj : forall idx, in_bounds idx (shape x) ->
             proj mask idx = firstn (length pre) idx ++ repeat 0 (length ns)
             /\ in_bounds (firstn (length pre) idx) pre).
  { intros idx Hb. rewrite Hx in Hb.
    destruct (in_bounds_split idx pre ns Hb) as (E & Hi & Hj).
    split; [|exact Hi].
    pose proof (in_bounds_length Hi) as Li.
    pose proof (in_bounds_length Hj) as Lj.
    revert E Li Lj.
    generalize (firstn (length pre) idx) (skipn (length pre) idx).
    intros i j E Li Lj. subst idx. unfold mask. rewrite <- Li, <- Lj.
    apply proj_trailing. }
  assert (Hmu : forall idx, in_bounds idx (shape x) ->
             get f0 mu (proj mask idx)
             = row_mean x ns (firstn (length pre) idx)).
  { intros idx Hb. destruct (Hproj idx Hb) as [-> Hi].
    now apply get_mean_trailing. }
  unfold mean_axes, var_axes, mean_axes. rewrite Hdims. cbn [bind].
  fold mu.
  unfold Jnp.sub. rewrite (@binop_kept F H fsub x mu mask Hmask)
    by (unfold mu; now apply Hkept).
  cbn [bind].
  set (centred := tabulate (shape x)
                    (fun idx => fsub (get f0 x idx) (get f0 mu (proj mask idx)))).
  assert (Hsq : shape (Jnp.square centred) = shape x) by reflexivity.
  assert (Hnd : ndim (Jnp.square centred) = ndim x) by reflexivity.
  rewrite Hnd, Hdims. cbn [bind].
  set (sigma_2 := Jnp.mean_keepdims (Jnp.square centred)
                    (seq (length pre) (length ns))).
  assert (Hsig : forall idx, in_bounds idx (shape x) ->
             get f0 sigma_2 (proj mask idx)
             = row_var x ns (firstn (length pre) idx)).
  { intros idx Hb. destruct (Hproj idx Hb) as [-> Hi].
    unfold sigma_2.
    rewrite (get_mean_trailing (Jnp.square centred) pre ns _)
      by (rewrite ?Hsq; assumption).
    unfold row_var, row_mean at 1, row_values. rewrite map_map.
    f_equal. apply map_ext_in. intros j Hj. apply in_all_indices in Hj.
    assert (Hij : in_bounds (firstn (length pre) idx ++ j) (shape x))
      by (rewrite Hx; now apply in_bounds_app).
    unfold Jnp.square. rewrite (get_amap (fun u => fmul u u)) by exact Hij.
    unfold centred. rewrite (@get_tabulate F f0) by exact Hij.
    rewrite (Hmu _ Hij).
    assert (Efst : firstn (length pre) (firstn (length pre) idx ++ j)
                   = firstn (length pre) idx).
    { rewrite firstn_app, firstn_firstn, Nat.min_id.
      rewrite (in_bounds_length Hi), Nat.sub_diag.
      cbn [firstn]. apply app_nil_r. }
    now rewrite Efst. }
  unfold Jnp.mul.
  rewrite (@binop_kept F H fmul centred
             (Lax.rsqrt (Jnp.add_scalar sigma_2 eps)) mask)
    by (try exact Hmask; unfold Lax.rsqrt, Jnp.add_scalar;
        rewrite !shape_amap; exact (Hkept (Jnp.square centred) Hsq)).
  cbn [shape tabulate centred]. rewrite Hx. f_equal.
  apply tabulate_ext. intros idx Hb. rewrite <- Hx in Hb.
  fold centred. unfold centred at 1.
  rewrite (@get_tabulate F f0) by exact Hb. rewrite (Hmu idx Hb).
  cbv zeta. f_equal.
  assert (Hpk : in_bounds (proj mask idx) (shape sigma_2)).
  { unfold sigma_2. rewrite (Hkept _ Hsq), Hsq.
    apply in_bounds_proj; [exact Hmask|exact Hb]. }
  unfold Lax.rsqrt, Jnp.add_scalar.
  rewrite (get_amap frsqrt) by (rewrite shape_amap; exact Hpk).
  rewrite (get_amap (fun u => fadd u eps)) by exact Hpk.
  now rewrite (Hsig idx Hb).
Qed.
End NormalisationFacts.

Section LayerNormTheorem.
Context {F Key DType : Type} `{Scalar F}.

Lemma firstn_skipn_app (i j : list nat) (p : nat) :
  length i = p -> firstn p (i ++ j) = i /\ skipn p (i ++ j) = j.
Proof.
  intros <-. split.
  - rewrite firstn_app, Nat.sub_diag, firstn_all. cbn [firstn].
    apply app_nil_r.
  - rewrite skipn_app, Nat.sub_diag, skipn_all. reflexivity.
Qed.

(** The scale and the shift of [layer_norm], applied to an array whose
    trailing axes have the shape of the parameters. *)
Lemma affine_trailing (y : ndarray F) (gamma beta : option (ndarray F))
    (pre ns : list nat) :
  shape y = pre ++ ns ->
  (forall g, gamma = Some g -> shape g = ns) ->
  (forall b, beta = Some b -> shape b = ns) ->
  exists out,
    (x_hat <- match gamma with
              | Some gamma => Jnp.mul y gamma
              | None => Ok y
              end ;;
     match beta with
     | Some beta => Jnp.add x_hat beta
     | None => Ok x_hat
     end) = Ok out
    /\ shape out = pre ++ ns
    /\ forall i j, in_bounds i pre -> in_bounds j ns ->
         get f0 out (i ++ j) = affine_at gamma beta j (get f0 y (i ++ j)).
Proof.
  intros Hy Hg Hb. unfold affine_at, Jnp.mul, Jnp.add.
  assert (Hget : forall (f : F -> F -> F) (a b : ndarray F) i j,
             in_bounds i pre -> in_bounds j ns ->
             get f0 (tabulate (pre ++ ns)
                       (fun idx => f (get f0 a idx)
                                     (get f0 b (skipn (length pre) idx))))
                 (i ++ j)
             = f (get f0 a (i ++ j)) (get f0 b j)).
  { intros f a b i j Hi Hj.
    rewrite (@get_tabulate F f0) by (now apply in_bounds_app).
    now rewrite (proj2 (firstn_skipn_app i j (length pre)
                          (in_bounds_length Hi))). }
  destruct gamma as [g|], beta as [b|]; cbn [bind].
  - rewrite (binop_trailing fmul y g pre ns Hy (Hg g eq_refl)). cbn [bind].
    erewrite (binop_trailing fadd _ b pre ns);
      [|reflexivity|exact (Hb b eq_refl)].
    eexists. split; [reflexivity|]. split; [reflexivity|].
    intros i j Hi Hj. now rewrite !Hget.
  - rewrite (binop_trailing fmul y g pre ns Hy (Hg g eq_refl)).
    eexists. split; [reflexivity|]. split; [reflexivity|].
    intros i j Hi Hj. now rewrite Hget.
  - rewrite (binop_trailing fadd y b pre ns Hy (Hb b eq_refl)).
    eexists. split; [reflexivity|]. split; [reflexivity|].
    intros i j Hi Hj. now rewrite Hget.
  - exists y. auto.
Qed.

(** X22.  [LayerNorm] normalises every row over the trailing axes named
    by [normalized_shape]: for an input of shape [pre ++ ns] and
    parameters of shape [ns] (when present), the result has the shape of
    the input and its element at [i ++ j] is
    [(x[i ++ j] - mean_i) * rsqrt(var_i + eps)], multiplied by [gamma[j]]
    and incremented by [beta[j]] when those are present, where [mean_i]
    and [var_i] are the mean and the mean squared deviation of the
    elements [x[i ++ j']] of the row [i]. *)
Theorem LayerNorm_call_spec (self : LayerNorm.t (F := F) (Key := Key)
                                      (DType := DType))
    (x : ndarray F) (pre ns : list nat) :
  shape x = pre ++ ns ->
  LayerNorm.normalized_shape self = map Z.of_nat ns ->
  (forall g, LayerNorm.gamma self = Some g -> shape g = ns) ->
  (forall b, LayerNorm.beta self = Some b -> shape b = ns) ->
  exists out,
    LayerNorm.call self x = Ok out
    /\ shape out = shape x
    /\ forall i j, in_bounds i pre -> in_bounds j ns ->
         get f0 out (i ++ j)
         = affine_at (LayerNorm.gamma self) (LayerNorm.beta self) j
             (fmul (fsub (get f0 x (i ++ j)) (row_mean x ns i))
                   (frsqrt (fadd (row_var x ns i) (LayerNorm.eps self)))).
Proof.
  intros Hx Hns Hg Hb. unfold LayerNorm.call. rewrite Hns.
  set (gamma := LayerNorm.gamma self) in *.
  set (beta := LayerNorm.beta self) in *.
  set (eps := LayerNorm.eps self).
  assert (Hdims : canonicalize_axes (ndim x)
                    (py_range (Z.of_nat (length (shape x))
                               - Z.of_nat (length (map Z.of_nat ns)))
                              (Z.of_nat (length (shape x))))
                  = Ok (seq (length pre) (length ns))).
  { unfold ndim. rewrite Hx, length_app, length_map.
    apply canonicalize_trailing. }
  pose proof (normalise_rows x pre ns eps _ Hx Hdims) as Hnorm.
  set (dims := py_range _ _) in *.
  set (y := tabulate (pre ++ ns) _) in Hnorm.
  assert (E : layer_norm x gamma beta eps (map Z.of_nat ns)
              = (x_hat <- Ok y ;;
                 x_hat <- match gamma with
                          | Some gamma => Jnp.mul x_hat gamma
                          | None => Ok x_hat
                          end ;;
                 match beta with
                 | Some beta => Jnp.add x_hat beta
                 | None => Ok x_hat
                 end)).
  { rewrite <- Hnorm. unfold layer_norm. cbv zeta. fold dims.
    destruct (mean_axes x dims); cbn [bind]; [|reflexivity].
    destruct (var_axes x dims); cbn [bind]; [|reflexivity].
    destruct (Jnp.sub x a); cbn [bind]; reflexivity. }
  rewrite E. cbn [bind].
  destruct (affine_trailing y gamma beta pre ns eq_refl Hg Hb)
    as (out & Eo & So & Go).
  exists out. split; [exact Eo|]. split; [congruence|].
  intros i j Hi Hj. rewrite (Go i j Hi Hj). f_equal.
  unfold y. rewrite (@get_tabulate F f0) by (now apply in_bounds_app).
  cbv zeta.
  now rewrite (proj1 (firstn_skipn_app i j (length pre)
                        (in_bounds_length Hi))).
Qed.
End LayerNormTheorem.

Lemma LayerNorm_call_spec_witness :
  (shape example_batch = [2] ++ [3]
   /\ LayerNorm.normalized_shape example_layer_norm = map Z.of_nat [3]
   /\ (forall g, LayerNorm.gamma example_layer_norm = Some g -> shape g = [3])
   /\ (forall b, LayerNorm.beta example_layer_norm = Some b -> shape b = [3]))
  /\ exists out,
      LayerNorm.call example_layer_norm example_batch = Ok out
      /\ shape out = shape example_batch
      /\ forall i j, in_bounds i [2] -> in_bounds j [3] ->
           get f0 out (i ++ j)
           = affine_at (LayerNorm.gamma example_layer_norm)
               (LayerNorm.beta example_layer_norm) j
               (fmul (fsub (get f0 example_batch (i ++ j))
                           (row_mean example_batch [3] i))
                     (frsqrt (fadd (row_var example_batch [3] i)
                                   (LayerNorm.eps example_layer_norm)))).
Proof.
  assert (Hg : forall g, LayerNorm.gamma example_layer_norm = Some g ->
                         shape g = [3]) by (now intros g [= <-]).
  assert (Hb : forall b, LayerNorm.beta example_layer_norm = Some b ->
                         shape b = [3]) by (now intros b [= <-]).
  split.
  - repeat split; try reflexivity; assumption.
  - exact (LayerNorm_call_spec example_layer_norm example_batch [2] [3]
             eq_refl eq_refl Hg Hb).
Defined.

Lemma canonicalize_range (n p k : nat) (lo hi : Z) :
  lo = Z.of_nat p -> hi = Z.of_nat (p + k) -> n = p + k ->
  canonicalize_axes n (py_range lo hi) = Ok (seq p k).
Proof.
  intros -> -> ->.
  replace (Z.of_nat p) with (Z.of_nat (p + k) - Z.of_nat k)%Z by lia.
  apply canonicalize_trailing.
Qed.

Lemma insert_axes_ones (pos n : nat) (axes dims : list nat) :
  (forall q, pos <= q < pos + n -> In q axes) ->
  insert_axes pos n axes dims = repeat 1 n.
Proof.
  revert pos. induction n as [|n IH]; intros pos Hin; [reflexivity|].
  cbn [insert_axes repeat].
  replace (existsb (Nat.eqb pos) axes) with true.
  - f_equal. apply IH. intros q Hq. apply Hin. lia.
  - symmetry. apply existsb_exists. exists pos. split; [apply Hin; lia|].
    apply Nat.eqb_refl.
Qed.

Lemma flat_map_unit {A B : Type} (g : A -> B) (l : list A) :
  flat_map (fun a => [g a]) l = map g l.
Proof.
  induction l as [|a l IH]; [reflexivity|].
  cbn [flat_map map app]. now rewrite IH.
Qed.

Lemma all_indices_1d (M : nat) :
  all_indices [M] = map (fun r => [r]) (seq 0 M).
Proof.
  cbn [all_indices]. rewrite <- flat_map_unit.
  apply flat_map_ext. reflexivity.
Qed.

Lemma div_block (ch r S cg : nat) :
  r < S -> 0 < cg -> (ch * S + r) / (cg * S) = ch / cg.
Proof.
  intros Hr Hcg.
  rewrite (Nat.mul_comm cg S), <- Nat.Div0.div_div.
  f_equal. rewrite Nat.div_add_l by lia.
  rewrite (Nat.div_small r S) by assumption. lia.
Qed.

Section GroupNormFacts.
Context {F : Type} `{Scalar F}.

(** The size [jnp.reshape] infers for [(G, -1)]. *)
Lemma divide_groups (s : list nat) (G : nat) :
  0 < G -> prod s mod G = 0 ->
  divide_shape_sizes s [Z.of_nat G; (-1)%Z]
  = Ok (- Z.of_nat (prod s / G))%Z.
Proof.
  intros HG Hdiv. unfold divide_shape_sizes, prod_int. cbn [fold_right].
  pose proof (Nat.div_mod_eq (prod s) G) as E. rewrite Hdiv in E.
  set (m := prod s / G) in *.
  replace (Z.of_nat G * (-1 * 1))%Z with (- Z.of_nat G)%Z by lia.
  destruct (Z.eqb_spec (Z.of_nat (prod s)) (- Z.of_nat G)); [lia|].
  destruct (Z.eqb_spec (- Z.of_nat G) 0); [lia|].
  replace (Z.of_nat (prod s)) with (- Z.of_nat m * - Z.of_nat G)%Z by lia.
  rewrite Z.mod_mul, Z.div_mul by lia. reflexivity.
Qed.

Lemma divide_groups_mismatch (s : list nat) (G : nat) :
  0 < G -> prod s mod G <> 0 ->
  divide_shape_sizes s [Z.of_nat G; (-1)%Z]
  = Raise InconclusiveDimensionOperation.
Proof.
  intros HG Hdiv. unfold divide_shape_sizes, prod_int. cbn [fold_right].
  replace (Z.of_nat G * (-1 * 1))%Z with (- Z.of_nat G)%Z by lia.
  destruct (Z.eqb_spec (Z.of_nat (prod s)) (- Z.of_nat G)); [lia|].
  destruct (Z.eqb_spec (- Z.of_nat G) 0); [lia|].
  destruct (Z.eqb_spec (Z.of_nat (prod s) mod - Z.of_nat G) 0) as [E|_];
    [|reflexivity].
  exfalso. apply Hdiv.
  assert (Hn : (- Z.of_nat G)%Z <> 0%Z) by lia.
  assert (Hp : Z.of_nat G <> 0%Z) by lia.
  apply (proj1 (Z.mod_divide _ _ Hn)) in E.
  apply (proj1 (Z.divide_opp_l _ _)) in E.
  apply (proj2 (Z.mod_divide _ _ Hp)) in E.
  rewrite <- Nat2Z.inj_mod in E. lia.
Qed.

Lemma reshape_groups (x : ndarray F) (G : nat) :
  0 < G -> prod (shape x) mod G = 0 ->
  Jnp.reshape x [Z.of_nat G; (-1)%Z]
  = Ok (mk_ndarray [G; prod (shape x) / G] (data x)).
Proof.
  intros HG Hdiv. unfold Jnp.reshape, _compute_newshape. cbn [mapM].
  destruct (Z.eqb_spec (Z.of_nat G) (-1)); [lia|]. cbn [bind].
  change (-1 =? -1)%Z with true. cbv iota.
  rewrite (divide_groups (shape x) G HG Hdiv). cbn [bind].
  rewrite Z.opp_involutive.
  change [Z.of_nat G; Z.of_nat (prod (shape x) / G)]
    with (map Z.of_nat [G; prod (shape x) / G]).
  rewrite shape_rule_of_nat.
  replace (prod [G; prod (shape x) / G] =? prod (shape x)) with true;
    [reflexivity|].
  symmetry. apply Nat.eqb_eq. cbn [prod fold_right].
  pose proof (Nat.div_mod_eq (prod (shape x)) G) as E. rewrite Hdiv in E.
  lia.
Qed.

Lemma reshape_groups_mismatch (x : ndarray F) (G : nat) :
  0 < G -> prod (shape x) mod G <> 0 ->
  Jnp.reshape x [Z.of_nat G; (-1)%Z] = Raise InconclusiveDimensionOperation.
Proof.
  intros HG Hdiv. unfold Jnp.reshape, _compute_newshape. cbn [mapM].
  destruct (Z.eqb_spec (Z.of_nat G) (-1)); [lia|]. cbn [bind].
  change (-1 =? -1)%Z with true. cbv iota.
  now rewrite (divide_groups_mismatch (shape x) G HG Hdiv).
Qed.

(** A parameter of shape [(C,)] expanded to [(C, 1, ..., 1)]. *)
Lemma expand_dims_param (r : ndarray F) (C m : nat) :
  shape r = [C] ->
  expand_dims r (py_range 1 (Z.of_nat (S m)))
  = Jnp.reshape r (map Z.of_nat (repeat 1 0 ++ C :: repeat 1 m)).
Proof.
  intros Hr. rewrite (proj1 (reshape_param r 0 m C Hr)).
  unfold expand_dims, ndim. rewrite Hr.
  assert (Hl : length (py_range 1 (Z.of_nat (S m))) = m).
  { unfold py_range. rewrite length_map, length_seq. lia. }
  rewrite Hl. cbn [length].
  rewrite (canonicalize_range (1 + m) 1 m) by (try reflexivity; lia).
  cbn [bind]. f_equal. f_equal.
  cbn [insert_axes repeat app Nat.add].
  replace (existsb (Nat.eqb 0) (seq 1 m)) with false.
  - f_equal. apply insert_axes_ones. intros q Hq. apply in_seq. lia.
  - symmetry. apply not_true_is_false. intros Hex.
    apply existsb_exists in Hex. destruct Hex as [j [Hin Hj]].
    apply in_seq in Hin. apply Nat.eqb_eq in Hj. lia.
Qed.

(** The rows of the regrouped array are the groups of channels. *)
Lemma row_values_groups (x : ndarray F) (c cg G : nat) (sp : list nat)
    (g : nat) :
  shape x = c :: sp ->
  row_values (mk_ndarray [G; cg * prod sp] (data x)) [cg * prod sp] [g]
  = group_values x cg g.
Proof.
  intros Hx. unfold row_values, group_values. rewrite Hx. cbn [tl].
  rewrite all_indices_1d, map_map.
  rewrite (flat_map_ext _ (fun ch => map (fun k => nth k (data x) f0)
                                         (map (fun k => ch * prod sp + k)
                                              (seq 0 (prod sp))))).
  - rewrite <- map_flat_map, flat_map_seq_blocks.
    rewrite <- (map_add_seq (g * cg * prod sp) (cg * prod sp)), map_map.
    apply map_ext. intros r. unfold get. cbn [shape data app ravel prod fold_right].
    f_equal. lia.
  - intros ch. rewrite <- (map_ravel_all_indices sp), !map_map.
    apply map_ext. intros idx. unfold get. rewrite Hx.
    cbn [ravel]. reflexivity.
Qed.
End GroupNormFacts.

Section GroupNormCallTheorem.
Context {F : Type} `{Scalar F}.

(** A per-channel parameter expanded and applied, as [group_norm] does. *)
Lemma group_param (f : F -> F -> F) (out r : ndarray F) (c : nat)
    (sp : list nat) :
  shape out = c :: sp -> shape r = [c] ->
  exists out',
    (p <- expand_dims r (py_range 1 (Z.of_nat (S (length sp)))) ;;
     Jnp.binop f out p) = Ok out'
    /\ shape out' = shape out
    /\ forall idx, in_bounds idx (shape out) ->
         get f0 out' idx = f (get f0 out idx) (get f0 r [nth 0 idx 0]).
Proof.
  intros Hout Hr.
  rewrite (expand_dims_param r c (length sp) Hr).
  pose proof (binop_param f out r 0 (length sp)) as Hp.
  rewrite Hout in Hp. cbn [nth] in Hp. rewrite Hout.
  apply Hp; [|exact Hr]. unfold ndim. now rewrite Hout.
Qed.

Lemma group_affine (y : ndarray F) (gamma beta : option (ndarray F))
    (c : nat) (sp : list nat) :
  shape y = c :: sp ->
  (forall w, gamma = Some w -> shape w = [c]) ->
  (forall b, beta = Some b -> shape b = [c]) ->
  exists out,
    (x_hat <- match gamma with
              | Some gamma =>
                  gamma <- expand_dims gamma
                             (py_range 1 (Z.of_nat (S (length sp)))) ;;
                  Jnp.mul y gamma
              | None => Ok y
              end ;;
     match beta with
     | Some beta =>
         beta <- expand_dims beta (py_range 1 (Z.of_nat (S (length sp)))) ;;
         Jnp.add x_hat beta
     | None => Ok x_hat
     end) = Ok out
    /\ shape out = c :: sp
    /\ forall idx, in_bounds idx (c :: sp) ->
         get f0 out idx = affine gamma beta (nth 0 idx 0) (get f0 y idx).
Proof.
  intros Hy Hg Hb. unfold affine, Jnp.mul, Jnp.add.
  destruct gamma as [g|].
  - destruct (group_param fmul y g c sp Hy (Hg g eq_refl))
      as (o1 & E1 & S1 & G1).
    rewrite E1. cbn [bind]. rewrite Hy in S1, G1.
    destruct beta as [b|].
    + destruct (group_param fadd o1 b c sp S1 (Hb b eq_refl))
        as (o2 & E2 & S2 & G2).
      rewrite E2. rewrite S1 in S2, G2.
      exists o2. split; [reflexivity|]. split; [exact S2|].
      intros idx Hidx. now rewrite G2, G1.
    + exists o1. split; [reflexivity|]. split; [exact S1|].
      intros idx Hidx. now rewrite G1.
  - cbn [bind]. destruct beta as [b|].
    + destruct (group_param fadd y b c sp Hy (Hb b eq_refl))
        as (o2 & E2 & S2 & G2).
      rewrite E2. rewrite Hy in S2, G2.
      exists o2. split; [reflexivity|]. split; [exact S2|].
      intros idx Hidx. now rewrite G2.
    + exists y. auto.
Qed.

Lemma group_norm_groups (x : ndarray F) (gamma beta : option (ndarray F))
    (eps : F) (c G : nat) (sp : list nat) :
  shape x = c :: sp -> 0 < G -> c mod G = 0 ->
  (forall w, gamma = Some w -> shape w = [c]) ->
  (forall b, beta = Some b -> shape b = [c]) ->
  exists out,
    group_norm x gamma beta eps (Z.of_nat G) = Ok out
    /\ shape out = shape x
    /\ forall idx, in_bounds idx (shape x) ->
         get f0 out idx
         = affine gamma beta (nth 0 idx 0)
             (fmul (fsub (get f0 x idx)
                         (group_mean x (c / G) (nth 0 idx 0 / (c / G))))
                   (frsqrt (fadd (group_var x (c / G) (nth 0 idx 0 / (c / G)))
                                 eps))).
Proof.
  intros Hx HG Hdiv Hw Hb.
  set (cg := c / G).
  assert (Hc : c = cg * G).
  { unfold cg. rewrite Nat.mul_comm. apply Nat.Div0.div_exact. exact Hdiv. }
  assert (HN : prod (shape x) = cg * prod sp * G).
  { rewrite Hx. cbn [prod fold_right]. fold (prod sp). rewrite Hc at 1. ring. }
  assert (HM : prod (shape x) / G = cg * prod sp)
    by (rewrite HN; apply Nat.div_mul; lia).
  assert (Hmod : prod (shape x) mod G = 0)
    by (rewrite HN; apply Nat.Div0.mod_mul).
  set (M := cg * prod sp) in *.
  set (xx := mk_ndarray [G; M] (data x)).
  assert (Hdims : canonicalize_axes (ndim xx) [(-1)%Z]
                  = Ok (seq (length [G]) (length [M]))) by reflexivity.
  pose proof (normalise_rows xx [G] [M] eps _ eq_refl Hdims) as Hnorm.
  set (y := tabulate ([G] ++ [M]) _) in Hnorm.
  assert (E : group_norm x gamma beta eps (Z.of_nat G)
              = (x_hat <- Jnp.reshape y (map Z.of_nat (shape x)) ;;
                 x_hat <- match gamma with
                          | Some gamma =>
                              gamma <- expand_dims gamma
                                         (py_range 1 (Z.of_nat (ndim x))) ;;
                              Jnp.mul x_hat gamma
                          | None => Ok x_hat
                          end ;;
                 match beta with
                 | Some beta =>
                     beta <- expand_dims beta
                               (py_range 1 (Z.of_nat (ndim x))) ;;
                     Jnp.add x_hat beta
                 | None => Ok x_hat
                 end)).
  { unfold group_norm. rewrite (reshape_groups x G HG Hmod), HM.
    cbn [bind]. fold xx.
    transitivity
      (x_hat <- (mu <- mean_axes xx [(-1)%Z] ;;
                 sigma_2 <- var_axes xx [(-1)%Z] ;;
                 centred <- Jnp.sub xx mu ;;
                 Jnp.mul centred (Lax.rsqrt (Jnp.add_scalar sigma_2 eps))) ;;
       x_hat <- Jnp.reshape x_hat (map Z.of_nat (shape x)) ;;
       x_hat <- match gamma with
                | Some gamma =>
                    gamma <- expand_dims gamma
                               (py_range 1 (Z.of_nat (ndim x))) ;;
                    Jnp.mul x_hat gamma
                | None => Ok x_hat
                end ;;
       match beta with
       | Some beta =>
           beta <- expand_dims beta (py_range 1 (Z.of_nat (ndim x))) ;;
           Jnp.add x_hat beta
       | None => Ok x_hat
       end).
    - destruct (mean_axes xx [(-1)%Z]); cbn [bind]; [|reflexivity].
      destruct (var_axes xx [(-1)%Z]); cbn [bind]; [|reflexivity].
      destruct (Jnp.sub xx a); cbn [bind]; reflexivity.
    - rewrite Hnorm. reflexivity. }
  rewrite E.
  rewrite (@reshape_of_nat F y (shape x))
    by (rewrite HN; cbn [shape tabulate y app prod fold_right]; unfold M; ring).
  cbn [bind].
  set (y' := mk_ndarray (shape x) (data y)).
  assert (Hy' : shape y' = c :: sp) by exact Hx.
  assert (Hnd : ndim x = S (length sp)) by (unfold ndim; now rewrite Hx).
  rewrite Hnd.
  destruct (group_affine y' gamma beta c sp Hy' Hw Hb) as (out & Eo & So & Go).
  exists out. split; [exact Eo|]. split; [congruence|].
  intros idx Hidx. rewrite Hx in Hidx. rewrite (Go idx Hidx). f_equal.
  destruct (in_bounds_cons_inv idx c sp Hidx) as (ch & idx' & -> & Hch & Hb').
  cbn [nth].
  pose proof (ravel_lt Hb') as Hr.
  assert (Hcg : 0 < cg) by (destruct cg; [lia|lia]).
  assert (HMpos : 0 < M) by (unfold M; nia).
  set (p := ch * prod sp + ravel sp idx').
  assert (Hp : p < G * M) by (unfold p, M; nia).
  assert (Hg : p / M = ch / cg) by (unfold p, M; now apply div_block).
  assert (Hrav : ravel [G; M] [p / M; p mod M] = p).
  { cbn [ravel prod fold_right].
    pose proof (Nat.div_mod_eq p M). lia. }
  assert (Hin : in_bounds [p / M; p mod M] [G; M]).
  { repeat constructor.
    - apply Nat.Div0.div_lt_upper_bound. lia.
    - apply Nat.mod_upper_bound. lia. }
  assert (Hgy : get f0 y' (ch :: idx') = get f0 y [p / M; p mod M]).
  { unfold get. cbn [shape data y' y tabulate app]. rewrite Hrav, Hx.
    reflexivity. }
  rewrite Hgy. unfold y. rewrite (@get_tabulate F f0) by exact Hin.
  cbv zeta. cbn [length firstn].
  assert (Hgx : get f0 xx [p / M; p mod M] = get f0 x (ch :: idx')).
  { unfold get. cbn [shape data xx]. rewrite Hrav, Hx. reflexivity. }
  rewrite Hgx, Hg.
  assert (Hrm : row_mean xx [M] [ch / cg] = group_mean x cg (ch / cg)).
  { unfold row_mean, group_mean, xx, M.
    now rewrite (row_values_groups x c cg G sp (ch / cg) Hx). }
  assert (Hrv : row_var xx [M] [ch / cg] = group_var x cg (ch / cg)).
  { unfold row_var, group_var. rewrite Hrm. unfold xx, M.
    now rewrite (row_values_groups x c cg G sp (ch / cg) Hx). }
  now rewrite Hrm, Hrv.
Qed.

(** X23.  [GroupNorm] on a channel-first input whose channel count [c]
    is a multiple of [groups] normalises every element with the
    statistics of its group: the result has the shape of the input, and
    its element at [idx], of channel [ch = idx[0]] and group
    [g = ch // (c // groups)], is [(x[idx] - mean_g) * rsqrt(var_g + eps)],
    multiplied by [weight[ch]] and incremented by [bias[ch]] when those
    are present, where [mean_g] and [var_g] are the mean and the mean
    squared deviation of all the elements of the [c // groups] consecutive
    channels of group [g]. *)
Theorem GroupNorm_call_spec (self : GroupNorm.t (F := F)) (x : ndarray F)
    (c G : nat) (sp : list nat) :
  shape x = c :: sp ->
  GroupNorm.groups self = Z.of_nat G -> 0 < G -> c mod G = 0 ->
  (forall w, GroupNorm.weight self = Some w -> shape w = [c]) ->
  (forall b, GroupNorm.bias self = Some b -> shape b = [c]) ->
  exists out,
    GroupNorm_call self x = Ok out
    /\ shape out = shape x
    /\ forall idx, in_bounds idx (shape x) ->
         get f0 out idx
         = affine (GroupNorm.weight self) (GroupNorm.bias self) (nth 0 idx 0)
             (fmul (fsub (get f0 x idx)
                         (group_mean x (c / G) (nth 0 idx 0 / (c / G))))
                   (frsqrt (fadd (group_var x (c / G) (nth 0 idx 0 / (c / G)))
                                 (GroupNorm.eps self)))).
Proof.
  intros Hx Hgroups HG Hdiv Hw Hb. unfold GroupNorm_call. rewrite Hgroups.
  now apply (group_norm_groups x _ _ _ c G sp).
Qed.

(** X24.  [GroupNorm] regroups the input by [x.reshape(groups, -1)]
    without looking at the channel count: whenever the number of
    elements of the input is not a multiple of [groups], the length of
    the [-1] axis cannot be inferred and the call raises
    [jax.core.InconclusiveDimensionOperation] (which is not a
    [TypeError]). *)
Theorem GroupNorm_call_indivisible (self : GroupNorm.t (F := F))
    (x : ndarray F) (G : nat) :
  GroupNorm.groups self = Z.of_nat G -> 0 < G ->
  prod (shape x) mod G <> 0 ->
  GroupNorm_call self x = Raise InconclusiveDimensionOperation.
Proof.
  intros Hgroups HG Hdiv. unfold GroupNorm_call, group_norm.
  rewrite Hgroups, (reshape_groups_mismatch x G HG Hdiv). reflexivity.
Qed.
End GroupNormCallTheorem.

Lemma GroupNorm_call_spec_witness :
  (shape example_channels = [4; 2]
   /\ GroupNorm.groups example_group_norm = Z.of_nat 2
   /\ 0 < 2 /\ 4 mod 2 = 0
   /\ (forall w, GroupNorm.weight example_group_norm = Some w ->
                 shape w = [4])
   /\ (forall b, GroupNorm.bias example_group_norm = Some b ->
                 shape b = [4]))
  /\ exists out,
      GroupNorm_call example_group_norm example_channels = Ok out
      /\ shape out = shape example_channels
      /\ forall idx, in_bounds idx (shape example_channels) ->
           get f0 out idx
           = affine (GroupNorm.weight example_group_norm)
               (GroupNorm.bias example_group_norm) (nth 0 idx 0)
               (fmul (fsub (get f0 example_channels idx)
                           (group_mean example_channels (4 / 2)
                              (nth 0 idx 0 / (4 / 2))))
                     (frsqrt (fadd (group_var example_channels (4 / 2)
                                      (nth 0 idx 0 / (4 / 2)))
                                   (GroupNorm.eps example_group_norm)))).
Proof.
  assert (H0 : 0 < 2) by lia.
  assert (Hw : forall w, GroupNorm.weight example_group_norm = Some w ->
                         shape w = [4]) by (now intros w [= <-]).
  assert (Hb : forall b, GroupNorm.bias example_group_norm = Some b ->
                         shape b = [4]) by (now intros b [= <-]).
  split.
  - repeat split; try reflexivity; assumption.
  - exact (GroupNorm_call_spec example_group_norm example_channels 4 2 [2]
             eq_refl eq_refl H0 eq_refl Hw Hb).
Defined.

Lemma GroupNorm_call_indivisible_witness :
  (GroupNorm.groups example_group_norm = Z.of_nat 2 /\ 0 < 2
   /\ prod (shape example_vector) mod 2 <> 0)
  /\ GroupNorm_call example_group_norm example_vector
     = Raise InconclusiveDimensionOperation.
Proof.
  assert (H0 : 0 < 2) by lia.
  assert (Hn : prod (shape example_vector) mod 2 <> 0) by discriminate.
  split; [split; [reflexivity|split; assumption]|].
  exact (GroupNorm_call_indivisible example_group_norm example_vector 2
           eq_refl H0 Hn).
Defined.

Section InstanceNormTheorem.
Context {F Key DType : Type} `{Scalar F}.
Variable positive_int_cb : Z -> result Z.
Variable eps_on_setattr : F -> result F.
Variable resolve_init : InitType F Key DType -> result (Initializer F Key DType).
Hypothesis positive_int_accepts :
  forall v, (0 < v)%Z -> positive_int_cb v = Ok v.

(** X25.  [InstanceNorm] is a [GroupNorm] with one group per feature: for
    a positive [in_features], an accepted [eps] and initialisers yielding
    arrays of the requested shape, the constructor returns a layer (the
    divisibility check cannot fail), and that layer normalises every
    channel of an input with [in_features] channels by the statistics of
    that channel alone. *)
Theorem InstanceNorm_per_channel (c : nat) (key : Key) (eps eps' : F)
    (weight_init bias_init : InitType F Key DType) (dtype : DType)
    (w_init b_init : Initializer F Key DType) :
  0 < c ->
  eps_on_setattr eps = Ok eps' ->
  resolve_init weight_init = Ok w_init -> produces_shape w_init ->
  resolve_init bias_init = Ok b_init -> produces_shape b_init ->
  exists layer,
    InstanceNorm_init positive_int_cb eps_on_setattr resolve_init
      (Z.of_nat c) key eps weight_init bias_init dtype = Ok layer
    /\ GroupNorm.groups layer = Z.of_nat c
    /\ forall (x : ndarray F) (sp : list nat),
         shape x = c :: sp ->
         exists out,
           GroupNorm_call layer x = Ok out
           /\ shape out = shape x
           /\ forall idx, in_bounds idx (shape x) ->
                get f0 out idx
                = affine (GroupNorm.weight layer) (GroupNorm.bias layer)
                    (nth 0 idx 0)
                    (fmul (fsub (get f0 x idx) (group_mean x 1 (nth 0 idx 0)))
                          (frsqrt (fadd (group_var x 1 (nth 0 idx 0)) eps'))).
Proof.
  intros Hc Heps Hw Hwp Hb Hbp.
  unfold InstanceNorm_init, GroupNorm.init.
  rewrite !positive_int_accepts by lia. cbn [bind].
  rewrite Heps. cbn [bind]. unfold py_mod.
  destruct (Z.eqb_spec (Z.of_nat c) 0) as [|_]; [lia|]. cbn [bind].
  rewrite Z.mod_same by lia. cbn [Z.eqb negb].
  assert (Hshape : Forall (fun d => (0 <= d)%Z) [Z.of_nat c])
    by (constructor; [lia|constructor]).
  destruct (Hwp key [Z.of_nat c] dtype Hshape) as [w [Ew Sw]].
  destruct (Hbp key [Z.of_nat c] dtype Hshape) as [b [Eb Sb]].
  rewrite Hw. cbn [bind]. rewrite Ew. cbn [bind].
  rewrite Hb. cbn [bind]. rewrite Eb. cbn [bind].
  cbn [map] in Sw, Sb. rewrite Nat2Z.id in Sw, Sb.
  eexists. split; [reflexivity|]. split; [reflexivity|].
  intros x sp Hx. unfold GroupNorm_call.
  cbn [GroupNorm.weight GroupNorm.bias GroupNorm.eps GroupNorm.groups].
  destruct (group_norm_groups x (Some w) (Some b) eps' c c sp Hx Hc
              (Nat.Div0.mod_same c))
    as (out & Eo & So & Go).
  - now intros w' [= <-].
  - now intros b' [= <-].
  - exists out. split; [exact Eo|]. split; [exact So|].
    intros idx Hidx. rewrite (Go idx Hidx).
    rewrite Nat.div_same by lia. now rewrite Nat.div_1_r.
Qed.
End InstanceNormTheorem.

Lemma InstanceNorm_per_channel_witness :
  ((forall v, (0 < v)%Z -> accept_positive v = Ok v)
   /\ 0 < 3
   /\ Ok 1%Z = Ok 1%Z
   /\ basic_resolve_init (InitName "ones") = Ok ones_init
   /\ produces_shape ones_init
   /\ basic_resolve_init (InitName "zeros") = Ok zeros_init
   /\ produces_shape zeros_init)
  /\ exists layer,
      InstanceNorm_init accept_positive (@Ok Z) basic_resolve_init
        (Z.of_nat 3) 0 1%Z (InitName "ones") (InitName "zeros") tt = Ok layer
      /\ GroupNorm.groups layer = Z.of_nat 3
      /\ forall (x : ndarray Z) (sp : list nat),
           shape x = 3 :: sp ->
           exists out,
             GroupNorm_call layer x = Ok out
             /\ shape out = shape x
             /\ forall idx, in_bounds idx (shape x) ->
                  get f0 out idx
                  = affine (GroupNorm.weight layer) (GroupNorm.bias layer)
                      (nth 0 idx 0)
                      (fmul (fsub (get f0 x idx)
                                  (group_mean x 1 (nth 0 idx 0)))
                            (frsqrt (fadd (group_var x 1 (nth 0 idx 0))
                                          1%Z))).
Proof.
  assert (H0 : 0 < 3) by lia.
  split.
  - split; [exact accept_positive_accepts|].
    repeat split; try reflexivity; try assumption;
      apply produces_shape_full.
  - exact (InstanceNorm_per_channel accept_positive (@Ok Z)
             basic_resolve_init accept_positive_accepts 3 0 1%Z 1%Z
             (InitName "ones") (InitName "zeros") tt ones_init zeros_init
             H0 eq_refl eq_refl (produces_shape_full 1%Z)
             eq_refl (produces_shape_full 0%Z)).
Defined.

(** ** [GeneralLinear]: the einsum string and the call *)

Lemma insert_sorted_comm (a b : Z) (l : list Z) :
  insert_sorted a (insert_sorted b l) = insert_sorted b (insert_sorted a l).
Proof.
  induction l as [|c l IH]; cbn [insert_sorted].
  - destruct (Z.leb_spec a b), (Z.leb_spec b a); try reflexivity; try lia.
    assert (a = b) by lia. now subst.
  - destruct (Z.leb_spec b c), (Z.leb_spec a c); cbn [insert_sorted].
    + destruct (Z.leb_spec a b), (Z.leb_spec b a), (Z.leb_spec a c),
        (Z.leb_spec b c); try reflexivity; try lia.
      assert (a = b) by lia. now subst.
    + destruct (Z.leb_spec a b), (Z.leb_spec b c), (Z.leb_spec a c);
        try reflexivity; lia.
    + destruct (Z.leb_spec b a), (Z.leb_spec a c), (Z.leb_spec b c);
        try reflexivity; lia.
    + destruct (Z.leb_spec a c), (Z.leb_spec b c); try lia. now rewrite IH.
Qed.

Lemma sorted_permutation (l l' : list Z) :
  Permutation l l' -> sorted l = sorted l'.
Proof.
  intros Hp. induction Hp as [|x l l' _ IH|x y l|l l' l'' _ IH1 _ IH2].
  - reflexivity.
  - cbn [sorted fold_right]. fold (sorted l) (sorted l'). now rewrite IH.
  - cbn [sorted fold_right]. apply insert_sorted_comm.
  - congruence.
Qed.

Lemma forallb_permutation {A : Type} (f : A -> bool) (l l' : list A) :
  Permutation l l' -> forallb f l = forallb f l'.
Proof.
  intros Hp. induction Hp as [|x l l' _ IH|x y l|l l' l'' _ IH1 _ IH2].
  - reflexivity.
  - cbn [forallb]. now rewrite IH.
  - cbn [forallb]. destruct (f x), (f y); reflexivity.
  - congruence.
Qed.

Lemma insert_sorted_perm (a : Z) (l : list Z) :
  Permutation (insert_sorted a l) (a :: l).
Proof.
  induction l as [|b l IH]; cbn [insert_sorted]; [reflexivity|].
  destruct (a <=? b)%Z; [reflexivity|].
  rewrite IH. apply perm_swap.
Qed.

Lemma sorted_perm (l : list Z) : Permutation (sorted l) l.
Proof.
  induction l as [|a l IH]; [reflexivity|].
  cbn [sorted fold_right]. fold (sorted l).
  rewrite insert_sorted_perm. now constructor.
Qed.

(** X26.  [GeneralLinear] reads its axes in sorted order: the einsum
    string, and with it the result of a call, is the same for every
    ordering of [in_axes]; the axes of the weight are paired with the
    sorted axes of the input, not with the axes in the order given. *)
Theorem GeneralLinear_axes_order {F : Type} `{Scalar F}
    (self self' : GeneralLinear.t (F := F)) (x : ndarray F) :
  Permutation (GeneralLinear.in_axes self) (GeneralLinear.in_axes self') ->
  GeneralLinear.weight self = GeneralLinear.weight self' ->
  GeneralLinear_call self x = GeneralLinear_call self' x.
Proof.
  intros Hp Hw. unfold GeneralLinear_call. rewrite <- Hw.
  set (norm := fun i : Z => if (i <? 0)%Z then i
                            else (i - Z.of_nat (ndim x))%Z).
  assert (Hp' : Permutation (map norm (GeneralLinear.in_axes self))
                  (map norm (GeneralLinear.in_axes self')))
    by (now apply Permutation_map).
  unfold _general_linear_einsum_string.
  rewrite (forallb_permutation _ _ _ Hp'), (sorted_permutation _ _ Hp').
  reflexivity.
Qed.

Lemma GeneralLinear_axes_order_witness :
  (Permutation (GeneralLinear.in_axes (example_general_linear [-1; -2]%Z))
               (GeneralLinear.in_axes (example_general_linear [-2; -1]%Z))
   /\ GeneralLinear.weight (example_general_linear [-1; -2]%Z)
      = GeneralLinear.weight (example_general_linear [-2; -1]%Z))
  /\ GeneralLinear_call (example_general_linear [-1; -2]%Z) example_batch
     = GeneralLinear_call (example_general_linear [-2; -1]%Z) example_batch.
Proof.
  assert (Hp : Permutation
                 (GeneralLinear.in_axes (example_general_linear [-1; -2]%Z))
                 (GeneralLinear.in_axes (example_general_linear [-2; -1]%Z)))
    by apply perm_swap.
  split; [split; [exact Hp|reflexivity]|].
  exact (GeneralLinear_axes_order (example_general_linear [-1; -2]%Z)
           (example_general_linear [-2; -1]%Z) example_batch Hp eq_refl).
Defined.

Lemma forallb_negative (axes : list Z) :
  forallb (fun i => (i <? 0)%Z) axes = true
  <-> Forall (fun i => (i < 0)%Z) axes.
Proof.
  rewrite forallb_forall, Forall_forall.
  split; intros Hf i Hi; specialize (Hf i Hi);
    [now apply Z.ltb_lt|now apply Z.ltb_lt].
Qed.

Lemma fold_left_min (l : list Z) (a : Z) :
  (In (fold_left Z.min l a) (a :: l))
  /\ Forall (fun i => (fold_left Z.min l a <= i)%Z) (a :: l).
Proof.
  revert a. induction l as [|b l IH]; intros a; cbn [fold_left].
  - split; [now left|]. constructor; [lia|constructor].
  - destruct (IH (Z.min a b)) as [Hin Hle]. split.
    + destruct Hin as [E|Hin]; [|right; now right].
      rewrite <- E. destruct (Z.min_spec a b) as [[_ ->]|[_ ->]];
        [now left|right; now left].
    + inversion Hle as [|m l' Hm Hl]; subst.
      constructor; [lia|]. constructor; [lia|exact Hl].
Qed.

Lemma py_min_sorted (axes : list Z) :
  axes <> [] ->
  exists m, py_min (sorted axes) = Ok m /\ In m axes
            /\ Forall (fun i => (m <= i)%Z) axes.
Proof.
  intros Hne. pose proof (sorted_perm axes) as Hp.
  destruct (sorted axes) as [|a l] eqn:Es.
  - apply Permutation_nil in Hp. congruence.
  - cbn [py_min]. destruct (fold_left_min l a) as [Hin Hle].
    eexists. split; [reflexivity|]. split.
    + exact (Permutation_in _ Hp Hin).
    + exact (Permutation_Forall Hp Hle).
Qed.

Lemma length_substring (n : nat) (s : string) :
  String.length (substring 0 n s) = Nat.min n (String.length s).
Proof.
  revert n. induction s as [|c s IH]; intros [|n]; try reflexivity.
  cbn [substring String.length Nat.min]. now rewrite IH.
Qed.

Lemma length_list_of_string (s : string) :
  length (list_ascii_of_string s) = String.length s.
Proof.
  induction s as [|c s IH]; [reflexivity|].
  cbn [list_ascii_of_string length String.length]. now rewrite IH.
Qed.

Lemma string_length_app (s t : string) :
  String.length (s ++ t) = String.length s + String.length t.
Proof.
  induction s as [|c s IH]; [reflexivity|].
  cbn [String.append String.length]. now rewrite IH.
Qed.

Lemma get_item_some {A : Type} (l : list A) (i : Z) (k : nat) :
  py_index (length l) i = Some k -> exists v, get_item l i = Ok v.
Proof.
  intros Hp. unfold get_item. rewrite Hp.
  pose proof (py_index_lt _ _ Hp) as Hk.
  destruct (nth_error l k) eqn:E; [eauto|].
  apply nth_error_None in E. lia.
Qed.

Lemma get_item_error {A : Type} (l : list A) (i : Z) (e : exn) :
  get_item l i = Raise e -> e = IndexError.
Proof.
  unfold get_item.
  destruct (py_index (length l) i) as [k|]; [|now intros [= <-]].
  destruct (nth_error l k); [discriminate|now intros [= <-]].
Qed.

Lemma get_item_none {A : Type} (l : list A) (i : Z) :
  py_index (length l) i = None -> get_item l i = Raise IndexError.
Proof. intros Hp. unfold get_item. now rewrite Hp. Qed.

Lemma mapM_error {A B : Type} (f : A -> result B) (l : list A) (e e0 : exn) :
  (forall a e', f a = Raise e' -> e' = e0) ->
  mapM f l = Raise e -> e = e0.
Proof.
  intros Hf. induction l as [|a l IH]; [discriminate|].
  cbn [mapM]. destruct (f a) as [b|e'] eqn:Ea; cbn [bind].
  - change ((fix go (l0 : list A) : result (list B) :=
               match l0 with
               | [] => Ok []
               | a0 :: l'0 => b0 <- f a0 ;; l'' <- go l'0 ;; Ok (b0 :: l'')
               end) l) with (mapM f l).
    destruct (mapM f l) as [l'|e'']; cbn [bind]; [discriminate|].
    intros [= <-]. now apply IH.
  - intros [= <-]. now apply Hf in Ea.
Qed.

Lemma py_index_negative (n : nat) (i : Z) :
  (- Z.of_nat n <= i < 0)%Z -> py_index n i = Some (Z.to_nat (i + Z.of_nat n)).
Proof.
  intros Hi. unfold py_index.
  destruct (Z.ltb_spec i 0); [|lia].
  replace (0 <=? i + Z.of_nat n)%Z with true by (symmetry; apply Z.leb_le; lia).
  replace (i + Z.of_nat n <? Z.of_nat n)%Z with true
    by (symmetry; apply Z.ltb_lt; lia).
  reflexivity.
Qed.

Lemma py_index_too_large (n : nat) (i : Z) :
  (Z.of_nat n <= i)%Z -> py_index n i = None.
Proof.
  intros Hi. unfold py_index.
  destruct (Z.ltb_spec i 0); [lia|].
  replace (i <? Z.of_nat n)%Z with false by (symmetry; apply Z.ltb_ge; lia).
  now rewrite andb_false_r.
Qed.

(** When the einsum string of [GeneralLinear] is refused, and when not. *)
Lemma general_string_value_error (axes : list Z) :
  axes = [] \/ Exists (fun i => (0 <= i)%Z) axes ->
  _general_linear_einsum_string axes = Raise ValueError.
Proof.
  intros [->|Hex]; [reflexivity|]. unfold _general_linear_einsum_string.
  destruct (forallb (fun i => (i <? 0)%Z) axes) eqn:Hf; [|reflexivity].
  apply forallb_negative in Hf. rewrite Forall_forall in Hf.
  apply Exists_exists in Hex. destruct Hex as [i [Hin Hi]].
  specialize (Hf i Hin). lia.
Qed.

Lemma general_string_index_error (axes : list Z) :
  axes <> [] -> Forall (fun i => (i < 0)%Z) axes ->
  Exists (fun i => (i <= -52)%Z) axes ->
  _general_linear_einsum_string axes = Raise IndexError.
Proof.
  intros Hne Hneg Hex. unfold _general_linear_einsum_string.
  rewrite (proj2 (forallb_negative axes) Hneg). cbn [negb].
  destruct (py_min_sorted axes Hne) as (m & Em & Hin & Hle).
  rewrite Em. cbn [bind].
  assert (Hm : (m <= -52)%Z).
  { apply Exists_exists in Hex. destruct Hex as [i [Hi Hi52]].
    rewrite Forall_forall in Hle. specialize (Hle i Hi). lia. }
  assert (Hlast : str_item alpha (Z.abs m) = Raise IndexError).
  { unfold str_item. apply get_item_none. apply py_index_too_large.
    rewrite length_list_of_string. change (String.length alpha) with 52.
    lia. }
  destruct (mapM _ (sorted axes)) as [picked|e] eqn:Ep; cbn [bind].
  - now rewrite Hlast.
  - f_equal. apply (mapM_error _ _ _ _ (fun a e' => @get_item_error _ _ a e') Ep).
Qed.

Lemma general_string_returns (axes : list Z) :
  axes <> [] -> Forall (fun i => (-52 < i < 0)%Z) axes ->
  returns (_general_linear_einsum_string axes).
Proof.
  intros Hne Hrange. unfold _general_linear_einsum_string, returns.
  assert (Hneg : Forall (fun i => (i < 0)%Z) axes).
  { eapply Forall_impl; [|exact Hrange]. cbn. intros i Hi. lia. }
  rewrite (proj2 (forallb_negative axes) Hneg). cbn [negb].
  destruct (py_min_sorted axes Hne) as (m & Em & Hin & Hle).
  rewrite Em. cbn [bind].
  assert (Hm : (-52 < m < 0)%Z)
    by (rewrite Forall_forall in Hrange; exact (Hrange m Hin)).
  set (n := Z.to_nat (Z.abs m)).
  assert (Hn : 1 <= n <= 51) by (unfold n; lia).
  assert (Hlen : length (list_ascii_of_string
                           ("..." ++ substring 0 n alpha)%string) = 3 + n).
  { rewrite length_list_of_string, string_length_app, length_substring.
    change (String.length alpha) with 52. cbn [String.length]. lia. }
  destruct (mapM_Forall2
              (fun axis => str_item ("..." ++ substring 0 n alpha)%string axis)
              (fun _ _ => True) (sorted axes)) as [picked [Ep _]].
  { apply Forall_forall. intros i Hi.
    apply (Permutation_in _ (sorted_perm axes)) in Hi.
    rewrite Forall_forall in Hrange, Hle.
    specialize (Hrange i Hi). specialize (Hle i Hi).
    destruct (get_item_some
                (list_ascii_of_string ("..." ++ substring 0 n alpha)%string)
                i (Z.to_nat (i + Z.of_nat (3 + n)))) as [v Ev].
    - rewrite Hlen. apply py_index_negative. unfold n. lia.
    - exists v. split; [exact Ev|exact I]. }
  rewrite Ep. cbn [bind].
  destruct (get_item_some (list_ascii_of_string alpha) (Z.abs m) n) as [c Ec].
  { rewrite length_list_of_string. change (String.length alpha) with 52.
    replace (Z.abs m) with (Z.of_nat n) by (unfold n; lia).
    apply py_index_of_nat. lia. }
  unfold str_item at 1 2. rewrite Ec. cbn [bind].
  eexists. reflexivity.
Qed.

(** X27.  The einsum string of [GeneralLinear] is refused with
    [ValueError] when there is no axis or an axis is not negative, and
    with [IndexError] when the axes are negative and one names more than
    51 axes; for a non-empty list of axes between [-51] and [-1] a string
    is returned. *)
Theorem general_linear_einsum_string_errors (axes : list Z) :
  (axes = [] \/ Exists (fun i => (0 <= i)%Z) axes ->
   _general_linear_einsum_string axes = Raise ValueError)
  /\ (axes <> [] -> Forall (fun i => (i < 0)%Z) axes ->
      Exists (fun i => (i <= -52)%Z) axes ->
      _general_linear_einsum_string axes = Raise IndexError)
  /\ (axes <> [] -> Forall (fun i => (-52 < i < 0)%Z) axes ->
      returns (_general_linear_einsum_string axes)).
Proof.
  split; [exact (general_string_value_error axes)|].
  split; [exact (general_string_index_error axes)|].
  exact (general_string_returns axes).
Qed.

Lemma general_linear_einsum_string_errors_witness :
  _general_linear_einsum_string [0%Z] = Raise ValueError
  /\ _general_linear_einsum_string [(-52)%Z] = Raise IndexError
  /\ returns (_general_linear_einsum_string [-2; -1]%Z).
Proof.
  split; [|split].
  - apply (proj1 (general_linear_einsum_string_errors [0%Z])).
    right. apply Exists_cons_hd. lia.
  - apply (proj1 (proj2 (general_linear_einsum_string_errors [(-52)%Z]))).
    + discriminate.
    + constructor; [lia|constructor].
    + apply Exists_cons_hd. lia.
  - apply (proj2 (proj2 (general_linear_einsum_string_errors [-2; -1]%Z))).
    + discriminate.
    + constructor; [lia|]. constructor; [lia|constructor].
Defined.

Section GeneralLinearCall.
Context {F : Type} `{Scalar F}.

(** X28.  A call of [GeneralLinear] raises [ValueError] when the layer
    has no axes, and when one of its axes is not an axis of the input
    ([in_axes[k] >= x.ndim]): such an axis stays non-negative when the
    axes are made negative. *)
Theorem GeneralLinear_call_axis_error (self : GeneralLinear.t (F := F))
    (x : ndarray F) :
  GeneralLinear.in_axes self = []
  \/ Exists (fun i => (Z.of_nat (ndim x) <= i)%Z) (GeneralLinear.in_axes self) ->
  GeneralLinear_call self x = Raise ValueError.
Proof.
  intros Hax. unfold GeneralLinear_call.
  rewrite general_string_value_error; [reflexivity|].
  destruct Hax as [->|Hex]; [now left|right].
  apply Exists_exists in Hex. destruct Hex as [i [Hin Hi]].
  apply Exists_exists.
  exists (if (i <? 0)%Z then i else (i - Z.of_nat (ndim x))%Z). split.
  - apply in_map_iff. now exists i.
  - destruct (Z.ltb_spec i 0); lia.
Qed.

(** X29.  On the last axis, [GeneralLinear] computes what [Multilinear]
    of degree one computes without its bias, whatever the bias of the
    [GeneralLinear] is: the call does not add it. *)
Theorem GeneralLinear_last_axis (self : GeneralLinear.t (F := F))
    (lin : Multilinear.t (F := F)) (x w : ndarray F) :
  GeneralLinear.weight self = Some w ->
  GeneralLinear.in_axes self = [(-1)%Z]
  \/ (1 <= ndim x
      /\ GeneralLinear.in_axes self = [(Z.of_nat (ndim x) - 1)%Z]) ->
  Multilinear.weight lin = w -> Multilinear.bias lin = None ->
  length (Multilinear.in_features lin) = 1 ->
  GeneralLinear_call self x = Multilinear.call lin [x].
Proof.
  intros Hw Hax Hlw Hlb Hlen. unfold GeneralLinear_call, Multilinear.call.
  rewrite Hw, Hlw, Hlb, Hlen.
  assert (Haxes : map (fun i => if (i <? 0)%Z then i
                                else (i - Z.of_nat (ndim x))%Z)
                      (GeneralLinear.in_axes self) = [(-1)%Z]).
  { destruct Hax as [->|[Hnd ->]]; [reflexivity|]. cbn [map].
    destruct (Z.ltb_spec (Z.of_nat (ndim x) - 1) 0); [lia|].
    f_equal. lia. }
  rewrite Haxes.
  change (_general_linear_einsum_string [(-1)%Z])
    with (Ok "...a,ab->...b"%string : result string).
  change (_multilinear_einsum_string (Z.of_nat 1))
    with (Ok "...a,ab->...b"%string : result string).
  cbn [bind app]. now destruct (Jnp.einsum _ _).
Qed.
End GeneralLinearCall.

Lemma GeneralLinear_call_axis_error_witness :
  (GeneralLinear.in_axes (example_general_linear [0; 2]%Z) = []
   \/ Exists (fun i => (Z.of_nat (ndim example_batch) <= i)%Z)
             (GeneralLinear.in_axes (example_general_linear [0; 2]%Z)))
  /\ GeneralLinear_call (example_general_linear [0; 2]%Z) example_batch
     = Raise ValueError.
Proof.
  assert (He : GeneralLinear.in_axes (example_general_linear [0; 2]%Z) = []
               \/ Exists (fun i => (Z.of_nat (ndim example_batch) <= i)%Z)
                    (GeneralLinear.in_axes (example_general_linear [0; 2]%Z))).
  { right. apply Exists_cons_tl. apply Exists_cons_hd. cbn. lia. }
  split; [exact He|].
  exact (GeneralLinear_call_axis_error (example_general_linear [0; 2]%Z)
           example_batch He).
Defined.

Lemma GeneralLinear_last_axis_witness :
  (GeneralLinear.weight example_last_axis = Some example_weight
   /\ (GeneralLinear.in_axes example_last_axis = [(-1)%Z]
       \/ (1 <= ndim example_batch
           /\ GeneralLinear.in_axes example_last_axis
              = [(Z.of_nat (ndim example_batch) - 1)%Z]))
   /\ Multilinear.weight example_linear = example_weight
   /\ Multilinear.bias example_linear = None
   /\ length (Multilinear.in_features example_linear) = 1)
  /\ GeneralLinear_call example_last_axis example_batch
     = Multilinear.call example_linear [example_batch].
Proof.
  split.
  - split; [reflexivity|]. split; [now left|]. repeat split; reflexivity.
  - exact (GeneralLinear_last_axis example_last_axis example_linear
             example_batch example_weight eq_refl (or_introl eq_refl)
             eq_refl eq_refl eq_refl).
Defined.
(** ** [random_zoom_along_axis] keeps the shape *)

Lemma firstn_nth_skipn {A : Type} (l : list A) (k : nat) (d : A) :
  k < length l -> firstn k l ++ nth k l d :: skipn (S k) l = l.
Proof.
  revert k. induction l as [|a l IH]; intros [|k] Hk; simpl in Hk; try lia.
  - reflexivity.
  - cbn [firstn nth skipn app]. f_equal. apply IH. lia.
Qed.

Lemma in_firstn {A : Type} (l : list A) (k : nat) (d : A) :
  In d (firstn k l) -> In d l.
Proof.
  intros Hd. rewrite <- (firstn_skipn k l). apply in_or_app. now left.
Qed.

Lemma in_skipn {A : Type} (l : list A) (k : nat) (d : A) :
  In d (skipn k l) -> In d l.
Proof.
  intros Hd. rewrite <- (firstn_skipn k l). apply in_or_app. now right.
Qed.

Lemma Forall2_of_nat (l : list nat) :
  Forall2 (fun sz d => (0 <= sz <= Z.of_nat d)%Z) (map Z.of_nat l) l.
Proof. induction l as [|a l IH]; constructor; [lia|exact IH]. Qed.

Lemma padded_shape_zero (l : list nat) :
  Jnp.padded_shape l (repeat (0, 0)%Z (length l)) = l.
Proof.
  induction l as [|a l IH]; [reflexivity|].
  cbn [length repeat]. unfold Jnp.padded_shape in *. cbn [zip_with].
  rewrite IH. f_equal. cbn. lia.
Qed.

Lemma nonneg_pairs_zero (n : nat) :
  Jnp.nonneg_pairs (repeat (0, 0)%Z n) = true.
Proof. induction n as [|n IH]; [reflexivity|exact IH]. Qed.

Section RandomZoomTheorem.
Context {F Key : Type} `{Scalar F}.
Variable resize : ndarray F -> list Z -> string -> result (ndarray F).
Variable sampler : Sampler F Key.
Hypothesis resize_shape :
  forall a shp method,
    length shp = ndim a -> Forall (fun d => (0 <= d)%Z) shp ->
    exists y, resize a shp method = Ok y /\ shape y = map Z.to_nat shp.

(** The array [jax.image.resize] returns for [x] with axis [k] set to
    the length [r]. *)
Lemma resized (x : ndarray F) (axis : Z) (k : nat) (r : Z) :
  py_index (ndim x) axis = Some k -> (0 <= r)%Z ->
  exists y,
    (resized_shape <- set_item (map Z.of_nat (shape x)) axis r ;;
     resize x resized_shape "linear") = Ok y
    /\ shape y = firstn k (shape x) ++ Z.to_nat r :: skipn (S k) (shape x).
Proof.
  intros Hk Hr. pose proof (py_index_lt _ _ Hk) as Hlt. unfold ndim in *.
  unfold set_item. rewrite length_map, Hk. cbn [bind].
  destruct (resize_shape x
              (firstn k (map Z.of_nat (shape x)) ++ r
                 :: skipn (S k) (map Z.of_nat (shape x))) "linear")
    as [y [Ey Hy]].
  - rewrite length_app, length_firstn. cbn [length].
    rewrite length_skipn, length_map. unfold ndim. lia.
  - apply Forall_app. split; [|constructor; [exact Hr|]].
    + apply Forall_forall. intros d Hd. apply in_firstn in Hd.
      apply in_map_iff in Hd. destruct Hd as [n [<- _]]. lia.
    + apply Forall_forall. intros d Hd.
      apply in_skipn in Hd.
      apply in_map_iff in Hd. destruct Hd as [n [<- _]]. lia.
  - exists y. split; [exact Ey|]. rewrite Hy.
    rewrite map_app. cbn [map].
    rewrite firstn_map, skipn_map, !map_to_nat_of_nat. reflexivity.
Qed.

(** X30.  [random_zoom_along_axis] returns an array of the shape of its
    input: when [jax.image.resize] returns an array of the requested
    shape and the resized length [int(axis_size * (1 + factor))] is not
    negative, not above [axis_size] for a negative factor (the resized
    array is padded) and not below it otherwise (the resized array is
    cropped), the call returns, and the result has the shape of [x]. *)
Theorem random_zoom_along_axis_shape (key : Key) (x : ndarray F) (factor : F)
    (axis : Z) (k : nat) :
  py_index (ndim x) axis = Some k ->
  (0 <= resized_axis_size (nth k (shape x) 0%nat) factor)%Z ->
  (if fltb factor f0
   then (resized_axis_size (nth k (shape x) 0%nat) factor
         <= Z.of_nat (nth k (shape x) 0%nat))%Z
   else (Z.of_nat (nth k (shape x) 0%nat)
         <= resized_axis_size (nth k (shape x) 0%nat) factor)%Z) ->
  exists y,
    random_zoom_along_axis resize sampler key x factor axis = Ok y
    /\ shape y = shape x.
Proof.
  intros Hk Hr Hcmp. unfold random_zoom_along_axis.
  destruct (feqb factor f0); [now exists x|].
  pose proof (py_index_lt _ _ Hk) as Hlt.
  rewrite (@get_item_at nat (shape x) axis k 0 Hk). cbn [bind].
  fold (resized_axis_size (nth k (shape x) 0) factor).
  set (a := nth k (shape x) 0) in *.
  set (r := resized_axis_size a factor) in *.
  destruct (resized x axis k r Hk Hr) as [z [Ez Hz]].
  assert (Hnd : ndim z = ndim x).
  { unfold ndim. rewrite Hz, length_app, length_firstn. cbn [length].
    rewrite length_skipn. unfold ndim in Hlt. lia. }
  destruct (fltb factor f0).
  - (* zoom out: the resized array is padded *)
    destruct (set_item (map Z.of_nat (shape x)) axis r) as [rs|e] eqn:Es;
      cbn [bind] in Ez |- *; [|discriminate].
    rewrite Ez. cbn [bind].
    rewrite (set_item_repeat (0, 0)%Z _ (ndim z) axis (a := k))
      by (now rewrite Hnd).
    cbn [bind]. unfold Jnp.pad, Jnp.broadcast_to_pairs.
    set (left := ((Z.of_nat a - r) / 2)%Z).
    set (right := (Z.of_nat a - r - left)%Z).
    assert (Hleft : (0 <= left <= Z.of_nat a - r)%Z).
    { unfold left. pose proof (Z.div_mod (Z.of_nat a - r) 2 ltac:(lia)).
      pose proof (Z.mod_pos_bound (Z.of_nat a - r) 2 ltac:(lia)). lia. }
    rewrite length_app, repeat_length. cbn [length]. rewrite repeat_length.
    replace (k + S (ndim z - S k) =? ndim z) with true
      by (symmetry; apply Nat.eqb_eq; unfold ndim in *; lia).
    cbn [bind].
    assert (Hnn : Jnp.nonneg_pairs
                    (repeat (0, 0)%Z k ++ (left, right)
                       :: repeat (0, 0)%Z (ndim z - S k)) = true).
    { unfold Jnp.nonneg_pairs. rewrite forallb_app. cbn [forallb].
      fold (Jnp.nonneg_pairs (repeat (0, 0)%Z k)).
      fold (Jnp.nonneg_pairs (repeat (0, 0)%Z (ndim z - S k))).
      rewrite !nonneg_pairs_zero. cbn [andb]. rewrite andb_true_r.
      apply andb_true_iff. split; apply Z.leb_le; unfold right; lia. }
    rewrite Hnn. cbn [negb]. eexists. split; [reflexivity|].
    cbn [shape tabulate]. rewrite Hz. unfold Jnp.padded_shape.
    rewrite zip_with_app
      by (rewrite length_firstn, repeat_length; unfold ndim in Hlt; lia).
    cbn [zip_with].
    replace k with (length (firstn k (shape x))) at 2
      by (rewrite length_firstn; unfold ndim in Hlt; lia).
    replace (ndim z - S k) with (length (skipn (S k) (shape x)))
      by (rewrite length_skipn, Hnd; reflexivity).
    fold (Jnp.padded_shape (firstn k (shape x))
            (repeat (0, 0)%Z (length (firstn k (shape x))))).
    fold (Jnp.padded_shape (skipn (S k) (shape x))
            (repeat (0, 0)%Z (length (skipn (S k) (shape x))))).
    rewrite !padded_shape_zero.
    replace (Z.to_nat left + Z.to_nat r + Z.to_nat right) with a
      by (unfold right; lia).
    apply firstn_nth_skipn. exact Hlt.
  - (* zoom in: the resized array is cropped *)
    destruct (set_item (map Z.of_nat (shape x)) axis r) as [rs|e] eqn:Es;
      cbn [bind] in Ez |- *; [|discriminate].
    rewrite Ez. cbn [bind]. unfold random_crop_nd.
    destruct (random_starts sampler z (map Z.of_nat (shape x)) key)
      as [starts [Est Hst]].
    { rewrite length_map. fold (ndim x). lia. }
    rewrite Est. cbn [bind].
    rewrite dynamic_slice_window.
    + eexists. split; [reflexivity|].
      cbn [shape tabulate]. apply map_to_nat_of_nat.
    + rewrite Hz.
      rewrite <- (firstn_nth_skipn (shape x) k 0 Hlt) at 1.
      rewrite map_app. cbn [map].
      apply Forall2_app; [apply Forall2_of_nat|].
      constructor; [fold a; lia|apply Forall2_of_nat].
    + rewrite Hst, length_map. fold (ndim x). lia.
Qed.
End RandomZoomTheorem.

Lemma nearest_resize_shape (a : ndarray Z) (shp : list Z) (method : string) :
  length shp = ndim a -> Forall (fun d => (0 <= d)%Z) shp ->
  exists y, nearest_resize a shp method = Ok y /\ shape y = map Z.to_nat shp.
Proof. intros _ _. eexists. split; reflexivity. Qed.

Lemma random_zoom_along_axis_shape_witness :
  ((forall a shp method,
       length shp = ndim a -> Forall (fun d => (0 <= d)%Z) shp ->
       exists y, nearest_resize a shp method = Ok y
                 /\ shape y = map Z.to_nat shp)
   /\ py_index (ndim example_image) 1 = Some 1
   /\ (0 <= resized_axis_size (nth 1 (shape example_image) 0%nat) 1%Z)%Z
   /\ (if fltb 1%Z f0
       then (resized_axis_size (nth 1 (shape example_image) 0%nat) 1%Z
             <= Z.of_nat (nth 1 (shape example_image) 0%nat))%Z
       else (Z.of_nat (nth 1 (shape example_image) 0%nat)
             <= resized_axis_size (nth 1 (shape example_image) 0%nat) 1%Z)%Z))
  /\ exists y,
      random_zoom_along_axis nearest_resize example_sampler 3 example_image
        1%Z 1 = Ok y
      /\ shape y = shape example_image.
Proof.
  assert (Hr : (0 <= resized_axis_size (nth 1 (shape example_image) 0%nat) 1%Z)%Z)
    by (cbn; lia).
  assert (Hc : if fltb 1%Z f0
               then (resized_axis_size (nth 1 (shape example_image) 0%nat) 1%Z
                     <= Z.of_nat (nth 1 (shape example_image) 0%nat))%Z
               else (Z.of_nat (nth 1 (shape example_image) 0%nat)
                     <= resized_axis_size (nth 1 (shape example_image) 0%nat)
                          1%Z)%Z)
    by (cbn; lia).
  split.
  - split; [exact nearest_resize_shape|].
    split; [reflexivity|]. split; [exact Hr|exact Hc].
  - exact (random_zoom_along_axis_shape nearest_resize example_sampler
             nearest_resize_shape 3 example_image 1%Z 1 1 eq_refl Hr Hc).
Defined.

(** ** The examples of the docstring of [_general_linear_einsum_string] *)

Example general_linear_einsum_string_docstring :
  _general_linear_einsum_string [(-1)%Z] = Ok "...a,ab->...b"%string
  /\ _general_linear_einsum_string [-1; -2]%Z = Ok "...ab,abc->...c"%string
  /\ _general_linear_einsum_string [(-2)%Z] = Ok "...ab,ac->...bc"%string
  /\ _general_linear_einsum_string [-1; -3]%Z = Ok "...abc,acd->...bd"%string.
Proof. repeat split; vm_compute; reflexivity. Qed.
